(* ===== verification/_CoqProject ===== *)
-Q . S2P
Prelude.v
Control.v
Heap.v
ListLib.v
ListOps.v
ListAccess.v
ListSpec.v
ListSort.v
QueueLib.v
QueueSpec.v
CQueueLib.v
CStr.v
HashLib.v
HashSpec.v
TrimLib.v
MessageLib.v
MessageSpec.v
Logger.v
Tls.v
Transport.v
ServerIO.v
ServerSys.v
ServerInv.v
ServerProps.v
ServerDelivery.v
IniLib.v
IniSpec.v
ServerSettings.v
SettingsSpec.v
ServerSetup.v
FsUtil.v
ServerCommands.v
ClientSettings.v
ClientStores.v
ChatLog.v
ChatSpec.v
InputWindow.v
InputSpec.v
InputLines.v
InputEdit.v
ClientLib.v
ClientSpec.v
NcColor.v
StatusBar.v
AppLib.v
AppSpec.v
Session.v
UiLoop.v
Layout.v
UiSpec.v
Typing.v
AppStart.v
