(* ===== verification/Prelude.v ===== *)
(** * C2Hat: a verification development

    C2Hat is a chat over TLS: a server, a terminal client and the libraries
    they share, all in C.  This library models them as executable functions,
    in the style of the sources: a C function is a Rocq definition of the same
    name; a function that changes state is a command [cmd S A], which passes
    the state [S] on and gets [Stuck] at the first undefined behaviour (a read
    or write outside an array, a [NULL] or freed pointer, an overflow of
    [int], a wrong format); library and system calls are arguments that say
    what they answered, or parameters with what their documentation promises
    as hypotheses.  A theorem that says [Done] therefore says that the code
    returns and is free of such faults.  Paths are relative to src/.

    ** Parts

    Libraries.
    - Control: commands that [exit] may end, and two logics for stepping
      through commands: [wp] (returns, with ...) and [wlp] (the same, unless it
      is stuck with a fault that is accounted for).
    - Heap: allocation, with addresses that are never used again and a number
      of allocations that still succeed.
    - ListLib, ListOps, ListAccess, ListSpec, ListSort: lib/list, the doubly
      linked list with its cursor, down to the pointers; refinement to a
      sequence with a cursor; sorting.
    - QueueLib, QueueSpec: lib/queue; refinement to a first-in first-out
      sequence.
    - CQueueLib: lib/cqueue, threads over a mutex and a condition variable,
      for any queue that implements the class [FifoQueue] (instance: lib/queue);
      the calls of that queue are not atomic, and the history of what is called
      and returned is linearizable because of the lock.
    - HashLib, HashSpec: lib/hash; refinement to a finite map, up to the
      destruction of the table.
    - CStr, TrimLib: the string functions of C on arrays; lib/trim, lib/wtrim.
    - MessageLib, MessageSpec: lib/message, the protocol on its fixed arrays.
    - IniLib, IniSpec: lib/ini, the parser of configuration files, as the
      Makefile builds it ([INI_ALLOW_MULTILINE] 0).
    - FsUtil: [TouchDir] and the kinds of files of lib/fsutil.
    - NcColor: lib/nccolor, colours in binary64 arithmetic.
    - Logger: lib/logger, its levels, lines and macros; [Fatal] ends the
      process.
    - Tls: the contexts of the TLS library, as the calls made on them.

    Server.
    - Transport: the loops around [SSL_write] and [SSL_read] of
      server/server.c and client/client.c.
    - ServerIO: what the server does with one client: building messages,
      lib/validate, the messages of one read.
    - ServerSys: the main thread, the threads of the clients and the broadcast
      thread of server/server.c as program counters over the shared list,
      queue and flag; [step] is executable, a label is the choice of the
      scheduler and of the system.  ServerInv gives the effect of each step,
      ServerProps the invariants, ServerDelivery what becomes of one message
      in any schedule in which no send fails and no user leaves.
    - ServerSettings, SettingsSpec: server/settings.c, the settings and the
      handler that lib/ini calls.
    - ServerSetup: [Server_init] from the settings to the listening socket,
      [Server_free], [Server_catch], and lib/socket.
    - ServerCommands: server/commands.c, pid.c, main.c, lib/config and
      lib/encrypt: start, stop and status over shared memory objects and PID
      files.

    Client.
    - ClientSettings: client/settings.c.
    - ClientLib, ClientSpec: client/client.c, the connection.
    - ClientStores: the classes [Sequence] and [Table] for the containers of
      the chat window, and their instances by lib/list and lib/hash.
    - ChatLog, ChatSpec: client/uichat.c and uilog.c, against those classes;
      [view] is what can be seen of the scrolling window, for any way in which
      ncurses breaks texts into rows ([Printing] is one).
    - InputWindow, InputSpec: client/uiinput.c, against the class [Window] for
      the windows of ncurses (with an executable instance in InputSpec); InputLines,
      InputEdit: the line editor over several lines (class [Wrapping]).
    - StatusBar: client/uistatus.c, uicolor.c and the status macros of ui.c.
    - AppLib, AppSpec: client/app.c, its two threads and the sending of lines.
    - UiLoop, UiSpec: [UIInputLoop] of client/ui.c, which joins the input
      window, the chat window and the application; client/uiterm.c.
    - Layout: the places of the windows and of the title on the screen.
    - Typing: the loop of [App_run] over the input loop and the connection in
      one state; from the keys to the wire, the server and every screen.
    - AppStart: the process, client/main.c and the rest of app.c and ui.c: from
      [main] over [App_init], [UIInit] and [App_start] to [App_cleanup], with
      its signal handler; the session is a list of input, answers of [select]
      and signals, in any order, and [pthread_join] waits for the listening
      thread.

    Both.
    - Session: the client and the server thread that serves it, joined by the
      bytes they exchange; a line from its author's client to every screen.

    ** What the theorems show

    - Containers: any program of operations returns what the specification
      returns ([List_program_refines], [Queue_program_refines],
      [Hash_program_refines]), the concurrent queue is linearizable under any
      interleaving ([CQueue_linearizable]), and sorting is right.
    - Protocol: what is formatted is parsed back, alone and end to end over
      the transport ([C2HMessage_stream_roundtrip],
      [send_receive_roundtrip]); formatting stays in its buffer.
    - Server: bounds on the clients, the order of broadcasts, who gets them
      (ServerDelivery), when nicknames are unique, up to the 59 bytes kept of
      them, what one failed send does, and the schedules that break these.
    - Client: what arrives is logged, in order ([messages_reach_the_log]);
      what is typed, over any number of lines, is what a line editor makes of
      the keys ([edited_message_is_read]); the input loop is that line editor
      and a chat log that do not disturb each other ([typed_text_is_returned])
      and it ends when told to; a whole conversation is sent as it is typed
      ([conversation_is_sent]); the log keeps its last hundred lines, each of
      which can be brought into view when the rest of its page fits the window
      ([every_line_reachable]); what a reported connection has checked.
    - Screen: the windows tile an accepted terminal ([layout_tiles]), the
      colours are converted exactly and set up without a gap
      ([colours_convert], [colours_set_up]), and what the status bar shows.
    - Sessions: the opening dialogue, on both sides ([session_opens]), a line
      of the chat from the keys of its author through client, server and
      broadcast to all clients ([keys_reach_everyone]), and one that ends the
      server ([percent_line_faults]).
    - Starting and ending: the server listens with a checked certificate or
      exits ([Server_init_listens_or_exits]); a client verifies the server
      ([Client_create_verifies]); the client process leaves nothing behind,
      but for the interface when it crashes while drawing, and ends, unless
      its session does not ([process_leaves_nothing]); what is logged and what the status bar shows
      ([calls_are_logged], [status_bar_shows_last]).
    - Configuration: the parser ends within its buffers on every file, and
      reads back what is printed; the options of the client are well typed;
      status reads what start saved, and a failed start cleans up.
    - Faults: the inputs and schedules for which the code is wrong, as
      theorems about the same definitions.

    ** Bounds and fuel

    Arrays have the sizes of the sources.  Structural recursion covers the
    loops over strings, lists and arrays; the loops of the containers take
    fuel, which the definitions set from the size of the state, and the
    theorems show [Done], so it is enough.  A loop that waits for the outside
    (writes, reads, handshakes, keys) consumes a list of answers; [OutOfFuel]
    there means that it still waits; so does a session whose list of
    happenings is over, and [pthread_join] when the listening thread has no
    more of them.  Memory is a number of allocations; a
    hypothesis on it says what an operation needs.

    ** Not modelled

    Borders and attributes of windows, the texts of usage and help, the stack
    trace on SIGSEGV, and the unit tests inside the libraries' files: they
    print, or compute only what is drawn.  The logging of running threads
    ([Debug], [Info]) does not change their state and is left out there.  The
    values of [pow] and [rand] are parameters, and so is the breaking of texts
    into rows by ncurses.  Signals of the client that arrive before they are
    caught, or inside a library call, are left out.  That a message reaches
    every user is shown for schedules in which nobody leaves: list.c moves the
    cursor of the broadcast when its first node is deleted.  Characters of more than one
    column are in the model of the window's operations but not in the theorems
    of the line editor; inserting and deleting above the last line is excluded
    there by [legal] (InputLines), and InputEdit states what it loses. *)

From stdpp Require Export base list option numbers gmap strings sorting.
From Stdlib Require Export Ascii ZArith Lia.

(** ** Results of C operations

    An operation either has a defined result or gets stuck; the fault is
    kept so that the theorems about faulty paths can say which rule of the
    language is broken.  [OutOfFuel] is the only fault that is not undefined
    behaviour: a loop was given too little fuel, and every theorem that says
    an operation is [Done] also says its loops end. *)

Inductive fault : Type :=
  | NullDereference
  | DanglingPointer
  | OutOfBounds
  | BadFormat
  | SignedOverflow
  | InvalidThread
  | OutOfFuel.

#[export] Instance fault_eq_dec : EqDecision fault.
Proof. solve_decision. Defined.

Inductive outcome (A : Type) : Type :=
  | Done (a : A)
  | Stuck (why : fault).
Arguments Done {A} a.
Arguments Stuck {A} why.

Definition outcome_bind {A B} (m : outcome A) (k : A → outcome B) : outcome B :=
  match m with Done a => k a | Stuck w => Stuck w end.

Definition is_Done {A} (m : outcome A) : Prop := ∃ a, m = Done a.

(** ** Commands: state passing with undefined behaviour *)

Definition cmd (S A : Type) : Type := S → outcome (A * S).

Definition ret {S A} (a : A) : cmd S A := λ s, Done (a, s).
Definition bind {S A B} (m : cmd S A) (k : A → cmd S B) : cmd S B :=
  λ s, match m s with Done (a, s') => k a s' | Stuck w => Stuck w end.
Definition stuck {S A} (w : fault) : cmd S A := λ _, Stuck w.
Definition get {S} : cmd S S := λ s, Done (s, s).
Definition lift {S A} (m : outcome A) : cmd S A :=
  λ s, match m with Done a => Done (a, s) | Stuck w => Stuck w end.
Definition modify {S} (f : S → S) : cmd S unit := λ s, Done (tt, f s).

Declare Scope c_scope.
Delimit Scope c_scope with c.
Notation "'let!' x ':=' m 'in' k" := (outcome_bind m (λ x, k))
  (at level 10, x name, m at level 100, k at level 200,
   format "'[v' 'let!'  x  ':='  m  'in' '/' k ']'") : c_scope.
Notation "x <- m ;; k" := (bind m (λ x, k))
  (at level 100, m at next level, right associativity,
   format "'[v' x  <-  m  ;; '/' k ']'") : c_scope.
Notation "m ;;; k" := (bind m (λ _, k))
  (at level 100, right associativity, format "'[v' m  ;;; '/' k ']'") : c_scope.
#[global] Open Scope c_scope.

Create HintDb c2hat discriminated.

Section CmdLemmas.
Context {S A B : Type}.

Lemma bind_Done (m : cmd S A) (k : A → cmd S B) s a s' :
  m s = Done (a, s') → bind m k s = k a s'.
Proof. unfold bind. by intros ->. Qed.

Lemma bind_Stuck (m : cmd S A) (k : A → cmd S B) s w :
  m s = Stuck w → bind m k s = Stuck w.
Proof. unfold bind. by intros ->. Qed.

(** A computation that is [Done], one command at a time. *)
Lemma bind_inv (m : cmd S A) (k : A → cmd S B) s r s' :
  bind m k s = Done (r, s') → ∃ a t, m s = Done (a, t) ∧ k a t = Done (r, s').
Proof. unfold bind. destruct (m s) as [[a t]|]; [eauto|done]. Qed.

Lemma lift_inv (m : outcome A) (s s' : S) a : lift m s = Done (a, s') → m = Done a ∧ s' = s.
Proof. unfold lift. destruct m; [by intros [= -> ->]|done]. Qed.

Lemma bind_ret_inv (m : cmd S A) (f : A → B) s a s' : Inj (=) (=) f →
  bind m (λ x, ret (f x)) s = Done (f a, s') → m s = Done (a, s').
Proof. intros Hf (x & t & -> & [= E%Hf ->])%bind_inv. by subst. Qed.

Lemma bind_bind {D} (m : cmd S D) (k : D → cmd S A) (k' : A → cmd S B) s :
  bind (bind m k) k' s = bind m (λ x, bind (k x) k') s.
Proof. unfold bind. by destruct (m s) as [[? ?]|]. Qed.

Lemma bind_ret (a : A) (k : A → cmd S B) s : bind (ret a) k s = k a s.
Proof. done. Qed.

Lemma bind_get (k : S → cmd S B) s : bind get k s = k s s.
Proof. done. Qed.

Lemma bind_modify (f : S → S) (k : unit → cmd S B) s :
  bind (modify f) k s = k tt (f s).
Proof. done. Qed.
End CmdLemmas.

Lemma outcome_bind_Done {A B} (m : outcome A) (k : A → outcome B) a :
  m = Done a → outcome_bind m k = k a.
Proof. by intros ->. Qed.

Create Rewrite HintDb c2hat.
#[export] Hint Rewrite @bind_ret @bind_get @bind_modify : c2hat.

(** One step of symbolic execution: run the head command with the given
    equation. *)
Ltac run H := rewrite (bind_Done _ _ _ _ _ H).
Ltac runs := repeat (rewrite ?bind_ret, ?bind_get, ?bind_modify; cbn [fst snd]).

(** ** Bytes and strings *)

Abbreviation bytes := (list ascii).
Definition NUL : ascii := Ascii false false false false false false false false.
Definition lit (s : string) : bytes := String.list_ascii_of_string s.

(** Unsigned and signed value of a [char]. *)
Definition uchar (c : ascii) : Z := Z.of_N (Ascii.N_of_ascii c).
Definition schar (c : ascii) : Z := if (uchar c <? 128)%Z then uchar c else (uchar c - 256)%Z.

Lemma uchar_range c : (0 ≤ uchar c < 256)%Z.
Proof.
  unfold uchar. pose proof (Ascii.N_ascii_bounded c). lia.
Qed.

Lemma schar_range c : (-128 ≤ schar c < 128)%Z.
Proof.
  unfold schar. pose proof (uchar_range c). destruct (Z.ltb_spec (uchar c) 128); lia.
Qed.

(** ** Machine integers *)

Definition INT_MAX : Z := 2147483647.
Definition INT_MIN : Z := -2147483648.
Definition UINT_MOD : Z := 4294967296.
Definition SIZE_MOD : Z := 18446744073709551616.

(** Conversion to a two's complement [int] of 32 bits. *)
Definition wrap_int (z : Z) : Z := ((z + 2147483648) mod 4294967296 - 2147483648)%Z.

Lemma wrap_int_range z : (INT_MIN ≤ wrap_int z ≤ INT_MAX)%Z.
Proof.
  unfold wrap_int, INT_MIN, INT_MAX.
  pose proof (Z.mod_pos_bound (z + 2147483648) 4294967296). lia.
Qed.

Lemma wrap_int_id z : (INT_MIN ≤ z ≤ INT_MAX)%Z → wrap_int z = z.
Proof.
  unfold wrap_int, INT_MIN, INT_MAX. intros. rewrite Z.mod_small; lia.
Qed.

(** Addition on [int]: overflow is undefined behaviour. *)
Definition int_add (a b : Z) : outcome Z :=
  if ((INT_MIN <=? a + b) && (a + b <=? INT_MAX))%Z then Done (a + b)%Z else Stuck SignedOverflow.

Lemma int_add_Done a b : (INT_MIN ≤ a + b ≤ INT_MAX)%Z → int_add a b = Done (a + b)%Z.
Proof.
  intros [H1 H2]. unfold int_add.
  rewrite (proj2 (Z.leb_le _ _) H1), (proj2 (Z.leb_le _ _) H2). done.
Qed.

(** ** Lists *)

Section ListLemmas.
Context {A : Type}.
Implicit Types (l k : list A) (x y : A) (n : nat).

Lemma split_at l n : n ≤ length l →
  ∃ l1 l2, l = l1 ++ l2 ∧ length l1 = n.
Proof.
  intros. exists (take n l), (drop n l). rewrite take_drop, length_take.
  split; [done | lia].
Qed.

Lemma split_mid l n : n < length l →
  ∃ l1 x l2, l = l1 ++ x :: l2 ∧ length l1 = n.
Proof.
  intros H. destruct (lookup_lt_is_Some_2 l n H) as [x Hx].
  exists (take n l), x, (drop (S n) l). rewrite take_drop_middle by done.
  split; [done | rewrite length_take; lia].
Qed.

Lemma last_snoc_inv l x y : last (l ++ [x]) = Some y → x = y.
Proof. rewrite last_snoc. congruence. Qed.
End ListLemmas.

(** A decidable condition on concrete data, by evaluation. *)
Ltac not_in := apply (bool_decide_eq_true_1 _); vm_compute; reflexivity.
