(* ===== verification/Control.v ===== *)
(** * Commands that may end the process

    [exit] in the middle of a function ends every function around it: a
    command of type [proc S A] gives a value or the exit code.  [wp m s Q]
    says that [m] started in [s] returns, free of faults, with [Q]; the rules
    below run a command step by step without naming the states between. *)

From S2P Require Import Prelude.

Inductive ctl (A : Type) : Type :=
  | Go (a : A)
  | Exit (code : Z).
Arguments Go {A} a.
Arguments Exit {A} code.

Definition proc (S A : Type) : Type := cmd S (ctl A).

Section Proc.
Context {S A B : Type}.

Definition go (a : A) : proc S A := ret (Go a).
Definition exit (code : Z) : proc S A := ret (Exit code).
Definition exec (m : cmd S A) : proc S A := a <- m;; ret (Go a).

Definition pbind (m : proc S A) (k : A → proc S B) : proc S B :=
  r <- m;; match r with Go a => k a | Exit code => ret (Exit code) end.
End Proc.

Notation "x <~ m ;; k" := (pbind m (λ x, k))
  (at level 100, m at next level, right associativity,
   format "'[v' x  <~  m  ;; '/' k ']'") : c_scope.
Notation "m ;~ k" := (pbind m (λ _, k))
  (at level 100, right associativity, format "'[v' m  ;~ '/' k ']'") : c_scope.

Section Wp.
Context {S : Type}.
Implicit Types s : S.

Definition wp {A} (m : cmd S A) s (Q : A → S → Prop) : Prop := ∃ a s', m s = Done (a, s') ∧ Q a s'.

Lemma wp_run {A} (m : cmd S A) s a s' (Q : A → S → Prop) : m s = Done (a, s') → Q a s' → wp m s Q.
Proof. unfold wp. eauto. Qed.

Lemma wp_ret {A} (a : A) s (Q : A → S → Prop) : Q a s → wp (ret a) s Q.
Proof. by apply wp_run. Qed.

Lemma wp_get s (Q : S → S → Prop) : Q s s → wp get s Q.
Proof. by apply wp_run. Qed.

Lemma wp_modify (f : S → S) s (Q : unit → S → Prop) : Q tt (f s) → wp (modify f) s Q.
Proof. by apply wp_run. Qed.

Lemma wp_lift {A} (m : outcome A) a s (Q : A → S → Prop) : m = Done a → Q a s → wp (lift m) s Q.
Proof. intros ->. by apply wp_run. Qed.

Lemma wp_bind {A B} (m : cmd S A) (k : A → cmd S B) s (Q : B → S → Prop) :
  wp m s (λ a s', wp (k a) s' Q) → wp (bind m k) s Q.
Proof. intros (a & t & E & b & s' & Ek & H). exists b, s'. by rewrite (bind_Done _ _ _ _ _ E). Qed.

Lemma wp_mono {A} (m : cmd S A) s (P Q : A → S → Prop) : wp m s P → (∀ a s', P a s' → Q a s') → wp m s Q.
Proof. intros (a & t & E & H) HPQ. exists a, t. auto. Qed.

(** The rules for processes: either branch of the control. *)
Lemma wp_pbind {A B} (m : proc S A) (k : A → proc S B) s (Q : ctl B → S → Prop) :
  wp m s (λ r s', match r with Go a => wp (k a) s' Q | Exit code => Q (Exit code) s' end) → wp (pbind m k) s Q.
Proof.
  intros H. unfold pbind. apply wp_bind. eapply wp_mono; [exact H|]. intros [a|code] s' H'; [done|by apply wp_ret].
Qed.

Lemma wp_exec {A} (m : cmd S A) s (Q : ctl A → S → Prop) : wp m s (λ a, Q (Go a)) → wp (exec m) s Q.
Proof. intros H. unfold exec. apply wp_bind. eapply wp_mono; [exact H|]. intros. by apply wp_ret. Qed.

Lemma wp_done {A} (m : cmd S A) s a s' (Q : A → S → Prop) : wp m s Q → m s = Done (a, s') → Q a s'.
Proof. intros (b & t & E & H) E'. rewrite E in E'. by injection E' as <- <-. Qed.
End Wp.

(** One step of a command in a [wp] goal. *)
Ltac step :=
  cbv beta iota zeta;
  lazymatch goal with
  | |- wp (pbind _ _) _ _ => apply wp_pbind
  | |- wp (bind _ _) _ _ => apply wp_bind
  | |- wp (exec _) _ _ => apply wp_exec
  | |- wp (go _) _ _ => apply wp_ret
  | |- wp (exit _) _ _ => apply wp_ret
  | |- wp (ret _) _ _ => apply wp_ret
  | |- wp get _ _ => apply wp_get
  | |- wp (modify _) _ _ => apply wp_modify
  end; cbv beta iota zeta.
Ltac steps := repeat step.

(** The reading for code whose parts have faults or waits of their own: [m]
    returns with [Q], or it is stuck with a fault that [F] accounts for. *)
Section Wlp.
Context {S : Type} (F : fault → Prop).
Implicit Types s : S.

Definition wlp {A} (m : cmd S A) s (Q : A → S → Prop) : Prop :=
  match m s with Done (a, s') => Q a s' | Stuck w => F w end.

Lemma wlp_run {A} (m : cmd S A) s a s' (Q : A → S → Prop) : m s = Done (a, s') → Q a s' → wlp m s Q.
Proof. unfold wlp. by intros ->. Qed.

Lemma wlp_ret {A} (a : A) s (Q : A → S → Prop) : Q a s → wlp (ret a) s Q.
Proof. done. Qed.

Lemma wlp_get s (Q : S → S → Prop) : Q s s → wlp get s Q.
Proof. done. Qed.

Lemma wlp_modify (f : S → S) s (Q : unit → S → Prop) : Q tt (f s) → wlp (modify f) s Q.
Proof. done. Qed.

Lemma wlp_lift {A} (m : outcome A) s (Q : A → S → Prop) :
  (∀ a, m = Done a → Q a s) → (∀ w, m = Stuck w → F w) → wlp (lift m) s Q.
Proof. unfold wlp, lift. destruct m; auto. Qed.

Lemma wlp_stuck {A} w s (Q : A → S → Prop) : F w → wlp (stuck w) s Q.
Proof. done. Qed.

Lemma wlp_bind {A B} (m : cmd S A) (k : A → cmd S B) s (Q : B → S → Prop) :
  wlp m s (λ a s', wlp (k a) s' Q) → wlp (bind m k) s Q.
Proof. unfold wlp, bind. by destruct (m s) as [[a s']|w]. Qed.

Lemma wlp_mono {A} (m : cmd S A) s (P Q : A → S → Prop) : wlp m s P → (∀ a s', P a s' → Q a s') → wlp m s Q.
Proof. unfold wlp. destruct (m s) as [[a s']|w]; auto. Qed.

Lemma wlp_pbind {A B} (m : proc S A) (k : A → proc S B) s (Q : ctl B → S → Prop) :
  wlp m s (λ r s', match r with Go a => wlp (k a) s' Q | Exit code => Q (Exit code) s' end) → wlp (pbind m k) s Q.
Proof.
  intros H. unfold pbind. apply wlp_bind. eapply wlp_mono; [exact H|]. intros [a|code] s' H'; [done|by apply wlp_ret].
Qed.

Lemma wlp_exec {A} (m : cmd S A) s (Q : ctl A → S → Prop) : wlp m s (λ a, Q (Go a)) → wlp (exec m) s Q.
Proof. intros H. unfold exec. apply wlp_bind. eapply wlp_mono; [exact H|]. intros. by apply wlp_ret. Qed.

End Wlp.

(** Any fault is accounted for. *)
Abbreviation any := (λ _ : fault, True).

Lemma wlp_weaken {S A} (F F' : fault → Prop) (m : cmd S A) s (Q : A → S → Prop) :
  wlp F m s Q → (∀ w, F w → F' w) → wlp F' m s Q.
Proof. unfold wlp. destruct (m s) as [[a s']|w]; auto. Qed.

(** One step of a command in a [wlp] goal; conditionals are split. *)
Ltac pstep :=
  cbv beta iota zeta;
  lazymatch goal with
  | |- wlp _ (pbind _ _) _ _ => apply wlp_pbind
  | |- wlp _ (bind _ _) _ _ => apply wlp_bind
  | |- wlp _ (exec _) _ _ => apply wlp_exec
  | |- wlp _ (go _) _ _ => apply wlp_ret
  | |- wlp _ (exit _) _ _ => apply wlp_ret
  | |- wlp _ (ret _) _ _ => apply wlp_ret
  | |- wlp _ get _ _ => apply wlp_get
  | |- wlp _ (modify _) _ _ => apply wlp_modify
  | |- wlp _ (if ?b then _ else _) _ _ => destruct b
  | |- wlp any (stuck _) _ _ => apply wlp_stuck; exact Logic.I
  | |- wlp any (lift _) _ _ => apply wlp_lift; [intros|by intros]
  | |- wlp any (match ?x with _ => _ end) _ _ => destruct x
  end; cbv beta iota zeta.
Ltac psteps := repeat pstep.
