(* ===== verification/Heap.v ===== *)
(** * The allocator

    The C heap of a component: cells indexed by addresses that are never
    handed out twice, so that a dangling pointer stays detectable, and the
    number of allocations that will still succeed, so that the failure
    branch of [calloc] is a run of the model like any other.  [NULL] is
    [None]. *)

From S2P Require Import Prelude.

Abbreviation loc := positive.
Abbreviation ptr := (option positive).

Definition ptr_eqb (p q : ptr) : bool := bool_decide (p = q).

Lemma ptr_eqb_Some_None l : ptr_eqb (Some l) None = false.
Proof. done. Qed.

Lemma ptr_eqb_refl p : ptr_eqb p p = true.
Proof. unfold ptr_eqb. by rewrite bool_decide_eq_true_2. Qed.

Lemma ptr_eqb_ne p q : p ≠ q → ptr_eqb p q = false.
Proof. intros. unfold ptr_eqb. by rewrite bool_decide_eq_false_2. Qed.

Record mem (C : Type) : Type := Mem {
  cells : gmap loc C;
  brk : loc;        (* next fresh address *)
  budget : nat      (* allocations that will still succeed *)
}.
Arguments Mem {C} cells brk budget.
Arguments cells {C} m.
Arguments brk {C} m.
Arguments budget {C} m.

Section Heap.
Context {C : Type}.
Implicit Types (m : mem C) (l : loc) (c : C).

Definition calloc c : cmd (mem C) ptr := λ m,
  match budget m with
  | O => Done (None, m)
  | S b => Done (Some (brk m), Mem (<[brk m := c]> (cells m)) (Pos.succ (brk m)) b)
  end.

Definition load (p : ptr) : cmd (mem C) C := λ m,
  match p with
  | None => Stuck NullDereference
  | Some l => match cells m !! l with
              | Some c => Done (c, m)
              | None => Stuck DanglingPointer
              end
  end.

Definition store (p : ptr) c : cmd (mem C) unit := λ m,
  match p with
  | None => Stuck NullDereference
  | Some l => match cells m !! l with
              | Some _ => Done (tt, Mem (<[l := c]> (cells m)) (brk m) (budget m))
              | None => Stuck DanglingPointer
              end
  end.

(** [free(NULL)] does nothing; freeing a cell twice is undefined. *)
Definition free (p : ptr) : cmd (mem C) unit := λ m,
  match p with
  | None => Done (tt, m)
  | Some l => match cells m !! l with
              | Some _ => Done (tt, Mem (delete l (cells m)) (brk m) (budget m))
              | None => Stuck DanglingPointer
              end
  end.

Definition mem_wf m : Prop := ∀ l, (brk m ≤ l)%positive → cells m !! l = None.

Lemma mem_wf_lt m l c : mem_wf m → cells m !! l = Some c → (l < brk m)%positive.
Proof.
  intros Hwf Hl. destruct (Pos.ltb_spec l (brk m)) as [|Hge]; [done|].
  rewrite Hwf in Hl by done. done.
Qed.

Lemma calloc_Done m c b : budget m = S b →
  calloc c m = Done (Some (brk m), Mem (<[brk m := c]> (cells m)) (Pos.succ (brk m)) b).
Proof. unfold calloc. by intros ->. Qed.

Lemma calloc_None m c : budget m = O → calloc c m = Done (None, m).
Proof. unfold calloc. by intros ->. Qed.

Lemma load_Done m l c : cells m !! l = Some c → load (Some l) m = Done (c, m).
Proof. simpl. by intros ->. Qed.

Lemma store_Done m l c c' : cells m !! l = Some c →
  store (Some l) c' m = Done (tt, Mem (<[l := c']> (cells m)) (brk m) (budget m)).
Proof. simpl. by intros ->. Qed.

Lemma free_Done m l c : cells m !! l = Some c →
  free (Some l) m = Done (tt, Mem (delete l (cells m)) (brk m) (budget m)).
Proof. simpl. by intros ->. Qed.

Lemma mem_wf_calloc m c b :
  mem_wf m → mem_wf (Mem (<[brk m := c]> (cells m)) (Pos.succ (brk m)) b).
Proof.
  intros Hwf l Hl. cbn in *. rewrite lookup_insert_ne by lia. apply Hwf. lia.
Qed.

Lemma mem_wf_insert m l c c' : mem_wf m → cells m !! l = Some c →
  mem_wf (Mem (<[l := c']> (cells m)) (brk m) (budget m)).
Proof.
  intros Hwf Hl l' Hl'. cbn in *.
  pose proof (mem_wf_lt _ _ _ Hwf Hl). rewrite lookup_insert_ne by lia. auto.
Qed.

Lemma mem_wf_delete m l :
  mem_wf m → mem_wf (Mem (delete l (cells m)) (brk m) (budget m)).
Proof.
  intros Hwf l' Hl'. cbn in *. apply lookup_delete_None. auto.
Qed.
End Heap.

#[export] Hint Resolve mem_wf_calloc mem_wf_insert mem_wf_delete : c2hat.
