(* ===== verification/ListLib.v ===== *)
(** * Doubly linked lists (src/lib/list)

    The operations of list.c over an explicit heap of nodes and data blocks,
    pointer assignment by pointer assignment, and their refinement to
    operations on the sequence of stored values. *)

From S2P Require Import Prelude.
From S2P Require Import Heap.

(** ** Data *)

Record ListNode : Type := MkNode {
  prev : ptr;
  next : ptr;
  data : ptr;
  dataSize : nat
}.

Record List : Type := MkList {
  first : ptr;
  last : ptr;
  current : ptr;
  length : Z
}.

(** A heap cell of the component: a node, or the copy of a value. *)
Inductive cell : Type :=
  | CNode (n : ListNode)
  | CData (bs : bytes).

(** The state an operation works on: the heap and the [List] it is given. *)
Record lst : Type := Lst { lm : mem cell; this : List }.

(** ** Field accesses *)

Definition on_mem {A} (m : cmd (mem cell) A) : cmd lst A := λ s,
  match m (lm s) with
  | Done (a, h) => Done (a, Lst h (this s))
  | Stuck w => Stuck w
  end.
Definition self : cmd lst List := λ s, Done (this s, s).
Definition upd (f : List → List) : cmd lst unit := λ s, Done (tt, Lst (lm s) (f (this s))).

Definition load_node (p : ptr) : cmd lst ListNode :=
  c <- on_mem (load p);;
  match c with CNode n => ret n | CData _ => stuck DanglingPointer end.
Definition load_data (p : ptr) : cmd lst bytes :=
  c <- on_mem (load p);;
  match c with CData bs => ret bs | CNode _ => stuck DanglingPointer end.
Definition store_node (p : ptr) (n : ListNode) : cmd lst unit := on_mem (store p (CNode n)).

Definition set_prev (p q : ptr) : cmd lst unit :=
  n <- load_node p;; store_node p (MkNode q (next n) (data n) (dataSize n)).
Definition set_next (p q : ptr) : cmd lst unit :=
  n <- load_node p;; store_node p (MkNode (prev n) q (data n) (dataSize n)).
Definition set_data (p q : ptr) : cmd lst unit :=
  n <- load_node p;; store_node p (MkNode (prev n) (next n) q (dataSize n)).
Definition set_dataSize (p : ptr) (k : nat) : cmd lst unit :=
  n <- load_node p;; store_node p (MkNode (prev n) (next n) (data n) k).

Definition set_first (p : ptr) : cmd lst unit :=
  upd (λ l, MkList p (last l) (current l) (length l)).
Definition set_last (p : ptr) : cmd lst unit :=
  upd (λ l, MkList (first l) p (current l) (length l)).
Definition set_current (p : ptr) : cmd lst unit :=
  upd (λ l, MkList (first l) (last l) p (length l)).
Definition add_length (k : Z) : cmd lst unit :=
  l <- self;; n <- lift (int_add (length l) k);;
  upd (λ l, MkList (first l) (last l) (current l) n).

(** ** Operations *)

(** [List_new]: a zeroed [List], or [None] when the allocation fails. *)
Definition List_new (available : bool) : option List :=
  if available then Some (MkList None None None 0) else None.

Definition List_empty (l : List) : bool :=
  (length l =? 0)%Z || ptr_eqb (first l) None.

(** [ListNode_new]: two allocations; [memcpy] reads [valueSize] bytes of the
    value.  When the second one fails the node of the first is lost. *)
Definition ListNode_new (value : bytes) (valueSize : nat) : cmd lst ptr :=
  item <- on_mem (calloc (CNode (MkNode None None None 0)));;
  match item with
  | None => ret None
  | Some _ =>
    d <- on_mem (calloc (CData (replicate valueSize NUL)));;
    set_data item d;;;
    match d with
    | None => ret None
    | Some _ =>
      (if decide (valueSize ≤ List.length value)
       then on_mem (store d (CData (take valueSize value)))
       else stuck OutOfBounds);;;
      set_dataSize item valueSize;;;
      ret item
    end
  end.

(** [ListNode_free]: the data is erased and freed first, then the node; the
    caller's pointer is set to [NULL], which is the result. *)
Definition ListNode_free (p : ptr) : cmd lst ptr :=
  n <- load_node p;;
  load_data (data n);;;
  on_mem (store (data n) (CData (replicate (dataSize n) NUL)));;;
  on_mem (free (data n));;;
  store_node p (MkNode None None None 0);;;
  on_mem (free p);;;
  ret None.

(** The loop [while (i < pos) { n = n->next; i++; }]. *)
Fixpoint walk (i : nat) (n : ptr) : cmd lst ptr :=
  match i with
  | O => ret n
  | S i => nd <- load_node n;; walk i (next nd)
  end.

Definition List_insert (value : bytes) (valueSize : nat) (pos : Z) : cmd lst bool :=
  l <- self;;
  if ((0 <=? pos) && (pos <=? length l))%Z then
    item <- ListNode_new value valueSize;;
    l <- self;;
    match first l with
    | None =>
      set_first item;;; set_current item;;; set_last item;;;
      add_length 1;;; ret true
    | Some _ =>
      cursor <- walk (Z.to_nat pos) (first l);;
      match cursor with
      | None =>
        set_prev item (last l);;;
        set_next (last l) item;;;
        set_last item;;;
        add_length 1;;; ret true
      | Some _ =>
        set_next item cursor;;;
        c <- load_node cursor;;
        set_prev item (prev c);;;
        c <- load_node cursor;;
        match prev c with
        | Some _ => set_next (prev c) item
        | None => set_first item
        end;;;
        set_prev cursor item;;;
        add_length 1;;; ret true
      end
    end
  else ret false.

Definition List_append (value : bytes) (valueSize : nat) : cmd lst bool :=
  l <- self;; List_insert value valueSize (length l).

Definition List_prepend (value : bytes) (valueSize : nat) : cmd lst bool :=
  List_insert value valueSize 0.

Definition List_delete (pos : Z) : cmd lst bool :=
  l <- self;;
  if (negb (List_empty l) && (0 <=? pos) && (pos <? length l))%Z then
    n <- walk (Z.to_nat pos) (first l);;
    nd <- load_node n;;
    let pn := prev nd in
    let nn := next nd in
    match pn with
    | None =>
      fn <- load_node (first l);;
      set_current (next fn);;;
      l <- self;; set_first (current l)
    | Some _ => set_next pn nn
    end;;;
    match nn with
    | None => nd <- load_node n;; set_last (prev nd)
    | Some _ => set_prev nn pn
    end;;;
    n' <- ListNode_free n;;
    add_length (-1);;;
    ret (ptr_eqb n' None)
  else ret false.

(** The loop of [List_free]: [while (length > 0) List_delete(length - 1)]. *)
Fixpoint free_nodes (fuel : nat) : cmd lst unit :=
  match fuel with
  | O => stuck OutOfFuel
  | S fuel =>
    l <- self;;
    if (0 <? length l)%Z then List_delete (length l - 1);;; free_nodes fuel else ret tt
  end.

(** [List_free]: the nodes, then the [List] itself is zeroed and given back;
    the result is the caller's pointer. *)
Definition List_free (fuel : nat) : cmd lst (option List) :=
  l <- self;;
  (if List_empty l then ret tt else free_nodes fuel);;;
  upd (λ _, MkList None None None 0);;;
  ret None.

(** [List_update]: the old data is erased and freed before the new copy is
    allocated, so a failed allocation leaves a node without data. *)
Definition List_update (value : bytes) (valueSize : nat) (pos : Z) : cmd lst bool :=
  l <- self;;
  if (negb (List_empty l) && (0 <=? pos) && (pos <? length l))%Z then
    n <- walk (Z.to_nat pos) (first l);;
    nd <- load_node n;;
    load_data (data nd);;;
    on_mem (store (data nd) (CData (replicate (dataSize nd) NUL)));;;
    on_mem (free (data nd));;;
    d <- on_mem (calloc (CData (replicate valueSize NUL)));;
    set_data n d;;;
    match d with
    | None => ret false
    | Some _ =>
      (if decide (valueSize ≤ List.length value)
       then on_mem (store d (CData (take valueSize value)))
       else stuck OutOfBounds);;;
      set_dataSize n valueSize;;;
      ret true
    end
  else ret false.

Definition List_next : cmd lst ptr :=
  l <- self;;
  match current l with
  | None => ret None
  | Some _ =>
    n <- load_node (current l);;
    set_current (next n);;;
    ret (data n)
  end.

Definition List_prev : cmd lst ptr :=
  l <- self;;
  match current l with
  | None => ret None
  | Some _ =>
    n <- load_node (current l);;
    set_current (prev n);;;
    ret (data n)
  end.

Definition List_first : cmd lst ptr :=
  l <- self;;
  if negb (List_empty l) && negb (ptr_eqb (first l) None)
  then n <- load_node (first l);; ret (data n)
  else ret None.

Definition List_last : cmd lst ptr :=
  l <- self;;
  if negb (List_empty l) && negb (ptr_eqb (last l) None)
  then n <- load_node (last l);; ret (data n)
  else ret None.

Definition List_rewind : cmd lst bool :=
  l <- self;;
  if negb (List_empty l) then set_current (first l);;; ret true else ret false.

(** The loop of [List_search]; [todo] is [this->length - pos]. *)
Fixpoint search_from (compare : bytes → bytes → nat → Z) (needle : bytes) (needleSize : nat)
    (todo : nat) (pos : Z) (n : ptr) : cmd lst Z :=
  match todo with
  | O => ret (-1)%Z
  | S todo =>
    nd <- load_node n;;
    if decide (dataSize nd = needleSize) then
      d <- load_data (data nd);;
      if (compare d needle needleSize =? 0)%Z then ret pos
      else search_from compare needle needleSize todo (pos + 1) (next nd)
    else search_from compare needle needleSize todo (pos + 1) (next nd)
  end.

Definition List_search (needle : bytes) (needleSize : nat)
    (compare : bytes → bytes → nat → Z) : cmd lst Z :=
  l <- self;;
  if negb (List_empty l)
  then search_from compare needle needleSize (Z.to_nat (length l)) 0 (first l)
  else ret (-1)%Z.

Definition List_item (pos : Z) : cmd lst ptr :=
  l <- self;;
  if (negb (List_empty l) && (0 <=? pos) && (pos <? length l))%Z then
    n <- walk (Z.to_nat pos) (first l);;
    nd <- load_node n;; ret (data nd)
  else ret None.

(** ** Sorting *)

(** [Node_swap] exchanges the contents of two nodes, not their links. *)
Definition Node_swap (a b : ptr) : cmd lst unit :=
  na <- load_node a;;
  let temp := data na in
  let tempSize := dataSize na in
  nb <- load_node b;;
  set_data a (data nb);;;
  nb <- load_node b;;
  set_dataSize a (dataSize nb);;;
  set_data b temp;;;
  set_dataSize b tempSize.

(** The scanning loop of [QuickSortList]; the result is [current], which is
    [right] when the loop is left. *)
Fixpoint scan_right (compare : bytes → bytes → nat → Z) (fuel : nat)
    (start current right : ptr) : cmd lst ptr :=
  match fuel with
  | O => stuck OutOfFuel
  | S fuel =>
    ns <- load_node start;;
    nc <- load_node current;;
    let size := if decide (dataSize ns ≤ dataSize nc) then dataSize ns else dataSize nc in
    ds <- load_data (data ns);;
    dc <- load_data (data nc);;
    (if (compare ds dc size <? 0)%Z then Node_swap start current else ret tt);;;
    if ptr_eqb current right then ret current
    else nc <- load_node current;; scan_right compare fuel start (next nc) right
  end.

Fixpoint QuickSortList (compare : bytes → bytes → nat → Z) (fuel : nat)
    (left right : ptr) : cmd lst unit :=
  match fuel with
  | O => stuck OutOfFuel
  | S fuel =>
    if ptr_eqb left right then ret tt else
    ns <- load_node left;;
    current <- scan_right compare fuel left (next ns) right;;
    Node_swap left current;;;
    let oldCurrent := current in
    nc <- load_node current;;
    let current := prev nc in
    match current with
    | None => ret tt
    | Some _ =>
      nl <- load_node left;;
      if negb (ptr_eqb (prev nl) current) then
        nc <- load_node current;;
        if negb (ptr_eqb (next nc) left)
        then QuickSortList compare fuel left current else ret tt
      else ret tt
    end;;;
    no <- load_node oldCurrent;;
    let current := next no in
    match current with
    | None => ret tt
    | Some _ =>
      nc <- load_node current;;
      if negb (ptr_eqb (prev nc) right) then
        nr <- load_node right;;
        if negb (ptr_eqb (next nr) current)
        then QuickSortList compare fuel current right else ret tt
      else ret tt
    end
  end.

Definition List_sort (compare : bytes → bytes → nat → Z) (fuel : nat) : cmd lst unit :=
  l <- self;;
  if negb (List_empty l) then QuickSortList compare fuel (first l) (last l) else ret tt.

(** ** Representation

    An entry is a node, its data block and the stored value; [dseg c pv es nx]
    says that the heap [c] holds the entries [es] as a doubly linked segment
    between the pointers [pv] and [nx]. *)

Record entry : Type := Entry { nl : loc; dl : loc; val : bytes }.

Abbreviation len := List.length.
Definition cl (s : lst) : gmap loc cell := cells (lm s).
Definition locs (es : list entry) : list loc := flat_map (λ e, [nl e; dl e]) es.
Definition vals (es : list entry) : list bytes := val <$> es.

Definition hd_ptr (es : list entry) (nx : ptr) : ptr :=
  match es with [] => nx | e :: _ => Some (nl e) end.
Fixpoint lst_ptr (es : list entry) (pv : ptr) : ptr :=
  match es with [] => pv | e :: es => lst_ptr es (Some (nl e)) end.

Definition node_of (pv nx : ptr) (e : entry) : cell :=
  CNode (MkNode pv nx (Some (dl e)) (len (val e))).

Fixpoint dseg (c : gmap loc cell) (pv : ptr) (es : list entry) (nx : ptr) : Prop :=
  match es with
  | [] => True
  | e :: es =>
    c !! nl e = Some (node_of pv (hd_ptr es nx) e)
    ∧ c !! dl e = Some (CData (val e))
    ∧ dseg c (Some (nl e)) es nx
  end.

(** The heap of [s] is exactly the well-formed list [es]: every cell belongs
    to an entry, so a lost node or block breaks the invariant. *)
Record rep (s : lst) (es : list entry) : Prop := {
  rep_seg : dseg (cl s) None es None;
  rep_nodup : NoDup (locs es);
  rep_own : ∀ l, is_Some (cl s !! l) → l ∈ locs es;
  rep_wf : mem_wf (lm s);
  rep_first : first (this s) = hd_ptr es None;
  rep_last : last (this s) = lst_ptr es None;
  rep_length : length (this s) = Z.of_nat (len es);
  rep_int : (Z.of_nat (len es) ≤ INT_MAX)%Z
}.

(** The list cursor stands before entry [i] ([i = len es]: at the end). *)
Definition cursor_at (s : lst) (es : list entry) (i : nat) : Prop :=
  i ≤ len es ∧ current (this s) = nl <$> es !! i.

Section Segments.
Implicit Types (c : gmap loc cell) (es A B : list entry) (e : entry) (pv nx : ptr).

Lemma locs_app A B : locs (A ++ B) = locs A ++ locs B.
Proof. unfold locs. by rewrite flat_map_app. Qed.

Lemma locs_cons e es : locs (e :: es) = nl e :: dl e :: locs es.
Proof. done. Qed.

Lemma hd_ptr_app A B nx : hd_ptr (A ++ B) nx = hd_ptr A (hd_ptr B nx).
Proof. by destruct A. Qed.

Lemma lst_ptr_app A B pv : lst_ptr (A ++ B) pv = lst_ptr B (lst_ptr A pv).
Proof. revert pv. induction A as [|e A IH]; intros pv; [done|]. apply IH. Qed.

Lemma hd_ptr_drop es i : hd_ptr (drop i es) None = nl <$> es !! i.
Proof. revert i. induction es as [|e es IH]; intros [|i]; cbn; auto. Qed.

Lemma lst_ptr_snoc A e pv : lst_ptr (A ++ [e]) pv = Some (nl e).
Proof. by rewrite lst_ptr_app. Qed.

Lemma dseg_app c pv A B nx :
  dseg c pv (A ++ B) nx ↔ dseg c pv A (hd_ptr B nx) ∧ dseg c (lst_ptr A pv) B nx.
Proof.
  revert pv. induction A as [|e A IH]; intros pv; cbn; [tauto|].
  rewrite IH, hd_ptr_app. tauto.
Qed.

Lemma dseg_mid c pv A e B nx : dseg c pv (A ++ e :: B) nx →
  c !! nl e = Some (node_of (lst_ptr A pv) (hd_ptr B nx) e)
  ∧ c !! dl e = Some (CData (val e)).
Proof. rewrite dseg_app. cbn. tauto. Qed.

Lemma dseg_frame c c' pv es nx :
  (∀ l, l ∈ locs es → c' !! l = c !! l) → dseg c pv es nx → dseg c' pv es nx.
Proof.
  revert pv. induction es as [|e es IH]; intros pv Hf; cbn; [done|].
  intros (H1 & H2 & H3). rewrite !Hf by (rewrite locs_cons; set_solver).
  split_and!; try done. apply IH; [|done].
  intros l Hl. apply Hf. rewrite locs_cons. set_solver.
Qed.

Lemma dseg_locs c pv es nx l : dseg c pv es nx → l ∈ locs es → is_Some (c !! l).
Proof.
  revert pv. induction es as [|e es IH]; intros pv Hd Hl; [by apply elem_of_nil in Hl|].
  destruct Hd as (H1 & H2 & H3). rewrite locs_cons in Hl.
  apply elem_of_cons in Hl as [->|Hl]; [eauto|].
  apply elem_of_cons in Hl as [->|Hl]; [eauto|]. eauto.
Qed.

(** Redirecting the last [next] pointer of a segment. *)
Lemma dseg_relink_next c c' pv A nx nx' :
  (∀ l, l ∈ locs A → Some l ≠ lst_ptr A None → c' !! l = c !! l) →
  (∀ A' a, A = A' ++ [a] → c' !! nl a = Some (node_of (lst_ptr A' pv) nx' a)) →
  NoDup (locs A) → dseg c pv A nx → dseg c' pv A nx'.
Proof.
  destruct A as [|a A _] using rev_ind; [done|].
  intros Hf Hl Hnd. rewrite locs_app in Hnd. apply NoDup_app in Hnd as (_ & Hdj & Hnd).
  rewrite !dseg_app. cbn. intros (HA & _ & Hda & _).
  rewrite lst_ptr_snoc in Hf. rewrite locs_app in Hf.
  split_and!; [|by apply Hl| |done].
  - eapply dseg_frame; [|exact HA]. intros l Hin. apply Hf; [set_solver|].
    intros [= ->]. apply (Hdj _ Hin). set_solver.
  - rewrite Hf; [done|set_solver|]. intros [= Heq].
    apply NoDup_cons in Hnd as [Hx _]. apply Hx. rewrite Heq. set_solver.
Qed.

(** Redirecting the first [prev] pointer of a segment. *)
Lemma dseg_relink_prev c c' pv pv' B nx :
  (∀ l, l ∈ locs B → Some l ≠ hd_ptr B None → c' !! l = c !! l) →
  (∀ b B', B = b :: B' → c' !! nl b = Some (node_of pv' (hd_ptr B' nx) b)) →
  NoDup (locs B) → dseg c pv B nx → dseg c' pv' B nx.
Proof.
  destruct B as [|b B]; [done|]. intros Hf Hh Hnd. cbn. intros (_ & Hdb & HB).
  rewrite locs_cons in Hnd, Hf. apply NoDup_cons in Hnd as [Hn1 Hnd].
  split_and!; [by apply Hh| |].
  - rewrite Hf; [done|set_solver|]. cbn. intros [= Heq]. apply Hn1. rewrite Heq. set_solver.
  - eapply dseg_frame; [|exact HB]. intros l Hin. apply Hf; [set_solver|].
    cbn. intros [= ->]. apply Hn1. set_solver.
Qed.
End Segments.

Section RepFacts.
Context (s : lst) (es : list entry) (R : rep s es).

Lemma rep_brk l : l ∈ locs es → (l < brk (lm s))%positive.
Proof.
  intros Hl. destruct (dseg_locs _ _ _ _ _ (rep_seg _ _ R) Hl) as [c Hc].
  exact (mem_wf_lt _ _ _ (rep_wf _ _ R) Hc).
Qed.

Lemma rep_fresh l : (brk (lm s) ≤ l)%positive → l ∉ locs es.
Proof. intros Hge Hl%rep_brk. lia. Qed.

Lemma rep_empty : List_empty (this s) = bool_decide (es = []).
Proof.
  unfold List_empty, ptr_eqb. rewrite (rep_length _ _ R), (rep_first _ _ R).
  destruct es; cbn; [done|]. by rewrite !bool_decide_eq_false_2.
Qed.
End RepFacts.

(** ** Symbolic execution of the field accesses *)

(** The state after a store, a release and an allocation. *)
Definition put (l : loc) (c : cell) (s : lst) : lst :=
  Lst (Mem (<[l := c]> (cl s)) (brk (lm s)) (budget (lm s))) (this s).
Definition del (l : loc) (s : lst) : lst :=
  Lst (Mem (delete l (cl s)) (brk (lm s)) (budget (lm s))) (this s).
Definition alloc_at (l : loc) (c : cell) (b : nat) (s : lst) : lst :=
  Lst (Mem (<[l := c]> (cl s)) (Pos.succ l) b) (this s).
Definition with_list (l : List) (s : lst) : lst := Lst (lm s) l.

Section Steps.
Implicit Types (s : lst) (l : loc) (n : ListNode) (q : ptr).

Lemma load_node_Done s l n :
  cl s !! l = Some (CNode n) → load_node (Some l) s = Done (n, s).
Proof.
  intros H. destruct s as [m t]. unfold load_node, bind, on_mem; cbn.
  unfold cl in H; cbn in H. by rewrite H.
Qed.

Lemma load_data_Done s l bs :
  cl s !! l = Some (CData bs) → load_data (Some l) s = Done (bs, s).
Proof.
  intros H. destruct s as [m t]. unfold load_data, bind, on_mem; cbn.
  unfold cl in H; cbn in H. by rewrite H.
Qed.

Lemma on_store_Done s l c c' :
  cl s !! l = Some c → on_mem (store (Some l) c') s = Done (tt, put l c' s).
Proof. intros H. unfold on_mem. by rewrite (store_Done _ _ _ _ H). Qed.

Lemma on_free_Done s l c :
  cl s !! l = Some c → on_mem (free (Some l)) s = Done (tt, del l s).
Proof. intros H. unfold on_mem. by rewrite (free_Done _ _ _ H). Qed.

Lemma on_calloc_Done s c b : budget (lm s) = S b →
  on_mem (calloc c) s = Done (Some (brk (lm s)), alloc_at (brk (lm s)) c b s).
Proof. intros H. unfold on_mem. by rewrite (calloc_Done _ _ _ H). Qed.

Lemma store_node_Done s l c n :
  cl s !! l = Some c → store_node (Some l) n s = Done (tt, put l (CNode n) s).
Proof. apply on_store_Done. Qed.

Lemma set_prev_Done s l n q : cl s !! l = Some (CNode n) →
  set_prev (Some l) q s = Done (tt, put l (CNode (MkNode q (next n) (data n) (dataSize n))) s).
Proof.
  intros H. unfold set_prev. run (load_node_Done _ _ _ H). by apply store_node_Done with (CNode n).
Qed.

Lemma set_next_Done s l n q : cl s !! l = Some (CNode n) →
  set_next (Some l) q s = Done (tt, put l (CNode (MkNode (prev n) q (data n) (dataSize n))) s).
Proof.
  intros H. unfold set_next. run (load_node_Done _ _ _ H). by apply store_node_Done with (CNode n).
Qed.

Lemma set_data_Done s l n q : cl s !! l = Some (CNode n) →
  set_data (Some l) q s = Done (tt, put l (CNode (MkNode (prev n) (next n) q (dataSize n))) s).
Proof.
  intros H. unfold set_data. run (load_node_Done _ _ _ H). by apply store_node_Done with (CNode n).
Qed.

Lemma set_dataSize_Done s l n k : cl s !! l = Some (CNode n) →
  set_dataSize (Some l) k s = Done (tt, put l (CNode (MkNode (prev n) (next n) (data n) k)) s).
Proof.
  intros H. unfold set_dataSize. run (load_node_Done _ _ _ H). by apply store_node_Done with (CNode n).
Qed.

Lemma add_length_Done s k : (INT_MIN ≤ length (this s) + k ≤ INT_MAX)%Z →
  add_length k s = Done (tt, with_list
    (MkList (first (this s)) (last (this s)) (current (this s)) (length (this s) + k)) s).
Proof.
  intros H. unfold add_length, bind, self, lift. by rewrite int_add_Done.
Qed.

Lemma upd_Done s f : upd f s = Done (tt, with_list (f (this s)) s).
Proof. done. Qed.

Lemma walk_Done s pv A B nx : dseg (cl s) pv (A ++ B) nx →
  walk (len A) (hd_ptr (A ++ B) nx) s = Done (hd_ptr B nx, s).
Proof.
  revert pv. induction A as [|e A IH]; intros pv Hd; [done|].
  destruct Hd as (H1 & _ & Hd). cbn [walk app List.length hd_ptr].
  run (load_node_Done _ _ _ H1). cbn. by apply (IH _ Hd).
Qed.

Lemma cl_put s l c : cl (put l c s) = <[l := c]> (cl s).
Proof. done. Qed.
Lemma cl_del s l : cl (del l s) = delete l (cl s).
Proof. done. Qed.
Lemma cl_alloc s l c b : cl (alloc_at l c b s) = <[l := c]> (cl s).
Proof. done. Qed.
Lemma cl_with_list s t : cl (with_list t s) = cl s.
Proof. done. Qed.
End Steps.

#[export] Hint Rewrite @cl_put @cl_del @cl_alloc @cl_with_list : c2hat.

(** Lookups in a chain of updates at addresses known to differ. *)
Ltac heap_lookup :=
  unfold node_of; autorewrite with c2hat; cbn [nl dl val];
  repeat first
    [ rewrite lookup_insert_eq
    | rewrite lookup_insert_ne by (first [congruence | lia])
    | rewrite lookup_delete_ne by (first [congruence | lia])
    | rewrite lookup_delete_eq ];
  first [eassumption | reflexivity].

(** Run the head command when it is a field access. *)
Ltac list_step :=
  rewrite ?bind_bind, ?bind_ret;
  first
    [ erewrite bind_Done by (apply load_node_Done; heap_lookup)
    | erewrite bind_Done by (apply load_data_Done; heap_lookup)
    | erewrite bind_Done by (eapply set_prev_Done; heap_lookup)
    | erewrite bind_Done by (eapply set_next_Done; heap_lookup)
    | erewrite bind_Done by (eapply set_data_Done; heap_lookup)
    | erewrite bind_Done by (eapply set_dataSize_Done; heap_lookup)
    | erewrite bind_Done by (eapply store_node_Done; heap_lookup)
    | erewrite bind_Done by (eapply on_store_Done; heap_lookup)
    | erewrite bind_Done by (eapply on_free_Done; heap_lookup)
    | unfold set_first, set_last, set_current; erewrite bind_Done by apply upd_Done
    | erewrite bind_Done by (unfold self; reflexivity) ];
  cbn [prev next data dataSize].

(** The heap after a successful [ListNode_new]. *)
Definition with_new_node (value : bytes) (b : nat) (s : lst) : lst :=
  Lst (Mem (<[brk (lm s) := CNode (MkNode None None (Some (Pos.succ (brk (lm s)))) (len value))]>
             (<[Pos.succ (brk (lm s)) := CData value]> (cl s)))
           (Pos.succ (Pos.succ (brk (lm s)))) b) (this s).

Lemma ListNode_new_Done s value b : budget (lm s) = S (S b) →
  ListNode_new value (len value) s = Done (Some (brk (lm s)), with_new_node value b s).
Proof.
  intros Hb. unfold ListNode_new. run (on_calloc_Done s (CNode (MkNode None None None 0)) _ Hb).
  run (on_calloc_Done (alloc_at (brk (lm s)) (CNode (MkNode None None None 0)) (S b) s)
         (CData (replicate (len value) NUL)) b eq_refl).
  cbn [brk lm alloc_at]. list_step. rewrite decide_True by done.
  list_step. list_step. unfold ret. f_equal. f_equal.
  unfold with_new_node, put, alloc_at. cbn. rewrite firstn_all. f_equal. f_equal.
  apply map_eq. intros i. rewrite !lookup_insert. repeat case_decide; subst; try done; lia.
Qed.

(** The two ways [ListNode_new] fails; the second one leaves its node behind. *)
Lemma ListNode_new_None s value k : budget (lm s) = 0 →
  ListNode_new value k s = Done (None, s).
Proof.
  intros Hb. unfold ListNode_new, bind, on_mem.
  rewrite (calloc_None _ _ Hb). by destruct s.
Qed.
