(* ===== verification/ListOps.v ===== *)
(** * Correctness of the list operations (src/lib/list)

    Every operation of [ListLib] refines an operation on the sequence of
    entries: insertion, deletion, update, search, access and the cursor. *)

From S2P Require Import Prelude.
From S2P Require Import Heap.
From S2P Require Import ListLib.

(** ** Splicing an entry in and out of a segment *)

Section Splice.
Implicit Types (c : gmap loc cell) (A B : list entry) (e : entry).

Lemma hd_ptr_locs B l : Some l = hd_ptr B None → l ∈ locs B.
Proof. destruct B as [|b B]; [done|]. intros [= ->]. rewrite locs_cons. set_solver. Qed.

Lemma lst_ptr_locs A l : Some l = lst_ptr A None → l ∈ locs A.
Proof.
  destruct A as [|a A _] using rev_ind; [done|].
  rewrite lst_ptr_snoc, locs_app. intros [= ->]. set_solver.
Qed.

(** Joining two segments of [c] whose facing pointers were redirected. *)
Lemma dseg_join c c' A B pA pB :
  dseg c None A pA → dseg c pB B None → NoDup (locs (A ++ B)) →
  (∀ l, l ∈ locs (A ++ B) → Some l ≠ lst_ptr A None → Some l ≠ hd_ptr B None →
     c' !! l = c !! l) →
  ∀ qA qB,
  (∀ A' a, A = A' ++ [a] → c' !! nl a = Some (node_of (lst_ptr A' None) qA a)) →
  (∀ b B', B = b :: B' → c' !! nl b = Some (node_of qB (hd_ptr B' None) b)) →
  dseg c' None A qA ∧ dseg c' qB B None.
Proof.
  intros HA HB Hnd Hf qA qB Ha Hb. rewrite locs_app in Hnd, Hf.
  apply NoDup_app in Hnd as (HndA & Hdj & HndB). split.
  - eapply dseg_relink_next; [|exact Ha|done|exact HA].
    intros l Hl Hne. apply Hf; [set_solver|done|].
    intros Heq%hd_ptr_locs. by apply (Hdj l).
  - eapply dseg_relink_prev; [|exact Hb|done|exact HB].
    intros l Hl Hne. apply Hf; [set_solver| |done].
    intros Heq%lst_ptr_locs. by apply (Hdj l).
Qed.
End Splice.

(** ** Insertion *)

Section Insert.
Implicit Types (s : lst) (A B : list entry).

(** The state of a list after the insertion of [e] between [A] and [B],
    described by its lookups. *)
Lemma rep_splice s s' A e B :
  rep s (A ++ B) →
  nl e ∉ locs (A ++ B) → dl e ∉ locs (A ++ B) → nl e ≠ dl e →
  mem_wf (lm s') →
  cl s' !! nl e = Some (node_of (lst_ptr A None) (hd_ptr B None) e) →
  cl s' !! dl e = Some (CData (val e)) →
  (∀ A' a, A = A' ++ [a] → cl s' !! nl a = Some (node_of (lst_ptr A' None) (Some (nl e)) a)) →
  (∀ b B', B = b :: B' → cl s' !! nl b = Some (node_of (Some (nl e)) (hd_ptr B' None) b)) →
  (∀ l, l ≠ nl e → l ≠ dl e → Some l ≠ lst_ptr A None → Some l ≠ hd_ptr B None →
     cl s' !! l = cl s !! l) →
  first (this s') = hd_ptr (A ++ [e]) None →
  last (this s') = lst_ptr B (Some (nl e)) →
  length (this s') = (length (this s) + 1)%Z →
  (Z.of_nat (len (A ++ B)) < INT_MAX)%Z →
  rep s' (A ++ e :: B).
Proof.
  intros R Hn Hd Hnd Hwf He1 He2 HA HB Hf Hfst Hlst Hlen Hmax.
  pose proof (rep_seg _ _ R) as Hs. rewrite dseg_app in Hs. destruct Hs as [HsA HsB].
  destruct (dseg_join _ (cl s') A B _ _ HsA HsB (rep_nodup _ _ R)) with
    (qA := Some (nl e)) (qB := Some (nl e)) as [H1 H2]; [|done..|].
  { intros l Hl Ha Hb. apply Hf; [set_solver..|done|done]. }
  assert (Hperm : locs (A ++ e :: B) ≡ₚ nl e :: dl e :: locs (A ++ B)).
  { rewrite !locs_app, locs_cons. by rewrite <- !Permutation_middle. }
  split.
  - rewrite dseg_app. cbn. done.
  - rewrite Hperm. apply NoDup_cons; split; [set_solver|].
    apply NoDup_cons; split; [done|]. apply (rep_nodup _ _ R).
  - intros l Hl. rewrite Hperm.
    destruct (decide (l = nl e)); [set_solver|]. destruct (decide (l = dl e)); [set_solver|].
    rewrite !elem_of_cons. right; right. rewrite locs_app.
    destruct (decide (Some l = lst_ptr A None)) as [?%lst_ptr_locs|]; [set_solver|].
    destruct (decide (Some l = hd_ptr B None)) as [?%hd_ptr_locs|]; [set_solver|].
    rewrite <- locs_app. apply (rep_own _ _ R). by rewrite <- Hf.
  - done.
  - rewrite Hfst, !hd_ptr_app. done.
  - rewrite Hlst, lst_ptr_app. done.
  - rewrite Hlen, (rep_length _ _ R), !length_app. cbn. lia.
  - rewrite !length_app in *. cbn. lia.
Qed.

Lemma mem_wf_put s l c : (l < brk (lm s))%positive →
  mem_wf (lm s) → mem_wf (lm (put l c s)).
Proof.
  intros Hl Hwf l' Hl'. cbn in *. rewrite lookup_insert_ne by lia. by apply Hwf.
Qed.

Lemma mem_wf_new_node s value b : mem_wf (lm s) → mem_wf (lm (with_new_node value b s)).
Proof.
  intros Hwf l Hl. cbn in *. rewrite !lookup_insert_ne by lia. apply Hwf. lia.
Qed.
End Insert.

Section InsertRun.
Context (s : lst) (value : bytes) (b : nat).
Context (Hb : budget (lm s) = S (S b)).

(** The entry a successful [ListNode_new] creates. *)
Abbreviation new_entry := (Entry (brk (lm s)) (Pos.succ (brk (lm s))) value).

Lemma new_entry_fresh es : rep s es →
  (nl new_entry ∉ locs es) ∧ (dl new_entry ∉ locs es) ∧ (nl new_entry ≠ dl new_entry).
Proof.
  intros R. split_and!; [apply (rep_fresh _ _ R); cbn; lia..|cbn; lia].
Qed.

Lemma List_insert_run A B :
  rep s (A ++ B) → (Z.of_nat (len (A ++ B)) < INT_MAX)%Z →
  ∃ s', List_insert value (len value) (Z.of_nat (len A)) s = Done (true, s')
    ∧ rep s' (A ++ new_entry :: B)
    ∧ budget (lm s') = b
    ∧ (brk (lm s) ≤ brk (lm s'))%positive
    ∧ current (this s') =
        if decide (A ++ B = []) then Some (nl new_entry) else current (this s).
Proof.
  intros R Hmax. destruct (new_entry_fresh _ R) as (Hn & Hd & Hnd).
  pose proof (rep_length _ _ R) as Hlen. pose proof (rep_first _ _ R) as Hfst.
  pose proof (rep_last _ _ R) as Hlst. pose proof (rep_seg _ _ R) as Hseg.
  assert (Hadd : (INT_MIN ≤ length (this s) + 1 ≤ INT_MAX)%Z).
  { rewrite Hlen. unfold INT_MIN, INT_MAX in *. lia. }
  assert (Hbrk : ∀ l, l ∈ locs (A ++ B) → (l < brk (lm s))%positive) by apply (rep_brk _ _ R).
  unfold List_insert. erewrite bind_Done by done.
  rewrite (proj2 (Z.leb_le 0 _)) by lia.
  rewrite (proj2 (Z.leb_le _ (length (this s)))) by (rewrite Hlen, length_app; lia). cbn [andb].
  run (ListNode_new_Done _ value _ Hb). erewrite bind_Done by done.
  cbn [with_new_node this].
  destruct (decide (A ++ B = [])) as [Hnil|Hne].
  { apply app_nil in Hnil as [-> ->]. rewrite Hfst. cbn [hd_ptr app].
    do 3 list_step.
    erewrite bind_Done by (by apply add_length_Done).
    eexists. split; [reflexivity|]. split_and!; [|done|cbn; lia|done].
    eapply (rep_splice s _ [] new_entry []); try done.
    - apply (mem_wf_new_node s value b), (rep_wf _ _ R).
    - unfold cl; cbn. by rewrite lookup_insert_eq.
    - unfold cl; cbn. rewrite lookup_insert_ne by lia. by rewrite lookup_insert_eq.
    - intros A' a Ha. by destruct A'.
    - intros l H1 H2 _ _. unfold cl; cbn in *. by rewrite !lookup_insert_ne by congruence. }
  assert (∃ l0, first (this s) = Some l0) as [l0 Hl0].
  { rewrite Hfst. destruct (A ++ B); [done|]. eauto. }
  rewrite Hl0, <- Hl0, Hfst. set (s1 := with_new_node value b s).
  assert (Hseg1 : dseg (cl s1) None (A ++ B) None).
  { eapply dseg_frame; [|exact Hseg]. intros l Hl%Hbrk. unfold s1, cl; cbn.
    by rewrite !lookup_insert_ne by lia. }
  rewrite Nat2Z.id. run (walk_Done _ _ _ _ _ Hseg1).
  assert (Hnew : cl s1 !! brk (lm s) = Some (CNode (MkNode None None
    (Some (Pos.succ (brk (lm s)))) (len value)))).
  { unfold s1, cl; cbn. by rewrite lookup_insert_eq. }
  assert (Hdat : cl s1 !! Pos.succ (brk (lm s)) = Some (CData value)).
  { unfold s1, cl; cbn. rewrite lookup_insert_ne by lia. by rewrite lookup_insert_eq. }
  assert (Hold : ∀ l, l ≠ nl new_entry → l ≠ dl new_entry → cl s1 !! l = cl s !! l).
  { intros l H1 H2. unfold s1, cl; cbn in *. by rewrite !lookup_insert_ne by congruence. }
  assert (Hwf1 : mem_wf (lm s1)) by (apply mem_wf_new_node, (rep_wf _ _ R)).
  assert (Hbrk1 : ∀ l, l ∈ locs (A ++ B) → (l < brk (lm s))%positive) by done.
  destruct B as [|e B]; cbn [hd_ptr].
  - (* appending *)
    destruct A as [|a A _] using rev_ind; [done|]. rewrite app_nil_r in *.
    rewrite locs_app, locs_cons in Hbrk.
    assert (Ha : (nl a < brk (lm s))%positive) by (apply Hbrk; set_solver).
    assert (Hla : cl s1 !! nl a =
      Some (CNode (MkNode (lst_ptr A None) None (Some (dl a)) (len (val a))))).
    { rewrite Hold by (cbn; lia). by destruct (dseg_mid _ _ _ _ _ _ Hseg) as [? _]. }
    rewrite Hlst, lst_ptr_snoc. list_step. list_step.
    list_step.
    erewrite bind_Done by (by apply add_length_Done).
    eexists. split; [reflexivity|]. split_and!; [|done|cbn; lia|done].
    eapply (rep_splice s _ (A ++ [a]) new_entry []); rewrite ?app_nil_r; try done.
    + do 2 (apply mem_wf_put; [cbn; lia|]). done.
    + rewrite lst_ptr_snoc. heap_lookup.
    + heap_lookup.
    + intros A' a' [-> [= ->]]%app_inj_tail. heap_lookup.
    + rewrite lst_ptr_snoc. intros l H1 H2 H3 _. rewrite <- Hold by done.
      autorewrite with c2hat. rewrite !lookup_insert_ne by (cbn in *; congruence). done.
    + cbn. rewrite Hfst. destruct A; done.
  - (* inserting before [e] *)
    rewrite locs_app, locs_cons in Hbrk.
    assert (He : (nl e < brk (lm s))%positive) by (apply Hbrk; set_solver).
    assert (Hle : cl s1 !! nl e =
      Some (CNode (MkNode (lst_ptr A None) (hd_ptr B None) (Some (dl e)) (len (val e))))).
    { rewrite Hold by (cbn; lia). by destruct (dseg_mid _ _ _ _ _ _ Hseg) as [? _]. }
    do 4 list_step.
    destruct A as [|a A _] using rev_ind; cbn [lst_ptr].
    + do 2 list_step. erewrite bind_Done by (by apply add_length_Done).
      eexists. split; [reflexivity|]. split_and!; [|done|cbn; lia|done].
      eapply (rep_splice s _ [] new_entry (e :: B)); try done.
      * do 3 (apply mem_wf_put; [cbn; lia|]). done.
      * heap_lookup.
      * heap_lookup.
      * intros A' a Ha. by destruct A'.
      * intros b0 B' [= <- <-]. heap_lookup.
      * intros l H1 H2 _ H4. rewrite <- Hold by done.
        autorewrite with c2hat. rewrite !lookup_insert_ne by (cbn in *; congruence). done.
    + rewrite lst_ptr_snoc in *.
      rewrite locs_app, locs_cons in Hbrk.
      assert (Ha : (nl a < brk (lm s))%positive) by (apply Hbrk; set_solver).
      assert (Hae : nl a ≠ nl e).
      { intros Heq. pose proof (rep_nodup _ _ R) as Hu.
        rewrite locs_app, locs_app, NoDup_app in Hu. destruct Hu as (_ & Hu & _).
        apply (Hu (nl a)); [set_solver|]. rewrite Heq, locs_cons. set_solver. }
      assert (Hla : cl s1 !! nl a =
        Some (CNode (MkNode (lst_ptr A None) (Some (nl e)) (Some (dl a)) (len (val a))))).
      { rewrite Hold by (cbn; lia). rewrite <- app_assoc in Hseg.
        by destruct (dseg_mid _ _ _ _ _ _ Hseg) as [? _]. }
      do 2 list_step. erewrite bind_Done by (by apply add_length_Done).
      eexists. split; [reflexivity|]. split_and!; [|done|cbn; lia|done].
      eapply (rep_splice s _ (A ++ [a]) new_entry (e :: B)); try done.
      * do 4 (apply mem_wf_put; [cbn; lia|]). done.
      * rewrite lst_ptr_snoc. heap_lookup.
      * heap_lookup.
      * intros A' a' [-> [= ->]]%app_inj_tail. heap_lookup.
      * intros b0 B' [= <- <-]. heap_lookup.
      * rewrite lst_ptr_snoc. intros l H1 H2 H3 H4. rewrite <- Hold by done.
        autorewrite with c2hat. rewrite !lookup_insert_ne by (cbn in *; congruence). done.
      * cbn. rewrite Hfst. by destruct A.
      * cbn. by rewrite Hlst, lst_ptr_app.
Qed.
End InsertRun.

(** ** Deletion *)

Section Delete.
Implicit Types (s : lst) (A B : list entry) (e : entry).

(** The heap after [ListNode_free] of a node and its data block. *)
Definition without_node (l d : loc) (s : lst) : lst :=
  Lst (Mem (delete l (delete d (cl s))) (brk (lm s)) (budget (lm s))) (this s).

Lemma ListNode_free_Done s l d pv nx k bs :
  cl s !! l = Some (CNode (MkNode pv nx (Some d) k)) → cl s !! d = Some (CData bs) →
  ListNode_free (Some l) s = Done (None, without_node l d s).
Proof.
  intros Hl Hd. assert (l ≠ d) by congruence. unfold ListNode_free.
  do 6 list_step. unfold ret. f_equal. f_equal. unfold without_node, del, put. cbn.
  f_equal. f_equal. apply map_eq. intros i.
  rewrite !lookup_delete, !lookup_insert, !lookup_delete, !lookup_insert.
  repeat case_decide; congruence.
Qed.

Lemma rep_unsplice s s' A e B :
  rep s (A ++ e :: B) →
  mem_wf (lm s') →
  (∀ A' a, A = A' ++ [a] → cl s' !! nl a = Some (node_of (lst_ptr A' None) (hd_ptr B None) a)) →
  (∀ b B', B = b :: B' → cl s' !! nl b = Some (node_of (lst_ptr A None) (hd_ptr B' None) b)) →
  cl s' !! nl e = None → cl s' !! dl e = None →
  (∀ l, l ≠ nl e → l ≠ dl e → Some l ≠ lst_ptr A None → Some l ≠ hd_ptr B None →
     cl s' !! l = cl s !! l) →
  first (this s') = hd_ptr (A ++ B) None →
  last (this s') = lst_ptr (A ++ B) None →
  length (this s') = (length (this s) - 1)%Z →
  rep s' (A ++ B).
Proof.
  intros R Hwf HA HB He1 He2 Hf Hfst Hlst Hlen.
  assert (Hperm : locs (A ++ e :: B) ≡ₚ nl e :: dl e :: locs (A ++ B)).
  { rewrite !locs_app, locs_cons. by rewrite <- !Permutation_middle. }
  pose proof (rep_nodup _ _ R) as Hnd. rewrite Hperm in Hnd.
  apply NoDup_cons in Hnd as [Hn1 Hnd]. apply NoDup_cons in Hnd as [Hn2 Hnd].
  pose proof (rep_seg _ _ R) as Hs. rewrite dseg_app in Hs. destruct Hs as [HsA (_ & _ & HsB)].
  destruct (dseg_join _ (cl s') A B _ _ HsA HsB Hnd) with
    (qA := hd_ptr B None) (qB := lst_ptr A None) as [H1 H2]; [|done..|].
  { intros l Hl Ha Hb. apply Hf; [set_solver..|done|done]. }
  split; try done.
  - by rewrite dseg_app.
  - intros l Hl. destruct (decide (l = nl e)) as [->|]; [rewrite He1 in Hl; by destruct Hl|].
    destruct (decide (l = dl e)) as [->|]; [rewrite He2 in Hl; by destruct Hl|].
    rewrite locs_app.
    destruct (decide (Some l = lst_ptr A None)) as [?%lst_ptr_locs|]; [set_solver|].
    destruct (decide (Some l = hd_ptr B None)) as [?%hd_ptr_locs|]; [set_solver|].
    rewrite Hf in Hl by done. apply (rep_own _ _ R) in Hl. rewrite Hperm, locs_app in Hl.
    set_solver.
  - rewrite Hlen, (rep_length _ _ R), !length_app. cbn. lia.
  - pose proof (rep_int _ _ R) as Hi. rewrite !length_app in *. cbn in Hi. lia.
Qed.

Lemma cl_without l d s : cl (without_node l d s) = delete l (delete d (cl s)).
Proof. done. Qed.

Lemma mem_wf_without s l d : mem_wf (lm s) → mem_wf (lm (without_node l d s)).
Proof.
  intros Hwf l' Hl'. cbn in *. rewrite !lookup_delete_None. right. right. by apply Hwf.
Qed.

(** Distinct positions of a list are distinct nodes. *)
Lemma rep_distinct s A e B : rep s (A ++ e :: B) →
  (nl e ∉ locs (A ++ B)) ∧ (dl e ∉ locs (A ++ B)) ∧ nl e ≠ dl e.
Proof.
  intros R. pose proof (rep_nodup _ _ R) as Hnd.
  rewrite locs_app, locs_cons, <- !Permutation_middle, <- locs_app in Hnd.
  apply NoDup_cons in Hnd as [H1 Hnd]. apply NoDup_cons in Hnd as [H2 Hnd]. set_solver.
Qed.
End Delete.

#[export] Hint Rewrite @cl_without : c2hat.

(** The nodes next to a position, and that they are different nodes. *)
Section Neighbours.
Context (s : lst) (A B : list entry) (R : rep s (A ++ B)).

Lemma left_neighbour A' a : A = A' ++ [a] →
  cl s !! nl a = Some (CNode (MkNode (lst_ptr A' None) (hd_ptr B None)
                                     (Some (dl a)) (len (val a))))
  ∧ (nl a < brk (lm s))%positive.
Proof.
  intros ->. split.
  - pose proof (rep_seg _ _ R) as Hs. rewrite <- app_assoc in Hs.
    by destruct (dseg_mid _ _ _ _ _ _ Hs) as [? _].
  - apply (rep_brk _ _ R). rewrite !locs_app, locs_cons. set_solver.
Qed.

Lemma right_neighbour b B' : B = b :: B' →
  cl s !! nl b = Some (CNode (MkNode (lst_ptr A None) (hd_ptr B' None)
                                     (Some (dl b)) (len (val b))))
  ∧ (nl b < brk (lm s))%positive.
Proof.
  intros ->. split.
  - by destruct (dseg_mid _ _ _ _ _ _ (rep_seg _ _ R)) as [? _].
  - apply (rep_brk _ _ R). rewrite !locs_app, locs_cons. set_solver.
Qed.

Lemma neighbours_differ A' a b B' : A = A' ++ [a] → B = b :: B' → nl a ≠ nl b.
Proof.
  intros -> -> Heq. pose proof (rep_nodup _ _ R) as Hu.
  rewrite !locs_app, !locs_cons, NoDup_app in Hu. destruct Hu as (_ & Hu & _).
  apply (Hu (nl a)); [|rewrite Heq]; set_solver.
Qed.
End Neighbours.

(** The structural goals of a splice, read off the updated heap. *)
Ltac splice_goal :=
  first
    [ done
    | heap_lookup
    | let Heq := fresh in let A'' := fresh in let a'' := fresh in
      intros A'' a'' Heq;
      first [ by destruct A''
            | apply app_inj_tail in Heq as [-> [= ->]]; heap_lookup
            | injection Heq as <- <-; heap_lookup ]
    | intros; autorewrite with c2hat; cbn [nl dl hd_ptr lst_ptr] in *; rewrite ?lst_ptr_snoc in *;
      rewrite ?lookup_delete_ne, ?lookup_insert_ne by congruence; done
    | cbn; rewrite ?hd_ptr_app, ?lst_ptr_app in *; cbn [hd_ptr lst_ptr] in *; congruence
    | repeat first [ apply mem_wf_without | apply mem_wf_put; [cbn; lia|] ]; done ].

Section DeleteRun.
Context (s : lst) (A B : list entry) (e : entry) (R : rep s (A ++ e :: B)).

Lemma List_delete_run :
  ∃ s', List_delete (Z.of_nat (len A)) s = Done (true, s')
    ∧ rep s' (A ++ B)
    ∧ budget (lm s') = budget (lm s)
    ∧ brk (lm s') = brk (lm s)
    ∧ current (this s') =
        if decide (A = []) then hd_ptr B None else current (this s).
Proof.
  destruct (rep_distinct _ _ _ _ R) as (Hn & Hd & Hnd).
  pose proof (rep_length _ _ R) as Hlen. pose proof (rep_first _ _ R) as Hfst.
  pose proof (rep_last _ _ R) as Hlst. pose proof (rep_seg _ _ R) as Hseg.
  pose proof (rep_wf _ _ R) as Hwf.
  destruct (dseg_mid _ _ _ _ _ _ Hseg) as [Hle Hde].
  assert (Hadd : (INT_MIN ≤ length (this s) + -1 ≤ INT_MAX)%Z).
  { rewrite Hlen. pose proof (rep_int _ _ R). rewrite length_app in *. cbn in *.
    unfold INT_MIN, INT_MAX in *. lia. }
  unfold List_delete. erewrite bind_Done by done.
  rewrite (rep_empty _ _ R), bool_decide_eq_false_2 by (by destruct A).
  rewrite (proj2 (Z.leb_le 0 _)) by lia.
  rewrite (proj2 (Z.ltb_lt _ (length (this s)))) by (rewrite Hlen, length_app; cbn; lia).
  cbn [andb negb]. rewrite Nat2Z.id, Hfst.
  run (walk_Done _ _ _ _ _ Hseg). cbn [hd_ptr]. list_step.
  pose proof R as R'. rewrite (cons_middle e), app_assoc in R'.
  destruct A as [|a A' _] using rev_ind; destruct B as [|b B']; cbn [lst_ptr hd_ptr app];
    rewrite ?lst_ptr_snoc.
  - do 3 list_step. cbn [this with_list current first last]. do 3 list_step.
    erewrite bind_Done by (eapply (ListNode_free_Done _ (nl e) (dl e)); heap_lookup).
    erewrite bind_Done by (by apply add_length_Done).
    eexists. split; [reflexivity|]. split_and!; [|done..].
    eapply (rep_unsplice s _ [] e []); splice_goal.
  - destruct (right_neighbour _ _ _ R' b B' eq_refl) as [Hlb Hb].
    assert (nl e ≠ nl b) by (rewrite locs_app, locs_cons in Hn; set_solver).
    do 3 list_step. cbn [this with_list current first last]. do 2 list_step.
    erewrite bind_Done by (eapply (ListNode_free_Done _ (nl e) (dl e)); heap_lookup).
    erewrite bind_Done by (by apply add_length_Done).
    eexists. split; [reflexivity|]. split_and!; [|done..].
    eapply (rep_unsplice s _ [] e (b :: B')); splice_goal.
  - destruct (left_neighbour _ _ _ R A' a eq_refl) as [Hla Ha].
    assert (nl e ≠ nl a) by (rewrite !locs_app, locs_cons in Hn; set_solver).
    do 3 list_step.
    erewrite bind_Done by (eapply (ListNode_free_Done _ (nl e) (dl e)); heap_lookup).
    erewrite bind_Done by (by apply add_length_Done).
    eexists. split; [reflexivity|]. split_and!; [|done..| by destruct A'].
    eapply (rep_unsplice s _ (A' ++ [a]) e []); rewrite ?lst_ptr_snoc; splice_goal.
  - destruct (left_neighbour _ _ _ R A' a eq_refl) as [Hla Ha].
    destruct (right_neighbour _ _ _ R' b B' eq_refl) as [Hlb Hb].
    assert (nl e ≠ nl a) by (rewrite !locs_app, !locs_cons in Hn; set_solver).
    assert (nl e ≠ nl b) by (rewrite !locs_app, !locs_cons in Hn; set_solver).
    assert (nl a ≠ nl b).
    { intros Heq. destruct (rep_distinct s A' a (e :: b :: B')) as [Hx _].
      - by rewrite <- app_assoc in R.
      - apply Hx. rewrite Heq, locs_app, !locs_cons. set_solver. }
    do 2 list_step.
    erewrite bind_Done by (eapply (ListNode_free_Done _ (nl e) (dl e)); heap_lookup).
    erewrite bind_Done by (by apply add_length_Done).
    eexists. split; [reflexivity|]. split_and!; [|done..| by destruct A'].
    eapply (rep_unsplice s _ (A' ++ [a]) e (b :: B')); rewrite ?lst_ptr_snoc; splice_goal.
Qed.
End DeleteRun.

(** ** Update *)

Section UpdateRun.
Context (s : lst) (A B : list entry) (e : entry) (R : rep s (A ++ e :: B)).
Context (value : bytes) (b : nat) (Hb : budget (lm s) = S b).

Abbreviation new_data := (Entry (nl e) (brk (lm s)) value).

(** The state of a list after the data of [e] was replaced. *)
Lemma rep_replace s' :
  mem_wf (lm s') → this s' = this s →
  cl s' !! nl e = Some (node_of (lst_ptr A None) (hd_ptr B None) new_data) →
  cl s' !! brk (lm s) = Some (CData value) →
  cl s' !! dl e = None →
  (∀ l, l ≠ nl e → l ≠ dl e → l ≠ brk (lm s) → cl s' !! l = cl s !! l) →
  rep s' (A ++ new_data :: B).
Proof.
  intros Hwf Ht Hn Hd Hold Hf. destruct (rep_distinct _ _ _ _ R) as (H1 & H2 & H3).
  rewrite locs_app in H1, H2.
  assert (Hfr : ∀ l, l ∈ locs (A ++ e :: B) → (l < brk (lm s))%positive) by apply (rep_brk _ _ R).
  rewrite locs_app, locs_cons in Hfr.
  assert (Hperm : ∀ x, locs (A ++ x :: B) ≡ₚ nl x :: dl x :: locs (A ++ B)).
  { intros x. rewrite !locs_app, locs_cons. by rewrite <- !Permutation_middle. }
  pose proof (rep_seg _ _ R) as Hs. rewrite dseg_app in Hs. destruct Hs as [HsA (_ & _ & HsB)].
  assert (Hfr' : ∀ l, l ∈ locs A ∨ l ∈ locs B → cl s' !! l = cl s !! l).
  { intros l Hl. apply Hf; [set_solver..|]. intros ->.
    assert (brk (lm s) < brk (lm s))%positive by (apply Hfr; set_solver). lia. }
  split; rewrite ?Ht.
  - rewrite dseg_app. cbn. split_and!; [|done..|].
    + eapply dseg_frame; [|exact HsA]. auto.
    + eapply dseg_frame; [|exact HsB]. auto.
  - rewrite Hperm. cbn. pose proof (rep_nodup _ _ R) as Hnd. rewrite Hperm in Hnd.
    apply NoDup_cons in Hnd as [Ha Hnd]. apply NoDup_cons in Hnd as [Hc Hnd].
    assert (Hbn : brk (lm s) ∉ nl e :: locs (A ++ B)).
    { intros Hin. assert (brk (lm s) < brk (lm s))%positive; [|lia].
      apply Hfr. rewrite locs_app in Hin. set_solver. }
    apply NoDup_cons; split; [set_solver|]. apply NoDup_cons; split; [set_solver|done].
  - intros l Hl. rewrite Hperm. cbn.
    destruct (decide (l = dl e)) as [->|]; [rewrite Hold in Hl; by destruct Hl|].
    destruct (decide (l = nl e)); [set_solver|]. destruct (decide (l = brk (lm s))); [set_solver|].
    rewrite Hf in Hl by done. apply (rep_own _ _ R) in Hl. rewrite Hperm in Hl. set_solver.
  - done.
  - rewrite (rep_first _ _ R). by rewrite !hd_ptr_app.
  - rewrite (rep_last _ _ R). by rewrite !lst_ptr_app.
  - rewrite (rep_length _ _ R), !length_app. done.
  - pose proof (rep_int _ _ R) as Hi. rewrite !length_app in *. done.
Qed.

Lemma List_update_run :
  ∃ s', List_update value (len value) (Z.of_nat (len A)) s = Done (true, s')
    ∧ rep s' (A ++ new_data :: B)
    ∧ budget (lm s') = b
    ∧ (brk (lm s) ≤ brk (lm s'))%positive
    ∧ this s' = this s.
Proof.
  destruct (rep_distinct _ _ _ _ R) as (Hn & Hd & Hnd).
  destruct (dseg_mid _ _ _ _ _ _ (rep_seg _ _ R)) as [Hle Hde].
  assert (Hbe : (nl e < brk (lm s))%positive).
  { apply (rep_brk _ _ R). rewrite locs_app, locs_cons. set_solver. }
  assert (Hbd : (dl e < brk (lm s))%positive).
  { apply (rep_brk _ _ R). rewrite locs_app, locs_cons. set_solver. }
  unfold List_update. erewrite bind_Done by done.
  rewrite (rep_empty _ _ R), bool_decide_eq_false_2 by (by destruct A).
  rewrite (proj2 (Z.leb_le 0 _)) by lia.
  rewrite (proj2 (Z.ltb_lt _ (length (this s))))
    by (rewrite (rep_length _ _ R), length_app; cbn; lia).
  cbn [andb negb]. rewrite Nat2Z.id, (rep_first _ _ R).
  run (walk_Done _ _ _ _ _ (rep_seg _ _ R)). cbn [hd_ptr]. do 4 list_step.
  erewrite bind_Done by (eapply on_calloc_Done; cbn; exact Hb). cbn [lm del put brk].
  list_step. rewrite decide_True by done. list_step. list_step.
  eexists. split; [reflexivity|]. split_and!; [|done|cbn; lia|done].
  apply rep_replace; try done.
  - do 3 (apply mem_wf_put; [cbn; lia|]). intros l Hl. cbn in *.
    rewrite lookup_insert_ne by lia. rewrite lookup_delete_ne, lookup_insert_ne by lia.
    apply (rep_wf _ _ R). lia.
  - heap_lookup.
  - rewrite firstn_all. heap_lookup.
  - heap_lookup.
  - intros l H1 H2 H3. autorewrite with c2hat.
    rewrite !lookup_insert_ne by congruence. rewrite lookup_delete_ne, lookup_insert_ne by congruence.
    done.
Qed.
End UpdateRun.
