(* ===== verification/ListAccess.v ===== *)
(** * Access, search and the cursor of a list (src/lib/list) *)

From S2P Require Import Prelude.
From S2P Require Import Heap.
From S2P Require Import ListLib.

(** ** Access and search: the state is only read *)

Section Access.
Context (s : lst) (es : list entry) (R : rep s es).

Lemma entry_lookup i e : es !! i = Some e →
  ∃ pv nx, cl s !! nl e = Some (CNode (MkNode pv nx (Some (dl e)) (len (val e))))
    ∧ cl s !! dl e = Some (CData (val e))
    ∧ nx = nl <$> es !! S i
    ∧ pv = match i with O => None | S j => nl <$> es !! j end.
Proof.
  intros Hi. pose proof (take_drop_middle _ _ _ Hi) as Hs.
  pose proof (rep_seg _ _ R) as Hd. rewrite <- Hs in Hd.
  destruct (dseg_mid _ _ _ _ _ _ Hd) as [H1 H2]. unfold node_of in H1.
  eexists _, _. split_and!; [exact H1|done| |].
  - apply hd_ptr_drop.
  - destruct i as [|j]; [done|].
    assert (Hj : j < len es) by (apply lookup_lt_Some in Hi; lia).
    apply lookup_lt_is_Some in Hj as [e' He'].
    rewrite (take_S_r _ _ _ He'), lst_ptr_snoc, He'. done.
Qed.

Lemma walk_to i e : es !! i = Some e → walk i (hd_ptr es None) s = Done (Some (nl e), s).
Proof.
  intros Hi. pose proof (take_drop_middle _ _ _ Hi) as Hs.
  pose proof (rep_seg _ _ R) as Hd. rewrite <- Hs in Hd.
  pose proof (walk_Done _ _ _ _ _ Hd) as Hw. rewrite Hs in Hw.
  rewrite length_take_le in Hw by (apply lookup_lt_Some in Hi; lia). done.
Qed.

Lemma List_item_run pos :
  List_item pos s =
    Done (if (0 <=? pos)%Z then dl <$> es !! Z.to_nat pos else None, s).
Proof.
  unfold List_item. erewrite bind_Done by done. rewrite (rep_empty _ _ R), (rep_length _ _ R).
  destruct (Z.leb_spec 0 pos) as [Hp|Hp]; [|by rewrite andb_false_r].
  rewrite andb_true_r. destruct (es !! Z.to_nat pos) as [e|] eqn:He.
  - assert (Hlt : (pos < Z.of_nat (len es))%Z) by (apply lookup_lt_Some in He; lia).
    rewrite (proj2 (Z.ltb_lt _ _) Hlt), bool_decide_eq_false_2 by (by intros ->).
    cbn [negb andb]. rewrite (rep_first _ _ R). run (walk_to _ _ He).
    destruct (entry_lookup _ _ He) as (pv & nx & Hn & _). by list_step.
  - apply lookup_ge_None in He. rewrite (proj2 (Z.ltb_ge _ _)) by lia.
    by rewrite andb_false_r.
Qed.

Lemma List_first_run : List_first s = Done (dl <$> head es, s).
Proof.
  unfold List_first. erewrite bind_Done by done.
  rewrite (rep_empty _ _ R), (rep_first _ _ R). destruct es as [|e es'] eqn:E; [done|].
  rewrite bool_decide_eq_false_2 by done. cbn [hd_ptr]. rewrite ptr_eqb_Some_None. cbn [negb andb].
  destruct (rep_seg _ _ R) as [Hn _]. unfold node_of in Hn. by list_step.
Qed.

Lemma List_last_run : List_last s = Done (dl <$> list.last es, s).
Proof.
  unfold List_last. erewrite bind_Done by done.
  rewrite (rep_empty _ _ R), (rep_last _ _ R).
  destruct (list.last es) as [e|] eqn:E.
  - apply last_Some in E as [A ->]. rewrite bool_decide_eq_false_2 by (by destruct A).
    rewrite lst_ptr_snoc. rewrite ptr_eqb_Some_None. cbn [negb andb].
    destruct (dseg_mid _ _ _ _ _ _ (rep_seg _ _ R)) as [Hn _]. unfold node_of in Hn.
    by list_step.
  - apply last_None in E as ->. done.
Qed.

Lemma List_rewind_run :
  List_rewind s =
    Done (negb (bool_decide (es = [])),
          if bool_decide (es = []) then s
          else with_list (MkList (first (this s)) (last (this s)) (first (this s))
                                 (length (this s))) s).
Proof.
  unfold List_rewind. erewrite bind_Done by done. rewrite (rep_empty _ _ R).
  case_bool_decide; done.
Qed.

Lemma List_next_run i : cursor_at s es i →
  List_next s =
    Done (dl <$> es !! i,
          if decide (i < len es)
          then with_list (MkList (first (this s)) (last (this s)) (nl <$> es !! S i)
                                 (length (this s))) s
          else s).
Proof.
  intros [Hi Hc]. unfold List_next. erewrite bind_Done by done. rewrite Hc.
  destruct (es !! i) as [e|] eqn:He; cbn [fmap option_fmap option_map].
  - rewrite decide_True by (by apply lookup_lt_Some in He).
    destruct (entry_lookup _ _ He) as (pv & nx & Hn & _ & -> & _). by do 2 list_step.
  - apply lookup_ge_None in He. by rewrite decide_False by lia.
Qed.

Lemma List_prev_run i : cursor_at s es i →
  List_prev s =
    Done (dl <$> es !! i,
          if decide (i < len es)
          then with_list (MkList (first (this s)) (last (this s))
                            match i with O => None | S j => nl <$> es !! j end
                            (length (this s))) s
          else s).
Proof.
  intros [Hi Hc]. unfold List_prev. erewrite bind_Done by done. rewrite Hc.
  destruct (es !! i) as [e|] eqn:He; cbn [fmap option_fmap option_map].
  - rewrite decide_True by (by apply lookup_lt_Some in He).
    destruct (entry_lookup _ _ He) as (pv & nx & Hn & _ & _ & ->). by do 2 list_step.
  - apply lookup_ge_None in He. by rewrite decide_False by lia.
Qed.

(** A cursor left on a deleted node: the next step reads freed memory. *)
Lemma List_next_dangling l : current (this s) = Some l → l ∉ locs es →
  List_next s = Stuck DanglingPointer ∧ List_prev s = Stuck DanglingPointer.
Proof.
  intros Hc Hl. assert (Hn : cells (lm s) !! l = None).
  { destruct (cells (lm s) !! l) eqn:E; [|done]. destruct Hl. apply (rep_own _ _ R). eauto. }
  assert (Hld : load_node (Some l) s = Stuck DanglingPointer).
  { unfold load_node, bind, on_mem. cbn. by rewrite Hn. }
  split.
  - unfold List_next. erewrite bind_Done by done. rewrite Hc. by apply bind_Stuck.
  - unfold List_prev. erewrite bind_Done by done. rewrite Hc. by apply bind_Stuck.
Qed.

Lemma data_lookup i e : es !! i = Some e → load_data (Some (dl e)) s = Done (val e, s).
Proof.
  intros He. destruct (entry_lookup _ _ He) as (? & ? & _ & Hd & _). by apply load_data_Done.
Qed.
End Access.

Section Search.
Context (needle : bytes) (compare : bytes → bytes → nat → Z).

Lemma search_from_run s pv A B : dseg (cl s) pv (A ++ B) None →
  search_from compare needle (len needle) (len B) (Z.of_nat (len A)) (hd_ptr B None) s =
  Done (match list_find (λ x, len x = len needle ∧ compare x needle (len needle) = 0%Z) (vals B) with
        | Some (i, _) => Z.of_nat (len A + i)
        | None => (-1)%Z
        end, s).
Proof.
  revert A. induction B as [|e B IH]; intros A Hd; [done|].
  destruct (dseg_mid _ _ _ _ _ _ Hd) as [Hn Hv]. unfold node_of in Hn.
  cbn [search_from List.length hd_ptr]. list_step.
  assert (Hnext : search_from compare needle (len needle) (len B) (Z.of_nat (len A) + 1)
      (hd_ptr B None) s =
    Done (match list_find (λ x, len x = len needle ∧ compare x needle (len needle) = 0%Z) (vals B) with
          | Some (i, _) => Z.of_nat (len A + S i) | None => (-1)%Z end, s)).
  { rewrite (cons_middle e), app_assoc in Hd. specialize (IH _ Hd).
    rewrite length_app in IH. cbn [List.length] in IH.
    replace (Z.of_nat (len A) + 1)%Z with (Z.of_nat (len A + 1)) by lia. rewrite IH.
    destruct (list_find _ _) as [[i x]|]; [|done]. do 3 f_equal. lia. }
  cbn [vals fmap list_fmap list_find]. destruct (decide (len (val e) = len needle)) as [Hl|Hl].
  - list_step. destruct (Z.eqb_spec (compare (val e) needle (len needle)) 0) as [Hc|Hc].
    + rewrite decide_True by done. unfold ret. do 3 f_equal. lia.
    + rewrite decide_False by tauto. rewrite Hnext.
      destruct (list_find _ _) as [[i x]|]; done.
  - rewrite decide_False by tauto. rewrite Hnext.
    destruct (list_find _ _) as [[i x]|]; done.
Qed.

Lemma List_search_run s es : rep s es →
  List_search needle (len needle) compare s =
  Done (match list_find (λ x, len x = len needle ∧ compare x needle (len needle) = 0%Z) (vals es) with
        | Some (i, _) => Z.of_nat i
        | None => (-1)%Z
        end, s).
Proof.
  intros R. unfold List_search. erewrite bind_Done by done.
  rewrite (rep_empty _ _ R), (rep_length _ _ R), (rep_first _ _ R), Nat2Z.id.
  case_bool_decide as E; [by subst|]. cbn [negb].
  change 0%Z with (Z.of_nat (len (@nil entry))).
  by rewrite (search_from_run s None [] es (rep_seg _ _ R)).
Qed.
End Search.
