(* ===== verification/ListSpec.v ===== *)
(** * The list as a sequence with a cursor

    The abstract specification of src/lib/list and the refinement theorem:
    any program of list operations, run on the heap, returns what the
    specification returns.  The cursor of the specification is [None] once
    the node it stood on has been deleted: the C list keeps a pointer to
    freed memory there, and the next use of it is undefined behaviour. *)

From S2P Require Import Prelude.
From S2P Require Import Heap.
From S2P Require Import ListLib.
From S2P Require Import ListOps.
From S2P Require Import ListAccess.

(** ** Specification *)

Record aseq : Type := ASeq { items : list bytes; cur : option nat }.

Inductive list_op : Type :=
  | OInsert (value : bytes) (pos : Z)
  | OAppend (value : bytes)
  | OPrepend (value : bytes)
  | ODelete (pos : Z)
  | OUpdate (value : bytes) (pos : Z)
  | ONext
  | OPrev
  | OFirst
  | OLast
  | ORewind
  | OItem (pos : Z)
  | OSearch (needle : bytes) (compare : bytes → bytes → nat → Z).

Inductive list_res : Type :=
  | RBool (b : bool)
  | RPos (pos : Z)
  | RData (d : option bytes).

Definition in_range (pos : Z) (n : nat) : bool := ((0 <=? pos) && (pos <? Z.of_nat n))%Z.

Definition cur_insert (pos : nat) (a : aseq) : option nat :=
  match items a with
  | [] => Some 0
  | _ => (λ i, if decide (i < pos) then i else S i) <$> cur a
  end.

Definition cur_delete (pos : nat) (a : aseq) : option nat :=
  if decide (pos = 0) then Some 0 else
  i ← cur a;
  if decide (i < pos) then Some i else if decide (i = pos) then None else Some (i - 1).

Definition spec_insert (value : bytes) (pos : Z) (a : aseq) : list_res * aseq :=
  if ((0 <=? pos) && (pos <=? Z.of_nat (len (items a))))%Z then
    let p := Z.to_nat pos in
    (RBool true, ASeq (take p (items a) ++ value :: drop p (items a)) (cur_insert p a))
  else (RBool false, a).

Definition spec_delete (pos : Z) (a : aseq) : list_res * aseq :=
  if in_range pos (len (items a)) then
    let p := Z.to_nat pos in
    (RBool true, ASeq (take p (items a) ++ drop (S p) (items a)) (cur_delete p a))
  else (RBool false, a).

Definition spec_update (value : bytes) (pos : Z) (a : aseq) : list_res * aseq :=
  if in_range pos (len (items a))
  then (RBool true, ASeq (<[Z.to_nat pos := value]> (items a)) (cur a))
  else (RBool false, a).

(** First position whose value has the size of the needle and compares equal. *)
Definition spec_search (needle : bytes) (compare : bytes → bytes → nat → Z) (xs : list bytes) : Z :=
  match list_find (λ x, len x = len needle ∧ compare x needle (len needle) = 0%Z) xs with
  | Some (i, _) => Z.of_nat i
  | None => (-1)%Z
  end.

(** [None]: the operation is undefined. *)
Definition spec_op (o : list_op) (a : aseq) : option (list_res * aseq) :=
  match o with
  | OInsert v pos => Some (spec_insert v pos a)
  | OAppend v => Some (spec_insert v (Z.of_nat (len (items a))) a)
  | OPrepend v => Some (spec_insert v 0 a)
  | ODelete pos => Some (spec_delete pos a)
  | OUpdate v pos => Some (spec_update v pos a)
  | ONext =>
    i ← cur a;
    Some (match items a !! i with
          | Some x => (RData (Some x), ASeq (items a) (Some (S i)))
          | None => (RData None, a)
          end)
  | OPrev =>
    i ← cur a;
    Some (match items a !! i with
          | Some x => (RData (Some x),
                       ASeq (items a) (Some (if decide (i = 0) then len (items a) else i - 1)))
          | None => (RData None, a)
          end)
  | OFirst => Some (RData (head (items a)), a)
  | OLast => Some (RData (list.last (items a)), a)
  | ORewind => Some (match items a with
                     | [] => (RBool false, a)
                     | _ => (RBool true, ASeq (items a) (Some 0))
                     end)
  | OItem pos =>
    Some (RData (if in_range pos (len (items a)) then items a !! Z.to_nat pos else None), a)
  | OSearch needle cmp => Some (RPos (spec_search needle cmp (items a)), a)
  end.

Fixpoint spec_run (os : list list_op) (a : aseq) : option (list list_res * aseq) :=
  match os with
  | [] => Some ([], a)
  | o :: os =>
    '(r, a) ← spec_op o a;
    '(rs, a) ← spec_run os a;
    Some (r :: rs, a)
  end.

(** ** The operations on the heap

    A client dereferences the data pointer it gets at once. *)

Definition deref (p : ptr) : cmd lst list_res :=
  match p with
  | None => ret (RData None)
  | Some _ => d <- load_data p;; ret (RData (Some d))
  end.

Definition run_op (o : list_op) : cmd lst list_res :=
  match o with
  | OInsert v pos => b <- List_insert v (len v) pos;; ret (RBool b)
  | OAppend v => b <- List_append v (len v);; ret (RBool b)
  | OPrepend v => b <- List_prepend v (len v);; ret (RBool b)
  | ODelete pos => b <- List_delete pos;; ret (RBool b)
  | OUpdate v pos => b <- List_update v (len v) pos;; ret (RBool b)
  | ONext => p <- List_next;; deref p
  | OPrev => p <- List_prev;; deref p
  | OFirst => p <- List_first;; deref p
  | OLast => p <- List_last;; deref p
  | ORewind => b <- List_rewind;; ret (RBool b)
  | OItem pos => p <- List_item pos;; deref p
  | OSearch needle cmp => i <- List_search needle (len needle) cmp;; ret (RPos i)
  end.

Fixpoint run_ops (os : list list_op) : cmd lst (list list_res) :=
  match os with
  | [] => ret []
  | o :: os => r <- run_op o;; rs <- run_ops os;; ret (r :: rs)
  end.

(** ** Refinement relation *)

Definition cursor_ok (s : lst) (es : list entry) (c : option nat) : Prop :=
  match c with
  | Some i => cursor_at s es i
  | None => ∃ l, current (this s) = Some l ∧ (l ∉ locs es) ∧ (l < brk (lm s))%positive
  end.

Definition refines (s : lst) (a : aseq) : Prop :=
  ∃ es, rep s es ∧ items a = vals es ∧ cursor_ok s es (cur a).

(** ** Refinement of each operation *)

Section OpRefines.
Implicit Types (s : lst) (a : aseq) (es : list entry).

(** [refines_op o]: from refining states and with enough memory, the heap
    operation returns the specified result and refines the new state; where
    the specification is undefined, the operation dereferences a dangling
    pointer. *)
Definition refines_op (o : list_op) : Prop := ∀ s a,
  refines s a → 2 ≤ budget (lm s) → (Z.of_nat (len (items a)) < INT_MAX)%Z →
  match spec_op o a with
  | Some (r, a') => ∃ s', run_op o s = Done (r, s') ∧ refines s' a'
                      ∧ budget (lm s) ≤ budget (lm s') + 2
                      ∧ len (items a') ≤ S (len (items a))
  | None => run_op o s = Stuck DanglingPointer
  end.

Lemma vals_app es es' : vals (es ++ es') = vals es ++ vals es'.
Proof. apply fmap_app. Qed.

Lemma vals_cons e es : vals (e :: es) = val e :: vals es.
Proof. done. Qed.

Lemma length_vals es : len (vals es) = len es.
Proof. apply length_fmap. Qed.

(** Cursors under insertion and deletion. *)
Lemma cursor_insert s s' A B e c :
  rep s (A ++ B) → cursor_ok s (A ++ B) c →
  (nl e ∉ locs (A ++ B)) → (brk (lm s) ≤ nl e)%positive → (brk (lm s) ≤ dl e)%positive →
  (brk (lm s) ≤ brk (lm s'))%positive →
  current (this s') = (if decide (A ++ B = []) then Some (nl e) else current (this s)) →
  cursor_ok s' (A ++ e :: B) (cur_insert (len A) (ASeq (vals (A ++ B)) c)).
Proof.
  intros R Hc Hn Hge1 Hge2 Hbrk. unfold cur_insert; cbn [items cur].
  case_decide as E.
  { apply app_nil in E as [-> ->]. intros Hcur. split; cbn; [lia|done]. }
  intros Hcur.
  assert (Hv : ∀ X, match vals (A ++ B) with [] => Some 0 | _ :: _ => X end = X).
  { intros X. destruct (A ++ B); done. }
  rewrite Hv. destruct c as [i|]; cbn.
  - destruct Hc as [Hi Hc]. split.
    + rewrite length_app in *. cbn. case_decide; lia.
    + rewrite Hcur, Hc. case_decide.
      * by rewrite !lookup_app_l by lia.
      * rewrite !lookup_app_r by lia. replace (S i - len A) with (S (i - len A)) by lia. done.
  - destruct Hc as (l & H1 & H2 & H3). exists l. split_and!; [by rewrite Hcur| |lia].
    rewrite locs_app, locs_cons in *. rewrite !elem_of_app, !elem_of_cons in *.
    intros [|[->|[->|]]]; [tauto|lia|lia|tauto].
Qed.

Lemma cursor_delete s s' A B e c :
  rep s (A ++ e :: B) → cursor_ok s (A ++ e :: B) c → rep s' (A ++ B) →
  brk (lm s') = brk (lm s) →
  current (this s') = (if decide (A = []) then hd_ptr B None else current (this s)) →
  cursor_ok s' (A ++ B) (cur_delete (len A) (ASeq (vals (A ++ e :: B)) c)).
Proof.
  intros R Hc R' Hbrk. unfold cur_delete; cbn [cur].
  destruct (rep_distinct _ _ _ _ R) as (Hn & _).
  destruct (decide (A = [])) as [->|E]; intros Hcur.
  { split; cbn; [lia|]. by rewrite Hcur; destruct B. }
  rewrite decide_False by (by destruct A). destruct c as [i|]; cbn.
  - destruct Hc as [Hi Hc]. rewrite length_app in Hi; cbn in Hi.
    case_decide; [|case_decide as Hi']; cbn.
    + split; [rewrite length_app; lia|]. rewrite Hcur, Hc. by rewrite !lookup_app_l by lia.
    + exists (nl e). split_and!; [|done|].
      * rewrite Hcur, Hc, Hi'. by rewrite list_lookup_middle.
      * rewrite Hbrk. apply (rep_brk _ _ R). rewrite locs_app, locs_cons. set_solver.
    + split; [rewrite length_app; lia|]. rewrite Hcur, Hc.
      rewrite !lookup_app_r by lia. replace (i - len A) with (S (i - 1 - len A)) by lia. done.
  - destruct Hc as (l & H1 & H2 & H3). exists l. split_and!; [by rewrite Hcur| |by rewrite Hbrk].
    rewrite locs_app in *. rewrite locs_cons in H2. set_solver.
Qed.
End OpRefines.

Section OpLemmas.
Implicit Types (s : lst) (a : aseq) (es : list entry).

Lemma insert_refines s a v pos : refines s a → 2 ≤ budget (lm s) →
  (Z.of_nat (len (items a)) < INT_MAX)%Z →
  let '(r, a') := spec_insert v pos a in
  ∃ s', (b <- List_insert v (len v) pos;; ret (RBool b)) s = Done (r, s') ∧ refines s' a'
    ∧ budget (lm s) ≤ budget (lm s') + 2 ∧ len (items a') ≤ S (len (items a)).
Proof.
  intros (es & R & Hit & Hc) Hb Hmax. unfold spec_insert.
  rewrite Hit, length_vals in *.
  destruct ((0 <=? pos) && (pos <=? Z.of_nat (len es)))%Z eqn:E; cbn [items].
  - apply andb_prop in E as [?%Z.leb_le ?%Z.leb_le].
    destruct (split_at es (Z.to_nat pos)) as (A & B & -> & HA); [lia|].
    destruct (budget (lm s)) as [|[|b]] eqn:Hbe; [lia..|].
    destruct (List_insert_run s v b Hbe A B R Hmax) as (s' & Hrun & R' & Hb' & Hbrk & Hcur).
    replace (Z.of_nat (len A)) with pos in Hrun by lia.
    exists s'. split_and!.
    + by rewrite (bind_Done _ _ _ _ _ Hrun).
    + eexists. split_and!; [exact R'| |]; cbn [items cur].
      * rewrite <- HA, vals_app, take_app_length', drop_app_length' by (by rewrite length_vals).
        by rewrite vals_app, vals_cons.
      * destruct a as [its c]; cbn [items cur] in *; subst its. rewrite <- HA.
        eapply (cursor_insert s);
          [exact R|exact Hc|apply (new_entry_fresh s v _ Hbe _ R)|cbn; lia|cbn; lia|exact Hbrk|exact Hcur].
    + rewrite Hb'. lia.
    + rewrite length_app, length_take, length_cons, length_drop, length_vals. lia.
  - exists s. split_and!; [|by exists es|lia|by rewrite Hit, length_vals; lia].
    unfold List_insert. rewrite bind_bind. erewrite bind_Done by done.
    by rewrite (rep_length _ _ R), E.
Qed.

Lemma delete_refines s a pos : refines s a →
  let '(r, a') := spec_delete pos a in
  ∃ s', (b <- List_delete pos;; ret (RBool b)) s = Done (r, s') ∧ refines s' a'
    ∧ budget (lm s') = budget (lm s) ∧ len (items a') ≤ len (items a).
Proof.
  intros (es & R & Hit & Hc). unfold spec_delete, in_range. rewrite Hit, length_vals.
  destruct ((0 <=? pos) && (pos <? Z.of_nat (len es)))%Z eqn:E; cbn [items].
  - apply andb_prop in E as [?%Z.leb_le ?%Z.ltb_lt].
    destruct (split_mid es (Z.to_nat pos)) as (A & e & B & -> & HA); [lia|].
    destruct (List_delete_run s A B e R) as (s' & Hrun & R' & Hb & Hbrk & Hcur).
    replace (Z.of_nat (len A)) with pos in Hrun by lia.
    exists s'. split_and!; [by rewrite (bind_Done _ _ _ _ _ Hrun)| |done|].
    + eexists. split_and!; [exact R'| |]; cbn [items cur].
      * rewrite <- HA, !vals_app, vals_cons.
        rewrite take_app_length' by (by rewrite length_vals).
        rewrite drop_app_ge by (rewrite length_vals; lia).
        rewrite length_vals. by replace (S (len A) - len A) with 1 by lia.
      * destruct a as [its c]; cbn [items cur] in *; subst its. rewrite <- HA.
        eapply (cursor_delete s); [exact R|exact Hc|exact R'|exact Hbrk|exact Hcur].
    + rewrite length_app, length_take, length_drop, length_vals. lia.
  - exists s. split_and!; [|by exists es|done|by rewrite Hit, length_vals].
    unfold List_delete. rewrite bind_bind. erewrite bind_Done by done.
    rewrite (rep_length _ _ R), <- andb_assoc, E, andb_false_r. done.
Qed.

Lemma update_refines s a v pos : refines s a → 1 ≤ budget (lm s) →
  let '(r, a') := spec_update v pos a in
  ∃ s', (b <- List_update v (len v) pos;; ret (RBool b)) s = Done (r, s') ∧ refines s' a'
    ∧ budget (lm s) ≤ budget (lm s') + 1 ∧ len (items a') = len (items a).
Proof.
  intros (es & R & Hit & Hc) Hb. unfold spec_update, in_range. rewrite Hit, length_vals.
  destruct ((0 <=? pos) && (pos <? Z.of_nat (len es)))%Z eqn:E; cbn [items].
  - apply andb_prop in E as [?%Z.leb_le ?%Z.ltb_lt].
    destruct (split_mid es (Z.to_nat pos)) as (A & e & B & -> & HA); [lia|].
    destruct (budget (lm s)) as [|b] eqn:Hbe; [lia|].
    destruct (List_update_run s A B e R v b Hbe) as (s' & Hrun & R' & Hb' & Hbrk & Ht).
    replace (Z.of_nat (len A)) with pos in Hrun by lia.
    exists s'. split_and!; [by rewrite (bind_Done _ _ _ _ _ Hrun)| |lia|by rewrite length_insert, length_vals].
    eexists. split_and!; [exact R'| |]; cbn [items cur].
    + rewrite <- HA, !vals_app, !vals_cons. rewrite <- (length_vals A).
      by rewrite <- (Nat.add_0_r (len _)), insert_app_r.
    + destruct (cur a) as [i|]; cbn in *.
      * destruct Hc as [Hi Hc]. split; [by rewrite length_app in *|].
        rewrite Ht, Hc. destruct (decide (i < len A)); [by rewrite !lookup_app_l by lia|].
        rewrite !lookup_app_r by lia. by destruct (i - len A).
      * destruct Hc as (l & H1 & H2 & H3). exists l. split_and!; [by rewrite Ht| |lia].
        rewrite locs_app, locs_cons in *. cbn. rewrite !elem_of_app, !elem_of_cons in *.
        intros [|[->|[->|]]]; [tauto|tauto|lia|tauto].
  - exists s. split_and!; [|by exists es|lia|by rewrite Hit, length_vals].
    unfold List_update. rewrite bind_bind. erewrite bind_Done by done.
    rewrite (rep_length _ _ R), (rep_empty _ _ R), <- andb_assoc, E, andb_false_r. done.
Qed.

(** Moving the cursor only. *)
Lemma rep_with_cursor s es p :
  rep s es → rep (with_list (MkList (first (this s)) (last (this s)) p (length (this s))) s) es.
Proof. intros R. destruct R. by split. Qed.
End OpLemmas.

Section CursorOps.
Implicit Types (s : lst) (a : aseq) (es : list entry).

(** The data an operation returns can be read, wherever the cursor is. *)
Lemma deref_entry s es i t : rep s es →
  deref (dl <$> es !! i) (with_list t s) = Done (RData (vals es !! i), with_list t s).
Proof.
  intros R. unfold vals. rewrite list_lookup_fmap.
  destruct (es !! i) as [e|] eqn:He; [|done]. cbn.
  destruct (entry_lookup _ _ R _ _ He) as (? & ? & _ & Hd & _).
  erewrite bind_Done by (apply load_data_Done; exact Hd). done.
Qed.

Lemma with_list_id s : with_list (this s) s = s.
Proof. by destruct s. Qed.

Lemma deref_here s es i : rep s es → deref (dl <$> es !! i) s = Done (RData (vals es !! i), s).
Proof. intros R. pose proof (deref_entry s es i (this s) R) as H. by rewrite with_list_id in H. Qed.

Lemma cursor_end s es i : cursor_at s es i → es !! i = None → i = len es.
Proof. intros [Hi _] Hn%lookup_ge_None. lia. Qed.

Lemma next_refines : refines_op ONext.
Proof.
  intros s a (es & R & Hit & Hc) Hb _. cbn [spec_op run_op].
  destruct (cur a) as [i|] eqn:Ea; cbn [mbind option_bind].
  - rewrite Hit. unfold vals at 1. rewrite list_lookup_fmap.
    run (List_next_run _ _ R _ Hc).
    destruct (es !! i) as [e|] eqn:He; cbn [fmap option_fmap option_map].
    + assert (Hlt : i < len es) by (by apply lookup_lt_Some in He).
      rewrite decide_True by done.
      change (Some (dl e)) with (dl <$> Some e). rewrite <- He, (deref_entry _ _ _ _ R).
      unfold vals at 1. rewrite list_lookup_fmap, He. cbn.
      eexists. split; [reflexivity|]. split_and!; [|cbn; lia|cbn; rewrite length_vals; lia].
      eexists. split_and!; [by apply rep_with_cursor|done|]. split; [lia|done].
    + pose proof (cursor_end _ _ _ Hc He). rewrite decide_False by lia.
      exists s. split; [done|]. split_and!; [|lia|rewrite Hit, length_vals; lia].
      exists es. by rewrite Ea.
  - destruct Hc as (l & H1 & H2 & _). apply bind_Stuck.
    apply (List_next_dangling _ _ R _ H1 H2).
Qed.

Lemma prev_refines : refines_op OPrev.
Proof.
  intros s a (es & R & Hit & Hc) Hb _. cbn [spec_op run_op].
  destruct (cur a) as [i|] eqn:Ea; cbn [mbind option_bind].
  - rewrite Hit. unfold vals at 1. rewrite list_lookup_fmap.
    run (List_prev_run _ _ R _ Hc).
    destruct (es !! i) as [e|] eqn:He; cbn [fmap option_fmap option_map].
    + assert (Hlt : i < len es) by (by apply lookup_lt_Some in He).
      rewrite decide_True by done.
      change (Some (dl e)) with (dl <$> Some e). rewrite <- He, (deref_entry _ _ _ _ R).
      unfold vals at 1. rewrite list_lookup_fmap, He. cbn.
      eexists. split; [reflexivity|]. split_and!; [|cbn; lia|cbn; rewrite length_vals; lia].
      eexists. split_and!; [by apply rep_with_cursor|done|]. cbn. rewrite length_vals.
      destruct i as [|j]; cbn.
      * rewrite decide_True by done. split; [lia|]. cbn. by rewrite lookup_ge_None_2.
      * rewrite decide_False, Nat.sub_0_r by lia. split; [lia|done].
    + pose proof (cursor_end _ _ _ Hc He). rewrite decide_False by lia.
      exists s. split; [done|]. split_and!; [|lia|rewrite Hit, length_vals; lia].
      exists es. by rewrite Ea.
  - destruct Hc as (l & H1 & H2 & _). apply bind_Stuck.
    apply (List_next_dangling _ _ R _ H1 H2).
Qed.

Lemma rewind_refines : refines_op ORewind.
Proof.
  intros s a (es & R & Hit & Hc) Hb _. cbn [spec_op run_op].
  run (List_rewind_run _ _ R). rewrite Hit.
  destruct es as [|e es]; cbn [vals fmap list_fmap].
  - rewrite !bool_decide_eq_true_2 by done. exists s. split; [done|].
    split_and!; [by exists []|lia|rewrite Hit; cbn; lia].
  - rewrite !bool_decide_eq_false_2 by done. eexists. split; [reflexivity|].
    split_and!; [|cbn; lia|cbn; rewrite length_fmap; lia].
    exists (e :: es). split_and!; [by apply rep_with_cursor|done|].
    split; [lia|]. cbn. by rewrite (rep_first _ _ R).
Qed.

(** Operations that do not change the state. *)
Lemma reader_refines o (f : aseq → list_res) :
  (∀ a, spec_op o a = Some (f a, a)) →
  (∀ s a es, rep s es → items a = vals es → run_op o s = Done (f a, s)) → refines_op o.
Proof.
  intros Hs Hr s a (es & R & Hit & Hc) _ _. rewrite Hs.
  exists s. split_and!; [by apply (Hr _ _ es)|by exists es|lia|lia].
Qed.

Lemma op_refines o : refines_op o.
Proof.
  destruct o as [v pos|v|v|pos|v pos| | | | | |pos|needle cmp].
  - intros s a Ha Hb Hm. exact (insert_refines s a v pos Ha Hb Hm).
  - intros s a Ha Hb Hm. pose proof Ha as (es & R & Hit & _). cbn [spec_op run_op].
    unfold List_append. rewrite bind_bind. erewrite bind_Done by done.
    rewrite (rep_length _ _ R), Hit, length_vals.
    pose proof (insert_refines s a v (Z.of_nat (len es)) Ha Hb Hm) as H.
    by rewrite <- (length_vals es), <- Hit in *.
  - intros s a Ha Hb Hm. exact (insert_refines s a v 0 Ha Hb Hm).
  - intros s a Ha Hb Hm. cbn [spec_op run_op]. pose proof (delete_refines s a pos Ha) as H.
    destruct (spec_delete pos a) as [r a']. destruct H as (s' & H1 & H2 & H3 & H4).
    exists s'. split_and!; [done|done|lia|lia].
  - intros s a Ha Hb Hm. cbn [spec_op run_op].
    pose proof (update_refines s a v pos Ha) as H.
    destruct (spec_update v pos a) as [r a']. destruct H as (s' & H1 & H2 & H3 & H4); [lia|].
    exists s'. split_and!; [done|done|lia|lia].
  - apply next_refines.
  - apply prev_refines.
  - apply reader_refines with (λ a, RData (head (items a))); [done|].
    intros s a es R ->. cbn [run_op]. run (List_first_run _ _ R).
    rewrite !head_lookup. by apply deref_here.
  - apply reader_refines with (λ a, RData (list.last (items a))); [done|].
    intros s a es R ->. cbn [run_op]. run (List_last_run _ _ R).
    rewrite !last_lookup, length_vals. by apply deref_here.
  - apply rewind_refines.
  - apply reader_refines with (λ a, RData (if in_range pos (len (items a))
                                           then items a !! Z.to_nat pos else None)); [done|].
    intros s a es R ->. cbn [run_op]. run (List_item_run _ _ R pos).
    unfold in_range. rewrite length_vals.
    destruct (Z.leb_spec 0 pos); [|done]. rewrite (deref_here _ _ _ R). cbn [andb].
    destruct (Z.ltb_spec pos (Z.of_nat (len es))); [done|].
    by rewrite lookup_ge_None_2 by (rewrite length_vals; lia).
  - apply reader_refines with (λ a, RPos (spec_search needle cmp (items a))); [done|].
    intros s a es R ->. cbn [run_op]. by run (List_search_run needle cmp _ _ R).
Qed.
End CursorOps.

(** ** Main theorems *)

(** C1. Refinement: every program of list operations that starts from a
    well-formed list and does not run out of memory returns exactly the
    results of the sequence specification, and stays well-formed; it gets
    stuck only where the specification uses a cursor whose node was deleted. *)
Theorem List_program_refines (os : list list_op) (s : lst) (a : aseq)
    (Hr : refines s a)
    (Hb : 2 * len os ≤ budget (lm s))
    (Hm : (Z.of_nat (len (items a) + len os) < INT_MAX)%Z) :
  match spec_run os a with
  | Some (rs, a') => ∃ s', run_ops os s = Done (rs, s') ∧ refines s' a'
  | None => run_ops os s = Stuck DanglingPointer
  end.
Proof.
  revert s a Hr Hb Hm. induction os as [|o os IH]; intros s a Ha Hb Hm; cbn; [by exists s|].
  cbn in Hb, Hm. pose proof (op_refines o s a Ha) as Ho.
  destruct (spec_op o a) as [[r a']|]; cbn; [|apply bind_Stuck, Ho; lia].
  destruct Ho as (s' & Hrun & Ha' & Hb' & Hl); [lia..|].
  specialize (IH s' a' Ha'). run Hrun.
  destruct (spec_run os a') as [[rs a'']|]; cbn; [|apply bind_Stuck, IH; lia].
  destruct IH as (s'' & Hrun' & Ha''); [lia..|]. exists s''. by run Hrun'.
Qed.

(** A fresh list over an empty heap refines the empty sequence. *)
Definition fresh_list (b : nat) : lst := Lst (Mem ∅ 1 b) (MkList None None None 0).

Lemma fresh_refines b : refines (fresh_list b) (ASeq [] (Some 0)).
Proof.
  exists []. split_and!; [|done|].
  - split; try done; [by apply NoDup_nil|..].
    + intros l [c Hc]. unfold cl in Hc. cbn in Hc. by rewrite lookup_empty in Hc.
  - by split.
Qed.

Definition demo_ops : list list_op :=
  [OAppend (lit "b"); OPrepend (lit "a"); OInsert (lit "c") 2; ORewind; ONext; ONext;
   OUpdate (lit "B") 1; OItem 1; ODelete 2; ONext].

Lemma List_program_refines_witness :
  spec_run demo_ops (ASeq [] (Some 0)) = None ∧
  run_ops demo_ops (fresh_list 20) = Stuck DanglingPointer.
Proof.
  split; [vm_compute; reflexivity|].
  apply (List_program_refines demo_ops (fresh_list 20) (ASeq [] (Some 0)) (fresh_refines 20)).
  - cbn. lia.
  - cbn. unfold INT_MAX. lia.
Defined.

Example demo_results :
  spec_run (take 9 demo_ops) (ASeq [] (Some 0)) =
    Some ([RBool true; RBool true; RBool true; RBool true; RData (Some (lit "a"));
           RData (Some (lit "b")); RBool true; RData (Some (lit "B")); RBool true],
          ASeq [lit "a"; lit "B"] None).
Proof. vm_compute. reflexivity. Qed.

Lemma free_nodes_run es s fuel : rep s es → len es < fuel →
  ∃ s', free_nodes fuel s = Done (tt, s') ∧ rep s' [].
Proof.
  revert es s. induction fuel as [|fuel IH]; intros es s R Hf; [lia|].
  cbn [free_nodes]. erewrite bind_Done by done. rewrite (rep_length _ _ R).
  destruct es as [|e A _] using rev_ind; [by exists s|].
  rewrite length_app in *; cbn [List.length] in *.
  rewrite (proj2 (Z.ltb_lt _ _)) by lia.
  destruct (List_delete_run s A [] e R) as (s' & Hrun & R' & _).
  replace (Z.of_nat (len A + 1) - 1)%Z with (Z.of_nat (len A)) by lia.
  run Hrun. rewrite app_nil_r in R'. apply (IH A); [done|lia].
Qed.

(** [List_free] terminates within one deletion per node, sets the caller's
    pointer to [NULL] and leaves no cell of the list on the heap. *)
Theorem List_free_no_leak (s : lst) (es : list entry) (fuel : nat)
    (R : rep s es) (Hf : len es < fuel) :
  ∃ s', List_free fuel s = Done (None, s') ∧ cl s' = ∅.
Proof.
  unfold List_free. erewrite bind_Done by done. rewrite (rep_empty _ _ R).
  assert (Hnil : ∀ s', rep s' [] → cl s' = ∅).
  { intros s' R'. apply map_empty. intros l. destruct (cl s' !! l) eqn:E; [|done].
    assert (Hin : l ∈ locs []) by (apply (rep_own _ _ R'); eauto). by apply elem_of_nil in Hin. }
  case_bool_decide as E.
  - subst es. eexists. split; [reflexivity|]. exact (Hnil s R).
  - destruct (free_nodes_run es s fuel R Hf) as (s' & Hrun & R').
    eexists. split; [by run Hrun|]. exact (Hnil s' R').
Qed.

Definition three_nodes : lst :=
  match run_ops [OAppend (lit "x"); OAppend (lit "y"); OAppend (lit "z")] (fresh_list 6) with
  | Done (_, s) => s
  | Stuck _ => fresh_list 0
  end.

Definition three_entries : list entry :=
  [Entry 1 2 (lit "x"); Entry 3 4 (lit "y"); Entry 5 6 (lit "z")].

(** [rep] of a concrete state, by evaluation. *)
Lemma rep_of_checks s es : dseg (cl s) None es None →
  bool_decide (NoDup (locs es)) = true →
  bool_decide (dom (cl s) ⊆ list_to_set (C := gset loc) (locs es)) = true →
  bool_decide (set_Forall (λ x, (x < brk (lm s))%positive) (dom (cl s))) = true →
  first (this s) = hd_ptr es None → last (this s) = lst_ptr es None →
  length (this s) = Z.of_nat (len es) → (Z.of_nat (len es) ≤ INT_MAX)%Z → rep s es.
Proof.
  intros H1 H2%bool_decide_eq_true H3%bool_decide_eq_true H4%bool_decide_eq_true H5 H6 H7 H8.
  split; try done.
  - intros l [c Hc]. assert (Hd : l ∈ dom (cl s)) by (apply elem_of_dom; eauto).
    by apply H3, elem_of_list_to_set in Hd.
  - intros l Hl. apply not_elem_of_dom. intros Hd. specialize (H4 l Hd). cbn in H4. lia.
Qed.

Lemma three_nodes_rep : rep three_nodes three_entries.
Proof. by apply rep_of_checks; vm_compute. Qed.

Lemma List_free_no_leak_witness :
  ∃ s', List_free 4 three_nodes = Done (None, s') ∧ cl s' = ∅.
Proof. apply (List_free_no_leak three_nodes three_entries 4 three_nodes_rep). cbn. lia. Defined.
