(* ===== verification/ListSort.v ===== *)
(** * Sorting a list (src/lib/list: [Node_swap], [QuickSortList], [List_sort])

    The pointer algorithm is first shown equal to a function on the sequence
    of stored values; that function selects the greatest value of the
    segment, moves it to the right end and goes on with the rest, and its
    result is a sorted permutation whenever the comparison is a strict weak
    order. *)

From S2P Require Import Prelude.
From S2P Require Import Heap.
From S2P Require Import ListLib.
From S2P Require Import ListOps.
From S2P Require Import ListAccess.
From S2P Require Import ListSpec.

(** What [Node_swap] moves: the data block and its contents. *)
Definition payload : Type := loc * bytes.
Definition pay (e : entry) : payload := (dl e, val e).
Definition with_pay (e : entry) (p : payload) : entry := Entry (nl e) p.1 p.2.
Definition with_pays (es : list entry) (ps : list payload) : list entry := zip_with with_pay es ps.

(** ** Reference algorithm on values *)

Section Pure.
Context {A : Type} (lt : A → A → bool).

(** One scan: [x] is exchanged with every greater value met on the way. *)
Fixpoint bubble (x : A) (ys : list A) : A * list A :=
  match ys with
  | [] => (x, [])
  | y :: ys =>
    if lt x y
    then let '(z, zs) := bubble y ys in (z, x :: zs)
    else let '(z, zs) := bubble x ys in (z, y :: zs)
  end.

Fixpoint select_sort (n : nat) (xs : list A) : list A :=
  match n, xs with
  | S n, x :: (_ :: _) as ys =>
    let '(z, zs) := bubble x (tail xs) in
    match list.last zs with
    | Some w => select_sort n (w :: take (len zs - 1) zs) ++ [z]
    | None => [z]
    end
  | _, _ => xs
  end.

Lemma bubble_length x ys : len (bubble x ys).2 = len ys.
Proof.
  revert x. induction ys as [|y ys IH]; intros x; cbn; [done|].
  destruct (lt x y); [specialize (IH y)|specialize (IH x)];
    destruct (bubble _ ys); cbn in *; lia.
Qed.

Lemma bubble_perm x ys : (bubble x ys).1 :: (bubble x ys).2 ≡ₚ x :: ys.
Proof.
  revert x. induction ys as [|y ys IH]; intros x; cbn; [done|].
  destruct (lt x y); [specialize (IH y)|specialize (IH x)];
    destruct (bubble _ ys) as [z zs]; cbn in *.
  - rewrite Permutation_swap, IH. done.
  - rewrite Permutation_swap, IH. apply Permutation_swap.
Qed.

Lemma select_sort_perm n xs : select_sort n xs ≡ₚ xs.
Proof.
  revert xs. induction n as [|n IH]; intros [|x [|y ys]]; [done..|].
  cbn [select_sort tail].
  pose proof (bubble_perm x (y :: ys)) as Hp. pose proof (bubble_length x (y :: ys)) as Hl.
  destruct (bubble x (y :: ys)) as [z zs]; cbn [fst snd] in *.
  destruct (list.last zs) as [w|] eqn:Ew.
  - apply last_Some in Ew as [ws ->]. rewrite length_app in *. cbn in *.
    replace (len ws + 1 - 1) with (len ws) by lia. rewrite take_app_length, IH.
    rewrite <- Hp. rewrite <- Permutation_cons_append. apply perm_skip.
    by rewrite Permutation_cons_append.
  - apply last_None in Ew as ->. done.
Qed.

(** Strict weak orders, as the comparison functions of C programs. *)
Class StrictWeak : Prop := {
  lt_asym x y : lt x y = true → lt y x = false;
  lt_negtrans x y z : lt x y = false → lt y z = false → lt x z = false
}.

Context `{!StrictWeak}.

Lemma lt_irrefl x : lt x x = false.
Proof. destruct (lt x x) eqn:E; [|done]. by apply lt_asym in E as E'; congruence. Qed.

Lemma bubble_max x ys :
  lt (bubble x ys).1 x = false ∧ Forall (λ y, lt (bubble x ys).1 y = false) (bubble x ys).2.
Proof.
  revert x. induction ys as [|y ys IH]; intros x; cbn; [split; [apply lt_irrefl|done]|].
  destruct (lt x y) eqn:E.
  - destruct (IH y) as [H1 H2]. destruct (bubble y ys) as [z zs]; cbn in *.
    assert (lt z x = false) by (eapply lt_negtrans; [exact H1|by apply lt_asym]).
    split; [done|]. by apply Forall_cons.
  - destruct (IH x) as [H1 H2]. destruct (bubble x ys) as [z zs]; cbn in *.
    split; [done|]. apply Forall_cons. split; [|done]. by eapply lt_negtrans.
Qed.

Lemma select_sort_sorted n xs : len xs ≤ S n →
  StronglySorted (λ x y, lt y x = false) (select_sort n xs).
Proof.
  revert xs. induction n as [|n IH]; intros xs Hn.
  { destruct xs as [|x [|y ys]]; [constructor|repeat constructor|cbn in Hn; lia]. }
  destruct xs as [|x [|y ys]]; [constructor|repeat constructor|]. cbn in Hn.
  cbn [select_sort tail].
  pose proof (bubble_max x (y :: ys)) as [_ Hm]. pose proof (bubble_length x (y :: ys)) as Hl.
  destruct (bubble x (y :: ys)) as [z zs]; cbn [fst snd] in *.
  destruct (list.last zs) as [w|] eqn:Ew; [|repeat constructor].
  apply last_Some in Ew as [ws ->]. rewrite length_app in *. cbn in *.
  replace (len ws + 1 - 1) with (len ws) by lia. rewrite take_app_length.
  apply StronglySorted_app_2; [|by apply IH; cbn; lia|repeat constructor].
  intros u v Hu Hv. apply list_elem_of_singleton in Hv as ->.
  rewrite select_sort_perm, Permutation_cons_append in Hu.
  rewrite Forall_forall in Hm. by apply Hm.
Qed.
End Pure.

(** ** The heap after payloads moved *)

Section Payloads.
Implicit Types (es : list entry) (e : entry) (ps : list payload).

Lemma with_pay_pay e : with_pay e (pay e) = e.
Proof. by destruct e. Qed.

Lemma with_pays_cons e es p ps :
  with_pays (e :: es) (p :: ps) = with_pay e p :: with_pays es ps.
Proof. done. Qed.

Lemma with_pays_pay es : with_pays es (pay <$> es) = es.
Proof.
  induction es as [|e es IH]; [done|].
  by rewrite fmap_cons, with_pays_cons, with_pay_pay, IH.
Qed.

Lemma length_with_pays es ps : len ps = len es → len (with_pays es ps) = len es.
Proof. intros H. unfold with_pays. rewrite length_zip_with. lia. Qed.

Lemma with_pays_app es fs ps qs : len ps = len es →
  with_pays (es ++ fs) (ps ++ qs) = with_pays es ps ++ with_pays fs qs.
Proof. intros H. unfold with_pays. by rewrite zip_with_app. Qed.

(** Facts proved entry by entry. *)
Ltac entrywise es ps H :=
  revert ps H; induction es as [|e es IH]; intros [|p ps] H; cbn in H; try lia; [done|];
  rewrite ?with_pays_cons, ?fmap_cons, ?IH by lia; try done.

Lemma with_pays_twice es ps (H : len ps = len es) qs :
  with_pays (with_pays es ps) qs = with_pays es qs.
Proof.
  revert qs. revert ps H. induction es as [|e es IH]; intros [|p ps] H qs; cbn in H; try lia; [done|].
  destruct qs as [|q qs]; [done|]. by rewrite !with_pays_cons, IH by lia.
Qed.

Lemma pay_with_pays es ps (H : len ps = len es) : pay <$> with_pays es ps = ps.
Proof. entrywise es ps H. by destruct p. Qed.

Lemma nl_with_pays es ps (H : len ps = len es) : nl <$> with_pays es ps = nl <$> es.
Proof. entrywise es ps H. Qed.

Lemma locs_perm es : locs es ≡ₚ (nl <$> es) ++ (dl <$> es).
Proof.
  induction es as [|e es IH]; [done|]. rewrite locs_cons, IH. cbn.
  by rewrite <- Permutation_middle.
Qed.

Lemma last_in_tail es pv : es ≠ [] →
  ∃ k e, es !! k = Some e ∧ lst_ptr es pv = Some (nl e).
Proof.
  destruct es as [|e es _] using rev_ind; [done|]. intros _. exists (len es), e.
  by rewrite list_lookup_middle, lst_ptr_snoc.
Qed.

(** A segment, entry by entry. *)
Lemma dseg_intro c pv es :
  (∀ i e, es !! i = Some e →
    c !! nl e = Some (node_of (match i with O => pv | S j => nl <$> es !! j end)
                              (nl <$> es !! S i) e)
    ∧ c !! dl e = Some (CData (val e))) →
  dseg c pv es None.
Proof.
  revert pv. induction es as [|e es IH]; intros pv H; [done|]. cbn.
  destruct (H 0 e eq_refl) as [H1 H2]. split_and!; [|done|].
  - rewrite H1. cbn. by destruct es.
  - apply IH. intros i f Hi. destruct (H (S i) f Hi) as [H3 H4]. split; [|done].
    rewrite H3. by destruct i.
Qed.

(** A list whose nodes stay in place while their payloads are permuted. *)
Lemma rep_payloads s s' es es' : rep s es → this s' = this s →
  nl <$> es' = nl <$> es → dl <$> es' ≡ₚ dl <$> es →
  mem_wf (lm s') → (∀ l, is_Some (cl s' !! l) → is_Some (cl s !! l)) →
  dseg (cl s') None es' None → rep s' es'.
Proof.
  intros R Ht Hn Hd Hwf Hown Hs.
  assert (Hp : locs es' ≡ₚ locs es) by (by rewrite !locs_perm, Hn, Hd).
  assert (Hl : len es' = len es) by (by rewrite <- (length_fmap nl es'), Hn, length_fmap).
  split; rewrite ?Ht, ?Hl; try by apply R.
  - done.
  - rewrite Hp. apply R.
  - intros l Hc. rewrite Hp. by apply (rep_own _ _ R), Hown.
  - done.
  - rewrite (rep_first _ _ R). destruct es, es'; cbn in *; congruence.
  - rewrite (rep_last _ _ R). clear -Hn. revert es' Hn. generalize (@None loc) as p.
    induction es as [|e es IH]; intros p [|f es'] Hn; cbn in *; [done|congruence|congruence|].
    assert (Hf : nl f = nl e) by congruence. rewrite Hf. apply IH. congruence.
Qed.

Lemma NoDup_index (f : entry → loc) es i j a b : NoDup (f <$> es) →
  es !! i = Some a → es !! j = Some b → f a = f b → i = j.
Proof.
  intros Hnd Hi Hj E. eapply NoDup_lookup; [exact Hnd| |].
  - rewrite list_lookup_fmap, Hi. done.
  - rewrite list_lookup_fmap, Hj. cbn. by rewrite E.
Qed.

Lemma rep_distinct_nodes s es i j a b : rep s es →
  es !! i = Some a → es !! j = Some b → nl a = nl b → i = j.
Proof.
  intros R. apply NoDup_index. pose proof (rep_nodup _ _ R) as H.
  rewrite locs_perm in H. by apply NoDup_app in H as [H _].
Qed.

Lemma rep_node_not_data s es i j a b : rep s es →
  es !! i = Some a → es !! j = Some b → nl a ≠ dl b.
Proof.
  intros R Hi Hj E. pose proof (rep_nodup _ _ R) as H.
  rewrite locs_perm in H. apply NoDup_app in H as (_ & H & _). apply (H (nl a)).
  - apply list_elem_of_fmap. exists a. split; [done|]. by eapply list_elem_of_lookup_2.
  - apply list_elem_of_fmap. exists b. split; [done|]. by eapply list_elem_of_lookup_2.
Qed.
End Payloads.

(** ** [Node_swap] and the scan *)

Definition swap_pays (i j : nat) (a b : entry) (es : list entry) : list entry :=
  <[j := with_pay b (pay a)]> (<[i := with_pay a (pay b)]> es).

Lemma swap_dl_perm i j a b es : es !! i = Some a → es !! j = Some b → i ≠ j →
  dl <$> swap_pays i j a b es ≡ₚ dl <$> es.
Proof.
  intros Hi Hj Hne. unfold swap_pays. rewrite !list_fmap_insert. cbn.
  set (xs := dl <$> es).
  assert (Hi' : xs !! i = Some (dl a)) by (unfold xs; by rewrite list_lookup_fmap, Hi).
  assert (Hj' : xs !! j = Some (dl b)) by (unfold xs; by rewrite list_lookup_fmap, Hj).
  by apply Permutation_insert_swap.
Qed.

Lemma swap_nl i j a b es : es !! i = Some a → es !! j = Some b →
  nl <$> swap_pays i j a b es = nl <$> es.
Proof.
  intros Hi Hj. unfold swap_pays. rewrite !list_fmap_insert. cbn.
  rewrite (list_insert_id (nl <$> es) i) by (by rewrite list_lookup_fmap, Hi).
  by rewrite list_insert_id by (by rewrite list_lookup_fmap, Hj).
Qed.

(** Entry [k] of the exchanged list: one of the two, or unchanged. *)
Lemma swap_pays_lookup i j a b es k e : es !! i = Some a → es !! j = Some b → i ≠ j →
  swap_pays i j a b es !! k = Some e →
  (k = i ∧ e = with_pay a (pay b)) ∨ (k = j ∧ e = with_pay b (pay a))
  ∨ (k ≠ i ∧ k ≠ j ∧ es !! k = Some e).
Proof.
  intros Hi Hj Hne Hk. unfold swap_pays in Hk.
  apply lookup_lt_Some in Hi, Hj.
  destruct (decide (k = j)) as [->|Hkj].
  { rewrite list_lookup_insert_eq in Hk by (rewrite length_insert; lia).
    right; left. split; congruence. }
  rewrite list_lookup_insert_ne in Hk by done.
  destruct (decide (k = i)) as [->|Hki].
  { rewrite list_lookup_insert_eq in Hk by lia. left. split; congruence. }
  rewrite list_lookup_insert_ne in Hk by done. by right; right.
Qed.

Lemma Node_swap_cells s a b pa na pb nb : nl a ≠ nl b → mem_wf (lm s) →
  cl s !! nl a = Some (node_of pa na a) → cl s !! nl b = Some (node_of pb nb b) →
  ∃ s', Node_swap (Some (nl a)) (Some (nl b)) s = Done (tt, s')
    ∧ cl s' !! nl a = Some (node_of pa na (with_pay a (pay b)))
    ∧ cl s' !! nl b = Some (node_of pb nb (with_pay b (pay a)))
    ∧ (∀ l, l ≠ nl a → l ≠ nl b → cl s' !! l = cl s !! l)
    ∧ mem_wf (lm s') ∧ this s' = this s.
Proof.
  intros Hab Hwf Ha Hb. unfold node_of in Ha, Hb.
  pose proof (mem_wf_lt _ _ _ Hwf Ha) as Hla. pose proof (mem_wf_lt _ _ _ Hwf Hb) as Hlb.
  unfold Node_swap. do 6 list_step. erewrite set_dataSize_Done by heap_lookup.
  eexists. split; [reflexivity|]. split_and!; [heap_lookup..| | |done].
  - intros l H1 H2. autorewrite with c2hat. by rewrite !lookup_insert_ne by congruence.
  - by repeat (apply mem_wf_put; [cbn; lia|]).
Qed.

Lemma Node_swap_run s es i j a b : rep s es → es !! i = Some a → es !! j = Some b → i ≠ j →
  ∃ s', Node_swap (Some (nl a)) (Some (nl b)) s = Done (tt, s')
    ∧ rep s' (swap_pays i j a b es) ∧ this s' = this s.
Proof.
  intros R Hi Hj Hne.
  destruct (entry_lookup _ _ R _ _ Hi) as (pa & na & Ha & Hda & Hna & Hpa).
  destruct (entry_lookup _ _ R _ _ Hj) as (pb & nb & Hb & Hdb & Hnb & Hpb).
  assert (Hab : nl a ≠ nl b) by (intros E; by apply Hne, (rep_distinct_nodes _ _ _ _ _ _ R Hi Hj E)).
  destruct (Node_swap_cells s a b pa na pb nb Hab (rep_wf _ _ R) Ha Hb)
    as (s' & Hrun & Ha' & Hb' & Hfr & Hwf & Ht).
  exists s'. split; [done|]. split; [|done].
  apply (rep_payloads s _ es); [done|done|by apply swap_nl|by apply swap_dl_perm|done| |].
  - intros l [c Hc]. destruct (decide (l = nl a)) as [->|]; [by rewrite Ha|].
    destruct (decide (l = nl b)) as [->|]; [by rewrite Hb|]. rewrite <- Hfr by done. by rewrite Hc.
  - apply dseg_intro. intros k e Hk.
    assert (Hnl : ∀ m, nl <$> swap_pays i j a b es !! m = nl <$> es !! m).
    { intros m. by rewrite <- !list_lookup_fmap, (swap_nl _ _ _ _ _ Hi Hj). }
    assert (Hdata : ∀ m f, es !! m = Some f → cl s' !! dl f = Some (CData (val f))).
    { intros m f Hm. destruct (entry_lookup _ _ R _ _ Hm) as (_ & _ & _ & Hdf & _).
      rewrite Hfr; [done|..]; apply not_eq_sym; by eapply rep_node_not_data. }
    rewrite !Hnl. destruct (swap_pays_lookup _ _ _ _ _ _ _ Hi Hj Hne Hk)
      as [[-> ->]|[[-> ->]|(Hki & Hkj & Hke)]].
    + cbn [nl with_pay dl val pay fst snd]. split; [|by apply (Hdata j)]. rewrite Ha', Hna, Hpa. destruct i; [done|]. by rewrite Hnl.
    + cbn [nl with_pay dl val pay fst snd]. split; [|by apply (Hdata i)]. rewrite Hb', Hnb, Hpb. destruct j; [done|]. by rewrite Hnl.
    + destruct (entry_lookup _ _ R _ _ Hke) as (pv & nx & He & _ & Hnx & Hpv).
      split; [|by apply (Hdata k)]. rewrite Hfr, He, Hnx, Hpv.
      * destruct k; [done|]. by rewrite Hnl.
      * intros E. by apply Hki, (rep_distinct_nodes _ _ _ _ _ _ R Hke Hi E).
      * intros E. by apply Hkj, (rep_distinct_nodes _ _ _ _ _ _ R Hke Hj E).
Qed.

Lemma swap_pays_app i P x y R : P !! i = Some x →
  swap_pays i (len P) x y (P ++ y :: R) =
    (<[i := with_pay x (pay y)]> P ++ [with_pay y (pay x)]) ++ R.
Proof.
  intros Hi. pose proof (lookup_lt_Some _ _ _ Hi). unfold swap_pays.
  rewrite insert_app_l by done.
  rewrite <- (length_insert P i (with_pay x (pay y))) at 1.
  rewrite <- (Nat.add_0_r (len (<[i:=_]> P))), insert_app_r. cbn. by rewrite <- app_assoc.
Qed.

Section Sort.
Context (compare : bytes → bytes → nat → Z).

(** The test [compare(a, b, size) < 0] with the smaller of the two sizes. *)
Definition pay_lt (p q : payload) : bool :=
  (compare p.2 q.2 (Nat.min (len p.2) (len q.2)) <? 0)%Z.

Lemma smaller_size (m n : nat) : (if decide (m ≤ n) then m else n) = Nat.min m n.
Proof. case_decide; lia. Qed.

(** One turn of the scan up to its test for the right end. *)
Lemma scan_turn s P i x y R : rep s (P ++ y :: R) → P !! i = Some x →
  let x' := if pay_lt (pay x) (pay y) then with_pay x (pay y) else x in
  let y' := if pay_lt (pay x) (pay y) then with_pay y (pay x) else y in
  ∃ s', rep s' ((<[i := x']> P ++ [y']) ++ R) ∧ this s' = this s
    ∧ ∀ fuel right, scan_right compare (S fuel) (Some (nl x)) (Some (nl y)) right s =
        (if ptr_eqb (Some (nl y)) right then ret (Some (nl y))
         else scan_right compare fuel (Some (nl x)) (hd_ptr R None) right) s'.
Proof.
  intros Hr Hi. pose proof (lookup_lt_Some _ _ _ Hi) as Hlt.
  assert (Hx : (P ++ y :: R) !! i = Some x) by (by rewrite lookup_app_l).
  assert (Hy : (P ++ y :: R) !! len P = Some y) by (by rewrite list_lookup_middle).
  destruct (entry_lookup _ _ Hr _ _ Hx) as (px & nx & Hnx & Hdx & _).
  destruct (entry_lookup _ _ Hr _ _ Hy) as (py & ny & Hny & Hdy & Eny & _).
  assert (Hrest : nl <$> (P ++ y :: R) !! S (len P) = hd_ptr R None).
  { rewrite lookup_app_r by lia. replace (S (len P) - len P) with 1 by lia. by destruct R. }
  rewrite Hrest in Eny. cbn zeta.
  unfold pay_lt. cbn [snd pay]. rewrite <- smaller_size.
  destruct (_ <? 0)%Z eqn:E.
  - destruct (Node_swap_run _ _ _ _ _ _ Hr Hx Hy) as (s' & Hrun & Hr' & Ht); [lia|].
    rewrite swap_pays_app in Hr' by done.
    exists s'. split_and!; [done..|]. intros fuel right. cbn [scan_right].
    do 4 list_step. rewrite E. run Hrun.
    destruct (ptr_eqb _ right); [done|].
    assert (Hy' : ((<[i:=with_pay x (pay y)]> P ++ [with_pay y (pay x)]) ++ R) !! len P
                  = Some (with_pay y (pay x))).
    { rewrite <- app_assoc. rewrite lookup_app_r by (by rewrite length_insert).
      by rewrite length_insert, Nat.sub_diag. }
    destruct (entry_lookup _ _ Hr' _ _ Hy') as (py' & ny' & Hny' & _ & Eny' & _).
    assert (ny' = hd_ptr R None) as ->.
    { rewrite Eny', <- app_assoc, lookup_app_r by (rewrite length_insert; lia).
      rewrite length_insert. replace (S (len P) - len P) with 1 by lia. by destruct R. }
    by run (load_node_Done _ _ _ Hny').
  - exists s. split_and!; [|done|].
    { rewrite list_insert_id by done. by rewrite <- app_assoc. }
    intros fuel right. cbn [scan_right].
    do 4 list_step. rewrite E, bind_ret.
    destruct (ptr_eqb _ right); [done|]. list_step. by rewrite Eny.
Qed.

(** What a turn did to the start entry stays visible in the next one. *)
Lemma insert_snoc_twice i P (x x' y' : entry) q : P !! i = Some x → nl x' = nl x →
  <[i := with_pay x' q]> (<[i := x']> P ++ [y']) = <[i := with_pay x q]> P ++ [y'].
Proof.
  intros Hi Hn. pose proof (lookup_lt_Some _ _ _ Hi).
  rewrite insert_app_l by (by rewrite length_insert). rewrite list_insert_insert_eq.
  unfold with_pay. by rewrite Hn.
Qed.

Lemma not_yet_right s P y z Y T : rep s (P ++ y :: z :: Y ++ T) →
  ptr_eqb (Some (nl y)) (lst_ptr Y (Some (nl z))) = false.
Proof.
  intros Hr. apply ptr_eqb_ne. intros Heq.
  destruct (last_in_tail (z :: Y) (Some (nl y))) as (k & e & Hk & He); [done|].
  cbn [lst_ptr] in He. rewrite He in Heq.
  assert (Hy : (P ++ y :: z :: Y ++ T) !! len P = Some y) by (by rewrite list_lookup_middle).
  assert (Hke : (P ++ y :: z :: Y ++ T) !! (len P + S k) = Some e).
  { rewrite lookup_app_r by lia. replace (len P + S k - len P) with (S k) by lia.
    by apply (lookup_app_l_Some (z :: Y) T). }
  enough (len P = len P + S k) by lia.
  eapply (rep_distinct_nodes _ _ _ _ _ _ Hr Hy Hke). congruence.
Qed.

Lemma scan_right_run Y : ∀ P s i x y T fuel,
  rep s (P ++ y :: Y ++ T) → P !! i = Some x → len Y < fuel →
  let r := bubble pay_lt (pay x) (pay <$> y :: Y) in
  ∃ s', scan_right compare fuel (Some (nl x)) (Some (nl y)) (lst_ptr (y :: Y) None) s
        = Done (lst_ptr (y :: Y) None, s')
    ∧ rep s' (<[i := with_pay x r.1]> P ++ with_pays (y :: Y) r.2 ++ T)
    ∧ this s' = this s.
Proof.
  induction Y as [|z Y IH]; intros P s i x y T fuel Hr Hi Hf;
    (destruct fuel as [|fuel]; [cbn in Hf; lia|]);
    destruct (scan_turn _ _ _ _ _ _ Hr Hi) as (s1 & Hr1 & Ht1 & Hrun);
    rewrite Hrun; clear Hrun; rewrite fmap_cons; cbn [lst_ptr].
  - rewrite ptr_eqb_refl. exists s1. split; [done|]. split; [|done].
    rewrite <- app_assoc in Hr1. cbn [fmap list_fmap bubble].
    destruct (pay_lt (pay x) (pay y)); cbn [fst snd]; rewrite with_pays_cons; [done|].
    by rewrite !with_pay_pay.
  - change ((z :: Y) ++ T) with (z :: Y ++ T) in *.
    rewrite (not_yet_right _ _ _ _ _ _ Hr). cbn [bubble hd_ptr].
    destruct (pay_lt (pay x) (pay y)) eqn:E.
    + edestruct (IH _ s1 i (with_pay x (pay y)) z T fuel Hr1) as (s2 & Hrun & Hr2 & Ht2);
        [|cbn in Hf; lia|].
      { rewrite lookup_app_l by (rewrite length_insert; by eapply lookup_lt_Some).
        apply list_lookup_insert_eq. by eapply lookup_lt_Some. }
      exists s2. split; [exact Hrun|]. split; [|congruence].
      rewrite (insert_snoc_twice _ _ x) in Hr2 by done.
      change (pay (with_pay x (pay y))) with (pay y) in Hr2.
      destruct (bubble pay_lt (pay y) (pay <$> z :: Y)) as [m ms].
      cbn [fst snd] in *. by rewrite with_pays_cons, <- app_assoc in *.
    + edestruct (IH _ s1 i x z T fuel Hr1) as (s2 & Hrun & Hr2 & Ht2);
        [|cbn in Hf; lia|].
      { rewrite list_insert_id by done. by apply lookup_app_l_Some. }
      exists s2. split; [exact Hrun|]. split; [|congruence].
      rewrite (insert_snoc_twice _ _ x) in Hr2 by done.
      destruct (bubble pay_lt (pay x) (pay <$> z :: Y)) as [m ms].
      cbn [fst snd] in *. by rewrite with_pays_cons, with_pay_pay, <- app_assoc in *.
Qed.

(** One round: the greatest payload ends up in the last node. *)
Lemma select_round L x Y y T s fuel z ws w :
  rep s (L ++ x :: (Y ++ [y]) ++ T) → len Y < fuel →
  bubble pay_lt (pay x) (pay <$> Y ++ [y]) = (z, ws ++ [w]) →
  ∃ s1 s2, scan_right compare fuel (Some (nl x)) (hd_ptr (Y ++ [y]) None) (Some (nl y)) s
           = Done (Some (nl y), s1)
    ∧ Node_swap (Some (nl x)) (Some (nl y)) s1 = Done (tt, s2)
    ∧ rep s2 (L ++ (with_pay x w :: with_pays Y ws) ++ with_pay y z :: T)
    ∧ this s2 = this s.
Proof.
  intros Hr Hf Hb.
  assert (Hl : len ws = len Y).
  { pose proof (bubble_length pay_lt (pay x) (pay <$> Y ++ [y])) as H. rewrite Hb in H.
    cbn [snd] in H. rewrite length_fmap, !length_app in H. cbn in H. lia. }
  destruct (Y ++ [y]) as [|y0 Y0] eqn:EY; [by destruct Y|].
  assert (HP : (L ++ [x]) !! len L = Some x) by (by rewrite list_lookup_middle).
  destruct (scan_right_run Y0 (L ++ [x]) s (len L) x y0 T fuel) as (s1 & Hrun & Hr1 & Ht1);
    [by rewrite <- app_assoc|done| |].
  { apply (f_equal len) in EY. rewrite length_app in EY. cbn in EY. lia. }
  rewrite Hb in Hr1. cbn [fst snd] in Hr1. rewrite <- EY in Hr1, Hrun |- *.
  rewrite lst_ptr_snoc in Hrun.
  rewrite with_pays_app in Hr1 by done. cbn [with_pays zip_with] in Hr1.
  replace (len L) with (len L + 0) in Hr1 by lia. rewrite insert_app_r in Hr1. cbn in Hr1.
  rewrite <- !app_assoc in Hr1. cbn in Hr1.
  destruct (Node_swap_run s1 _ (len L) (len L + S (len Y)) (with_pay x z) (with_pay y w) Hr1)
    as (s2 & Hsw & Hr2 & Ht2); [by rewrite list_lookup_middle| |lia|].
  { rewrite lookup_app_r by lia. replace (len L + S (len Y) - len L) with (S (len Y)) by lia.
    cbn. apply list_lookup_middle. fold (with_pays Y ws). by rewrite length_with_pays. }
  exists s1, s2. split; [by rewrite EY in *|]. split; [exact Hsw|]. split; [|congruence].
  revert Hr2. pose proof (swap_pays_app (len L) (L ++ with_pay x z :: with_pays Y ws)
    (with_pay x z) (with_pay y w) T) as Hs.
  rewrite length_app in Hs. cbn [List.length] in Hs. rewrite length_with_pays in Hs by done.
  rewrite <- app_assoc in Hs. rewrite <- app_comm_cons in Hs.
  rewrite Hs by (by rewrite list_lookup_middle).
  replace (len L) with (len L + 0) by lia. rewrite insert_app_r. cbn.
  by rewrite <- !app_assoc.
Qed.

(** The part of [QuickSortList] after its two exchanges. *)
Definition sort_rest (fuel : nat) (left current right : ptr) : cmd lst unit :=
  let oldCurrent := current in
  nc <- load_node current;;
  let current := prev nc in
  match current with
  | None => ret tt
  | Some _ =>
    nl <- load_node left;;
    if negb (ptr_eqb (prev nl) current) then
      nc <- load_node current;;
      if negb (ptr_eqb (next nc) left)
      then QuickSortList compare fuel left current else ret tt
    else ret tt
  end;;;
  no <- load_node oldCurrent;;
  let current := next no in
  match current with
  | None => ret tt
  | Some _ =>
    nc <- load_node current;;
    if negb (ptr_eqb (prev nc) right) then
      nr <- load_node right;;
      if negb (ptr_eqb (next nr) current)
      then QuickSortList compare fuel current right else ret tt
    else ret tt
  end.

(** Nothing is right of [right], so the second call is never made. *)
Lemma no_right_part s A y T fuel : rep s (A ++ y :: T) →
  (no <- load_node (Some (nl y));;
   match next no with
   | None => ret tt
   | Some _ =>
     nc <- load_node (next no);;
     if negb (ptr_eqb (prev nc) (Some (nl y))) then
       nr <- load_node (Some (nl y));;
       if negb (ptr_eqb (next nr) (next no))
       then QuickSortList compare fuel (next no) (Some (nl y)) else ret tt
     else ret tt
   end) s = Done (tt, s).
Proof.
  intros Hr. assert (Hy : (A ++ y :: T) !! len A = Some y) by (by rewrite list_lookup_middle).
  destruct (entry_lookup _ _ Hr _ _ Hy) as (py & ny & Hn & _ & -> & _). list_step.
  rewrite lookup_app_r by lia. replace (S (len A) - len A) with 1 by lia.
  destruct T as [|t T]; [done|]. cbn [lookup list_lookup fmap option_fmap option_map].
  assert (Ht : (A ++ y :: t :: T) !! S (len A) = Some t).
  { rewrite lookup_app_r by lia. by replace (S (len A) - len A) with 1 by lia. }
  destruct (entry_lookup _ _ Hr _ _ Ht) as (pt & nt & Hnt & _ & _ & ->). list_step.
  by rewrite Hy, ptr_eqb_refl.
Qed.

(** The left part, of at least one node, is always sorted next. *)
Lemma sort_rest_run s s' L X x e y T Z fuel : rep s (L ++ (X ++ [e]) ++ y :: T) →
  (X ++ [e]) !! 0 = Some x →
  QuickSortList compare fuel (Some (nl x)) (Some (nl e)) s = Done (tt, s') →
  rep s' (Z ++ y :: T) →
  sort_rest fuel (Some (nl x)) (Some (nl y)) (Some (nl y)) s = Done (tt, s').
Proof.
  intros Hr Hx0 Hq Hz. set (es := L ++ (X ++ [e]) ++ y :: T) in *.
  assert (Hx : es !! len L = Some x).
  { unfold es. rewrite lookup_app_r, Nat.sub_diag by lia. by apply lookup_app_l_Some. }
  assert (He : es !! (len L + len X) = Some e).
  { unfold es. rewrite lookup_app_r by lia.
    replace (len L + len X - len L) with (len X) by lia.
    rewrite <- app_assoc. by apply list_lookup_middle. }
  assert (Hy : es !! (S (len L + len X)) = Some y).
  { unfold es. rewrite lookup_app_r by lia.
    replace (S (len L + len X) - len L) with (len (X ++ [e])) by (rewrite length_app; cbn; lia).
    by apply list_lookup_middle. }
  destruct (entry_lookup _ _ Hr _ _ Hx) as (px & nx & Hnx & _ & _ & Epx).
  destruct (entry_lookup _ _ Hr _ _ He) as (pe & ne & Hne & _ & Ene & _).
  destruct (entry_lookup _ _ Hr _ _ Hy) as (py & ny & Hny & _ & _ & Epy).
  rewrite He in Epy. cbn in Epy. rewrite Hy in Ene. cbn in Ene. subst py ne.
  unfold sort_rest. list_step. list_step.
  rewrite (ptr_eqb_ne px).
  2:{ intros ->. destruct (len L) as [|l] eqn:El; [done|].
      destruct (es !! l) as [f|] eqn:Ef; [|done]. injection Epx as Epx.
      pose proof (rep_distinct_nodes _ _ _ _ _ _ Hr He Ef Epx). lia. }
  cbn [negb]. list_step. rewrite ptr_eqb_ne.
  2:{ intros [= E]. pose proof (rep_distinct_nodes _ _ _ _ _ _ Hr Hy Hx E). lia. }
  cbn [negb]. run Hq. by eapply no_right_part.
Qed.

Lemma QuickSortList_step fuel left right ns s :
  ptr_eqb left right = false → load_node left s = Done (ns, s) →
  QuickSortList compare (S fuel) left right s =
    (current <- scan_right compare fuel left (next ns) right;;
     Node_swap left current;;; sort_rest fuel left current right) s.
Proof. intros He Hn. cbn [QuickSortList]. rewrite He. by run Hn. Qed.

Lemma select_sort_step n x Y z ws w : Y ≠ [] → bubble pay_lt x Y = (z, ws ++ [w]) →
  select_sort pay_lt (S n) (x :: Y) = select_sort pay_lt n (w :: ws) ++ [z].
Proof.
  intros HY Hb. destruct Y as [|y Y]; [done|]. cbn [select_sort tail].
  rewrite Hb, last_snoc, length_app. cbn [List.length].
  replace (len ws + 1 - 1) with (len ws) by lia. by rewrite take_app_length.
Qed.

Lemma app_snoc_nonnil {B} (l : list B) y : l ++ [y] ≠ [].
Proof. by destruct l. Qed.

Lemma bubble_snoc x Y y : ∃ z ws w,
  bubble pay_lt x (Y ++ [y]) = (z, ws ++ [w]) ∧ len ws = len Y.
Proof.
  pose proof (bubble_length pay_lt x (Y ++ [y])) as Hl. rewrite length_app in Hl. cbn in Hl.
  destruct (bubble pay_lt x (Y ++ [y])) as [z zs]. cbn in Hl.
  destruct zs as [|w ws _] using rev_ind; [cbn in Hl; lia|].
  rewrite length_app in Hl. cbn in Hl. exists z, ws, w. split; [done|lia].
Qed.

Lemma select_sort_length n xs : len (select_sort pay_lt n xs) = len xs.
Proof. apply Permutation_length, select_sort_perm. Qed.

Lemma QuickSortList_run n : ∀ L X T s, rep s (L ++ X ++ T) → X ≠ [] → len X ≤ n →
  ∃ s', QuickSortList compare n (hd_ptr X None) (lst_ptr X None) s = Done (tt, s')
    ∧ rep s' (L ++ with_pays X (select_sort pay_lt n (pay <$> X)) ++ T)
    ∧ this s' = this s.
Proof.
  induction n as [|n IH]; intros L [|x X] T s Hr Hne Hn; try done; [cbn in Hn; lia|].
  destruct X as [|y X _] using rev_ind.
  { exists s. cbn [hd_ptr lst_ptr QuickSortList]. rewrite ptr_eqb_refl.
    split; [done|]. split; [|done]. by destruct n, x. }
  cbn in Hn; rewrite length_app in Hn; cbn in Hn.
  rewrite fmap_cons, fmap_app. cbn [fmap list_fmap].
  destruct (bubble_snoc (pay x) (pay <$> X) (pay y)) as (z & ws & w & Hb & Hl).
  rewrite length_fmap in Hl. rewrite (select_sort_step _ _ _ _ _ _ (app_snoc_nonnil _ _) Hb).
  change ((x :: X ++ [y]) ++ T) with (x :: (X ++ [y]) ++ T) in Hr.
  destruct (select_round L x X y T s n z ws w Hr) as (s1 & s2 & Hscan & Hsw & Hr2 & Ht2);
    [lia|by rewrite fmap_app|].
  destruct (IH L (with_pay x w :: with_pays X ws) (with_pay y z :: T) s2 Hr2)
    as (s3 & Hrec & Hr3 & Ht3); [done|cbn; rewrite length_with_pays by done; lia|].
  assert (Hx : (L ++ x :: (X ++ [y]) ++ T) !! len L = Some x) by (by rewrite list_lookup_middle).
  destruct (entry_lookup _ _ Hr _ _ Hx) as (px & nx & Hnx & _ & Enx & _).
  assert (nx = hd_ptr (X ++ [y]) None) as ->.
  { rewrite Enx, lookup_app_r by lia. replace (S (len L) - len L) with 1 by lia. by destruct X. }
  assert (Hp : pay <$> (with_pay x w :: with_pays X ws) = w :: ws).
  { rewrite fmap_cons, pay_with_pays by done. by destruct w. }
  rewrite Hp in Hr3. change (with_pay x w :: with_pays X ws) with (with_pays (x :: X) (w :: ws)) in *.
  assert (Hss : len (select_sort pay_lt n (w :: ws)) = len (x :: X))
    by (rewrite select_sort_length; cbn; lia).
  rewrite with_pays_twice in Hr3 by (cbn; lia).
  assert (Hxy : ptr_eqb (Some (nl x)) (Some (nl y)) = false).
  { apply ptr_eqb_ne. intros [= E]. enough (len L = len L + S (len X)) by lia.
    eapply (rep_distinct_nodes _ _ _ _ _ _ Hr Hx); [|exact E].
    rewrite lookup_app_r by lia. replace (len L + S (len X) - len L) with (S (len X)) by lia.
    cbn. rewrite <- app_assoc. by apply list_lookup_middle. }
  exists s3. split_and!; [| |congruence].
  - cbn [lst_ptr hd_ptr]. rewrite lst_ptr_snoc.
    rewrite (QuickSortList_step n _ _ _ _ Hxy (load_node_Done _ _ _ Hnx)).
    cbn [next]. run Hscan. run Hsw.
    destruct (exists_last (l := with_pays (x :: X) (w :: ws))) as (W & e & HW); [done|].
    change (Some (nl x)) with (hd_ptr (with_pays (x :: X) (w :: ws)) None).
    apply (sort_rest_run s2 s3 L W (with_pay x w) e (with_pay y z) T
             (L ++ with_pays (x :: X) (select_sort pay_lt n (w :: ws)))).
    + by rewrite <- HW.
    + by rewrite <- HW.
    + by rewrite HW, lst_ptr_snoc in Hrec; rewrite <- HW in Hrec.
    + by rewrite <- app_assoc.
  - change (x :: X ++ [y]) with ((x :: X) ++ [y]). rewrite with_pays_app by done.
    by rewrite <- app_assoc.
Qed.
End Sort.

(** ** [List_sort] *)

Definition val_lt (compare : bytes → bytes → nat → Z) (x y : bytes) : bool :=
  (compare x y (Nat.min (len x) (len y)) <? 0)%Z.

Lemma pay_lt_weak compare : StrictWeak (val_lt compare) → StrictWeak (pay_lt compare).
Proof.
  intros [Ha Ht]. split; [intros p q; apply Ha|intros p q r; apply Ht].
Qed.

Lemma vals_with_pays es ps : len ps = len es → vals (with_pays es ps) = snd <$> ps.
Proof.
  intros H. rewrite <- (pay_with_pays es ps H) at 2. unfold vals.
  rewrite <- list_fmap_compose. done.
Qed.

(** C19. [List_sort] on a well-formed list, with fuel for its length, always
    ends; it leaves every node where it is (the links, [first], [last], the
    cursor and the length are untouched) and only moves data blocks between
    nodes; the values are a permutation of the old ones, and they are in
    ascending order as soon as "[compare] returns a negative number" is a
    strict weak order. *)
Theorem List_sort_correct (compare : bytes → bytes → nat → Z) (s : lst) (es : list entry)
    (fuel : nat) (R : rep s es) (Hfuel : len es ≤ fuel) :
  ∃ s' es', List_sort compare fuel s = Done (tt, s')
    ∧ rep s' es' ∧ this s' = this s
    ∧ nl <$> es' = nl <$> es
    ∧ vals es' ≡ₚ vals es
    ∧ (StrictWeak (val_lt compare) →
       StronglySorted (λ x y, val_lt compare y x = false) (vals es')).
Proof.
  unfold List_sort. erewrite bind_Done by done.
  rewrite (rep_empty _ _ R), (rep_first _ _ R), (rep_last _ _ R).
  destruct es as [|e es].
  { exists s, []. split_and!; try done. constructor. }
  rewrite bool_decide_eq_false_2 by done. cbn [negb].
  pose proof R as R'. rewrite <- (app_nil_l (e :: es)), <- (app_nil_r (_ :: _)) in R'.
  destruct (QuickSortList_run compare fuel [] (e :: es) [] s R') as (s' & Hrun & Hr & Ht);
    [done|done|].
  rewrite app_nil_r in Hr. cbn [app] in Hr.
  set (ps := select_sort _ _ _) in *.
  assert (Hl : len ps = len (e :: es)).
  { unfold ps. by rewrite select_sort_length, length_fmap. }
  exists s', (with_pays (e :: es) ps). split_and!; [done|done|done|by apply nl_with_pays| |].
  - rewrite vals_with_pays by done. unfold ps. rewrite select_sort_perm.
    by rewrite <- list_fmap_compose.
  - intros Hw. rewrite vals_with_pays by done. apply pay_lt_weak in Hw.
    apply (StronglySorted_fmap snd (λ p q, pay_lt compare q p = false)); [done|].
    apply select_sort_sorted; [done|]. rewrite length_fmap. lia.
Qed.

(** A comparison in the style of the callers: the difference of the first
    bytes. *)
Definition compare_heads (a b : bytes) (_ : nat) : Z :=
  (match a with c :: _ => uchar c | [] => 0 end - match b with c :: _ => uchar c | [] => 0 end)%Z.

Definition unsorted : lst :=
  match run_ops [OAppend (lit "q"); OAppend (lit "z"); OAppend (lit "a")] (fresh_list 6) with
  | Done (_, s) => s
  | Stuck _ => fresh_list 0
  end.
Definition unsorted_entries : list entry :=
  [Entry 1 2 (lit "q"); Entry 3 4 (lit "z"); Entry 5 6 (lit "a")].

Lemma unsorted_rep : rep unsorted unsorted_entries.
Proof. by apply rep_of_checks; vm_compute. Qed.

Lemma compare_heads_weak : StrictWeak (val_lt compare_heads).
Proof. split; unfold val_lt, compare_heads; intros; rewrite ?Z.ltb_lt, ?Z.ltb_ge in *; lia. Qed.

Lemma List_sort_correct_witness :
  ∃ s' es', List_sort compare_heads 3 unsorted = Done (tt, s')
    ∧ rep s' es'
    ∧ StronglySorted (λ x y, val_lt compare_heads y x = false) (vals es').
Proof.
  destruct (List_sort_correct compare_heads unsorted unsorted_entries 3 unsorted_rep)
    as (s' & es' & H1 & H2 & _ & _ & _ & H3); [cbn; lia|].
  exists s', es'. split; [exact H1|]. split; [exact H2|]. exact (H3 compare_heads_weak).
Defined.
