(* ===== verification/QueueLib.v ===== *)
(** * First-in first-out queues (src/lib/queue)

    The operations of queue.c over an explicit heap, and their refinement to
    operations on the sequence of queued values.  A dequeued value is a copy
    owned by the caller: the cells handed out and not yet released are kept
    apart in the representation, so that a leak would be visible. *)

From S2P Require Import Prelude.
From S2P Require Import Heap.

(** ** Data *)

Record QueueData : Type := MkQueueData { content : ptr; dlength : nat }.

Record QueueNode : Type := MkQueueNode { qnext : ptr; qdata : QueueData }.

Record Queue : Type := MkQueue { qfirst : ptr; qlast : ptr; qlength : Z }.

Inductive qcell : Type :=
  | QNode (n : QueueNode)
  | QData (d : QueueData)
  | QBytes (bs : bytes).

Record qst : Type := Qst { qm : mem qcell; qthis : Queue }.

(** ** Field accesses *)

Definition on_qmem {A} (m : cmd (mem qcell) A) : cmd qst A := λ s,
  match m (qm s) with
  | Done (a, h) => Done (a, Qst h (qthis s))
  | Stuck w => Stuck w
  end.
Definition qself : cmd qst Queue := λ s, Done (qthis s, s).
Definition qupd (f : Queue → Queue) : cmd qst unit := λ s, Done (tt, Qst (qm s) (f (qthis s))).

Definition load_qnode (p : ptr) : cmd qst QueueNode :=
  c <- on_qmem (load p);;
  match c with QNode n => ret n | _ => stuck DanglingPointer end.
Definition load_qdata (p : ptr) : cmd qst QueueData :=
  c <- on_qmem (load p);;
  match c with QData d => ret d | _ => stuck DanglingPointer end.
Definition load_bytes (p : ptr) : cmd qst bytes :=
  c <- on_qmem (load p);;
  match c with QBytes bs => ret bs | _ => stuck DanglingPointer end.

Definition set_qnext (p q : ptr) : cmd qst unit :=
  n <- load_qnode p;; on_qmem (store p (QNode (MkQueueNode q (qdata n)))).
Definition set_qfirst (p : ptr) : cmd qst unit :=
  qupd (λ t, MkQueue p (qlast t) (qlength t)).
Definition set_qlast (p : ptr) : cmd qst unit :=
  qupd (λ t, MkQueue (qfirst t) p (qlength t)).
Definition set_qlength (n : Z) : cmd qst unit :=
  qupd (λ t, MkQueue (qfirst t) (qlast t) n).
Definition add_qlength (k : Z) : cmd qst unit :=
  t <- qself;; n <- lift (int_add (qlength t) k);; set_qlength n.

(** [memset(p, 0, n)] on a block of bytes. *)
Definition erase (p : ptr) (n : nat) : cmd qst unit :=
  bs <- load_bytes p;;
  if decide (n ≤ length bs)
  then on_qmem (store p (QBytes (replicate n NUL ++ drop n bs)))
  else stuck OutOfBounds.

(** ** Operations *)

Definition Queue_new (available : bool) : option Queue :=
  if available then Some (MkQueue None None 0) else None.

Definition Queue_empty (t : Queue) : bool :=
  (qlength t =? 0)%Z || ptr_eqb (qfirst t) None || ptr_eqb (qlast t) None.

Definition QueueNode_new (value : bytes) (n : nat) : cmd qst ptr :=
  this <- on_qmem (calloc (QNode (MkQueueNode None (MkQueueData None 0))));;
  match this with
  | None => ret None
  | Some _ =>
    c <- on_qmem (calloc (QBytes (replicate n NUL)));;
    on_qmem (store this (QNode (MkQueueNode None (MkQueueData c 0))));;;
    match c with
    | None => ret None
    | Some _ =>
      on_qmem (store this (QNode (MkQueueNode None (MkQueueData c n))));;;
      (if decide (n ≤ length value)
       then on_qmem (store c (QBytes (take n value)))
       else stuck OutOfBounds);;;
      ret this
    end
  end.

Definition QueueNode_free (p : ptr) : cmd qst ptr :=
  n <- load_qnode p;;
  erase (content (qdata n)) (dlength (qdata n));;;
  on_qmem (free (content (qdata n)));;;
  on_qmem (store p (QNode (MkQueueNode None (MkQueueData None 0))));;;
  on_qmem (free p);;;
  ret None.

Definition QueueData_free (p : ptr) : cmd qst ptr :=
  d <- load_qdata p;;
  erase (content d) (dlength d);;;
  on_qmem (free (content d));;;
  on_qmem (store p (QData (MkQueueData None 0)));;;
  on_qmem (free p);;;
  ret None.

(** The result of [QueueNode_new] is used without a test. *)
Definition Queue_enqueue (value : bytes) (n : nat) : cmd qst bool :=
  item <- QueueNode_new value n;;
  t <- qself;;
  if Queue_empty t then
    set_qfirst item;;; set_qlast item;;; add_qlength 1;;; ret true
  else
    set_qnext (qlast t) item;;;
    set_qlast item;;;
    add_qlength 1;;;
    ret true.

Definition Queue_dequeue : cmd qst ptr :=
  t <- qself;;
  if negb (Queue_empty t) then
    let item := qfirst t in
    f <- load_qnode (qfirst t);;
    set_qfirst (qnext f);;;
    d <- on_qmem (calloc (QData (MkQueueData None 0)));;
    match d with
    | None => ret None
    | Some _ =>
      i <- load_qnode item;;
      let n := dlength (qdata i) in
      on_qmem (store d (QData (MkQueueData None n)));;;
      c <- on_qmem (calloc (QBytes (replicate n NUL)));;
      on_qmem (store d (QData (MkQueueData c n)));;;
      match c with
      | None => ret None
      | Some _ =>
        i <- load_qnode item;;
        bs <- load_bytes (content (qdata i));;
        (if decide (dlength (qdata i) ≤ length bs)
         then on_qmem (store c (QBytes (take (dlength (qdata i)) bs)))
         else stuck OutOfBounds);;;
        QueueNode_free item;;;
        add_qlength (-1);;;
        ret d
      end
    end
  else ret None.

(** [&(node->data)]: the payload is read through the node. *)
Definition Queue_peek : cmd qst (option QueueData) :=
  t <- qself;;
  if negb (Queue_empty t) then n <- load_qnode (qfirst t);; ret (Some (qdata n)) else ret None.

Definition Queue_lpeek : cmd qst (option QueueData) :=
  t <- qself;;
  if negb (Queue_empty t) then n <- load_qnode (qlast t);; ret (Some (qdata n)) else ret None.

Definition Queue_length : cmd qst Z := t <- qself;; ret (qlength t).

(** The loop [while (this->first != NULL)] of [Queue_purge]. *)
Fixpoint purge_nodes (fuel : nat) : cmd qst unit :=
  match fuel with
  | O => stuck OutOfFuel
  | S fuel =>
    t <- qself;;
    match qfirst t with
    | None => ret tt
    | Some _ =>
      let item := qfirst t in
      n <- load_qnode item;;
      set_qfirst (qnext n);;;
      QueueNode_free item;;;
      purge_nodes fuel
    end
  end.

Definition Queue_purge (fuel : nat) : cmd qst bool :=
  t <- qself;;
  if negb (Queue_empty t) then
    purge_nodes fuel;;;
    set_qlast None;;;
    set_qlength 0;;;
    ret true
  else ret false.

(** [Queue_free]: the nodes are purged, the structure is zeroed and given
    back; the result is the caller's pointer. *)
Definition Queue_free (fuel : nat) : cmd qst (option Queue) :=
  Queue_purge fuel;;;
  qupd (λ _, MkQueue None None 0);;;
  ret None.

(** ** Representation *)

Record qentry : Type := QEntry { qn : loc; qc : loc; qv : bytes }.

Definition qcl (s : qst) : gmap loc qcell := cells (qm s).
Definition qlocs (es : list qentry) : list loc := flat_map (λ e, [qn e; qc e]) es.
Definition qvals (es : list qentry) : list bytes := qv <$> es.
Definition qhd (es : list qentry) (nx : ptr) : ptr :=
  match es with [] => nx | e :: _ => Some (qn e) end.

Definition qnode_of (nx : ptr) (e : qentry) : qcell :=
  QNode (MkQueueNode nx (MkQueueData (Some (qc e)) (length (qv e)))).

Fixpoint sseg (c : gmap loc qcell) (es : list qentry) (nx : ptr) : Prop :=
  match es with
  | [] => True
  | e :: es =>
    c !! qn e = Some (qnode_of (qhd es nx) e)
    ∧ c !! qc e = Some (QBytes (qv e))
    ∧ sseg c es nx
  end.

(** The heap holds the queue [es] and, besides it, only the cells [out] that
    were handed out.  [last] is meaningful only while the queue is not
    empty. *)
Record qrep (s : qst) (es : list qentry) (out : gset loc) : Prop := {
  qrep_seg : sseg (qcl s) es None;
  qrep_nodup : NoDup (qlocs es);
  qrep_out : ∀ l, l ∈ qlocs es → l ∉ out;
  qrep_own : ∀ l, is_Some (qcl s !! l) ↔ l ∈ qlocs es ∨ l ∈ out;
  qrep_wf : mem_wf (qm s);
  qrep_first : qfirst (qthis s) = qhd es None;
  qrep_last : es ≠ [] → qlast (qthis s) = qn <$> last es;
  qrep_length : qlength (qthis s) = Z.of_nat (length es);
  qrep_int : (Z.of_nat (length es) ≤ INT_MAX)%Z
}.

(** A dequeued value the caller holds. *)
Definition handed (s : qst) (p : ptr) (v : bytes) (out : gset loc) : Prop :=
  ∃ d c, p = Some d ∧ d ≠ c ∧ out = {[d; c]}
    ∧ qcl s !! d = Some (QData (MkQueueData (Some c) (length v)))
    ∧ qcl s !! c = Some (QBytes v).
