(* ===== verification/QueueSpec.v ===== *)
(** * Queues: refinement to sequences (src/lib/queue) *)

From S2P Require Import Prelude.
From S2P Require Import Heap.
From S2P Require Import QueueLib.

(** ** Symbolic execution *)

Definition qput (l : loc) (c : qcell) (s : qst) : qst :=
  Qst (Mem (<[l := c]> (qcl s)) (brk (qm s)) (budget (qm s))) (qthis s).
Definition qdel (l : loc) (s : qst) : qst :=
  Qst (Mem (delete l (qcl s)) (brk (qm s)) (budget (qm s))) (qthis s).
Definition qalloc (c : qcell) (b : nat) (s : qst) : qst :=
  Qst (Mem (<[brk (qm s) := c]> (qcl s)) (Pos.succ (brk (qm s))) b) (qthis s).
Definition with_queue (t : Queue) (s : qst) : qst := Qst (qm s) t.

Section Steps.
Implicit Types (s : qst) (l : loc).

Lemma load_qnode_Done s l n : qcl s !! l = Some (QNode n) → load_qnode (Some l) s = Done (n, s).
Proof. intros H. destruct s. unfold load_qnode, bind, on_qmem, qcl in *; cbn in *. by rewrite H. Qed.

Lemma load_qdata_Done s l d : qcl s !! l = Some (QData d) → load_qdata (Some l) s = Done (d, s).
Proof. intros H. destruct s. unfold load_qdata, bind, on_qmem, qcl in *; cbn in *. by rewrite H. Qed.

Lemma load_bytes_Done s l bs : qcl s !! l = Some (QBytes bs) → load_bytes (Some l) s = Done (bs, s).
Proof. intros H. destruct s. unfold load_bytes, bind, on_qmem, qcl in *; cbn in *. by rewrite H. Qed.

Lemma q_store_Done s l c c' :
  qcl s !! l = Some c → on_qmem (store (Some l) c') s = Done (tt, qput l c' s).
Proof. intros H. unfold on_qmem. by rewrite (store_Done _ _ _ _ H). Qed.

Lemma q_free_Done s l c : qcl s !! l = Some c → on_qmem (free (Some l)) s = Done (tt, qdel l s).
Proof. intros H. unfold on_qmem. by rewrite (free_Done _ _ _ H). Qed.

Lemma q_calloc_Done s c b : budget (qm s) = S b →
  on_qmem (calloc c) s = Done (Some (brk (qm s)), qalloc c b s).
Proof. intros H. unfold on_qmem. by rewrite (calloc_Done _ _ _ H). Qed.

Lemma q_calloc_None s c : budget (qm s) = 0 → on_qmem (calloc c) s = Done (None, s).
Proof. intros H. unfold on_qmem. rewrite (calloc_None _ _ H). by destruct s. Qed.

Lemma set_qnext_Done s l n q : qcl s !! l = Some (QNode n) →
  set_qnext (Some l) q s = Done (tt, qput l (QNode (MkQueueNode q (qdata n))) s).
Proof. intros H. unfold set_qnext. run (load_qnode_Done _ _ _ H). by apply q_store_Done with (QNode n). Qed.

Lemma erase_Done s l bs : qcl s !! l = Some (QBytes bs) →
  erase (Some l) (length bs) s = Done (tt, qput l (QBytes (replicate (length bs) NUL)) s).
Proof.
  intros H. unfold erase. run (load_bytes_Done _ _ _ H). rewrite decide_True by done.
  rewrite drop_all, app_nil_r. by apply q_store_Done with (QBytes bs).
Qed.

Lemma qupd_Done s f : qupd f s = Done (tt, with_queue (f (qthis s)) s).
Proof. done. Qed.

Lemma add_qlength_Done s k : (INT_MIN ≤ qlength (qthis s) + k ≤ INT_MAX)%Z →
  add_qlength k s = Done (tt, with_queue
    (MkQueue (qfirst (qthis s)) (qlast (qthis s)) (qlength (qthis s) + k)) s).
Proof. intros H. unfold add_qlength, bind, qself, lift. by rewrite int_add_Done. Qed.

Lemma qcl_put s l c : qcl (qput l c s) = <[l := c]> (qcl s).
Proof. done. Qed.
Lemma qcl_del s l : qcl (qdel l s) = delete l (qcl s).
Proof. done. Qed.
Lemma qcl_alloc s c b : qcl (qalloc c b s) = <[brk (qm s) := c]> (qcl s).
Proof. done. Qed.
Lemma qcl_with s t : qcl (with_queue t s) = qcl s.
Proof. done. Qed.
End Steps.

Create Rewrite HintDb queue.
#[export] Hint Rewrite @qcl_put @qcl_del @qcl_alloc @qcl_with : queue.

Ltac q_simpl := autorewrite with queue; cbn [brk qm qput qdel qalloc with_queue qthis budget].
Ltac q_lookup :=
  unfold qnode_of in *; q_simpl;
  repeat first
    [ rewrite lookup_insert_eq
    | rewrite lookup_insert_ne by (first [congruence | lia])
    | rewrite lookup_delete_ne by (first [congruence | lia])
    | rewrite lookup_delete_eq ];
  first [eassumption | reflexivity].
Ltac q_step :=
  rewrite ?bind_bind, ?bind_ret;
  first
    [ erewrite bind_Done by (apply load_qnode_Done; q_lookup)
    | erewrite bind_Done by (apply load_qdata_Done; q_lookup)
    | erewrite bind_Done by (apply load_bytes_Done; q_lookup)
    | erewrite bind_Done by (eapply set_qnext_Done; q_lookup)
    | erewrite bind_Done by (eapply q_store_Done; q_lookup)
    | erewrite bind_Done by (eapply q_free_Done; q_lookup)
    | erewrite bind_Done by (eapply erase_Done; q_lookup)
    | unfold set_qfirst, set_qlast, set_qlength; erewrite bind_Done by apply qupd_Done
    | erewrite bind_Done by (unfold qself; reflexivity) ];
  cbn [qnext qdata content dlength].

(** ** Segments *)

Section Segments.
Implicit Types (c : gmap loc qcell) (es A B : list qentry).

Lemma qlocs_app A B : qlocs (A ++ B) = qlocs A ++ qlocs B.
Proof. unfold qlocs. by rewrite flat_map_app. Qed.

Lemma qlocs_cons e es : qlocs (e :: es) = qn e :: qc e :: qlocs es.
Proof. done. Qed.

Lemma sseg_app c A B nx : sseg c (A ++ B) nx ↔ sseg c A (qhd B nx) ∧ sseg c B nx.
Proof.
  induction A as [|a A IH]; cbn; [tauto|].
  rewrite IH. assert (qhd (A ++ B) nx = qhd A (qhd B nx)) as -> by (by destruct A). tauto.
Qed.

Lemma sseg_frame c c' es nx :
  (∀ l, l ∈ qlocs es → c' !! l = c !! l) → sseg c es nx → sseg c' es nx.
Proof.
  induction es as [|e es IH]; [done|]. rewrite qlocs_cons. cbn.
  intros Hf (H1 & H2 & H3). rewrite !Hf by set_solver. split_and!; try done.
  apply IH; [|done]. set_solver.
Qed.

(** Redirecting the last [next] pointer of a segment. *)
Lemma sseg_relink c c' es nx nx' : NoDup (qlocs es) →
  (∀ l, l ∈ qlocs es → Some l ≠ qn <$> last es → c' !! l = c !! l) →
  (∀ A a, es = A ++ [a] → c' !! qn a = Some (qnode_of nx' a)) →
  sseg c es nx → sseg c' es nx'.
Proof.
  destruct es as [|a A _] using rev_ind; [done|].
  intros Hnd Hf Hl. rewrite qlocs_app in *. apply NoDup_app in Hnd as (_ & Hdj & Hnd).
  rewrite last_snoc in Hf. rewrite !sseg_app. cbn. intros (HA & _ & Hda & _).
  split_and!; [|by eapply Hl| |done].
  - eapply sseg_frame; [|exact HA]. intros l Hin. apply Hf; [set_solver|].
    intros [= ->]. apply (Hdj _ Hin). set_solver.
  - rewrite Hf; [done|set_solver|]. intros [= Heq].
    apply NoDup_cons in Hnd as [Hx _]. apply Hx. rewrite Heq. set_solver.
Qed.

Lemma sseg_locs c es nx l : sseg c es nx → l ∈ qlocs es → is_Some (c !! l).
Proof.
  induction es as [|e es IH]; [by intros _ ?%elem_of_nil|]. rewrite qlocs_cons.
  intros (H1 & H2 & H3) [->|[->|Hl]%elem_of_cons]%elem_of_cons; eauto.
Qed.
End Segments.

Section RepFacts.
Context (s : qst) (es : list qentry) (out : gset loc) (R : qrep s es out).

Lemma qrep_brk l : l ∈ qlocs es ∨ l ∈ out → (l < brk (qm s))%positive.
Proof.
  intros Hl. apply (qrep_own _ _ _ R) in Hl as [c Hc].
  exact (mem_wf_lt _ _ _ (qrep_wf _ _ _ R) Hc).
Qed.

Lemma qrep_fresh l : (brk (qm s) ≤ l)%positive → (l ∉ qlocs es) ∧ (l ∉ out).
Proof. intros H. split; intros Hl; assert (l < brk (qm s))%positive; auto using qrep_brk; lia. Qed.

Lemma qrep_empty : Queue_empty (qthis s) = bool_decide (es = []).
Proof.
  unfold Queue_empty, ptr_eqb. rewrite (qrep_length _ _ _ R), (qrep_first _ _ _ R).
  destruct es as [|e es']; [done|]. rewrite (qrep_last _ _ _ R) by done.
  rewrite last_cons. destruct (last es'); cbn; by rewrite !bool_decide_eq_false_2.
Qed.
End RepFacts.

(** ** Allocation and release of a node *)

(** The heap after a successful [QueueNode_new]. *)
Definition with_qnode (v : bytes) (b : nat) (s : qst) : qst :=
  Qst (Mem (<[brk (qm s) := QNode (MkQueueNode None (MkQueueData (Some (Pos.succ (brk (qm s)))) (length v)))]>
             (<[Pos.succ (brk (qm s)) := QBytes v]> (qcl s)))
           (Pos.succ (Pos.succ (brk (qm s)))) b) (qthis s).

Lemma QueueNode_new_Done s v b : budget (qm s) = S (S b) →
  QueueNode_new v (length v) s = Done (Some (brk (qm s)), with_qnode v b s).
Proof.
  intros Hb. unfold QueueNode_new.
  run (q_calloc_Done s (QNode (MkQueueNode None (MkQueueData None 0))) _ Hb).
  erewrite bind_Done by (by apply q_calloc_Done with (b := b)). cbn [brk qm qalloc].
  do 2 q_step. rewrite decide_True by done. q_step.
  unfold ret. do 2 f_equal. unfold with_qnode, qput, qalloc. cbn. rewrite firstn_all. do 2 f_equal.
  apply map_eq. intros i. rewrite !lookup_insert. repeat case_decide; subst; try done; lia.
Qed.

Lemma QueueNode_free_Done s l c nx v : l ≠ c →
  qcl s !! l = Some (QNode (MkQueueNode nx (MkQueueData (Some c) (length v)))) →
  qcl s !! c = Some (QBytes v) →
  ∃ s', QueueNode_free (Some l) s = Done (None, s')
    ∧ qcl s' = delete l (delete c (qcl s)) ∧ qthis s' = qthis s
    ∧ brk (qm s') = brk (qm s) ∧ budget (qm s') = budget (qm s).
Proof.
  intros Hne Hl Hc. unfold QueueNode_free. do 5 q_step.
  eexists. split; [reflexivity|]. split_and!; try done. q_simpl.
  apply map_eq. intros i. rewrite !lookup_delete, !lookup_insert, !lookup_delete, !lookup_insert.
  repeat case_decide; subst; try done.
Qed.

(** ** The operations on a represented queue *)

(** Nothing the caller holds is touched. *)
Definition keeps_out (s s' : qst) (out : gset loc) : Prop :=
  ∀ l, l ∈ out → qcl s' !! l = qcl s !! l.

Lemma qrep_snoc s s' es out e : qrep s es out →
  mem_wf (qm s') → (Z.of_nat (length es) < INT_MAX)%Z →
  qthis s' = MkQueue (qhd (es ++ [e]) None) (Some (qn e)) (Z.of_nat (length es) + 1) →
  NoDup [qn e; qc e] → (∀ l, l ∈ [qn e; qc e] → (l ∉ qlocs es) ∧ (l ∉ out)) →
  qcl s' !! qn e = Some (qnode_of None e) → qcl s' !! qc e = Some (QBytes (qv e)) →
  (∀ A a, es = A ++ [a] → qcl s' !! qn a = Some (qnode_of (Some (qn e)) a)) →
  (∀ l, l ≠ qn e → l ≠ qc e → Some l ≠ qn <$> last es → qcl s' !! l = qcl s !! l) →
  qrep s' (es ++ [e]) out ∧ keeps_out s s' out.
Proof.
  intros R Hwf Hi Ht Hnd Hfr Hn Hc Hl Hsame.
  assert (Hne : ∀ l, l ∈ qlocs es ∨ l ∈ out → l ≠ qn e ∧ l ≠ qc e).
  { intros l Hin. split; intros ->.
    - destruct (Hfr (qn e)); [left|tauto].
    - destruct (Hfr (qc e)); [right; left|tauto]. }
  clear Hfr.
  assert (Hlast : ∀ l, Some l = qn <$> last es → l ∈ qlocs es ∧ is_Some (qcl s' !! l)).
  { intros l H. clear -H Hl. destruct es as [|a A _] using rev_ind; [done|].
    rewrite last_snoc in H. injection H as ->. rewrite (Hl _ _ eq_refl), qlocs_app.
    split; [apply elem_of_app; right; left|eauto]. }
  split; [|intros l Hout; destruct (Hne l); [tauto|]; apply Hsame; [done..|];
           intros [E _]%Hlast; by apply (qrep_out _ _ _ R l)].
  split; try done; rewrite ?Ht, ?length_app; cbn [qfirst qlast qlength length]; try lia;
    rewrite ?qlocs_app; try done.
  - apply sseg_app. cbn. split_and!; try done.
    eapply sseg_relink; [apply R| |exact Hl|apply R].
    intros l Hin E. destruct (Hne l); [tauto|]. by apply Hsame.
  - apply NoDup_app. split_and!; [apply R| |done]. intros l Hin. destruct (Hne l); [tauto|].
    cbn. rewrite !not_elem_of_cons. split_and!; try done. apply not_elem_of_nil.
  - intros l [Hin|Hin]%elem_of_app; [by apply (qrep_out _ _ _ R)|]. intros Hout.
    destruct (Hne l); [tauto|]. cbn in Hin. rewrite !elem_of_cons, elem_of_nil in Hin. tauto.
  - intros l. rewrite elem_of_app. cbn. rewrite !elem_of_cons, elem_of_nil.
    destruct (decide (l = qn e)) as [->|]; [rewrite Hn; split; eauto|].
    destruct (decide (l = qc e)) as [->|]; [rewrite Hc; split; eauto|].
    destruct (decide (Some l = qn <$> last es)) as [E%Hlast|E]; [tauto|].
    rewrite Hsame by done. rewrite (qrep_own _ _ _ R). tauto.
  - by rewrite last_snoc.
Qed.

Lemma Queue_enqueue_run s es out v b : qrep s es out → budget (qm s) = S (S b) →
  (Z.of_nat (length es) < INT_MAX)%Z →
  ∃ s' e, Queue_enqueue v (length v) s = Done (true, s')
    ∧ (qrep s' (es ++ [e]) out ∧ keeps_out s s' out) ∧ qv e = v ∧ budget (qm s') = b.
Proof.
  intros R Hb Hi. set (n := brk (qm s)). set (e := QEntry n (Pos.succ n) v).
  assert (Hfr : ∀ l, l ∈ [qn e; qc e] → (l ∉ qlocs es) ∧ (l ∉ out)).
  { intros l Hl. apply (qrep_fresh _ _ _ R). cbn in Hl. unfold n in Hl.
    apply elem_of_cons in Hl as [-> | ->%list_elem_of_singleton]; lia. }
  assert (Hnd : NoDup [qn e; qc e]).
  { cbn. apply NoDup_cons; split; [|apply NoDup_singleton].
    intros E%list_elem_of_singleton. lia. }
  assert (Hwf : mem_wf (qm (with_qnode v b s))).
  { intros l Hl. cbn in *. rewrite !lookup_insert_ne by lia. apply (qrep_wf _ _ _ R). lia. }
  unfold Queue_enqueue. run (QueueNode_new_Done _ v _ Hb). q_step. cbn [qthis with_qnode].
  rewrite (qrep_empty _ _ _ R). pose proof (qrep_length _ _ _ R) as Hlen.
  assert (Hsucc : (INT_MIN ≤ Z.of_nat (length es) + 1 ≤ INT_MAX)%Z) by (unfold INT_MIN; lia).
  destruct es as [|a A _] using rev_ind.
  - rewrite bool_decide_eq_true_2 by done. do 2 q_step.
    erewrite bind_Done by (apply add_qlength_Done; cbn; by rewrite Hlen).
    eexists _, e. split; [reflexivity|]. split; [|done].
    apply qrep_snoc with (s := s); try done; cbn.
    + by rewrite Hlen.
    + unfold qcl; cbn. by rewrite lookup_insert_eq.
    + unfold qcl; cbn. rewrite lookup_insert_ne by lia. by rewrite lookup_insert_eq.
    + intros A a Ha; by destruct A.
    + intros l H1 H2 _. unfold qcl; cbn. by rewrite !lookup_insert_ne by done.
  - rewrite bool_decide_eq_false_2 by (by destruct A). rewrite (qrep_last _ _ _ R) by (by destruct A).
    rewrite last_snoc. cbn [fmap option_fmap option_map].
    assert (Hlt : (qn a < n)%positive).
    { apply (qrep_brk _ _ _ R). left. rewrite qlocs_app. apply elem_of_app. right. left. }
    assert (Ha1 : qn a ≠ n) by lia. assert (Ha2 : qn a ≠ Pos.succ n) by lia.
    pose proof (qrep_seg _ _ _ R) as Hs. rewrite sseg_app in Hs. destruct Hs as (_ & Ha & _).
    assert (Ha' : qcl (with_qnode v b s) !! qn a = Some (qnode_of None a)).
    { unfold qcl; cbn. by rewrite !lookup_insert_ne by done. }
    do 2 q_step.
    erewrite bind_Done by (apply add_qlength_Done; cbn; by rewrite Hlen).
    eexists _, e. split; [reflexivity|]. split; [|done].
    apply qrep_snoc with (s := s); try done; cbn.
    + intros l Hl. cbn in *. fold n in Hl. rewrite lookup_insert_ne by lia. by apply Hwf.
    + rewrite Hlen, (qrep_first _ _ _ R). by destruct A.
    + unfold qcl; cbn. rewrite lookup_insert_ne by done. by rewrite lookup_insert_eq.
    + unfold qcl; cbn. rewrite !lookup_insert_ne by lia. by rewrite lookup_insert_eq.
    + intros A' a' [_ [= <-]]%app_inj_tail. unfold qcl; cbn. by rewrite lookup_insert_eq.
    + intros l H1 H2. rewrite last_snoc. intros H3. unfold qcl; cbn.
      rewrite lookup_insert_ne by (intros <-; by apply H3).
      by rewrite !lookup_insert_ne by done.
Qed.

(** The first node was detached and released; the cells [new] are the ones
    allocated for the caller. *)
Lemma qrep_uncons s s' e es out new : qrep s (e :: es) out →
  mem_wf (qm s') →
  qthis s' = MkQueue (qhd es None) (qlast (qthis s)) (Z.of_nat (length es)) →
  qcl s' !! qn e = None → qcl s' !! qc e = None →
  (∀ l, l ≠ qn e → l ≠ qc e → l ∉ new → qcl s' !! l = qcl s !! l) →
  (∀ l, l ∈ new → is_Some (qcl s' !! l) ∧ (brk (qm s) ≤ l)%positive) →
  qrep s' es (out ∪ new) ∧ keeps_out s s' out.
Proof.
  intros R Hwf Ht Hn Hc Hsame Hnew.
  pose proof (qrep_nodup _ _ _ R) as Hd. rewrite qlocs_cons in Hd.
  apply NoDup_cons in Hd as [Hd1 Hd]. apply NoDup_cons in Hd as [Hd2 Hd].
  assert (Hne : ∀ l, l ∈ qlocs es ∨ l ∈ out → l ≠ qn e ∧ l ≠ qc e ∧ l ∉ new).
  { intros l Hin. split_and!.
    - intros ->. destruct Hin; [by apply Hd1; right|]. apply (qrep_out _ _ _ R (qn e)); [left|done].
    - intros ->. destruct Hin; [done|]. apply (qrep_out _ _ _ R (qc e)); [right; left|done].
    - intros [_ Hge]%Hnew. assert (l < brk (qm s))%positive; [|lia].
      apply (qrep_brk _ _ _ R). destruct Hin; [left; by right; right|by right]. }
  split; [|intros l Hout; destruct (Hne l) as (?&?&?); [tauto|]; by apply Hsame].
  split; try done; rewrite ?Ht; cbn [qfirst qlast qlength]; try done.
  - destruct (qrep_seg _ _ _ R) as (_ & _ & Hs). eapply sseg_frame; [|exact Hs].
    intros l Hin. destruct (Hne l) as (?&?&?); [tauto|]. by apply Hsame.
  - intros l Hin. apply not_elem_of_union. split; [|apply Hne; tauto].
    apply (qrep_out _ _ _ R). by right; right.
  - intros l. rewrite elem_of_union.
    destruct (decide (l ∈ new)) as [Hin|Hin]; [pose proof (Hnew l Hin); tauto|].
    destruct (decide (l = qn e)) as [->|Hln].
    { rewrite Hn. split; [by intros []|]. intros [H|[H|H]]; destruct (Hne (qn e)) as (?&?&?); tauto. }
    destruct (decide (l = qc e)) as [->|Hlc].
    { rewrite Hc. split; [by intros []|]. intros [H|[H|H]]; destruct (Hne (qc e)) as (?&?&?); tauto. }
    rewrite Hsame by done. rewrite (qrep_own _ _ _ R), qlocs_cons, !elem_of_cons. tauto.
  - intros Hes. rewrite (qrep_last _ _ _ R) by done. destruct es; [done|]. by rewrite last_cons_cons.
  - pose proof (qrep_int _ _ _ R) as Hi. cbn in Hi. lia.
Qed.

Lemma qrep_head s e es out : qrep s (e :: es) out →
  qcl s !! qn e = Some (qnode_of (qhd es None) e) ∧ qcl s !! qc e = Some (QBytes (qv e))
  ∧ qn e ≠ qc e ∧ (qn e < brk (qm s))%positive ∧ (qc e < brk (qm s))%positive.
Proof.
  intros R. destruct (qrep_seg _ _ _ R) as (H1 & H2 & _).
  pose proof (qrep_nodup _ _ _ R) as Hd. rewrite qlocs_cons in Hd. apply NoDup_cons in Hd as [Hd1 _].
  split_and!; [done|done| | |].
  - intros E. apply Hd1. rewrite E. left.
  - apply (qrep_brk _ _ _ R). left. left.
  - apply (qrep_brk _ _ _ R). left. right. left.
Qed.

Lemma Queue_dequeue_run s e es out b : qrep s (e :: es) out → budget (qm s) = S (S b) →
  ∃ s' p new, Queue_dequeue s = Done (p, s')
    ∧ (qrep s' es (out ∪ new) ∧ keeps_out s s' out) ∧ (handed s' p (qv e) new ∧ out ## new)
    ∧ budget (qm s') = b.
Proof.
  intros R Hb. destruct (qrep_head _ _ _ _ R) as (Hn & Hc & Hne & Hln & Hlc).
  unfold qnode_of in Hn. set (d := brk (qm s)) in *. set (c := Pos.succ d).
  unfold Queue_dequeue. q_step. rewrite (qrep_empty _ _ _ R), bool_decide_eq_false_2 by done.
  cbn [negb]. rewrite (qrep_first _ _ _ R). cbn [qhd]. do 2 q_step.
  erewrite bind_Done by (apply q_calloc_Done with (b := S b); exact Hb).
  cbn [brk qm with_queue]. do 2 q_step.
  erewrite bind_Done by (by apply q_calloc_Done with (b := b)). q_simpl.
  do 3 q_step. rewrite decide_True by done. q_step. rewrite firstn_all.
  match goal with |- context [bind (QueueNode_free _) _ ?st] =>
    destruct (QueueNode_free_Done st (qn e) (qc e) (qhd es None) (qv e) Hne)
      as (s1 & Hfree & Hcl & Hth & Hbrk & Hbud); [q_lookup..|] end.
  run Hfree. pose proof (qrep_int _ _ _ R) as Hi. cbn in Hi.
  pose proof (qrep_length _ _ _ R) as Hlen. cbn in Hlen.
  erewrite bind_Done.
  2:{ apply add_qlength_Done. rewrite Hth. cbn. rewrite Hlen. unfold INT_MIN. lia. }
  autorewrite with queue in Hcl. cbn in Hcl, Hth, Hbrk, Hbud. fold d in Hcl, Hbrk. fold c in Hcl, Hbrk.
  assert (Hd : qcl s1 !! d = Some (QData (MkQueueData (Some c) (length (qv e))))) by (rewrite Hcl; q_lookup).
  assert (Hc' : qcl s1 !! c = Some (QBytes (qv e))) by (rewrite Hcl; q_lookup).
  exists (with_queue (MkQueue (qhd es None) (qlast (qthis s)) (Z.of_nat (length es))) s1), (Some d), {[d; c]}.
  split; [unfold ret; rewrite Hth; cbn; rewrite Hlen; do 4 f_equal; lia|].
  split; [|split; [|done]].
  - apply qrep_uncons with (e := e); [done| |done|rewrite qcl_with, Hcl; by q_lookup..| |].
    + intros l. cbn. rewrite Hbrk. intros Hl. change (cells (qm s1)) with (qcl s1). rewrite Hcl.
      rewrite !lookup_delete_ne, !lookup_insert_ne by lia. apply (qrep_wf _ _ _ R). unfold d in *. lia.
    + intros l H1 H2 H3. rewrite qcl_with, Hcl. rewrite !lookup_delete_ne by done.
      by rewrite !lookup_insert_ne by set_solver.
    + intros l Hl. rewrite qcl_with. apply elem_of_union in Hl as [Hl|Hl]; apply elem_of_singleton in Hl as ->;
        [rewrite Hd|rewrite Hc']; split; eauto; unfold c, d; lia.
  - split.
    + exists d, c. rewrite qcl_with. split_and!; [done|unfold c; lia|done|done|done].
    + intros l Hout Hl. assert (l < brk (qm s))%positive by (apply (qrep_brk _ _ _ R); by right).
      unfold c, d in Hl. apply elem_of_union in Hl as [Hl|Hl]; apply elem_of_singleton in Hl; lia.
Qed.

Lemma Queue_dequeue_nil s out : qrep s [] out → Queue_dequeue s = Done (None, s).
Proof.
  intros R. unfold Queue_dequeue. q_step. by rewrite (qrep_empty _ _ _ R).
Qed.

(** Releasing a value that was handed out. *)
Lemma QueueData_free_run s es out new p v : qrep s es (out ∪ new) → out ## new →
  handed s p v new →
  ∃ s', QueueData_free p s = Done (None, s') ∧ qrep s' es out ∧ keeps_out s s' out
    ∧ budget (qm s') = budget (qm s).
Proof.
  intros R Hdj (d & c & -> & Hne & -> & Hd & Hc).
  unfold QueueData_free. do 5 q_step.
  set (s' := qdel d _). exists s'. split; [done|].
  assert (Hgone : qcl s' !! d = None ∧ qcl s' !! c = None) by (split; unfold s'; q_lookup).
  assert (Hrest : ∀ l, l ≠ d → l ≠ c → qcl s' !! l = qcl s !! l).
  { intros l H1 H2. unfold s'. q_simpl.
    by rewrite lookup_delete_ne, lookup_insert_ne, lookup_delete_ne, lookup_insert_ne. }
  assert (Hnd : ∀ l, l ∈ qlocs es ∨ l ∈ out → l ≠ d ∧ l ≠ c).
  { intros l [Hl|Hl]; [pose proof (qrep_out _ _ _ R l Hl)|]; set_solver. }
  assert (Hsame : qthis s' = qthis s ∧ brk (qm s') = brk (qm s) ∧ budget (qm s') = budget (qm s))
    by done.
  clearbody s'. destruct Hsame as (Ht & Hbrk & Hbud). destruct Hgone as [Hd' Hc'].
  split; [split; rewrite ?Ht; try apply R|split; [|done]].
  - eapply sseg_frame; [|apply R]. intros l Hl. destruct (Hnd l); [tauto|]. by apply Hrest.
  - intros l Hl Ho. by apply (qrep_out _ _ _ R l Hl), elem_of_union_l.
  - intros l. destruct (decide (l = d)) as [->|H1].
    { rewrite Hd'. split; [by intros []|]. intros H. by destruct (Hnd d H). }
    destruct (decide (l = c)) as [->|H2].
    { rewrite Hc'. split; [by intros []|]. intros H. by destruct (Hnd c H). }
    rewrite Hrest by done. rewrite (qrep_own _ _ _ R). set_solver.
  - intros l Hl. change (qcl s' !! l = None). destruct (decide (l = d)) as [->|]; [done|].
    destruct (decide (l = c)) as [->|]; [done|]. rewrite Hrest by done.
    apply (qrep_wf _ _ _ R). by rewrite <- Hbrk.
  - intros l Hl. destruct (Hnd l); [tauto|]. by apply Hrest.
Qed.

(** The loop of [Queue_purge] only looks at [first]: the length is reset
    after it, so the representation is stated for a corrected header [t]. *)
Lemma purge_nodes_run es : ∀ s t out fuel,
  qrep (with_queue t s) es out → qfirst (qthis s) = qfirst t → length es < fuel →
  ∃ s', purge_nodes fuel s = Done (tt, s')
    ∧ (∀ t', qfirst t' = None → qlength t' = 0%Z → qrep (with_queue t' s') [] out)
    ∧ qfirst (qthis s') = None
    ∧ keeps_out s s' out ∧ budget (qm s') = budget (qm s).
Proof.
  induction es as [|e es IH]; intros s t out fuel R Ht Hf; (destruct fuel as [|fuel]; [cbn in Hf; lia|]);
    cbn [purge_nodes]; q_step; rewrite Ht; pose proof (qrep_first _ _ _ R) as Ef; cbn in Ef; rewrite Ef.
  - exists s. split_and!; try done; [|by rewrite Ht].
    intros t' H1 H2. destruct R. by split.
  - destruct (qrep_head _ _ _ _ R) as (Hn & Hc & Hne & Hln & Hlc).
    unfold qnode_of in Hn. rewrite qcl_with in Hn, Hc. do 2 q_step.
    match goal with |- context [bind (QueueNode_free _) _ ?st] =>
      destruct (QueueNode_free_Done st (qn e) (qc e) (qhd es None) (qv e) Hne)
        as (s1 & Hfree & Hcl & Hth & Hbrk & Hbud); [q_lookup..|] end.
    run Hfree. autorewrite with queue in Hcl. cbn in Hth, Hbrk, Hbud.
    set (t2 := MkQueue (qhd es None) (qlast t) (Z.of_nat (length es))).
    destruct (qrep_uncons _ (with_queue t2 s1) e es out ∅ R) as [R2 Hk]; rewrite ?qcl_with, ?Hcl;
      [|done|q_lookup|q_lookup| | |].
    { intros l. cbn. rewrite Hbrk. change (cells (qm s1)) with (qcl s1). rewrite Hcl. intros Hl.
      rewrite !lookup_delete_ne by (cbn in *; lia). by apply (qrep_wf _ _ _ R). }
    { intros l H1 H2 _. by rewrite !lookup_delete_ne. }
    { by intros l ?%elem_of_empty. }
    rewrite (right_id_L ∅ _ out) in R2.
    destruct (IH s1 t2 out fuel R2) as (s' & Hrun & Hr & Hnull & Hk' & Hb'); [by rewrite Hth|cbn in Hf; lia|].
    exists s'. split_and!; [done..| |congruence].
    intros l Hl. rewrite (Hk' l Hl). by apply (Hk l Hl).
Qed.

Lemma Queue_purge_run s es out fuel : qrep s es out → length es < fuel →
  ∃ s', Queue_purge fuel s = Done (bool_decide (es ≠ []), s') ∧ qrep s' [] out
    ∧ keeps_out s s' out ∧ budget (qm s') = budget (qm s).
Proof.
  intros R Hf. unfold Queue_purge. q_step. rewrite (qrep_empty _ _ _ R).
  destruct es as [|e es]; [by exists s|]. rewrite bool_decide_eq_false_2 by done. cbn [negb].
  destruct (purge_nodes_run (e :: es) s (qthis s) out fuel) as (s' & Hrun & Hr & Hn & Hk & Hb);
    [by destruct s|done|done|].
  run Hrun. do 2 q_step. eexists.
  split; [by rewrite bool_decide_eq_true_2|]. split; [by apply Hr|done].
Qed.

Lemma Queue_peek_run s es out : qrep s es out →
  Queue_peek s = Done ((λ e, MkQueueData (Some (qc e)) (length (qv e))) <$> head es, s).
Proof.
  intros R. unfold Queue_peek. q_step. rewrite (qrep_empty _ _ _ R), (qrep_first _ _ _ R).
  destruct es as [|e es]; [done|]. rewrite bool_decide_eq_false_2 by done. cbn [negb qhd].
  destruct (qrep_head _ _ _ _ R) as (Hn & _). by q_step.
Qed.

Lemma Queue_lpeek_run s es out : qrep s es out →
  Queue_lpeek s = Done ((λ e, MkQueueData (Some (qc e)) (length (qv e))) <$> last es, s).
Proof.
  intros R. unfold Queue_lpeek. q_step. rewrite (qrep_empty _ _ _ R).
  destruct es as [|e es _] using rev_ind; [done|].
  rewrite bool_decide_eq_false_2, (qrep_last _ _ _ R) by (by destruct es). cbn [negb].
  rewrite last_snoc. cbn [fmap option_fmap option_map].
  pose proof (qrep_seg _ _ _ R) as Hs. rewrite sseg_app in Hs.
  destruct Hs as (_ & Hn & _). by q_step.
Qed.

(** ** Abstract specification and refinement *)

Inductive queue_op : Type :=
  | QEnqueue (v : bytes)
  | QDequeue
  | QPeek
  | QLPeek
  | QLength
  | QPurge.

Inductive queue_res : Type :=
  | QBool (b : bool)
  | QValue (v : option bytes)
  | QInt (n : Z).

(** What the queue promises: the values come out in the order they went in. *)
Definition qspec (o : queue_op) (q : list bytes) : queue_res * list bytes :=
  match o with
  | QEnqueue v => (QBool true, q ++ [v])
  | QDequeue => (QValue (head q), tail q)
  | QPeek => (QValue (head q), q)
  | QLPeek => (QValue (last q), q)
  | QLength => (QInt (Z.of_nat (length q)), q)
  | QPurge => (QBool (bool_decide (q ≠ [])), [])
  end.

Fixpoint qspec_run (os : list queue_op) (q : list bytes) : list queue_res * list bytes :=
  match os with
  | [] => ([], q)
  | o :: os =>
    let '(r, q) := qspec o q in let '(rs, q) := qspec_run os q in (r :: rs, q)
  end.

(** The operations as the callers use them: a dequeued value is read and
    released with [QueueData_free]; a peeked one is read in place. *)
Definition read_peek (d : option QueueData) : cmd qst queue_res :=
  match d with
  | None => ret (QValue None)
  | Some d => bs <- load_bytes (content d);; ret (QValue (Some (take (dlength d) bs)))
  end.

Definition run_qop (fuel : nat) (o : queue_op) : cmd qst queue_res :=
  match o with
  | QEnqueue v => b <- Queue_enqueue v (length v);; ret (QBool b)
  | QDequeue =>
    p <- Queue_dequeue;;
    match p with
    | None => ret (QValue None)
    | Some _ =>
      d <- load_qdata p;;
      bs <- load_bytes (content d);;
      QueueData_free p;;;
      ret (QValue (Some (take (dlength d) bs)))
    end
  | QPeek => d <- Queue_peek;; read_peek d
  | QLPeek => d <- Queue_lpeek;; read_peek d
  | QLength => n <- Queue_length;; ret (QInt n)
  | QPurge => b <- Queue_purge fuel;; ret (QBool b)
  end.

Fixpoint run_qops (fuel : nat) (os : list queue_op) : cmd qst (list queue_res) :=
  match os with
  | [] => ret []
  | o :: os => r <- run_qop fuel o;; rs <- run_qops fuel os;; ret (r :: rs)
  end.

Definition qrefines (s : qst) (q : list bytes) (out : gset loc) : Prop :=
  ∃ es, qrep s es out ∧ q = qvals es.

Section Refinement.
Context (fuel : nat) (out : gset loc).

Lemma read_in_place s es i e : qrep s es out → es !! i = Some e →
  read_peek (Some (MkQueueData (Some (qc e)) (length (qv e)))) s = Done (QValue (Some (qv e)), s).
Proof.
  intros R Hi. pose proof (qrep_seg _ _ _ R) as Hs.
  rewrite <- (take_drop_middle _ _ _ Hi), sseg_app in Hs. destruct Hs as (_ & _ & Hc & _).
  cbn [read_peek]. q_step. by rewrite firstn_all.
Qed.

Lemma op_refines_queue o s q : qrefines s q out → 2 ≤ budget (qm s) →
  (Z.of_nat (length q) < INT_MAX)%Z → length q < fuel →
  ∃ s', run_qop fuel o s = Done ((qspec o q).1, s') ∧ qrefines s' (qspec o q).2 out
    ∧ keeps_out s s' out ∧ budget (qm s) ≤ budget (qm s') + 2.
Proof.
  intros (es & R & ->) Hb Hi Hf. unfold qvals in *. rewrite length_fmap in Hi, Hf.
  destruct (budget (qm s)) as [|[|b]] eqn:Eb; [lia..|].
  destruct o; cbn [run_qop qspec fst snd].
  - destruct (Queue_enqueue_run s es out v b R Eb Hi) as (s' & e & Hrun & [R' Hk] & Hv & Hb').
    run Hrun. exists s'. split_and!; [done| |done|lia]. exists (es ++ [e]). split; [done|].
    unfold qvals. rewrite fmap_app. cbn. by rewrite Hv.
  - destruct es as [|e es].
    { run (Queue_dequeue_nil _ _ R). exists s. split_and!; [done|by exists []|done|lia]. }
    destruct (Queue_dequeue_run s e es out b R Eb) as (s1 & p & new & Hrun & [R1 Hk] & [Hh Hdj] & Hb').
    run Hrun. pose proof Hh as (d & c & Hp & _ & _ & Hd & Hc). rewrite Hp. do 2 q_step.
    destruct (QueueData_free_run s1 es out new p (qv e) R1 Hdj Hh) as (s2 & Hfree & R2 & Hk2 & Hb2).
    rewrite Hp in Hfree. run Hfree. exists s2. rewrite firstn_all. split_and!; [done| | |lia].
    + exists es. done.
    + intros l Hl. rewrite (Hk2 l Hl). by apply Hk.
  - run (Queue_peek_run _ _ _ R). exists s. split_and!; [|by exists es|done|lia].
    destruct es as [|e es]; [done|]. cbn [head fmap option_fmap option_map]. by eapply (read_in_place _ _ 0).
  - run (Queue_lpeek_run _ _ _ R). exists s. split_and!; [|by exists es|done|lia].
    rewrite fmap_last. rewrite last_lookup. destruct (es !! _) as [e|] eqn:E; [|done].
    cbn [fmap option_fmap option_map]. by eapply read_in_place.
  - exists s. split_and!; [|by exists es|done|lia]. unfold Queue_length. q_step.
    by rewrite (qrep_length _ _ _ R), length_fmap.
  - destruct (Queue_purge_run s es out fuel R Hf) as (s' & Hrun & R' & Hk & Hb'). run Hrun.
    exists s'. split_and!; [|by exists []|done|lia]. unfold ret. do 3 f_equal.
    apply bool_decide_ext. by destruct es.
Qed.
End Refinement.

(** C2. Refinement: every program of queue operations that starts from a
    well-formed queue and has memory for two blocks per operation returns
    the results of the first-in first-out specification, ends with the
    queue it describes, and neither leaks a cell nor touches one that the
    caller holds. *)
Theorem Queue_program_refines (os : list queue_op) (s : qst) (q : list bytes) (out : gset loc)
    (fuel : nat) (Hr : qrefines s q out) (Hb : 2 * length os ≤ budget (qm s))
    (Hi : (Z.of_nat (length q + length os) < INT_MAX)%Z)
    (Hf : length q + length os < fuel) :
  ∃ s', run_qops fuel os s = Done ((qspec_run os q).1, s')
    ∧ qrefines s' (qspec_run os q).2 out ∧ keeps_out s s' out.
Proof.
  revert s q Hr Hb Hi Hf. induction os as [|o os IH]; intros s q Hr Hb Hi Hf; [by exists s|].
  cbn in Hb, Hi, Hf. cbn [run_qops qspec_run].
  destruct (op_refines_queue fuel out o s q Hr) as (s1 & Hrun & Hr1 & Hk1 & Hb1); [lia..|].
  run Hrun. destruct (qspec o q) as [r q1] eqn:Eo. cbn [fst snd] in *.
  assert (Hl : length q1 ≤ S (length q)).
  { destruct o; cbn in Eo; injection Eo as _ <-; rewrite ?length_app, ?length_tl; cbn; lia. }
  destruct (IH s1 q1 Hr1) as (s2 & Hrun2 & Hr2 & Hk2); [lia..|]. run Hrun2.
  destruct (qspec_run os q1) as [rs q2]. exists s2. split_and!; [done..|].
  intros l Hl'. rewrite (Hk2 l Hl'). by apply Hk1.
Qed.

Definition fresh_queue (b : nat) : qst := Qst (Mem ∅ 1 b) (MkQueue None None 0).

Lemma fresh_queue_rep b : qrep (fresh_queue b) [] ∅.
Proof.
  split; try done; [by apply NoDup_nil|]. intros l. unfold qcl. cbn.
  rewrite lookup_empty. split; [by intros []|]. intros [H|H]; [by apply elem_of_nil in H|set_solver].
Qed.

Definition demo_qops : list queue_op :=
  [QEnqueue (lit "first"); QEnqueue (lit "second"); QPeek; QLPeek; QDequeue; QLength;
   QDequeue; QDequeue; QEnqueue (lit "third"); QPurge].

Lemma Queue_program_refines_witness :
  ∃ s', run_qops 20 demo_qops (fresh_queue 20) =
      Done ([QBool true; QBool true; QValue (Some (lit "first")); QValue (Some (lit "second"));
             QValue (Some (lit "first")); QInt 1; QValue (Some (lit "second")); QValue None;
             QBool true; QBool true], s')
    ∧ qrefines s' [] ∅.
Proof.
  destruct (Queue_program_refines demo_qops (fresh_queue 20) [] ∅ 20)
    as (s' & H1 & H2 & _); [exists []; split; [apply fresh_queue_rep|done]|unfold INT_MAX; cbn; lia..|].
  exists s'. exact (conj H1 H2).
Defined.

(** [Queue_free] ends within one turn per node, sets the caller's pointer
    to [NULL] and leaves on the heap exactly the cells handed out before. *)
Theorem Queue_free_no_leak (s : qst) (es : list qentry) (out : gset loc) (fuel : nat)
    (R : qrep s es out) (Hf : length es < fuel) :
  ∃ s', Queue_free fuel s = Done (None, s') ∧ dom (qcl s') = out ∧ keeps_out s s' out.
Proof.
  destruct (Queue_purge_run s es out fuel R Hf) as (s' & Hrun & R' & Hk & _).
  unfold Queue_free. run Hrun. q_step. eexists. split; [reflexivity|]. split; [|done].
  apply set_eq. intros l. rewrite elem_of_dom. etrans; [apply (qrep_own _ _ _ R')|]. cbn.
  rewrite elem_of_nil. tauto.
Qed.

Definition two_queued : qst :=
  match run_qops 9 [QEnqueue (lit "x"); QEnqueue (lit "yy")] (fresh_queue 4) with
  | Done (_, s) => s
  | Stuck _ => fresh_queue 0
  end.

Lemma two_queued_rep : qrep two_queued [QEntry 1 2 (lit "x"); QEntry 3 4 (lit "yy")] ∅.
Proof.
  split; try (by vm_compute).
  - apply (bool_decide_unpack _). by vm_compute.
  - intros l. rewrite <- elem_of_dom.
    assert (E : dom (qcl two_queued) = list_to_set (C := gset loc) [1; 2; 3; 4]%positive).
    { apply (bool_decide_unpack _). by vm_compute. }
    rewrite E, elem_of_list_to_set. cbn. rewrite elem_of_empty. tauto.
  - intros l Hl. apply not_elem_of_dom. intros Hd.
    assert (Hs : set_Forall (λ x, (x < brk (qm two_queued))%positive) (dom (qcl two_queued))).
    { apply (bool_decide_unpack _). by vm_compute. }
    specialize (Hs l Hd). cbn in Hs. lia.
Qed.

Lemma Queue_free_no_leak_witness :
  ∃ s', Queue_free 3 two_queued = Done (None, s') ∧ dom (qcl s') = ∅.
Proof.
  destruct (Queue_free_no_leak two_queued [QEntry 1 2 (lit "x"); QEntry 3 4 (lit "yy")] ∅ 3 two_queued_rep)
    as (s' & H1 & H2 & _); [cbn; lia|].
  exists s'. exact (conj H1 H2).
Defined.

(** Out of memory: when the copy for the caller cannot be allocated,
    [Queue_dequeue] returns [NULL] although the queue is not empty, the first
    value is no longer reachable from the queue, and [length] still counts
    it; the value and its node stay allocated. *)
Theorem Queue_dequeue_out_of_memory (s : qst) (e : qentry) (es : list qentry) (out : gset loc)
    (R : qrep s (e :: es) out) (Hb : budget (qm s) = 0) :
  ∃ s', Queue_dequeue s = Done (None, s')
    ∧ qfirst (qthis s') = qhd es None
    ∧ qlength (qthis s') = Z.of_nat (S (length es))
    ∧ qcl s' = qcl s.
Proof.
  destruct (qrep_head _ _ _ _ R) as (Hn & Hc & _). unfold qnode_of in Hn.
  unfold Queue_dequeue. q_step. rewrite (qrep_empty _ _ _ R), bool_decide_eq_false_2 by done.
  cbn [negb]. rewrite (qrep_first _ _ _ R). cbn [qhd]. do 2 q_step.
  erewrite bind_Done by (by apply q_calloc_None). eexists. split; [reflexivity|].
  split_and!; [done| |done]. cbn. by rewrite (qrep_length _ _ _ R).
Qed.

Lemma Queue_dequeue_out_of_memory_witness :
  ∃ s', Queue_dequeue two_queued = Done (None, s') ∧ qlength (qthis s') = 2%Z
    ∧ qfirst (qthis s') = Some 3%positive.
Proof.
  destruct (Queue_dequeue_out_of_memory two_queued (QEntry 1 2 (lit "x")) [QEntry 3 4 (lit "yy")] ∅
    two_queued_rep) as (s' & H1 & H2 & H3 & _); [reflexivity|].
  exists s'. split; [exact H1|]. split; [exact H3|exact H2].
Defined.
