(* ===== verification/CQueueLib.v ===== *)
(** * Concurrent queues (src/lib/cqueue)

    The functions of cqueue.c as threads that take one step at a time, under
    any schedule: each lock, unlock, wait, signal and test of the inner queue
    is a step.  A call of [Queue_enqueue] or [Queue_dequeue] is not atomic: it
    begins with a step that reads the inner queue and ends with another that
    writes back what it made of what it read, so that two calls that overlap
    lose each other's effect; only the lock keeps them apart.  The inner queue
    is used through the interface [FifoQueue], which queue.c implements.  What
    the threads are asked and what they answer is the history of a run, which
    is shown to be linearizable. *)

From S2P Require Import Prelude.
From S2P Require Import Heap.
From S2P Require Import QueueLib.
From S2P Require Import QueueSpec.

(** ** What the inner queue promises

    [holds n q xs]: the queue holds the values [xs] and has the memory for
    [n] more operations. *)

Class FifoQueue (Q : Type) : Type := {
  enqueue : bytes → cmd Q bool;
  dequeue : cmd Q (option bytes);
  is_empty : Q → bool;
  holds : nat → Q → list bytes → Prop;
  enqueue_ok n q xs v : holds (S n) q xs →
    ∃ q', enqueue v q = Done (true, q') ∧ holds n q' (xs ++ [v]);
  dequeue_ok n q xs : holds (S n) q xs →
    ∃ q', dequeue q = Done (head xs, q') ∧ holds n q' (tail xs);
  is_empty_ok n q xs : holds n q xs → is_empty q = bool_decide (xs = []);
  holds_less n q xs : holds (S n) q xs → holds n q xs
}.

(** queue.c keeps that promise; the value of a dequeued [QueueData] is read
    through the pointer handed to the caller. *)
Definition dequeue_value : cmd qst (option bytes) :=
  p <- Queue_dequeue;;
  match p with
  | None => ret None
  | Some _ =>
    d <- load_qdata p;; bs <- load_bytes (content d);; ret (Some (take (dlength d) bs))
  end.

Definition queue_holds (n : nat) (s : qst) (xs : list bytes) : Prop :=
  2 * n ≤ budget (qm s) ∧ (Z.of_nat (length xs + n) ≤ INT_MAX)%Z ∧ ∃ out, qrefines s xs out.

#[export, refine] Instance queue_fifo : FifoQueue qst := {
  enqueue v := Queue_enqueue v (length v);
  dequeue := dequeue_value;
  is_empty s := Queue_empty (qthis s);
  holds := queue_holds
}.
Proof.
  - intros n s xs v (Hb & Hi & out & es & R & ->). unfold qvals in *. rewrite length_fmap in Hi.
    destruct (budget (qm s)) as [|[|b]] eqn:Eb; [lia..|].
    destruct (Queue_enqueue_run s es out v b R Eb) as (s' & e & Hrun & [R' _] & Hv & Hb'); [lia|].
    exists s'. split; [done|]. split_and!; [lia|rewrite length_app, length_fmap; cbn; lia|].
    exists out, (es ++ [e]). split; [done|]. unfold qvals. rewrite fmap_app. cbn. by rewrite Hv.
  - intros n s xs (Hb & Hi & out & es & R & ->). unfold qvals in *. rewrite length_fmap in Hi.
    destruct (budget (qm s)) as [|[|b]] eqn:Eb; [lia..|]. unfold dequeue_value.
    destruct es as [|e es].
    + run (Queue_dequeue_nil _ _ R). exists s. split; [done|].
      split_and!; [lia|cbn in *; lia|by exists out, []].
    + destruct (Queue_dequeue_run s e es out b R Eb) as (s1 & p & new & Hrun & [R1 _] & [Hh _] & Hb').
      run Hrun. destruct Hh as (d & c & -> & _ & _ & Hd & Hc). do 2 q_step. rewrite firstn_all.
      exists s1. split; [done|].
      split_and!; [lia|cbn in *; rewrite length_fmap; lia|]. by exists (out ∪ new), es.
  - intros n s xs (_ & _ & out & es & R & ->). rewrite (qrep_empty _ _ _ R).
    apply bool_decide_ext. unfold qvals. by destruct es.
  - intros n s xs (Hb & Hi & Hr). split_and!; [lia..|done].
Defined.

(** ** Threads

    Where a thread stands in one of the three functions; a lock call that
    cannot be served leaves the thread where it is, and [WaitBlocked] is
    inside [pthread_cond_wait], which released the lock.  At [PushEnqueue],
    [WaitDequeue] and [TryDequeue] the thread is about to call a function of
    the inner queue, at [PushInside], [WaitInside] and [TryInside] it is inside
    of it. *)

Inductive result : Type :=
  | Pushed (success : bool)
  | Popped (item : option bytes).

Inductive pc : Type :=
  | Idle
  | PushLock (v : bytes) | PushEnqueue (v : bytes) | PushInside (v : bytes) | PushUnlock (r : bool) | PushSignal (r : bool)
  | WaitLock | WaitCheck | WaitBlocked | WaitWoken | WaitDequeue | WaitInside | WaitUnlock (r : option bytes)
  | TryLock | TryCheck | TryUnlockEmpty | TryDequeue | TryInside | TryUnlock (r : option bytes)
  | Returned (r : result).

#[export] Instance result_eq_dec : EqDecision result.
Proof. solve_decision. Defined.
#[export] Instance pc_eq_dec : EqDecision pc.
Proof. solve_decision. Defined.

(** Calls of the three functions. *)
Inductive call : Type :=
  | CQueue_push (v : bytes)
  | CQueue_waitAndPop
  | CQueue_tryPop.

Definition entry_point (c : call) : pc :=
  match c with
  | CQueue_push v => PushLock v
  | CQueue_waitAndPop => WaitLock
  | CQueue_tryPop => TryLock
  end.

(** What the scheduler can do: let an idle thread call a function, let a
    thread take its next step, let a signalling thread wake the waiter [j],
    or wake a waiter without any signal, which POSIX allows. *)
Inductive action : Type :=
  | Call (i : nat) (c : call)
  | Step (i : nat)
  | SignalTo (i j : nat)
  | Spurious (j : nat).

#[export] Instance call_eq_dec : EqDecision call.
Proof. solve_decision. Defined.

(** What is seen of an action from outside: a thread calls a function, or its
    call returns. *)
Inductive event : Type :=
  | Silent
  | Invoked (i : nat) (c : call)
  | Responded (i : nat) (r : result).

Section Threads.
Context {Q : Type} `{FifoQueue Q}.

(** The fields of a [CQueue] and the threads that share it; [copies] is what
    the threads that are inside a function of the inner queue have read. *)
Record CQueue : Type := MkCQueue {
  queue : Q;
  lock : option nat;
  copies : gmap nat Q;
  threads : list pc
}.

(** [CQueue_new]: the container and the inner queue are allocated, then
  the mutex and the condition are initialised. *)
Definition CQueue_new (container : bool) (inner : option Q) (mutex_init cond_init : bool)
    (clients : nat) : option CQueue :=
  if container then
    match inner with
    | None => None
    | Some q => if negb mutex_init || negb cond_init then None
                else Some (MkCQueue q None ∅ (replicate clients Idle))
    end
  else None.

Definition goto (i : nat) (p : pc) (st : CQueue) : CQueue :=
  MkCQueue (queue st) (lock st) (copies st) (<[i := p]> (threads st)).
Definition acquire (i : nat) (p : pc) (st : CQueue) : option CQueue :=
  match lock st with
  | None => Some (MkCQueue (queue st) (Some i) (copies st) (<[i := p]> (threads st)))
  | Some _ => None
  end.
Definition release (i : nat) (p : pc) (st : CQueue) : CQueue :=
  MkCQueue (queue st) None (copies st) (<[i := p]> (threads st)).

(** A call of the inner queue begins, and ends with the queue [q]. *)
Definition enter_inner (i : nat) (p : pc) (st : CQueue) : CQueue :=
  MkCQueue (queue st) (lock st) (<[i := queue st]> (copies st)) (<[i := p]> (threads st)).
Definition leave_inner (i : nat) (p : pc) (q : Q) (st : CQueue) : CQueue :=
  MkCQueue q (lock st) (copies st) (<[i := p]> (threads st)).

(** The call of [Queue_dequeue] ends with its result. *)
Definition pop_inner (i : nat) (p : option bytes → pc) (st : CQueue) : option CQueue :=
  match copies st !! i with
  | None => None
  | Some q =>
    match dequeue q with
    | Done (r, q) => Some (leave_inner i (p r) q st)
    | Stuck _ => None
    end
  end.

Definition silent (st : option CQueue) : option (event * CQueue) := pair Silent <$> st.

(** A call returns. *)
Definition respond (i : nat) (r : result) (st : CQueue) : option (event * CQueue) :=
  Some (Responded i r, goto i (Returned r) st).
Definition respond_unlocked (i : nat) (r : result) (st : CQueue) : option (event * CQueue) :=
  Some (Responded i r, release i (Returned r) st).

(** One step of thread [i]. *)
Definition step_thread (i : nat) (st : CQueue) : option (event * CQueue) :=
  match threads st !! i with
  | Some (PushLock v) => silent (acquire i (PushEnqueue v) st)
  | Some (PushEnqueue v) => silent (Some (enter_inner i (PushInside v) st))
  | Some (PushInside v) =>
    silent match copies st !! i with
           | None => None
           | Some q =>
             match enqueue v q with
             | Done (b, q) => Some (leave_inner i (PushUnlock b) q st)
             | Stuck _ => None
             end
           end
  | Some (PushUnlock b) => silent (Some (release i (PushSignal b) st))
  | Some (PushSignal b) =>
    (* a signal that finds no waiter is lost *)
    if bool_decide (WaitBlocked ∈ threads st) then None
    else respond i (Pushed b) st
  | Some WaitLock => silent (acquire i WaitCheck st)
  | Some WaitCheck =>
    if is_empty (queue st) then silent (Some (release i WaitBlocked st))
    else silent (Some (goto i WaitDequeue st))
  | Some WaitWoken => silent (acquire i WaitDequeue st)
  | Some WaitDequeue => silent (Some (enter_inner i WaitInside st))
  | Some WaitInside => silent (pop_inner i WaitUnlock st)
  | Some (WaitUnlock r) => respond_unlocked i (Popped r) st
  | Some TryLock => silent (acquire i TryCheck st)
  | Some TryCheck =>
    if is_empty (queue st) then silent (Some (goto i TryUnlockEmpty st))
    else silent (Some (goto i TryDequeue st))
  | Some TryUnlockEmpty => respond_unlocked i (Popped None) st
  | Some TryDequeue => silent (Some (enter_inner i TryInside st))
  | Some TryInside => silent (pop_inner i TryUnlock st)
  | Some (TryUnlock r) => respond_unlocked i (Popped r) st
  | _ => None
  end.

Definition wake (j : nat) (st : CQueue) : option CQueue :=
  match threads st !! j with
  | Some WaitBlocked => Some (goto j WaitWoken st)
  | _ => None
  end.

Definition do_action (a : action) (st : CQueue) : option (event * CQueue) :=
  match a with
  | Call i c =>
    match threads st !! i with
    | Some Idle | Some (Returned _) => Some (Invoked i c, goto i (entry_point c) st)
    | _ => None
    end
  | Step i => step_thread i st
  | SignalTo i j =>
    match threads st !! i, wake j st with
    | Some (PushSignal b), Some st => respond i (Pushed b) st
    | _, _ => None
    end
  | Spurious j => silent (wake j st)
  end.

(** Runs of the system, with what is seen of them. *)
Inductive runs_to : CQueue → list event → CQueue → Prop :=
  | run_nil st : runs_to st [] st
  | run_cons st a e st1 es st2 :
      do_action a st = Some (e, st1) → runs_to st1 es st2 → runs_to st (e :: es) st2.

(** The same, for a given list of actions. *)
Fixpoint run_actions (acts : list action) (st : CQueue) : option (list event * CQueue) :=
  match acts with
  | [] => Some ([], st)
  | a :: acts =>
    match do_action a st with
    | None => None
    | Some (e, st1) =>
      match run_actions acts st1 with
      | None => None
      | Some (es, st2) => Some (e :: es, st2)
      end
    end
  end.

End Threads.

Arguments CQueue Q : clear implicits.

(** [CQueue_free]: the inner queue is freed, then the mutex, the condition and
    the container; the caller's pointer becomes [NULL].  Destroying a mutex
    that is held, or a condition with waiters, is undefined. *)
Definition CQueue_free (fuel : nat) (st : CQueue qst) : outcome (option (CQueue qst) * qst) :=
  match Queue_free fuel (queue st) with
  | Stuck w => Stuck w
  | Done (_, q) =>
    if bool_decide (lock st = None) && negb (bool_decide (WaitBlocked ∈ threads st))
    then Done (None, q) else Stuck DanglingPointer
  end.

(** ** Invariants *)

(** A thread that holds the lock. *)
Definition critical (p : pc) : bool :=
  match p with
  | PushEnqueue _ | PushInside _ | PushUnlock _ | WaitCheck | WaitDequeue | WaitInside | WaitUnlock _
  | TryCheck | TryUnlockEmpty | TryDequeue | TryInside | TryUnlock _ => true
  | _ => false
  end.

(** A thread that is inside a function of the inner queue. *)
Definition inside (p : pc) : bool :=
  match p with PushInside _ | WaitInside | TryInside => true | _ => false end.

Definition blocked (p : pc) : bool := bool_decide (p = WaitBlocked).

(** A producer that has not signalled yet, and a consumer that was woken and
    has not popped yet. *)
Definition signalling (p : pc) : bool :=
  match p with PushUnlock _ | PushSignal _ => true | _ => false end.
(** A consumer that was let past the wait and has not popped yet. *)
Definition woken (p : pc) : bool :=
  match p with WaitWoken | WaitDequeue | WaitInside => true | _ => false end.

Definition count (f : pc → bool) (ts : list pc) : nat := length (filter f ts).

Section Counting.
Context (f : pc → bool).

Lemma count_update ts i p p' : ts !! i = Some p →
  count f (<[i := p']> ts) + (if f p then 1 else 0) = count f ts + (if f p' then 1 else 0).
Proof.
  intros Hi. rewrite <- (take_drop_middle _ _ _ Hi) at 1 2.
  assert (Hl : length (take i ts) = i) by (apply lookup_lt_Some in Hi; rewrite length_take; lia).
  rewrite insert_app_r_alt by lia. rewrite Hl, Nat.sub_diag. cbn.
  unfold count. rewrite !filter_app, !length_app, !filter_cons.
  destruct (f p), (f p'); repeat case_decide; cbn in *; try done; lia.
Qed.

Lemma count_pos ts i p : ts !! i = Some p → f p = true → 1 ≤ count f ts.
Proof.
  intros Hi Hf. rewrite <- (take_drop_middle _ _ _ Hi). unfold count.
  rewrite filter_app, length_app, filter_cons_True by (by rewrite Hf). cbn. lia.
Qed.

Lemma count_zero ts : (∀ p, p ∈ ts → f p = false) → count f ts = 0.
Proof.
  intros H. induction ts as [|p ts IH]; [done|]. unfold count. rewrite filter_cons_False.
  - apply IH. intros q Hq. apply H. by right.
  - rewrite H by left. by intros [].
Qed.
End Counting.

(** ** Histories

    The sequential specification: what a call returns and does to the values
    in the queue when it is alone. *)
Definition fifo (c : call) (xs : list bytes) : result * list bytes :=
  match c with
  | CQueue_push v => (Pushed true, xs ++ [v])
  | CQueue_waitAndPop | CQueue_tryPop => (Popped (head xs), tail xs)
  end.

(** A history with a point for each call at which it takes effect, with the
    call and the result it will return. *)
Inductive point : Type :=
  | Seen (e : event)
  | Effect (i : nat) (c : call) (r : result).

Definition seen (ps : list point) : list event :=
  omap (λ p, match p with Seen e => Some e | Effect _ _ _ => None end) ps.

(** The calls in the order in which they take effect. *)
Definition effects (ps : list point) : list (call * result) :=
  omap (λ p, match p with Seen _ => None | Effect _ c r => Some (c, r) end) ps.

(** Where a thread stands in its call. *)
Inductive phase : Type :=
  | Outside
  | Pending (c : call)
  | Effected (r : result).

#[export] Instance phase_eq_dec : EqDecision phase.
Proof. solve_decision. Defined.

(** A thread calls a function when it is outside of all; the call takes effect
    once after that, on the queue as all earlier effects left it, with the
    result of the sequential specification; only then it returns, and returns
    that result. *)
Definition advance (p : point) (s : list bytes * list phase) : option (list bytes * list phase) :=
  match p with
  | Seen Silent => Some s
  | Seen (Invoked i c) => if decide (s.2 !! i = Some Outside) then Some (s.1, <[i := Pending c]> s.2) else None
  | Effect i c r =>
    if decide (s.2 !! i = Some (Pending c) ∧ r = (fifo c s.1).1)
    then Some ((fifo c s.1).2, <[i := Effected r]> s.2) else None
  | Seen (Responded i r) => if decide (s.2 !! i = Some (Effected r)) then Some (s.1, <[i := Outside]> s.2) else None
  end.

Fixpoint replay (ps : list point) (s : list bytes * list phase) : option (list bytes * list phase) :=
  match ps with
  | [] => Some s
  | p :: ps => match advance p s with Some s => replay ps s | None => None end
  end.

Lemma replay_app ps ps' s s' : replay ps s = Some s' → replay (ps ++ ps') s = replay ps' s'.
Proof.
  revert s. induction ps as [|p ps IH]; intros s; cbn; [by intros [= ->]|].
  destruct (advance p s); [apply IH|done].
Qed.

(** The history [es] of [clients] threads that start outside of all calls is
    linearizable: its calls can be given such points; the queue, which held
    [xs] at first, holds [xs'] after them. *)
Definition linearizable (clients : nat) (xs : list bytes) (es : list event) (xs' : list bytes) : Prop :=
  ∃ ps ph, seen ps = es ∧ replay ps (xs, replicate clients Outside) = Some (xs', ph).

(** What the program counter says about the call of a thread. *)
Definition phase_of (p : pc) : phase :=
  match p with
  | Idle | Returned _ => Outside
  | PushLock v | PushEnqueue v | PushInside v => Pending (CQueue_push v)
  | PushUnlock b | PushSignal b => Effected (Pushed b)
  | WaitLock | WaitCheck | WaitBlocked | WaitWoken | WaitDequeue | WaitInside => Pending CQueue_waitAndPop
  | WaitUnlock r | TryUnlock r => Effected (Popped r)
  | TryLock | TryCheck | TryDequeue | TryInside => Pending CQueue_tryPop
  | TryUnlockEmpty => Effected (Popped None)
  end.

Section Invariant.
Context {Q : Type} `{FifoQueue Q}.
Implicit Types (st : CQueue Q) (xs : list bytes).

Record cinv (n : nat) (st : CQueue Q) (xs : list bytes) : Prop := {
  ci_holds : holds n (queue st) xs;
  (* mutual exclusion: exactly the holder of the lock is critical *)
  ci_lock i p : threads st !! i = Some p → critical p = bool_decide (lock st = Some i);
  (* what a thread inside the inner queue has read is still what it holds *)
  ci_copy i p : threads st !! i = Some p → inside p = true → copies st !! i = Some (queue st);
  (* while a consumer waits, every value has a wake-up on its way *)
  ci_wake : WaitBlocked ∈ threads st →
    length xs ≤ count signalling (threads st) + count woken (threads st)
}.

Lemma elem_insert_ne (ts : list pc) i p q : p ≠ q → p ∈ <[i := q]> ts → p ∈ ts.
Proof.
  intros Hne Hin. apply list_elem_of_lookup in Hin as [j Hj].
  apply list_lookup_insert_Some in Hj as [(<- & E & _)|[_ Hj]]; [congruence|].
  by eapply list_elem_of_lookup_2.
Qed.

(** A thread moves on while the lock keeps its state with respect to it. *)
Lemma lock_goto st i p p' : (∀ j q, threads st !! j = Some q → critical q = bool_decide (lock st = Some j)) →
  threads st !! i = Some p → critical p = critical p' →
  ∀ j q, <[i := p']> (threads st) !! j = Some q → critical q = bool_decide (lock st = Some j).
Proof.
  intros Hl Hi Hc j q Hj. apply list_lookup_insert_Some in Hj as [(<- & <- & _)|[_ Hj]]; [|by apply Hl].
  rewrite <- Hc. by apply Hl.
Qed.

Lemma lock_acquire (st : CQueue Q) i p' : (∀ j q, threads st !! j = Some q → critical q = bool_decide (lock st = Some j)) →
  lock st = None → critical p' = true →
  ∀ j q, <[i := p']> (threads st) !! j = Some q → critical q = bool_decide (Some i = Some j).
Proof.
  intros Hl Hn Hc j q Hj. apply list_lookup_insert_Some in Hj as [(<- & <- & _)|[Hne Hj]].
  - by rewrite bool_decide_eq_true_2.
  - rewrite (Hl j q Hj), Hn, !bool_decide_eq_false_2 by congruence. done.
Qed.

Lemma lock_release (st : CQueue Q) i p p' : (∀ j q, threads st !! j = Some q → critical q = bool_decide (lock st = Some j)) →
  threads st !! i = Some p → critical p = true → critical p' = false →
  ∀ j q, <[i := p']> (threads st) !! j = Some q → critical q = bool_decide (None = Some j).
Proof.
  intros Hl Hi Hp Hc j q Hj. rewrite bool_decide_eq_false_2 by done.
  apply list_lookup_insert_Some in Hj as [(<- & <- & _)|[Hne Hj]]; [done|].
  pose proof (Hl i p Hi) as E. rewrite Hp in E. symmetry in E. apply bool_decide_eq_true in E.
  rewrite (Hl j q Hj), E. apply bool_decide_eq_false_2. congruence.
Qed.

Definition pending (p : pc) : nat := (if signalling p then 1 else 0) + (if woken p then 1 else 0).

(** What a thread has read stays true: the queue is not written, or written by
    the only thread that is inside. *)
Lemma copy_keep st i p' : (∀ j q, threads st !! j = Some q → inside q = true → copies st !! j = Some (queue st)) →
  inside p' = false →
  ∀ j q, <[i := p']> (threads st) !! j = Some q → inside q = true → copies st !! j = Some (queue st).
Proof.
  intros Hc Hp j q Hj Hq. apply list_lookup_insert_Some in Hj as [(<- & <- & _)|[_ Hj]]; [congruence|by eapply Hc].
Qed.

Lemma copy_enter st i p' : (∀ j q, threads st !! j = Some q → inside q = true → copies st !! j = Some (queue st)) →
  ∀ j q, <[i := p']> (threads st) !! j = Some q → inside q = true → <[i := queue st]> (copies st) !! j = Some (queue st).
Proof.
  intros Hc j q Hj Hq. destruct (decide (i = j)) as [->|Hne]; [by rewrite lookup_insert_eq|].
  rewrite list_lookup_insert_ne in Hj by done. rewrite lookup_insert_ne by done. by eapply Hc.
Qed.

Lemma inside_critical p : inside p = true → critical p = true.
Proof. by destruct p. Qed.

Lemma copy_leave st i p p' q' :
  (∀ j q, threads st !! j = Some q → critical q = bool_decide (lock st = Some j)) →
  threads st !! i = Some p → critical p = true → inside p' = false →
  ∀ j q, <[i := p']> (threads st) !! j = Some q → inside q = true → copies st !! j = Some q'.
Proof.
  intros Hl Hi Hp Hp' j q Hj Hq. apply list_lookup_insert_Some in Hj as [(<- & <- & _)|[Hne Hj]]; [congruence|].
  apply inside_critical in Hq. apply Hl in Hi, Hj. rewrite Hp in Hi. rewrite Hq in Hj. symmetry in Hi, Hj.
  apply bool_decide_eq_true in Hi, Hj. congruence.
Qed.

(** The shape of every step: thread [i] goes from [p] to [p']. *)
Lemma cinv_move n m st i p p' q' lk' cp' xs xs' : cinv m st xs → threads st !! i = Some p →
  holds n q' xs' →
  (∀ j q, <[i := p']> (threads st) !! j = Some q → critical q = bool_decide (lk' = Some j)) →
  (∀ j q, <[i := p']> (threads st) !! j = Some q → inside q = true → cp' !! j = Some q') →
  (p' = WaitBlocked → xs' = []) →
  (xs' = [] ∨ length xs' + pending p ≤ length xs + pending p'
   ∨ WaitBlocked ∉ <[i := p']> (threads st)) →
  cinv n (MkCQueue q' lk' cp' (<[i := p']> (threads st))) xs'.
Proof.
  intros [_ Hl Hc Hw] Hi Hq Hl' Hc' Hblk Hlen. split; cbn [queue lock copies threads]; try done.
  intros Hin. destruct Hlen as [->|[Hlen|Hno]]; [cbn; lia| |done].
  destruct (decide (p' = WaitBlocked)) as [E|E]; [rewrite (Hblk E); cbn; lia|].
  apply elem_insert_ne in Hin; [|done]. specialize (Hw Hin). unfold pending in Hlen.
  pose proof (count_update signalling _ _ _ p' Hi). pose proof (count_update woken _ _ _ p' Hi). lia.
Qed.

Ltac lock_case := cbn [lock];
  first
    [ eapply lock_goto; [eassumption|eassumption|reflexivity]
    | eapply lock_acquire; [eassumption|eassumption|reflexivity]
    | eapply lock_release; [eassumption|eassumption|reflexivity|reflexivity] ].

Ltac copy_case :=
  first
    [ eapply copy_keep; [eassumption|reflexivity]
    | eapply copy_enter; eassumption
    | eapply copy_leave; [eassumption|eassumption|reflexivity|reflexivity] ].

Ltac step_case I Hi :=
  eapply (cinv_move _ _ _ _ _ _ _ _ _ _ _ I Hi);
  [ first [assumption | by apply holds_less, (ci_holds _ _ _ I)]
  | pose proof (ci_lock _ _ _ I); lock_case
  | pose proof (ci_lock _ _ _ I); pose proof (ci_copy _ _ _ I); copy_case
  | try done | cbn ].

(** The part of the history that belongs to a step. *)
Definition explains (st st' : CQueue Q) (xs xs' : list bytes) (e : event) : Prop :=
  ∃ ps, seen ps = [e] ∧ replay ps (xs, phase_of <$> threads st) = Some (xs', phase_of <$> threads st').

Lemma phase_lookup st i p : threads st !! i = Some p → (phase_of <$> threads st) !! i = Some (phase_of p).
Proof. intros Hi. by rewrite list_lookup_fmap, Hi. Qed.

(** A step that is seen, or one that is not and stays in its phase. *)
Lemma explain_seen st st' xs e : advance (Seen e) (xs, phase_of <$> threads st) = Some (xs, phase_of <$> threads st') →
  explains st st' xs xs e.
Proof. intros Ha. exists [Seen e]. split; [done|]. cbn [replay]. by rewrite Ha. Qed.

Lemma explain_silent st st' xs i p p' : threads st !! i = Some p → threads st' = <[i := p']> (threads st) →
  phase_of p' = phase_of p → explains st st' xs xs Silent.
Proof.
  intros Hi E Hp. apply explain_seen. cbn. do 2 f_equal. rewrite E, list_fmap_insert, Hp.
  symmetry. apply list_insert_id. by apply phase_lookup.
Qed.

Lemma explain_respond st st' xs i p r : threads st !! i = Some p → threads st' = <[i := Returned r]> (threads st) →
  phase_of p = Effected r → explains st st' xs xs (Responded i r).
Proof.
  intros Hi E Hp. apply explain_seen. cbn. rewrite decide_True by (by rewrite (phase_lookup _ _ _ Hi), Hp).
  do 2 f_equal. by rewrite E, list_fmap_insert.
Qed.

Lemma explain_invoke st st' xs i p c : threads st !! i = Some p → threads st' = <[i := entry_point c]> (threads st) →
  phase_of p = Outside → explains st st' xs xs (Invoked i c).
Proof.
  intros Hi E Hp. apply explain_seen. cbn. rewrite decide_True by (by rewrite (phase_lookup _ _ _ Hi), Hp).
  do 2 f_equal. rewrite E, list_fmap_insert. by destruct c.
Qed.

(** The step at which a call takes effect. *)
Lemma explain_effect st st' xs xs' i p p' c r : threads st !! i = Some p → threads st' = <[i := p']> (threads st) →
  phase_of p = Pending c → phase_of p' = Effected r → fifo c xs = (r, xs') → explains st st' xs xs' Silent.
Proof.
  intros Hi E Hp Hp' Hf. exists [Effect i c r; Seen Silent]. split; [done|]. cbn [replay advance fst snd].
  rewrite Hf, decide_True by (split; [by rewrite (phase_lookup _ _ _ Hi), Hp|done]). cbn.
  by rewrite E, list_fmap_insert, Hp'.
Qed.

Ltac explained Hi :=
  first
    [ by eapply (explain_silent _ _ _ _ _ _ Hi)
    | by eapply (explain_respond _ _ _ _ _ _ Hi)
    | by eapply (explain_effect _ _ _ _ _ _ _ _ _ Hi) ].

Ltac taken := cbn; intros Hs; first [discriminate Hs | injection Hs as <- <-].

Lemma step_thread_inv n st i e st' xs : cinv (S n) st xs → step_thread i st = Some (e, st') →
  ∃ xs', explains st st' xs xs' e ∧ cinv n st' xs'.
Proof.
  intros I. unfold step_thread, respond, respond_unlocked, acquire, silent, pop_inner, release, goto, enter_inner, leave_inner.
  destruct (threads st !! i) as [p|] eqn:Hi; [|done].
  pose proof (is_empty_ok _ _ _ (ci_holds _ _ _ I)) as He. pose proof (ci_copy _ _ _ I i p Hi) as Hcp.
  destruct p; try done.
  - destruct (lock st) eqn:Hlk; taken. exists xs. split; [explained Hi|]. step_case I Hi. lia.
  - taken. exists xs. split; [explained Hi|]. step_case I Hi. lia.
  - rewrite (Hcp eq_refl). destruct (enqueue_ok _ _ _ v (ci_holds _ _ _ I)) as (q' & -> & Hq). taken.
    exists (xs ++ [v]). split; [explained Hi|]. step_case I Hi. rewrite length_app. cbn. lia.
  - taken. exists xs. split; [explained Hi|]. step_case I Hi. lia.
  - destruct (bool_decide_reflect (WaitBlocked ∈ threads st)) as [Hb|Hb]; taken. exists xs. split; [explained Hi|].
    step_case I Hi. right; right. intros Hin. apply Hb. by eapply elem_insert_ne; [|exact Hin].
  - destruct (lock st) eqn:Hlk; taken. exists xs. split; [explained Hi|]. step_case I Hi. lia.
  - rewrite He. case_bool_decide as Hx; taken; exists xs; (split; [explained Hi|]); step_case I Hi.
    + by left.
    + lia.
  - destruct (lock st) eqn:Hlk; taken. exists xs. split; [explained Hi|]. step_case I Hi. lia.
  - taken. exists xs. split; [explained Hi|]. step_case I Hi. lia.
  - rewrite (Hcp eq_refl). destruct (dequeue_ok _ _ _ (ci_holds _ _ _ I)) as (q' & -> & Hq). taken.
    exists (tail xs). split; [explained Hi|]. step_case I Hi. destruct xs; [by left|]. cbn. lia.
  - taken. exists xs. split; [explained Hi|]. step_case I Hi. lia.
  - destruct (lock st) eqn:Hlk; taken. exists xs. split; [explained Hi|]. step_case I Hi. lia.
  - rewrite He. case_bool_decide as Hx; taken; exists xs; (split; [subst; explained Hi|]); step_case I Hi; lia.
  - taken. exists xs. split; [explained Hi|]. step_case I Hi. lia.
  - taken. exists xs. split; [explained Hi|]. step_case I Hi. lia.
  - rewrite (Hcp eq_refl). destruct (dequeue_ok _ _ _ (ci_holds _ _ _ I)) as (q' & -> & Hq). taken.
    exists (tail xs). split; [explained Hi|]. step_case I Hi. destruct xs; [by left|]. cbn. lia.
  - taken. exists xs. split; [explained Hi|]. step_case I Hi. lia.
Qed.

Lemma wake_inv n st j st' xs : cinv n st xs → wake j st = Some st' → cinv n st' xs.
Proof.
  intros I. unfold wake. destruct (threads st !! j) as [[]|] eqn:Hj; try done. intros [= <-].
  eapply (cinv_move _ _ _ _ _ _ _ _ _ _ _ I Hj); [apply I| | |done|cbn; lia].
  - pose proof (ci_lock _ _ _ I). lock_case.
  - pose proof (ci_copy _ _ _ I). copy_case.
Qed.

Lemma wake_phases st j st' : wake j st = Some st' → phase_of <$> threads st' = phase_of <$> threads st.
Proof.
  unfold wake. destruct (threads st !! j) as [[]|] eqn:Hj; try done. intros [= <-]. cbn.
  rewrite list_fmap_insert. apply list_insert_id. by rewrite (phase_lookup _ _ _ Hj).
Qed.

(** A delivered signal: the waiter is woken and the producer leaves. *)
Lemma signal_inv n st i j r st1 xs : cinv n st xs → threads st !! i = Some (PushSignal r) →
  wake j st = Some st1 → threads st1 !! i = Some (PushSignal r) ∧ cinv n (goto i (Returned (Pushed r)) st1) xs.
Proof.
  intros I Hi Hw. pose proof (wake_inv _ _ _ _ _ I Hw) as [Hq Hl Hc _].
  unfold wake in Hw. destruct (threads st !! j) as [[]|] eqn:Hj; try done. injection Hw as <-.
  cbn [goto queue lock copies threads] in *.
  assert (Hi1 : <[j := WaitWoken]> (threads st) !! i = Some (PushSignal r)).
  { rewrite list_lookup_insert_ne; [done|]. intros ->. congruence. }
  split; [done|]. split; cbn [goto queue lock copies threads]; [done| | |].
  - by eapply (lock_goto (MkCQueue (queue st) (lock st) (copies st) (<[j := WaitWoken]> (threads st)))).
  - by apply (copy_keep (MkCQueue (queue st) (lock st) (copies st) (<[j := WaitWoken]> (threads st)))).
  - intros _. pose proof (ci_wake _ _ _ I (list_elem_of_lookup_2 _ _ _ Hj)) as Hlen.
    pose proof (count_update signalling _ _ _ WaitWoken Hj).
    pose proof (count_update woken _ _ _ WaitWoken Hj).
    pose proof (count_update signalling _ _ _ (Returned (Pushed r)) Hi1).
    pose proof (count_update woken _ _ _ (Returned (Pushed r)) Hi1). cbn [signalling woken] in *. lia.
Qed.

Lemma cinv_less n st xs : cinv (S n) st xs → cinv n st xs.
Proof. intros [H1 H2 H3 H4]. split; auto using holds_less. Qed.

Lemma do_action_inv n st a e st' xs : cinv (S n) st xs → do_action a st = Some (e, st') →
  ∃ xs', explains st st' xs xs' e ∧ cinv n st' xs'.
Proof.
  intros I. destruct a as [i c|i|i j|j]; cbn [do_action].
  - destruct (threads st !! i) as [p|] eqn:Hi; [|done].
    assert (Hgo : phase_of p = Outside → critical p = false → pending p = 0 →
      Some (Invoked i c, goto i (entry_point c) st) = Some (e, st') →
      ∃ xs', explains st st' xs xs' e ∧ cinv n st' xs').
    { intros Ho Hc Hp. taken. exists xs. split; [by eapply (explain_invoke _ _ _ _ _ _ Hi)|].
      eapply (cinv_move _ _ _ _ _ _ _ _ _ _ _ I Hi); [by apply holds_less, I| | | |rewrite Hp; lia].
      - pose proof (ci_lock _ _ _ I). eapply lock_goto; [done|done|]. rewrite Hc. by destruct c.
      - apply copy_keep; [apply I|by destruct c].
      - by destruct c. }
    destruct p; try done; by apply Hgo.
  - by apply step_thread_inv.
  - destruct (threads st !! i) as [[]|] eqn:Hi; try done.
    destruct (wake j st) as [st1|] eqn:Hw; [|done]. unfold respond. taken. exists xs.
    destruct (signal_inv _ _ _ _ _ _ _ I Hi Hw) as [Hi1 I1]. split; [|by apply cinv_less].
    destruct (explain_respond st1 (goto i (Returned (Pushed r)) st1) xs i _ _ Hi1 eq_refl eq_refl) as (ps & H1 & H2).
    exists ps. split; [done|]. by rewrite <- (wake_phases _ _ _ Hw).
  - destruct (wake j st) as [st1|] eqn:Hw; [|done]. taken. exists xs. split.
    + apply explain_seen. cbn. by rewrite (wake_phases _ _ _ Hw).
    + by apply cinv_less, (wake_inv _ _ _ _ _ I Hw).
Qed.

Lemma runs_to_inv st es st' n xs : runs_to st es st' → cinv (length es + n) st xs →
  ∃ ps xs', seen ps = es ∧ replay ps (xs, phase_of <$> threads st) = Some (xs', phase_of <$> threads st')
    ∧ cinv n st' xs'.
Proof.
  intros Hr. revert xs. induction Hr as [st|st a e st1 es st2 Ha Hr IH]; intros xs I; [by exists [], xs|].
  destruct (do_action_inv _ _ _ _ _ _ I Ha) as (xs1 & (ps1 & Hs1 & Hp1) & I1).
  destruct (IH xs1 I1) as (ps2 & xs2 & Hs2 & Hp2 & I2). exists (ps1 ++ ps2), xs2. split; [|split; [|done]].
  - unfold seen. rewrite omap_app. fold (seen ps1) (seen ps2). by rewrite Hs1, Hs2.
  - by rewrite (replay_app _ _ _ _ Hp1).
Qed.

Lemma cinv_initial n q xs k : holds n q xs → cinv n (MkCQueue q None ∅ (replicate k Idle)) xs.
Proof.
  intros Hq. assert (Hall : ∀ p, p ∈ replicate k Idle → p = Idle).
  { intros p Hp. by apply elem_of_replicate in Hp as [-> _]. }
  split; cbn [queue lock copies threads]; [done| | |].
  - intros i p Hi%list_elem_of_lookup_2%Hall. by rewrite Hi.
  - intros i p Hi%list_elem_of_lookup_2%Hall. by rewrite Hi.
  - by intros Hp%Hall.
Qed.
End Invariant.

(** ** Properties *)

(** The values that went in and came out, in the order of the effects. *)
Definition pushed (ps : list point) : list bytes :=
  omap (λ x, match x.1 with CQueue_push v => Some v | _ => None end) (effects ps).
Definition popped (ps : list point) : list bytes :=
  omap (λ x, match x.2 with Popped r => r | _ => None end) (effects ps).

(** What went in is what came out followed by what is still inside. *)
Lemma replay_fifo ps s s' : replay ps s = Some s' → s.1 ++ pushed ps = popped ps ++ s'.1.
Proof.
  revert s. induction ps as [|p ps IH]; intros s; cbn; [intros [= ->]; by rewrite app_nil_r|].
  destruct (advance p s) as [s1|] eqn:Ha; [|done]. intros Hr%IH.
  destruct p as [[|i c|i r]|i c r]; cbn in Ha.
  - by injection Ha as <-.
  - case_decide; [|done]. by injection Ha as <-.
  - case_decide; [|done]. by injection Ha as <-.
  - case_decide as Hd; [|done]. injection Ha as <-. destruct Hd as [_ ->]. destruct s as [xs ph].
    destruct c as [v| |]; cbn in Hr |- *; unfold pushed, popped in *; cbn.
    + by rewrite <- app_assoc in Hr.
    + destruct xs as [|x xs]; [exact Hr|]. cbn. f_equal. exact Hr.
    + destruct xs as [|x xs]; [exact Hr|]. cbn. f_equal. exact Hr.
Qed.

Lemma count_exists f ts : 1 ≤ count f ts → ∃ i p, ts !! i = Some p ∧ f p = true.
Proof.
  intros H. unfold count in H. destruct (filter f ts) as [|p l] eqn:E; [cbn in H; lia|].
  assert (Hp : p ∈ filter f ts) by (rewrite E; left).
  apply list_elem_of_filter in Hp as [Hf Hp]. apply list_elem_of_lookup in Hp as [i Hi].
  exists i, p. split; [done|]. by apply Is_true_true.
Qed.

(** C4. Linearizability: whatever the interleaving of any number of threads
    calling [CQueue_push], [CQueue_waitAndPop] and [CQueue_tryPop], although
    the calls of the inner queue are not atomic, each call can be given a
    point between its invocation and its return, at which it has the effect of
    the same call on a sequential first-in first-out queue, and returns what
    that call returns: a push [true], a pop the oldest value of that moment
    ([NULL] when there is none).  The values these calls leave in the queue
    are the ones it holds. *)
Theorem CQueue_linearizable (q : qst) (xs0 : list bytes) (clients : nat)
    (es : list event) (st : CQueue qst)
    (Hq : holds (length es) q xs0)
    (Hrun : runs_to (MkCQueue q None ∅ (replicate clients Idle)) es st) :
  ∃ xs, linearizable clients xs0 es xs ∧ holds 0 (queue st) xs.
Proof.
  destruct (runs_to_inv _ _ _ 0 xs0 Hrun) as (ps & xs & Hs & Hr & I).
  { rewrite Nat.add_0_r. by apply cinv_initial. }
  exists xs. split; [|apply I]. exists ps, (phase_of <$> threads st). split; [done|].
  cbn [threads] in Hr. by rewrite fmap_replicate in Hr.
Qed.

(** C24. In every reachable state at most one thread is between its lock and
    its unlock, and no wake-up is lost: while a consumer is blocked in
    [CQueue_waitAndPop] and the queue is not empty, some producer is about
    to signal or some consumer that was let through is about to pop. *)
Theorem CQueue_exclusion_and_wakeups (q : qst) (xs0 : list bytes) (clients : nat)
    (es : list event) (st : CQueue qst)
    (Hq : holds (length es) q xs0)
    (Hrun : runs_to (MkCQueue q None ∅ (replicate clients Idle)) es st) :
  (∀ i j p p', threads st !! i = Some p → threads st !! j = Some p' →
     critical p = true → critical p' = true → i = j)
  ∧ (WaitBlocked ∈ threads st → is_empty (queue st) = false →
     ∃ i p, threads st !! i = Some p ∧ (signalling p || woken p) = true).
Proof.
  destruct (runs_to_inv _ _ _ 0 xs0 Hrun) as (_ & xs & _ & _ & I).
  { rewrite Nat.add_0_r. by apply cinv_initial. }
  split.
  - intros i j p p' Hi Hj Hp Hp'. apply (ci_lock _ _ _ I) in Hi, Hj.
    rewrite Hp in Hi. rewrite Hp' in Hj. symmetry in Hi, Hj.
    apply bool_decide_eq_true in Hi, Hj. congruence.
  - intros Hb He. rewrite (is_empty_ok _ _ _ (ci_holds _ _ _ I)) in He.
    apply bool_decide_eq_false in He. pose proof (ci_wake _ _ _ I Hb) as Hlen.
    assert (1 ≤ length xs) by (destruct xs; [done|cbn; lia]).
    destruct (decide (1 ≤ count signalling (threads st))) as [Hc|Hc].
    + apply count_exists in Hc as (i & p & Hi & Hp). exists i, p. by rewrite Hp.
    + destruct (count_exists woken (threads st)) as (i & p & Hi & Hp); [lia|].
      exists i, p. by rewrite Hp, orb_true_r.
Qed.

(** A consumer waits; a producer pushes one value and signals it; before it
    gets the lock back, a second consumer takes the value. *)
Definition stolen_wakeup : list action :=
  [Call 0 CQueue_waitAndPop; Step 0; Step 0;
   Call 1 (CQueue_push (lit "hi")); Step 1; Step 1; Step 1; Step 1; SignalTo 1 0;
   Call 2 CQueue_tryPop; Step 2; Step 2; Step 2; Step 2; Step 2;
   Step 0; Step 0; Step 0; Step 0].
Definition stolen_history : list event :=
  [Invoked 0 CQueue_waitAndPop; Silent; Silent;
   Invoked 1 (CQueue_push (lit "hi")); Silent; Silent; Silent; Silent; Responded 1 (Pushed true);
   Invoked 2 CQueue_tryPop; Silent; Silent; Silent; Silent; Responded 2 (Popped (Some (lit "hi")));
   Silent; Silent; Silent; Responded 0 (Popped None)].

Lemma run_actions_runs acts (st st' : CQueue qst) es :
  run_actions acts st = Some (es, st') → runs_to st es st'.
Proof.
  revert st es. induction acts as [|a acts IH]; intros st es; cbn; [intros [= <- <-]; constructor|].
  destruct (do_action a st) as [[e st1]|] eqn:Ha; [|done].
  destruct (run_actions acts st1) as [[es2 st2]|] eqn:Hr; [|done]. intros [= <- <-].
  econstructor; [exact Ha|]. by apply IH.
Qed.

Definition three_clients : CQueue qst := MkCQueue (fresh_queue 60) None ∅ (replicate 3 Idle).

Lemma three_clients_holds n : n ≤ 30 → holds n (fresh_queue 60) [].
Proof.
  intros Hn. split_and!; [cbn; lia|unfold INT_MAX; cbn; lia|].
  exists ∅, []. split; [apply fresh_queue_rep|done].
Qed.

(** What can be observed of a schedule: the history and the program counters. *)
Definition observed (acts : list action) : option (list event * list pc) :=
  match run_actions acts three_clients with Some (es, st) => Some (es, threads st) | None => None end.

Lemma observed_run acts es ts : observed acts = Some (es, ts) →
  ∃ st, run_actions acts three_clients = Some (es, st) ∧ threads st = ts.
Proof. unfold observed. destruct (run_actions _ _) as [[es' st]|]; [|done]. intros [= <- <-]. by exists st. Qed.

Lemma CQueue_linearizable_witness :
  ∃ st xs, runs_to three_clients stolen_history st ∧ linearizable 3 [] stolen_history xs ∧ holds 0 (queue st) xs.
Proof.
  destruct (observed_run stolen_wakeup stolen_history
    [Returned (Popped None); Returned (Pushed true); Returned (Popped (Some (lit "hi")))]) as (st & E & _);
    [vm_compute; reflexivity|].
  apply run_actions_runs in E.
  destruct (CQueue_linearizable (fresh_queue 60) [] 3 stolen_history st) as (xs & H1 & H2);
    [apply three_clients_holds; cbn; lia|exact E|].
  exists st, xs. exact (conj E (conj H1 H2)).
Defined.

(** A value that was pushed, and is lost for the next pop, is not the history
    of a queue. *)
Lemma lost_push_not_linearizable xs :
  ¬ linearizable 2 [] [Invoked 0 (CQueue_push (lit "a")); Responded 0 (Pushed true);
                       Invoked 1 CQueue_tryPop; Responded 1 (Popped None)] xs.
Proof.
  intros (ps & ph & Hs & Hr). unfold seen in Hs. cbn [replicate] in Hr.
  repeat match goal with
  | ps : list point |- _ => destruct ps as [|[e|i c r] ps]; cbn in Hs; [discriminate Hs|injection Hs as -> Hs|]
  | _ => progress cbn [replay advance fst snd] in Hr
  | _ => case_decide; [|discriminate Hr]
  | H : _ ∧ _ |- _ => destruct H
  | H : _ !! ?i = Some _ |- _ => is_var i; destruct i as [|[|]]; cbn in H; try discriminate H
  | H : Some (Pending _) = Some (Pending ?c) |- _ => is_var c; injection H as <-
  | H : _ !! _ = Some _ |- _ => cbn in H; discriminate H
  | H : ?r = _ |- _ => is_var r; subst r; cbn in Hr
  end.
Qed.

(** Four threads: the second consumer is still blocked while the value that
    was pushed waits for the first one, which was woken. *)
Definition two_waiters : list action :=
  [Call 0 CQueue_waitAndPop; Step 0; Step 0; Call 1 CQueue_waitAndPop; Step 1; Step 1;
   Call 2 (CQueue_push (lit "x")); Step 2; Step 2; Step 2].

Lemma CQueue_exclusion_and_wakeups_witness :
  ∃ es st, run_actions two_waiters three_clients = Some (es, st)
    ∧ ∃ i p, threads st !! i = Some p ∧ (signalling p || woken p) = true.
Proof.
  destruct (run_actions two_waiters three_clients) as [[es st]|] eqn:E; [|vm_compute in E; discriminate E].
  exists es, st. split; [reflexivity|].
  assert (Hr : runs_to three_clients es st) by exact (run_actions_runs _ _ _ _ E).
  assert (Hes : length es = 10 ∧ bool_decide (WaitBlocked ∈ threads st) = true ∧ is_empty (queue st) = false).
  { assert (X : match run_actions two_waiters three_clients with
                | Some (es, st) => length es = 10 ∧ bool_decide (WaitBlocked ∈ threads st) = true ∧ is_empty (queue st) = false
                | None => False end) by (vm_compute; auto).
    by rewrite E in X. }
  destruct Hes as (Hl & Hb & He). apply bool_decide_eq_true in Hb.
  destruct (CQueue_exclusion_and_wakeups (fresh_queue 60) [] 3 es st
    ltac:(rewrite Hl; apply three_clients_holds; lia) Hr) as [_ Hw].
  exact (Hw Hb He).
Defined.

(** [CQueue_waitAndPop] tests the queue once, not in a loop around the
    wait: a schedule without any spurious wake-up makes it return [NULL],
    because another consumer took the value between the signal and the
    moment the woken thread has the lock again.  A spurious wake-up alone
    has the same effect. *)
Theorem CQueue_waitAndPop_returns_NULL :
  (∃ es ts, observed stolen_wakeup = Some (es, ts)
     ∧ ts !! 0 = Some (Returned (Popped None))
     ∧ ts !! 2 = Some (Returned (Popped (Some (lit "hi")))))
  ∧ (∃ es ts, observed [Call 0 CQueue_waitAndPop; Step 0; Step 0; Spurious 0; Step 0; Step 0; Step 0; Step 0] = Some (es, ts)
     ∧ ts !! 0 = Some (Returned (Popped None))).
Proof.
  split; do 2 eexists; (split; [vm_compute; reflexivity|]); [split|]; reflexivity.
Qed.
