(* ===== verification/CStr.v ===== *)
(** * C strings

    A buffer is the list of the characters of an array, from the address a
    pointer denotes to the end of the array; a string is what comes before
    the first terminator.  Reading past the end of the array is undefined.
    The functions of <string.h> and <wchar.h> the sources use are written for
    any character type with a terminator. *)

From S2P Require Import Prelude.

Section Text.
Context {A : Type} `{EqDecision A} (nul : A).
Implicit Types (buf s seps : list A) (c : A).

(** The string a buffer holds. *)
Fixpoint text (buf : list A) : outcome (list A) :=
  match buf with
  | [] => Stuck OutOfBounds
  | c :: buf => if decide (c = nul) then Done [] else let! r := text buf in Done (c :: r)
  end.

Definition strlen (buf : list A) : outcome nat :=
  let! s := text buf in Done (length s).

(** [strchr(str, c)]: the offset of the first [c], where the terminator is
    part of the string. *)
Fixpoint strchr (buf : list A) (c : A) : outcome (option nat) :=
  match buf with
  | [] => Stuck OutOfBounds
  | d :: buf =>
    if decide (d = c) then Done (Some 0)
    else if decide (d = nul) then Done None
    else let! r := strchr buf c in Done (S <$> r)
  end.

(** [strspn(str, seps)]. *)
Fixpoint strspn (buf : list A) (seps : list A) : outcome nat :=
  match buf with
  | [] => Stuck OutOfBounds
  | c :: buf =>
    if decide (c ≠ nul ∧ c ∈ seps) then let! n := strspn buf seps in Done (S n) else Done 0
  end.

(** [memcpy(dest, src, n)] and [memmove]: the destination afterwards. *)
Definition memcpy (dest src : list A) (n : nat) : outcome (list A) :=
  if decide (n ≤ length src ∧ n ≤ length dest)
  then Done (take n src ++ drop n dest) else Stuck OutOfBounds.

Lemma text_app s rest : nul ∉ s → text (s ++ nul :: rest) = Done s.
Proof.
  induction s as [|c s IH]; intros Hs; cbn; [by rewrite decide_True|].
  apply not_elem_of_cons in Hs as [Hc Hs]. rewrite decide_False by done. by rewrite IH.
Qed.

(** Every buffer with a string splits at its terminator. *)
Lemma text_inv buf s : text buf = Done s → ∃ rest, buf = s ++ nul :: rest ∧ nul ∉ s.
Proof.
  revert s. induction buf as [|c buf IH]; intros s; cbn; [done|].
  destruct (decide (c = nul)) as [->|Hc].
  - intros [= <-]. exists buf. split; [done|apply not_elem_of_nil].
  - destruct (text buf) as [s'|]; cbn; [|done]. intros [= <-].
    destruct (IH s' eq_refl) as (rest & -> & Hn). exists rest. split; [done|].
    apply not_elem_of_cons. split; [congruence|done].
Qed.

Lemma strlen_app s rest : nul ∉ s → strlen (s ++ nul :: rest) = Done (length s).
Proof. intros H. unfold strlen. by rewrite text_app. Qed.

Lemma strchr_found s c rest : c ∉ s → nul ∉ s → strchr (s ++ c :: rest) c = Done (Some (length s)).
Proof.
  induction s as [|d s IH]; intros Hc Hs; cbn; [by rewrite decide_True|].
  apply not_elem_of_cons in Hc as [Hc1 Hc], Hs as [Hs1 Hs].
  rewrite !decide_False by congruence. by rewrite IH.
Qed.

Lemma strchr_none s c rest : c ∉ s → c ≠ nul → nul ∉ s → strchr (s ++ nul :: rest) c = Done None.
Proof.
  intros Hc Hne. revert Hc. induction s as [|d s IH]; intros Hc Hs; cbn.
  - rewrite decide_False, decide_True by done. done.
  - apply not_elem_of_cons in Hc as [Hc1 Hc], Hs as [Hs1 Hs].
    rewrite !decide_False by congruence. by rewrite IH.
Qed.
End Text.

Definition cstr : bytes → outcome bytes := text NUL.

Lemma cstr_app k rest : NUL ∉ k → cstr (k ++ NUL :: rest) = Done k.
Proof. apply text_app. Qed.

(** ** Copies of bounded length *)

(** The characters before the terminator, at most [k]. *)
Fixpoint str_prefix (k : nat) (src : bytes) : outcome bytes :=
  match k with
  | O => Done []
  | S k => match src with
           | [] => Stuck OutOfBounds
           | c :: src => if decide (c = NUL) then Done [] else let! t := str_prefix k src in Done (c :: t)
           end
  end.

(** [strncpy(dest, src, n)]: what is left of the [n] characters is padded. *)
Definition strncpy (dest src : bytes) (n : nat) : outcome bytes :=
  let! t := str_prefix n src in memcpy dest (t ++ replicate (n - length t) NUL) n.

Lemma str_prefix_Done k s : NUL ∈ s → ∃ t, str_prefix k s = Done t ∧ length t ≤ k.
Proof.
  revert s. induction k as [|k IH]; intros s H; cbn; [exists []; cbn; split; [done|lia]|].
  destruct s as [|c s]; [by apply not_elem_of_nil in H|]. case_decide; [exists []; cbn; split; [done|lia]|].
  apply elem_of_cons in H as [H|H]; [congruence|]. destruct (IH s H) as (t & -> & Hl).
  exists (c :: t). cbn. split; [done|lia].
Qed.

Lemma str_prefix_run k s rest : NUL ∉ s → length s ≤ k → str_prefix k (s ++ NUL :: rest) = Done (take k s).
Proof.
  revert s. induction k as [|k IH]; intros [|c s] Hn Hl; cbn in *; [done|lia|done|].
  apply not_elem_of_cons in Hn as [Hc Hn]. rewrite decide_False by done. by rewrite IH by (done || lia).
Qed.

Lemma memcpy_take (dest src : bytes) n : length dest = n → n ≤ length src → memcpy dest src n = Done (take n src).
Proof.
  intros H1 H2. unfold memcpy. rewrite decide_True by lia. by rewrite drop_ge, app_nil_r by lia.
Qed.

Lemma strncpy_run (dest s rest : bytes) n : NUL ∉ s → length s ≤ n → n ≤ length dest →
  strncpy dest (s ++ NUL :: rest) n = Done (s ++ replicate (n - length s) NUL ++ drop n dest).
Proof.
  intros Hs Hl Hn. unfold strncpy. rewrite str_prefix_run by done. cbn [outcome_bind]. rewrite take_ge by done.
  unfold memcpy. rewrite decide_True by (rewrite length_app, length_replicate; lia).
  by rewrite take_ge, <- app_assoc by (rewrite length_app, length_replicate; lia).
Qed.

(** ** Searching a string *)

Fixpoint starts_with (s prefix : bytes) : bool :=
  match prefix, s with
  | [], _ => true
  | c :: prefix, d :: s => bool_decide (c = d) && starts_with s prefix
  | _, [] => false
  end.

(** [strstr(s, needle) != NULL] *)
Fixpoint contains (s needle : bytes) : bool :=
  starts_with s needle || match s with [] => false | _ :: s => contains s needle end.

(** ** Integers in memory, least significant byte first *)

Fixpoint le_bytes (k : nat) (n : N) : bytes :=
  match k with O => [] | S k => Ascii.ascii_of_N (n mod 256) :: le_bytes k (n / 256) end.
Fixpoint le_value (bs : bytes) : N :=
  match bs with [] => 0%N | b :: bs => (Ascii.N_of_ascii b + 256 * le_value bs)%N end.

Lemma le_bytes_length k n : length (le_bytes k n) = k.
Proof. revert n. induction k as [|k IH]; intros n; cbn; [done|]. by rewrite IH. Qed.

Lemma le_bytes_value k n : (n < 256 ^ N.of_nat k)%N → le_value (le_bytes k n) = n.
Proof.
  revert n. induction k as [|k IH]; intros n Hn; cbn [le_bytes le_value].
  - cbn in Hn. lia.
  - rewrite Ascii.N_ascii_embedding by (pose proof (N.mod_lt n 256); lia).
    rewrite IH; [pose proof (N.div_mod n 256); lia|].
    apply N.Div0.div_lt_upper_bound. rewrite Nat2N.inj_succ, N.pow_succ_r in Hn by lia. exact Hn.
Qed.
