(* ===== verification/HashLib.v ===== *)
(** * Hash tables (src/lib/hash)

    The operations of hash.c.  A row of the table is the list of its nodes
    in the order of their [next] pointers; node, key and value are blocks of
    an explicit heap, so that ownership, leaks and shared values stay
    visible. *)

From S2P Require Import Prelude.
From S2P Require Import Heap.
From S2P Require Import CStr.

Definition HASH_SIZE : nat := 128.

(** ** Data *)

Record Tuple : Type := MkTuple { key : ptr; value : ptr; tlength : nat }.

(** A node: its address and its [data]. *)
Record HashNode : Type := MkHashNode { naddr : loc; data : Tuple }.

Inductive hcell : Type :=
  | HNodeBlock
  | HBytes (bs : bytes)
  | HTuple (t : Tuple).

Record hst : Type := Hst {
  hm : mem hcell;
  hash : list (list HashNode);
  hlength : Z
}.

(** ** Accesses *)

Definition on_hmem {A} (m : cmd (mem hcell) A) : cmd hst A := λ s,
  match m (hm s) with
  | Done (a, h) => Done (a, Hst h (hash s) (hlength s))
  | Stuck w => Stuck w
  end.

Definition load_hbytes (p : ptr) : cmd hst bytes :=
  c <- on_hmem (load p);;
  match c with HBytes bs => ret bs | _ => stuck DanglingPointer end.

Definition get_row (i : nat) : cmd hst (list HashNode) := λ s,
  match hash s !! i with Some r => Done (r, s) | None => Stuck OutOfBounds end.
Definition set_row (i : nat) (r : list HashNode) : cmd hst unit := λ s,
  match hash s !! i with
  | Some _ => Done (tt, Hst (hm s) (<[i := r]> (hash s)) (hlength s))
  | None => Stuck OutOfBounds
  end.
Definition get_length : cmd hst Z := λ s, Done (hlength s, s).
Definition add_hlength (k : Z) : cmd hst unit :=
  n <- get_length;; n' <- lift (int_add n k);; modify (λ s, Hst (hm s) (hash s) n').

(** The C string at the start of a block. *)
Definition load_cstr (p : ptr) : cmd hst bytes := bs <- load_hbytes p;; lift (cstr bs).

Definition erase_block (p : ptr) (n : nat) : cmd hst unit :=
  bs <- load_hbytes p;;
  if decide (n ≤ length bs)
  then on_hmem (store p (HBytes (replicate n NUL ++ drop n bs)))
  else stuck OutOfBounds.

(** ** Operations *)

Definition empty_table : list (list HashNode) := replicate HASH_SIZE [].

Definition Hash_new (available : bool) (m : mem hcell) : option hst :=
  if available then Some (Hst m empty_table 0) else None.

Definition Hash_empty : cmd hst bool := n <- get_length;; ret (n =? 0)%Z.
Definition Hash_length : cmd hst Z := get_length.

Definition HashNode_free (n : HashNode) : cmd hst unit :=
  match key (data n) with
  | None => ret tt
  | Some _ =>
    k <- load_cstr (key (data n));;
    erase_block (key (data n)) (length k + 1);;;
    on_hmem (free (key (data n)))
  end;;;
  match value (data n) with
  | None => ret tt
  | Some _ =>
    erase_block (value (data n)) (tlength (data n));;;
    on_hmem (free (value (data n)))
  end;;;
  on_hmem (free (Some (naddr n))).

(** Three allocations; when one fails the earlier ones are given back. *)
Definition HashNode_new (k : bytes) (v : bytes) (n : nat) : cmd hst (option HashNode) :=
  this <- on_hmem (calloc HNodeBlock);;
  match this with
  | None => ret None
  | Some a =>
    kp <- on_hmem (calloc (HBytes (k ++ [NUL])));;
    match kp with
    | None => HashNode_free (MkHashNode a (MkTuple None None 0));;; ret None
    | Some _ =>
      vp <- on_hmem (calloc (HBytes (replicate n NUL)));;
      match vp with
      | None =>
        erase_block kp (length k + 1);;;
        on_hmem (free kp);;;
        HashNode_free (MkHashNode a (MkTuple None None 0));;;
        ret None
      | Some _ =>
        (if decide (n ≤ length v)
         then on_hmem (store vp (HBytes (take n v)))
         else stuck OutOfBounds);;;
        ret (Some (MkHashNode a (MkTuple kp vp n)))
      end
    end
  end.

(** The [char]s of the key are added up in an [int]; the sum is converted to
    [size_t] for the remainder. *)
Fixpoint sum_chars (k : bytes) (index : Z) : outcome Z :=
  match k with
  | [] => Done index
  | c :: k => let! index := int_add index (schar c) in sum_chars k index
  end.

Definition Hash_indexFor (k : bytes) (size : nat) : outcome Z :=
  let! index := sum_chars k 0 in
  Done (wrap_int ((index mod SIZE_MOD) mod Z.of_nat size)).

(** Row number as the code uses it to subscript the table. *)
Definition row_of (k : bytes) : cmd hst nat :=
  i <- lift (Hash_indexFor k HASH_SIZE);;
  if (0 <=? i)%Z then ret (Z.to_nat i) else stuck OutOfBounds.

(** The loop of [Hash_set]: [before] are the nodes already passed, the last
    of which is [prev]. *)
Fixpoint set_loop (k v : bytes) (n : nat) (row : nat) (before node : list HashNode) : cmd hst bool :=
  match node with
  | cur :: rest =>
    currentKey <- load_cstr (key (data cur));;
    if decide (k = currentKey) then
      item <- HashNode_new k v n;;
      match item with
      | None => ret false
      | Some it =>
        set_row row (before ++ it :: rest);;;
        HashNode_free cur;;;
        ret true
      end
    else set_loop k v n row (before ++ [cur]) rest
  | [] =>
    item <- HashNode_new k v n;;
    match item with
    | None => ret false
    | Some it =>
      set_row row (before ++ [it]);;;
      add_hlength 1;;;
      ret true
    end
  end.

Definition Hash_set (k v : bytes) (n : nat) : cmd hst bool :=
  i <- row_of k;;
  chain <- get_row i;;
  set_loop k v n i [] chain.

(** The search loop shared by the readers. *)
Fixpoint find_node (k : bytes) (node : list HashNode) : cmd hst (option Tuple) :=
  match node with
  | [] => ret None
  | cur :: rest =>
    currentKey <- load_cstr (key (data cur));;
    if decide (k = currentKey) then ret (Some (data cur)) else find_node k rest
  end.

(** A [Tuple] is allocated for the caller without testing the allocation;
    its key and value still belong to the node. *)
Definition tuple_copy (t : Tuple) : cmd hst ptr :=
  p <- on_hmem (calloc (HTuple (MkTuple None None 0)));;
  on_hmem (store p (HTuple t));;;
  ret p.

Definition Hash_get (k : bytes) : cmd hst ptr :=
  n <- get_length;;
  if (0 <? n)%Z then
    i <- row_of k;; chain <- get_row i;;
    t <- find_node k chain;;
    match t with Some t => tuple_copy t | None => ret None end
  else ret None.

Definition Hash_getValue (k : bytes) : cmd hst ptr :=
  n <- get_length;;
  if (0 <? n)%Z then
    i <- row_of k;; chain <- get_row i;;
    t <- find_node k chain;;
    match t with Some t => ret (value t) | None => ret None end
  else ret None.

Fixpoint delete_loop (k : bytes) (row : nat) (before node : list HashNode) : cmd hst bool :=
  match node with
  | [] => ret false
  | cur :: rest =>
    currentKey <- load_cstr (key (data cur));;
    if decide (k = currentKey) then
      set_row row (before ++ rest);;;
      HashNode_free cur;;;
      add_hlength (-1);;;
      ret true
    else delete_loop k row (before ++ [cur]) rest
  end.

Definition Hash_delete (k : bytes) : cmd hst bool :=
  n <- get_length;;
  if (0 <? n)%Z then
    i <- row_of k;; chain <- get_row i;; delete_loop k i [] chain
  else ret false.

(** [for (i = 0; i < HASH_SIZE; i++)] of [Hash_first]. *)
Fixpoint first_from (i todo : nat) : cmd hst ptr :=
  match todo with
  | O => ret None
  | S todo =>
    chain <- get_row i;;
    match chain with
    | node :: _ => tuple_copy (data node)
    | [] => first_from (S i) todo
    end
  end.
Definition Hash_first : cmd hst ptr :=
  n <- get_length;;
  if (0 <? n)%Z then first_from 0 HASH_SIZE else ret None.

(** [for (i = HASH_SIZE - 1; i >= 0; i--)] of [Hash_last]. *)
Fixpoint last_from (i : nat) : cmd hst ptr :=
  match i with
  | O => ret None
  | S i =>
    chain <- get_row i;;
    match last chain with
    | Some node => tuple_copy (data node)
    | None => last_from i
    end
  end.
Definition Hash_last : cmd hst ptr :=
  n <- get_length;;
  if (0 <? n)%Z then last_from HASH_SIZE else ret None.

Definition Tuple_free (p : ptr) : cmd hst ptr :=
  on_hmem (store p (HTuple (MkTuple None None 0)));;;
  on_hmem (free p);;;
  ret None.

(** The nodes of one row are hooked off and freed one by one. *)
Fixpoint purge_chain (row : nat) (current : list HashNode) : cmd hst unit :=
  match current with
  | [] => ret tt
  | node :: rest =>
    set_row row rest;;;
    HashNode_free node;;;
    purge_chain row rest
  end.
Fixpoint purge_from (i todo : nat) : cmd hst unit :=
  match todo with
  | O => ret tt
  | S todo => chain <- get_row i;; purge_chain i chain;;; purge_from (S i) todo
  end.
Definition Hash_purge : cmd hst unit :=
  n <- get_length;;
  if (n =? 0)%Z then ret tt else purge_from 0 HASH_SIZE.

Definition Hash_free : cmd hst (option hst) :=
  e <- Hash_empty;;
  (if e then ret tt else Hash_purge);;;
  modify (λ s, Hst (hm s) empty_table 0);;;
  ret None.
