(* ===== verification/HashSpec.v ===== *)
(** * Hash tables: refinement to finite maps (src/lib/hash) *)

From S2P Require Import Prelude.
From S2P Require Import Heap.
From S2P Require Import CStr.
From S2P Require Import HashLib.

(** ** The row of a key *)

Lemma sum_chars_Done k z :
  (INT_MIN ≤ z - 128 * Z.of_nat (length k) ∧ z + 128 * Z.of_nat (length k) ≤ INT_MAX)%Z →
  ∃ i, sum_chars k z = Done i ∧ (INT_MIN ≤ i ≤ INT_MAX)%Z.
Proof.
  revert z. induction k as [|c k IH]; intros z Hz; cbn in *.
  - exists z. split; [done|]. lia.
  - pose proof (schar_range c). rewrite int_add_Done by lia. cbn. apply IH. lia.
Qed.

(** Keys short enough for the sum of their [char]s to stay an [int]. *)
Definition short_key (k : bytes) : Prop := (128 * Z.of_nat (length k) ≤ INT_MAX)%Z.

Lemma indexFor_range k : short_key k →
  ∃ i, Hash_indexFor k HASH_SIZE = Done (Z.of_nat i) ∧ i < HASH_SIZE.
Proof.
  intros Hk. unfold short_key in Hk. unfold Hash_indexFor.
  destruct (sum_chars_Done k 0) as (j & -> & Hj); [unfold INT_MIN, INT_MAX in *; lia|]. cbn.
  pose proof (Z.mod_pos_bound (j mod SIZE_MOD) 128) as Hb.
  exists (Z.to_nat ((j mod SIZE_MOD) mod 128)). unfold HASH_SIZE.
  rewrite wrap_int_id by (unfold INT_MIN, INT_MAX; cbn; lia). split; [|lia].
  f_equal. cbn. lia.
Qed.

Lemma row_of_Done k s : short_key k →
  ∃ i, row_of k s = Done (i, s) ∧ i < HASH_SIZE ∧ Hash_indexFor k HASH_SIZE = Done (Z.of_nat i).
Proof.
  intros Hk. destruct (indexFor_range k Hk) as (i & Hi & Hlt). exists i. split_and!; [|done..].
  unfold row_of. unfold bind, lift. rewrite Hi. rewrite (proj2 (Z.leb_le _ _)) by lia.
  unfold ret. by rewrite Nat2Z.id.
Qed.

(** ** Representation *)

Record hentry : Type := HEntry { hn : loc; hk : loc; hv : loc; hkey : bytes; hval : bytes }.

Definition node_of (e : hentry) : HashNode :=
  MkHashNode (hn e) (MkTuple (Some (hk e)) (Some (hv e)) (length (hval e))).
Definition hlocs (es : list hentry) : list loc := flat_map (λ e, [hn e; hk e; hv e]) es.
Definition keys (es : list hentry) : list bytes := hkey <$> es.
Definition hcl (s : hst) : gmap loc hcell := cells (hm s).

Definition owns (c : gmap loc hcell) (e : hentry) : Prop :=
  c !! hn e = Some HNodeBlock
  ∧ c !! hk e = Some (HBytes (hkey e ++ [NUL])) ∧ (NUL ∉ hkey e)
  ∧ c !! hv e = Some (HBytes (hval e)).

(** The blocks of the nodes [es], in any order, and those handed out. *)
Record pool (m : mem hcell) (es : list hentry) (out : gset loc) : Prop := {
  pool_owns : Forall (owns (cells m)) es;
  pool_nodup : NoDup (hlocs es);
  pool_out : ∀ l, l ∈ hlocs es → l ∉ out;
  pool_dom : ∀ l, is_Some (cells m !! l) ↔ l ∈ hlocs es ∨ l ∈ out;
  pool_wf : mem_wf m
}.

#[export] Instance hlocs_proper : Proper ((≡ₚ) ==> (≡ₚ)) hlocs.
Proof. intros es es' H. unfold hlocs. by rewrite H. Qed.

#[export] Instance pool_proper m : Proper ((≡ₚ) ==> (=) ==> iff) (pool m).
Proof.
  assert (Hto : ∀ es es' out, es ≡ₚ es' → pool m es out → pool m es' out).
  { intros es es' out H [P1 P2 P3 P4 P5]. split.
    - by rewrite <- H.
    - by rewrite <- H.
    - intros l. rewrite <- H. apply P3.
    - intros l. rewrite <- H. apply P4.
    - done. }
  intros es es' H out _ <-. split; apply Hto; [done|by symmetry].
Qed.

(** The table: every node is in the row of its key. *)
Record hrep (s : hst) (rows : list (list hentry)) (out : gset loc) : Prop := {
  hrep_hash : hash s = (λ row : list hentry, node_of <$> row) <$> rows;
  hrep_rows : length rows = HASH_SIZE;
  hrep_index i row e : rows !! i = Some row → e ∈ row →
    Hash_indexFor (hkey e) HASH_SIZE = Done (Z.of_nat i);
  hrep_pool : pool (hm s) (concat rows) out;
  hrep_keys : NoDup (keys (concat rows));
  hrep_length : hlength s = Z.of_nat (length (concat rows));
  hrep_int : (Z.of_nat (length (concat rows)) ≤ INT_MAX)%Z
}.

Definition emap (es : list hentry) : gmap bytes bytes :=
  list_to_map ((λ e, (hkey e, hval e)) <$> es).

(** ** Symbolic execution *)

Definition hput (l : loc) (c : hcell) (s : hst) : hst :=
  Hst (Mem (<[l := c]> (hcl s)) (brk (hm s)) (budget (hm s))) (hash s) (hlength s).
Definition hdel (l : loc) (s : hst) : hst :=
  Hst (Mem (delete l (hcl s)) (brk (hm s)) (budget (hm s))) (hash s) (hlength s).
Definition halloc (c : hcell) (b : nat) (s : hst) : hst :=
  Hst (Mem (<[brk (hm s) := c]> (hcl s)) (Pos.succ (brk (hm s))) b) (hash s) (hlength s).

Section Steps.
Implicit Types (s : hst) (l : loc).

Lemma load_hbytes_Done s l bs : hcl s !! l = Some (HBytes bs) → load_hbytes (Some l) s = Done (bs, s).
Proof. intros H. destruct s. unfold load_hbytes, bind, on_hmem, hcl in *; cbn in *. by rewrite H. Qed.

Lemma load_cstr_Done s l k : hcl s !! l = Some (HBytes (k ++ [NUL])) → NUL ∉ k →
  load_cstr (Some l) s = Done (k, s).
Proof.
  intros H Hk. unfold load_cstr. run (load_hbytes_Done _ _ _ H).
  unfold lift. by rewrite cstr_app.
Qed.

Lemma h_store_Done s l c c' : hcl s !! l = Some c → on_hmem (store (Some l) c') s = Done (tt, hput l c' s).
Proof. intros H. unfold on_hmem. by rewrite (store_Done _ _ _ _ H). Qed.

Lemma h_free_Done s l c : hcl s !! l = Some c → on_hmem (free (Some l)) s = Done (tt, hdel l s).
Proof. intros H. unfold on_hmem. by rewrite (free_Done _ _ _ H). Qed.

Lemma h_calloc_Done s c b : budget (hm s) = S b →
  on_hmem (calloc c) s = Done (Some (brk (hm s)), halloc c b s).
Proof. intros H. unfold on_hmem. by rewrite (calloc_Done _ _ _ H). Qed.

Lemma h_calloc_None s c : budget (hm s) = 0 → on_hmem (calloc c) s = Done (None, s).
Proof. intros H. unfold on_hmem. rewrite (calloc_None _ _ H). by destruct s. Qed.

Lemma erase_block_Done s l bs n : hcl s !! l = Some (HBytes bs) → n ≤ length bs →
  erase_block (Some l) n s = Done (tt, hput l (HBytes (replicate n NUL ++ drop n bs)) s).
Proof.
  intros H Hn. unfold erase_block. run (load_hbytes_Done _ _ _ H). rewrite decide_True by done.
  by eapply h_store_Done.
Qed.

Lemma hcl_put s l c : hcl (hput l c s) = <[l := c]> (hcl s).
Proof. done. Qed.
Lemma hcl_del s l : hcl (hdel l s) = delete l (hcl s).
Proof. done. Qed.
Lemma hcl_alloc s c b : hcl (halloc c b s) = <[brk (hm s) := c]> (hcl s).
Proof. done. Qed.
End Steps.

Create Rewrite HintDb hash.
#[export] Hint Rewrite @hcl_put @hcl_del @hcl_alloc : hash.

Ltac h_lookup :=
  autorewrite with hash; cbn [brk hm hput hdel halloc];
  repeat first
    [ rewrite lookup_insert_eq
    | rewrite lookup_insert_ne by (first [congruence | lia])
    | rewrite lookup_delete_ne by (first [congruence | lia])
    | rewrite lookup_delete_eq ];
  first [eassumption | reflexivity].
Ltac h_step :=
  rewrite ?bind_bind, ?bind_ret;
  first
    [ erewrite bind_Done by (apply load_cstr_Done; [h_lookup|assumption])
    | erewrite bind_Done by (eapply erase_block_Done; [h_lookup|rewrite ?length_app; cbn; lia])
    | erewrite bind_Done by (eapply h_store_Done; h_lookup)
    | erewrite bind_Done by (eapply h_free_Done; h_lookup) ];
  cbn [key value tlength data naddr].

(** ** Nodes *)

Abbreviation blocks := (λ e : hentry, [hn e; hk e; hv e]).

Section Pool.
Implicit Types (m : mem hcell) (e : hentry) (es : list hentry) (out : gset loc).

Lemma pool_brk m es out l : pool m es out → l ∈ hlocs es ∨ l ∈ out → (l < brk m)%positive.
Proof.
  intros P Hl. apply (pool_dom _ _ _ P) in Hl as [c Hc]. exact (mem_wf_lt _ _ _ (pool_wf _ _ _ P) Hc).
Qed.

Lemma hlocs_cons e es : hlocs (e :: es) = blocks e ++ hlocs es.
Proof. done. Qed.

Lemma owns_frame c c' e : (∀ l, l ∈ blocks e → c' !! l = c !! l) → owns c e → owns c' e.
Proof.
  intros Hf (H1 & H2 & H3 & H4). unfold owns. rewrite !Hf; [done|..]; set_solver.
Qed.

Lemma owns_frame_all c c' es : (∀ l, l ∈ hlocs es → c' !! l = c !! l) →
  Forall (owns c) es → Forall (owns c') es.
Proof.
  intros Hf. rewrite !Forall_forall. intros H e He. eapply owns_frame; [|by apply H].
  intros l Hl. apply Hf. apply list_elem_of_In, in_flat_map. exists e.
  split; by apply list_elem_of_In.
Qed.

Lemma pool_remove m m' e es out : pool m (e :: es) out → brk m' = brk m →
  (∀ l, l ∈ blocks e → cells m' !! l = None) →
  (∀ l, l ∉ blocks e → cells m' !! l = cells m !! l) →
  pool m' es out.
Proof.
  intros [P1 P2 P3 P4 P5] Hb Hgone Hsame. rewrite hlocs_cons in *.
  apply NoDup_app in P2 as (_ & Hdj & P2).
  assert (Hne : ∀ l, l ∈ hlocs es → l ∉ blocks e) by (intros l Hl Hl'; by apply (Hdj l)).
  split.
  - eapply owns_frame_all; [|exact (Forall_inv_tail P1)]. intros l Hl. by apply Hsame, Hne.
  - done.
  - intros l Hl. apply P3, elem_of_app. by right.
  - intros l. destruct (decide (l ∈ blocks e)) as [Hl|Hl].
    + rewrite Hgone by done. split; [by intros []|]. intros [H|H]; [by destruct (Hne l H)|].
      destruct (P3 l); [|done]. apply elem_of_app. by left.
    + rewrite Hsame, P4, elem_of_app by done. tauto.
  - intros l Hl. rewrite Hb in Hl. destruct (decide (l ∈ blocks e)); [by apply Hgone|].
    rewrite Hsame by done. by apply P5.
Qed.

Lemma pool_add m m' e es out : pool m es out → mem_wf m' →
  NoDup (blocks e) → (∀ l, l ∈ blocks e → (brk m ≤ l)%positive) →
  owns (cells m') e → (∀ l, l ∉ blocks e → cells m' !! l = cells m !! l) →
  pool m' (e :: es) out.
Proof.
  intros P Hwf Hnd Hfr Ho Hsame.
  assert (Hne : ∀ l, l ∈ hlocs es ∨ l ∈ out → l ∉ blocks e).
  { intros l Hl Hl'. pose proof (pool_brk _ _ _ _ P Hl). pose proof (Hfr l Hl'). lia. }
  destruct P as [P1 P2 P3 P4 P5]. split; rewrite ?hlocs_cons; try done.
  - constructor; [done|]. eapply owns_frame_all; [|exact P1]. intros l Hl. apply Hsame, Hne. by left.
  - apply NoDup_app. split_and!; [done| |done]. intros l Hl Hl'. by apply (Hne l); [left|].
  - intros l [Hl|Hl]%elem_of_app; [|by apply P3]. intros Ho'. by apply (Hne l); [right|].
  - intros l. rewrite elem_of_app. destruct (decide (l ∈ blocks e)) as [Hl|Hl].
    + split; [tauto|]. intros _. destruct Ho as (H1 & H2 & _ & H3).
      apply elem_of_cons in Hl as [->|Hl]; [eauto|]. apply elem_of_cons in Hl as [->|Hl]; [eauto|].
      apply list_elem_of_singleton in Hl as ->. eauto.
    + rewrite Hsame, P4 by done. tauto.
Qed.

Lemma pool_owned m e es out : pool m es out → e ∈ es → owns (cells m) e.
Proof. intros P He. pose proof (pool_owns _ _ _ P) as H. rewrite Forall_forall in H. by apply H. Qed.

Lemma pool_distinct m e es out : pool m (e :: es) out → NoDup (blocks e).
Proof. intros P. pose proof (pool_nodup _ _ _ P) as H. rewrite hlocs_cons in H. by apply NoDup_app in H as [H _]. Qed.
End Pool.

Lemma NoDup_three (a b c : loc) : NoDup [a; b; c] ↔ a ≠ b ∧ a ≠ c ∧ b ≠ c.
Proof.
  rewrite !NoDup_cons, !not_elem_of_cons. split.
  - intros ((?&?&_)&(?&_)&_). done.
  - intros (?&?&?). split_and!; try done; try apply not_elem_of_nil. apply NoDup_nil_2.
Qed.

Lemma HashNode_free_run s es out e : pool (hm s) (e :: es) out →
  ∃ s', HashNode_free (node_of e) s = Done (tt, s') ∧ pool (hm s') es out
    ∧ hash s' = hash s ∧ hlength s' = hlength s ∧ budget (hm s') = budget (hm s).
Proof.
  intros P. pose proof (Forall_inv (pool_owns _ _ _ P)) as (Hn & Hk & Hnul & Hv).
  pose proof (pool_distinct _ _ _ _ P) as (E1 & E2 & E3)%NoDup_three.
  unfold HashNode_free, node_of. cbn [key value tlength data naddr].
  change (cells (hm s)) with (hcl s) in *.
  do 5 h_step. erewrite h_free_Done by h_lookup.
  eexists. split; [reflexivity|]. split; [|done].
  eapply pool_remove; [exact P|done|..]; intros l Hl; cbn; rewrite !elem_of_cons, elem_of_nil in Hl.
  - destruct Hl as [->|[->|[->|[]]]]; h_lookup.
  - unfold hcl; cbn.
    repeat first [rewrite lookup_delete_ne by (intros <-; tauto) | rewrite lookup_insert_ne by (intros <-; tauto)].
    done.
Qed.

(** The heap after a successful [HashNode_new]. *)
Lemma HashNode_new_run s es out k v b : pool (hm s) es out → budget (hm s) = S (S (S b)) →
  NUL ∉ k →
  ∃ s' e, HashNode_new k v (length v) s = Done (Some (node_of e), s')
    ∧ pool (hm s') (e :: es) out ∧ hkey e = k ∧ hval e = v
    ∧ hash s' = hash s ∧ hlength s' = hlength s ∧ budget (hm s') = b.
Proof.
  intros P Hb Hnul. set (n := brk (hm s)).
  unfold HashNode_new. run (h_calloc_Done s HNodeBlock _ Hb).
  erewrite bind_Done by (by apply h_calloc_Done with (b := S b)). cbn [brk hm halloc].
  erewrite bind_Done by (by apply h_calloc_Done with (b := b)). cbn [brk hm halloc].
  rewrite decide_True by done. h_step.
  exists (hput (Pos.succ (Pos.succ n)) (HBytes (take (length v) v))
    (halloc (HBytes (replicate (length v) NUL)) b (halloc (HBytes (k ++ [NUL])) (S b) (halloc HNodeBlock (S (S b)) s)))),
    (HEntry n (Pos.succ n) (Pos.succ (Pos.succ n)) k v).
  split; [done|]. split_and!; try done. rewrite firstn_all.
  apply pool_add with (hm s); cbn; try done.
  - intros l Hl. cbn in *. rewrite !lookup_insert_ne by lia. apply (pool_wf _ _ _ P). lia.
  - apply NoDup_three. lia.
  - intros l Hl. rewrite !elem_of_cons, elem_of_nil in Hl. fold n. lia.
  - unfold owns. cbn. fold n. split_and!; try done; h_lookup.
  - intros l Hl. rewrite !not_elem_of_cons in Hl. unfold hcl; cbn. fold n.
    by rewrite !lookup_insert_ne by (intros <-; tauto).
Qed.

Lemma pool_same m m' es out : pool m es out → (brk m ≤ brk m')%positive →
  (∀ l, cells m' !! l = cells m !! l) → pool m' es out.
Proof.
  intros [P1 P2 P3 P4 P5] Hb Hs. split; try done.
  - by eapply owns_frame_all; [|exact P1].
  - intros l. by rewrite Hs.
  - intros l Hl. rewrite Hs. apply P5. lia.
Qed.

(** A failed [HashNode_new] gives everything back. *)
Lemma HashNode_new_fails s es out k v : pool (hm s) es out → budget (hm s) < 3 →
  ∃ s', HashNode_new k v (length v) s = Done (None, s')
    ∧ pool (hm s') es out ∧ hash s' = hash s ∧ hlength s' = hlength s.
Proof.
  intros P Hb. pose proof (pool_wf _ _ _ P) as Hwf. unfold HashNode_new.
  destruct (budget (hm s)) as [|b] eqn:Eb.
  { run (h_calloc_None s HNodeBlock Eb). by exists s. }
  run (h_calloc_Done s HNodeBlock _ Eb).
  destruct b as [|b].
  { erewrite bind_Done by (by apply h_calloc_None).
    unfold HashNode_free. cbn [key value data naddr]. rewrite !bind_bind, !bind_ret. h_step.
    eexists. split; [reflexivity|]. split; [|done].
    apply (pool_same (hm s)); [done|cbn; lia|]. intros l. cbn. unfold hcl; cbn.
    rewrite lookup_delete, lookup_insert. case_decide; subst; [|done]. symmetry. apply Hwf. lia. }
  destruct b as [|b]; [|lia].
  erewrite bind_Done by (by apply h_calloc_Done with (b := 0)). cbn [brk hm halloc].
  erewrite bind_Done by (by apply h_calloc_None). cbn [brk hm halloc].
  unfold HashNode_free. cbn [key value data naddr]. do 2 h_step. rewrite !bind_bind, !bind_ret. h_step.
  eexists. split; [reflexivity|]. split; [|done].
  apply (pool_same (hm s)); [done|cbn; lia|]. intros l. cbn. unfold hcl; cbn.
  rewrite !lookup_delete, !lookup_insert.
  repeat case_decide; subst; try done; symmetry; apply Hwf; lia.
Qed.

(** ** The abstract map *)

Section Emap.
Implicit Types (es : list hentry) (k v : bytes).

Lemma emap_keys es k : k ∉ keys es → emap es !! k = None.
Proof.
  intros Hk. apply not_elem_of_list_to_map_1. rewrite <- list_fmap_compose. exact Hk.
Qed.

Lemma emap_perm es es' : NoDup (keys es) → es ≡ₚ es' → emap es = emap es'.
Proof.
  intros Hnd Hp. unfold emap. apply list_to_map_proper; [|by rewrite Hp].
  rewrite <- list_fmap_compose. exact Hnd.
Qed.

Lemma emap_cons e es : emap (e :: es) = <[hkey e := hval e]> (emap es).
Proof. done. Qed.

Lemma emap_split A e B : NoDup (keys (A ++ e :: B)) →
  emap (A ++ e :: B) = <[hkey e := hval e]> (emap (A ++ B))
  ∧ emap (A ++ B) = delete (hkey e) (emap (A ++ e :: B))
  ∧ hkey e ∉ keys (A ++ B).
Proof.
  intros Hnd. assert (Hp : A ++ e :: B ≡ₚ e :: A ++ B) by (by rewrite Permutation_middle).
  rewrite (emap_perm _ _ Hnd Hp), emap_cons. unfold keys in Hnd. rewrite Hp in Hnd. cbn in Hnd.
  apply NoDup_cons in Hnd as [Hk _]. split_and!; [done| |done].
  rewrite delete_insert_id; [done|]. by apply emap_keys.
Qed.
End Emap.

(** ** Rows *)

Section Rows.
Context (s : hst) (rows : list (list hentry)) (out : gset loc) (R : hrep s rows out).

Lemma get_row_Done i : i < HASH_SIZE →
  ∃ row, rows !! i = Some row ∧ get_row i s = Done (node_of <$> row, s).
Proof.
  intros Hi. rewrite <- (hrep_rows _ _ _ R) in Hi. apply lookup_lt_is_Some in Hi as [row Hrow].
  exists row. split; [done|]. unfold get_row. by rewrite (hrep_hash _ _ _ R), list_lookup_fmap, Hrow.
Qed.

Lemma row_split i row : rows !! i = Some row →
  concat rows = concat (take i rows) ++ row ++ concat (drop (S i) rows).
Proof.
  intros Hi. rewrite <- (take_drop_middle _ _ _ Hi) at 1. by rewrite concat_app.
Qed.

(** A key that is not in its row is nowhere. *)
Lemma absent_key i row k : rows !! i = Some row →
  Hash_indexFor k HASH_SIZE = Done (Z.of_nat i) → k ∉ keys row → k ∉ keys (concat rows).
Proof.
  intros Hi Hx Hk Hin. apply list_elem_of_fmap in Hin as (e & -> & He).
  apply list_elem_of_In, in_concat in He as (row' & Hr & He).
  apply list_elem_of_In in Hr, He. apply list_elem_of_lookup in Hr as [j Hj].
  pose proof (hrep_index _ _ _ R j row' e Hj He) as E. rewrite Hx in E. injection E as E%Nat2Z.inj.
  subst j. rewrite Hi in Hj. injection Hj as ->. apply Hk. by apply list_elem_of_fmap_2.
Qed.

Lemma row_entry i row e : rows !! i = Some row → e ∈ row → e ∈ concat rows.
Proof. intros Hi He. rewrite (row_split _ _ Hi), !elem_of_app. tauto. Qed.

Lemma load_key e : e ∈ concat rows → load_cstr (Some (hk e)) s = Done (hkey e, s).
Proof.
  intros He. destruct (pool_owned _ _ _ _ (hrep_pool _ _ _ R) He) as (_ & H1 & H2 & _).
  by apply load_cstr_Done.
Qed.

Lemma find_node_run k row : (∀ e, e ∈ row → e ∈ concat rows) →
  find_node k (node_of <$> row) s =
    Done ((λ e, data (node_of e)) <$> (snd <$> list_find (λ e, k = hkey e) row), s).
Proof.
  induction row as [|e row IH]; intros Hin; [done|]. cbn [fmap list_fmap find_node node_of data key].
  run (load_key e (Hin e ltac:(left))). cbn [list_find]. destruct (decide (k = hkey e)); [done|].
  etrans; [apply IH; intros f Hf; apply Hin; by right|].
  by destruct (list_find _ row) as [[]|].
Qed.
End Rows.

Section Lookup.
Context (s : hst) (rows : list (list hentry)) (out : gset loc) (R : hrep s rows out).

(** What the search in the row of a key finds is the map's value. *)
Lemma row_lookup k i row : rows !! i = Some row →
  Hash_indexFor k HASH_SIZE = Done (Z.of_nat i) →
  match list_find (λ e, k = hkey e) row with
  | Some (_, e) => emap (concat rows) !! k = Some (hval e) ∧ e ∈ row ∧ hkey e = k
  | None => emap (concat rows) !! k = None
  end.
Proof.
  intros Hi Hx. destruct (list_find _ row) as [[j e]|] eqn:E.
  - apply list_find_Some in E as (Hj & -> & _). apply list_elem_of_lookup_2 in Hj. split; [|done].
    apply (row_entry _ _ _ _ Hi) in Hj. apply list_elem_of_split in Hj as (A & B & E).
    pose proof (hrep_keys _ _ _ R) as Hnd. rewrite E in *.
    destruct (emap_split _ _ _ Hnd) as [-> _]. by rewrite lookup_insert_eq.
  - apply list_find_None in E. apply emap_keys. apply (absent_key _ _ _ R i row); [done..|].
    intros Hin. apply list_elem_of_fmap in Hin as (e & -> & He).
    rewrite Forall_forall in E. by apply (E e He).
Qed.

Lemma Hash_find_run k : short_key k →
  ∃ i row, row_of k s = Done (i, s) ∧ get_row i s = Done (node_of <$> row, s) ∧ rows !! i = Some row
    ∧ i < HASH_SIZE ∧ Hash_indexFor k HASH_SIZE = Done (Z.of_nat i)
    ∧ ∃ r, find_node k (node_of <$> row) s = Done ((λ e, data (node_of e)) <$> r, s)
      ∧ emap (concat rows) !! k = hval <$> r ∧ (∀ e, r = Some e → e ∈ concat rows ∧ hkey e = k).
Proof.
  intros Hk. destruct (row_of_Done k s Hk) as (i & Hrow & Hi & Hx).
  destruct (get_row_Done _ _ _ R i Hi) as (row & Hr & Hget).
  exists i, row. split_and!; try done.
  pose proof (find_node_run _ _ _ R k row (λ e, row_entry _ _ _ e Hr)) as Hf.
  pose proof (row_lookup k i row Hr Hx) as Hl. rewrite Hf.
  destruct (list_find _ row) as [[j e]|].
  - destruct Hl as (Hl & He & Hk'). exists (Some e). split_and!; try done.
    intros e' [= <-]. split; [by apply (row_entry _ _ _ _ Hr)|done].
  - by exists None.
Qed.

Lemma hlength_pos : (0 <? hlength s)%Z = negb (bool_decide (concat rows = [])).
Proof.
  rewrite (hrep_length _ _ _ R). destruct (concat rows); [done|].
  rewrite bool_decide_eq_false_2 by done. apply Z.ltb_lt. cbn. lia.
Qed.

Lemma Hash_getValue_run k : short_key k →
  ∃ p, Hash_getValue k s = Done (p, s)
    ∧ match emap (concat rows) !! k with
      | None => p = None
      | Some v => ∃ l, p = Some l ∧ hcl s !! l = Some (HBytes v)
      end.
Proof.
  intros Hk. unfold Hash_getValue. erewrite bind_Done by done. rewrite hlength_pos.
  case_bool_decide as E; [rewrite E; by exists None|]. cbn [negb].
  destruct (Hash_find_run k Hk) as (i & row & H1 & H2 & _ & _ & _ & r & H3 & Hm & He).
  run H1. run H2. run H3. rewrite Hm. destruct r as [e|]; [|by exists None].
  exists (Some (hv e)). split; [done|]. exists (hv e). split; [done|].
  destruct (pool_owned _ _ _ _ (hrep_pool _ _ _ R) (proj1 (He e eq_refl))) as (_ & _ & _ & Hv). exact Hv.
Qed.
End Lookup.

(** ** Changing one row *)

Lemma concat_insert (rows : list (list hentry)) i row row' : rows !! i = Some row →
  concat (<[i := row']> rows) = concat (take i rows) ++ row' ++ concat (drop (S i) rows).
Proof.
  intros Hi. pose proof (lookup_lt_Some _ _ _ Hi) as Hlt.
  rewrite insert_take_drop by done. by rewrite concat_app.
Qed.

Section Change.
Context (s : hst) (rows : list (list hentry)) (out : gset loc) (R : hrep s rows out).
Context (k : bytes) (i : nat) (row : list hentry) (Hrow : rows !! i = Some row).
Context (Hx : Hash_indexFor k HASH_SIZE = Done (Z.of_nat i)).

Lemma set_row_Done r m : set_row i r (Hst m (hash s) (hlength s))
  = Done (tt, Hst m (<[i := r]> (hash s)) (hlength s)).
Proof.
  unfold set_row. cbn. by rewrite (hrep_hash _ _ _ R), list_lookup_fmap, Hrow.
Qed.

Lemma set_row_same r : set_row i r s = Done (tt, Hst (hm s) (<[i := r]> (hash s)) (hlength s)).
Proof. unfold set_row. by rewrite (hrep_hash _ _ _ R), list_lookup_fmap, Hrow. Qed.

(** The table with row [i] replaced. *)
Lemma hrep_row s' row' out' :
  hash s' = <[i := node_of <$> row']> (hash s) →
  pool (hm s') (concat (<[i := row']> rows)) out' →
  NoDup (keys (concat (<[i := row']> rows))) →
  (∀ e, e ∈ row' → e ∈ row ∨ hkey e = k) →
  hlength s' = Z.of_nat (length (concat (<[i := row']> rows))) →
  (Z.of_nat (length (concat (<[i := row']> rows))) ≤ INT_MAX)%Z →
  hrep s' (<[i := row']> rows) out'.
Proof.
  intros Hh Hp Hk He Hl Hi. split; try done.
  - rewrite Hh, (hrep_hash _ _ _ R). by rewrite list_fmap_insert.
  - rewrite length_insert. apply R.
  - intros j r e Hj Hin. apply list_lookup_insert_Some in Hj as [(<- & <- & _)|[_ Hj]].
    + destruct (He e Hin) as [Hin'|E]; [by apply (hrep_index _ _ _ R i row)|by rewrite E].
    + by apply (hrep_index _ _ _ R j r).
Qed.

Lemma set_loop_pass v n before A rest s1 : k ∉ keys A →
  (∀ e, e ∈ A → load_cstr (Some (hk e)) s1 = Done (hkey e, s1)) →
  set_loop k v n i before ((node_of <$> A) ++ rest) s1
  = set_loop k v n i (before ++ (node_of <$> A)) rest s1.
Proof.
  revert before. induction A as [|a A IH]; intros before Hk Hl; [by rewrite app_nil_r|].
  cbn [fmap list_fmap app set_loop node_of data key]. run (Hl a ltac:(left)).
  apply not_elem_of_cons in Hk as [Hk1 Hk]. rewrite decide_False by done.
  etrans; [apply IH; [done|]|].
  - intros e He. apply Hl. by right.
  - by rewrite <- app_assoc.
Qed.

Lemma delete_loop_pass before A rest s1 : k ∉ keys A →
  (∀ e, e ∈ A → load_cstr (Some (hk e)) s1 = Done (hkey e, s1)) →
  delete_loop k i before ((node_of <$> A) ++ rest) s1
  = delete_loop k i (before ++ (node_of <$> A)) rest s1.
Proof.
  revert before. induction A as [|a A IH]; intros before Hk Hl; [by rewrite app_nil_r|].
  cbn [fmap list_fmap app delete_loop node_of data key]. run (Hl a ltac:(left)).
  apply not_elem_of_cons in Hk as [Hk1 Hk]. rewrite decide_False by done.
  etrans; [apply IH; [done|]|].
  - intros e He. apply Hl. by right.
  - by rewrite <- app_assoc.
Qed.

Lemma load_keys (A : list hentry) : (∀ e, e ∈ A → e ∈ row) →
  ∀ e, e ∈ A → load_cstr (Some (hk e)) s = Done (hkey e, s).
Proof. intros HA e He. apply (load_key _ _ _ R). apply (row_entry _ _ _ _ Hrow). auto. Qed.

(** The first node of the row with the key, if any. *)
Lemma row_cases : k ∉ keys row ∨ ∃ A e B, row = A ++ e :: B ∧ hkey e = k ∧ k ∉ keys A.
Proof.
  clear. induction row as [|a r IH]; [left; apply not_elem_of_nil|].
  destruct (decide (hkey a = k)) as [E|E].
  { right. exists [], a, r. split_and!; [done..|apply not_elem_of_nil]. }
  destruct IH as [IH|(A & e & B & -> & E' & Hk)].
  - left. apply not_elem_of_cons. split; [congruence|done].
  - right. exists (a :: A), e, B. split_and!; [done..|]. apply not_elem_of_cons. split; [congruence|done].
Qed.

(** The other entries around one of the row. *)
Definition others (A B : list hentry) : list hentry :=
  (concat (take i rows) ++ A) ++ (B ++ concat (drop (S i) rows)).

Lemma concat_with A B e : concat (<[i := A ++ e :: B]> rows)
  = (concat (take i rows) ++ A) ++ e :: (B ++ concat (drop (S i) rows)).
Proof. rewrite (concat_insert _ _ _ _ Hrow). by rewrite <- !app_assoc. Qed.

Lemma concat_without A B : concat (<[i := A ++ B]> rows) = others A B.
Proof. rewrite (concat_insert _ _ _ _ Hrow). unfold others. by rewrite <- !app_assoc. Qed.

Lemma concat_with_perm A B e : concat (<[i := A ++ e :: B]> rows) ≡ₚ e :: others A B.
Proof. rewrite concat_with. by rewrite <- Permutation_middle. Qed.

Lemma set_append v b : k ∉ keys row → NUL ∉ k → budget (hm s) = S (S (S b)) →
  (Z.of_nat (length (concat rows)) < INT_MAX)%Z →
  ∃ s' rows', set_loop k v (length v) i [] (node_of <$> row) s = Done (true, s')
    ∧ hrep s' rows' out ∧ emap (concat rows') = <[k := v]> (emap (concat rows))
    ∧ length (concat rows') = S (length (concat rows)) ∧ budget (hm s') = b.
Proof.
  intros Hk Hnul Hb Hi.
  destruct (HashNode_new_run s (concat rows) out k v b (hrep_pool _ _ _ R) Hb Hnul)
    as (s1 & e & Hnew & Hp & Hek & Hev & Hh & Hl & Hb1).
  rewrite <- (app_nil_r (node_of <$> row)), set_loop_pass by (try done; by apply load_keys).
  cbn [set_loop app]. run Hnew. destruct s1 as [m1 h1 l1]. cbn in Hh, Hl, Hp, Hb1. subst h1 l1.
  run (set_row_Done ((node_of <$> row) ++ [node_of e]) m1).
  erewrite bind_Done.
  2:{ unfold add_hlength. erewrite bind_Done by done. cbn. unfold bind, lift.
      rewrite int_add_Done; [reflexivity|]. rewrite (hrep_length _ _ _ R). unfold INT_MIN. lia. }
  assert (Hc : concat (<[i := row ++ [e]]> rows) ≡ₚ e :: concat rows).
  { rewrite (concat_insert _ _ _ _ Hrow), (row_split _ _ _ Hrow). rewrite <- app_assoc. cbn.
    rewrite app_assoc, <- Permutation_middle, <- app_assoc. done. }
  assert (Hne : k ∉ keys (concat rows)) by (by apply (absent_key _ _ _ R i row)).
  assert (Hnd : NoDup (keys (e :: concat rows))).
  { cbn. rewrite Hek. apply NoDup_cons. split; [done|]. apply R. }
  eexists _, (<[i := row ++ [e]]> rows). split; [reflexivity|]. split_and!; cbn.
  - apply hrep_row; cbn; rewrite ?Hc; cbn; try done.
    + by rewrite fmap_app.
    + by unfold keys; rewrite Hc.
    + intros f [Hf|Hf]%elem_of_app; [by left|]. apply list_elem_of_singleton in Hf as ->. by right.
    + rewrite (hrep_length _ _ _ R). lia.
    + lia.
  - rewrite (emap_perm (concat (<[i := row ++ [e]]> rows)) (e :: concat rows)); [|by unfold keys; rewrite Hc|done].
    by rewrite emap_cons, Hek, Hev.
  - by rewrite Hc.
  - done.
Qed.
Lemma row_same A e B : row = A ++ e :: B → rows = <[i := A ++ e :: B]> rows.
Proof. intros <-. by rewrite list_insert_id. Qed.

(** Facts about the entry [e0] that holds the key. *)
Lemma found A e0 B : row = A ++ e0 :: B → hkey e0 = k →
  concat rows ≡ₚ e0 :: others A B
  ∧ emap (others A B) = delete k (emap (concat rows))
  ∧ (k ∉ keys (others A B)) ∧ NoDup (keys (others A B)).
Proof.
  intros Er Ek. pose proof (hrep_keys _ _ _ R) as Hnd.
  rewrite (row_same _ _ _ Er), concat_with in Hnd |- *. destruct (emap_split _ _ _ Hnd) as (_ & Hd & Hk).
  rewrite Ek in Hd, Hk. unfold others. split_and!; try done.
  - by rewrite <- Permutation_middle.
  - unfold keys in Hnd. rewrite <- Permutation_middle in Hnd. cbn in Hnd. by apply NoDup_cons in Hnd as [_ Hnd].
Qed.

Lemma set_replace v b A e0 B : row = A ++ e0 :: B → hkey e0 = k → k ∉ keys A → NUL ∉ k →
  budget (hm s) = S (S (S b)) →
  ∃ s' rows', set_loop k v (length v) i [] (node_of <$> row) s = Done (true, s')
    ∧ hrep s' rows' out ∧ emap (concat rows') = <[k := v]> (emap (concat rows))
    ∧ length (concat rows') = length (concat rows) ∧ budget (hm s') = b.
Proof.
  intros Er Ek HkA Hnul Hb. destruct (found _ _ _ Er Ek) as (Hc0 & Hd & Hk & Hnd).
  destruct (HashNode_new_run s (concat rows) out k v b (hrep_pool _ _ _ R) Hb Hnul)
    as (s1 & e & Hnew & Hp & Hek & Hev & Hh & Hl & Hb1).
  rewrite Er, fmap_app. rewrite set_loop_pass; [|done|apply load_keys; rewrite Er; set_solver].
  cbn [set_loop app fmap list_fmap]. change (key (data (node_of e0))) with (Some (hk e0)).
  rewrite (bind_Done _ _ _ _ _ (load_key _ _ _ R e0 ltac:(rewrite Hc0; left))).
  rewrite decide_True by done. run Hnew. destruct s1 as [m1 h1 l1]. cbn in Hh, Hl, Hp, Hb1. subst h1 l1.
  run (set_row_Done ((node_of <$> A) ++ node_of e :: (node_of <$> B)) m1).
  rewrite Hc0, (Permutation_swap e0 e) in Hp.
  destruct (HashNode_free_run (Hst m1 (<[i := (node_of <$> A) ++ node_of e :: (node_of <$> B)]> (hash s)) (hlength s))
    (e :: others A B) out e0 Hp) as (s2 & Hfree & Hp2 & Hh2 & Hl2 & Hb2).
  run Hfree. cbn in Hh2, Hl2, Hb2.
  assert (Hlen : length (concat (<[i := A ++ e :: B]> rows)) = length (concat rows)).
  { rewrite concat_with_perm, Hc0. done. }
  assert (Hnd' : NoDup (keys (concat (<[i := A ++ e :: B]> rows)))).
  { unfold keys. rewrite concat_with_perm. cbn. rewrite Hek. by apply NoDup_cons. }
  exists s2, (<[i := A ++ e :: B]> rows). split; [done|]. split_and!; [|..|done|congruence].
  - apply hrep_row; rewrite ?Hlen; try done; try apply R.
    + rewrite Hh2, fmap_app. done.
    + by rewrite concat_with_perm.
    + intros f Hf. rewrite Er. rewrite !elem_of_app, !elem_of_cons in *. naive_solver.
    + rewrite Hl2. apply R.
  - rewrite (emap_perm _ (e :: others A B)); [|done|apply concat_with_perm].
    by rewrite emap_cons, Hek, Hev, Hd, insert_delete_eq.
Qed.

Lemma delete_found A e0 B : row = A ++ e0 :: B → hkey e0 = k → k ∉ keys A →
  ∃ s' rows', delete_loop k i [] (node_of <$> row) s = Done (true, s')
    ∧ hrep s' rows' out ∧ emap (concat rows') = delete k (emap (concat rows))
    ∧ length (concat rows') ≤ length (concat rows) ∧ budget (hm s') = budget (hm s).
Proof.
  intros Er Ek HkA. destruct (found _ _ _ Er Ek) as (Hc0 & Hd & Hk & Hnd).
  rewrite Er, fmap_app. rewrite delete_loop_pass; [|done|apply load_keys; rewrite Er; set_solver].
  cbn [delete_loop app fmap list_fmap]. change (key (data (node_of e0))) with (Some (hk e0)).
  rewrite (bind_Done _ _ _ _ _ (load_key _ _ _ R e0 ltac:(rewrite Hc0; left))).
  rewrite decide_True by done. run (set_row_same ((node_of <$> A) ++ (node_of <$> B))).
  pose proof (hrep_pool _ _ _ R) as Hp. rewrite Hc0 in Hp.
  destruct (HashNode_free_run (Hst (hm s) (<[i := (node_of <$> A) ++ (node_of <$> B)]> (hash s)) (hlength s))
    (others A B) out e0 Hp) as (s2 & Hfree & Hp2 & Hh2 & Hl2 & Hb2).
  run Hfree. cbn in Hh2, Hl2, Hb2.
  assert (Hlen : length (concat rows) = S (length (others A B))) by (by rewrite Hc0).
  pose proof (hrep_length _ _ _ R) as Hl0. pose proof (hrep_int _ _ _ R) as Hi0.
  erewrite bind_Done.
  2:{ unfold add_hlength. erewrite bind_Done by done. cbn. unfold bind, lift.
      rewrite int_add_Done; [reflexivity|]. rewrite Hl2, Hl0, Hlen. unfold INT_MIN, INT_MAX in *. lia. }
  eexists _, (<[i := A ++ B]> rows). split; [reflexivity|]. split_and!; cbn.
  - apply hrep_row; rewrite ?concat_without; cbn; try done.
    + by rewrite Hh2, fmap_app.
    + intros f Hf. rewrite Er. rewrite !elem_of_app, !elem_of_cons in *. naive_solver.
    + rewrite Hl2, Hl0, Hlen. lia.
    + lia.
  - by rewrite concat_without, Hd.
  - rewrite concat_without. lia.
  - done.
Qed.
End Change.

(** ** The operations on a represented table *)

Section Operations.
Context (s : hst) (rows : list (list hentry)) (out : gset loc) (R : hrep s rows out).
Context (k : bytes) (Hshort : short_key k).

Lemma Hash_set_run v b : NUL ∉ k → budget (hm s) = S (S (S b)) →
  (Z.of_nat (length (concat rows)) < INT_MAX)%Z →
  ∃ s' rows', Hash_set k v (length v) s = Done (true, s')
    ∧ hrep s' rows' out ∧ emap (concat rows') = <[k := v]> (emap (concat rows))
    ∧ length (concat rows') ≤ S (length (concat rows)) ∧ budget (hm s') = b.
Proof.
  intros Hnul Hb Hi.
  destruct (Hash_find_run _ _ _ R k Hshort) as (i & row & H1 & H2 & Hrow & _ & Hx & _).
  unfold Hash_set. run H1. run H2.
  destruct (row_cases k row) as [Hk|(A & e & B & Er & Ek & HkA)].
  - destruct (set_append s rows out R k i row Hrow Hx v b Hk Hnul Hb Hi)
      as (s' & rows' & H3 & H4 & H5 & H6 & H7). exists s', rows'. split_and!; [done..|lia|done].
  - destruct (set_replace s rows out R k i row Hrow Hx v b A e B Er Ek HkA Hnul Hb)
      as (s' & rows' & H3 & H4 & H5 & H6 & H7). exists s', rows'. split_and!; [done..|lia|done].
Qed.

Lemma Hash_delete_run :
  ∃ s' rows', Hash_delete k s = Done (bool_decide (is_Some (emap (concat rows) !! k)), s')
    ∧ hrep s' rows' out ∧ emap (concat rows') = delete k (emap (concat rows))
    ∧ length (concat rows') ≤ length (concat rows) ∧ budget (hm s') = budget (hm s).
Proof.
  unfold Hash_delete. erewrite bind_Done by done. rewrite (hlength_pos _ _ _ R).
  destruct (bool_decide_reflect (concat rows = [])) as [E|E]; cbn [negb].
  { exists s, rows. rewrite E. cbn. by rewrite delete_empty. }
  destruct (Hash_find_run _ _ _ R k Hshort) as (i & row & H1 & H2 & Hrow & _ & Hx & _).
  run H1. run H2. destruct (row_cases k row) as [Hk|(A & e & B & Er & Ek & HkA)].
  - pose proof (emap_keys _ _ (absent_key _ _ _ R i row k Hrow Hx Hk)) as Hn.
    exists s, rows. rewrite Hn, delete_id by done. split; [|done].
    rewrite <- (app_nil_r (node_of <$> row)).
    by rewrite (delete_loop_pass k i _ _ _ _ Hk (load_keys _ _ _ R i row Hrow row (λ e He, He))).
  - destruct (found s rows out R k i row Hrow A e B Er Ek) as (Hc & Hd & _).
    destruct (delete_found s rows out R k i row Hrow Hx A e B Er Ek HkA)
      as (s' & rows' & H3 & H4 & H5 & H6 & H7). exists s', rows'. split_and!; try done.
    rewrite H3. do 2 f_equal. rewrite bool_decide_eq_true_2; [done|].
    rewrite (emap_perm _ _ (hrep_keys _ _ _ R) Hc), emap_cons, Ek, lookup_insert_eq. eauto.
Qed.

Lemma Hash_length_run : hlength s = Z.of_nat (size (emap (concat rows))).
Proof.
  rewrite (hrep_length _ _ _ R). f_equal. unfold emap.
  rewrite map_size_list_to_map, length_fmap; [done|]. rewrite <- list_fmap_compose. apply R.
Qed.
End Operations.

(** ** Destruction *)

Lemma purge_chain_run i row rest out : ∀ s, pool (hm s) (row ++ rest) out →
  is_Some (hash s !! i) → hash s !! i = Some (node_of <$> row) →
  ∃ s', purge_chain i (node_of <$> row) s = Done (tt, s') ∧ pool (hm s') rest out
    ∧ hash s' = <[i := []]> (hash s) ∧ hlength s' = hlength s.
Proof.
  induction row as [|e row IH]; intros s P Hi Hrow.
  - exists s. split_and!; try done. by rewrite list_insert_id.
  - cbn [fmap list_fmap purge_chain].
    erewrite bind_Done by (unfold set_row; rewrite Hrow; reflexivity).
    destruct (HashNode_free_run (Hst (hm s) (<[i := node_of <$> row]> (hash s)) (hlength s)) (row ++ rest) out e P)
      as (s1 & Hfree & P1 & Hh1 & Hl1 & _).
    run Hfree. cbn in Hh1, Hl1.
    assert (Hrow1 : hash s1 !! i = Some (node_of <$> row)).
    { rewrite Hh1. apply list_lookup_insert_eq. by eapply lookup_lt_Some. }
    destruct (IH s1 P1 (mk_is_Some _ _ Hrow1) Hrow1) as (s2 & Hrun & P2 & Hh2 & Hl2).
    exists s2. split_and!; try done; [|congruence]. rewrite Hh2, Hh1. by rewrite list_insert_insert_eq.
Qed.

Lemma purge_from_run todo : ∀ i s (rows : list (list hentry)) out, length rows = todo →
  pool (hm s) (concat rows) out →
  (∀ j, j < todo → hash s !! (i + j) = (λ r, node_of <$> r) <$> rows !! j) →
  ∃ s', purge_from i todo s = Done (tt, s') ∧ pool (hm s') [] out ∧ hlength s' = hlength s
    ∧ (∀ j, j < i → hash s' !! j = hash s !! j) ∧ (∀ j, i ≤ j < i + todo → hash s' !! j = Some []).
Proof.
  induction todo as [|todo IH]; intros i s rows out Hlen P Hh.
  - destruct rows; [|done]. exists s. split_and!; try done. intros j Hj. lia.
  - destruct rows as [|row rows]; [done|]. cbn in Hlen, P. cbn [purge_from].
    pose proof (Hh 0 ltac:(lia)) as H0. rewrite Nat.add_0_r in H0. cbn in H0.
    erewrite bind_Done by (unfold get_row; rewrite H0; reflexivity).
    destruct (purge_chain_run i row (concat rows) out s P (mk_is_Some _ _ H0) H0) as (s1 & Hrun & P1 & Hh1 & Hl1).
    run Hrun. destruct (IH (S i) s1 rows out) as (s2 & Hr2 & P2 & Hl2 & Hb2 & Ha2); [lia|done| |].
    { intros j Hj. rewrite Hh1, list_lookup_insert_ne by lia.
      replace (S i + j) with (i + S j) by lia. apply Hh. lia. }
    exists s2. split_and!; [done|done|congruence| |].
    + intros j Hj. rewrite Hb2, Hh1, list_lookup_insert_ne by lia. done.
    + intros j Hj. destruct (decide (j = i)) as [->|]; [|apply Ha2; lia].
      rewrite Hb2, Hh1 by lia. apply list_lookup_insert_eq. by eapply lookup_lt_Some.
Qed.

(** [Hash_purge] on a table that is not empty: every row is emptied and every
    block released, but the length stays what it was. *)
Lemma Hash_purge_run (s : hst) (rows : list (list hentry)) (out : gset loc) (R : hrep s rows out) :
  concat rows ≠ [] →
  ∃ s', Hash_purge s = Done (tt, s') ∧ pool (hm s') [] out ∧ hlength s' = hlength s
    ∧ (∀ j, j < HASH_SIZE → hash s' !! j = Some []).
Proof.
  intros Hne. unfold Hash_purge. erewrite bind_Done by done.
  assert (E : (hlength s =? 0)%Z = false).
  { apply Z.eqb_neq. rewrite (hrep_length _ _ _ R). destruct (concat rows); [done|cbn; lia]. }
  rewrite E. destruct (purge_from_run HASH_SIZE 0 s rows out (hrep_rows _ _ _ R) (hrep_pool _ _ _ R))
    as (s' & Hrun & P & Hl & _ & Ha).
  { intros j _. by rewrite (hrep_hash _ _ _ R), list_lookup_fmap. }
  exists s'. split_and!; [done..|]. intros j Hj. apply Ha. lia.
Qed.

(** [Hash_free] always ends, sets the caller's pointer to [NULL] and
    releases every node, key and value of the table: the heap holds exactly
    the cells handed out before (copies of [Tuple]s). *)
Theorem Hash_free_no_leak (s : hst) (rows : list (list hentry)) (out : gset loc)
    (R : hrep s rows out) :
  ∃ s', Hash_free s = Done (None, s') ∧ dom (hcl s') = out ∧ hlength s' = 0%Z.
Proof.
  assert (Hdone : ∀ m, pool m [] out → dom (cells m) = out).
  { intros m P. apply set_eq. intros l. rewrite elem_of_dom, (pool_dom _ _ _ P). cbn.
    rewrite elem_of_nil. tauto. }
  unfold Hash_free, Hash_empty. rewrite bind_bind. erewrite bind_Done by done. rewrite bind_ret.
  destruct (hlength s =? 0)%Z eqn:E.
  - eexists. split; [reflexivity|]. split; [|done]. apply Hdone. cbn.
    apply Z.eqb_eq in E. rewrite (hrep_length _ _ _ R) in E. pose proof (hrep_pool _ _ _ R) as P.
    destruct (concat rows); [done|cbn in E; lia].
  - destruct (Hash_purge_run s rows out R) as (s' & Hrun & P & _).
    { intros E'. rewrite (hrep_length _ _ _ R), E' in E. done. }
    run Hrun. eexists. split; [reflexivity|]. split; [|done]. by apply Hdone.
Qed.

(** ** Tuples

    [Hash_get], [Hash_first] and [Hash_last] allocate a [Tuple] for the caller,
    who reads it and gives it back with [Tuple_free]. *)

Definition take_tuple (p : ptr) : cmd hst (option (bytes * bytes)) :=
  match p with
  | None => ret None
  | Some _ =>
    c <- on_hmem (load p);;
    match c with
    | HTuple t =>
      k <- load_cstr (key t);;
      v <- load_hbytes (value t);;
      Tuple_free p;;;
      ret (Some (k, take (tlength t) v))
    | _ => stuck DanglingPointer
    end
  end.

Section Tuples.
Context (s : hst) (rows : list (list hentry)) (out : gset loc) (R : hrep s rows out).

Lemma entry_value e : e ∈ concat rows → emap (concat rows) !! hkey e = Some (hval e).
Proof.
  intros (A & B & E)%list_elem_of_split. pose proof (hrep_keys _ _ _ R) as Hnd. rewrite E in *.
  destruct (emap_split _ _ _ Hnd) as [-> _]. by rewrite lookup_insert_eq.
Qed.

Lemma value_entry k v : emap (concat rows) !! k = Some v → ∃ e, e ∈ concat rows ∧ hkey e = k.
Proof.
  intros H%elem_of_list_to_map_2. apply list_elem_of_fmap in H as (e & [= -> ->] & He). by exists e.
Qed.

(** The row of a key, as a number. *)
Definition row_number (k : bytes) : nat :=
  match Hash_indexFor k HASH_SIZE with Done i => Z.to_nat i | Stuck _ => 0 end.

Lemma row_number_entry i row e : rows !! i = Some row → e ∈ row → row_number (hkey e) = i.
Proof. intros Hi He. unfold row_number. rewrite (hrep_index _ _ _ R i row e Hi He). apply Nat2Z.id. Qed.

Lemma entry_row e : e ∈ concat rows → ∃ i row, rows !! i = Some row ∧ e ∈ row.
Proof.
  intros (row & Hr & He)%list_elem_of_In%in_concat. apply list_elem_of_In in Hr, He.
  apply list_elem_of_lookup in Hr as [i Hi]. by exists i, row.
Qed.

(** A row [i] outside of which, on one side, there is no entry. *)
Lemma first_found todo : ∀ i, i + todo = HASH_SIZE → (∀ j row, j < i → rows !! j = Some row → row = []) →
  concat rows ≠ [] →
  ∃ e, e ∈ concat rows ∧ first_from i todo s = tuple_copy (data (node_of e)) s
    ∧ ∀ f, f ∈ concat rows → row_number (hkey e) ≤ row_number (hkey f).
Proof.
  induction todo as [|todo IH]; intros i Hi He Hne.
  - exfalso. destruct (concat rows) as [|e es] eqn:E; [done|].
    destruct (entry_row e) as (j & row & Hj & Hin); [rewrite E; left|].
    rewrite (He j row) in Hin; [by apply elem_of_nil in Hin| |done].
    apply lookup_lt_Some in Hj. rewrite (hrep_rows _ _ _ R) in Hj. lia.
  - destruct (get_row_Done _ _ _ R i ltac:(lia)) as (row & Hrow & Hget). cbn [first_from]. run Hget.
    destruct row as [|e row]; cbn [fmap list_fmap].
    + apply (IH (S i)); [lia| |done]. intros j r Hj Hr. destruct (decide (j = i)) as [->|]; [congruence|].
      apply (He j); [lia|done].
    + exists e. split_and!; [eapply (row_entry _ _ _ _ Hrow); left|done|]. intros f (j & r & Hj & Hf)%entry_row.
      rewrite (row_number_entry _ _ _ Hrow), (row_number_entry _ _ _ Hj Hf) by left.
      destruct (decide (j < i)); [|lia]. rewrite (He j r) in Hf by done. by apply elem_of_nil in Hf.
Qed.

Lemma last_found i : i ≤ HASH_SIZE → (∀ j row, i ≤ j → rows !! j = Some row → row = []) →
  concat rows ≠ [] →
  ∃ e, e ∈ concat rows ∧ last_from i s = tuple_copy (data (node_of e)) s
    ∧ ∀ f, f ∈ concat rows → row_number (hkey f) ≤ row_number (hkey e).
Proof.
  induction i as [|i IH]; intros Hi He Hne.
  - exfalso. destruct (concat rows) as [|e es] eqn:E; [done|].
    destruct (entry_row e) as (j & row & Hj & Hin); [rewrite E; left|].
    rewrite (He j row) in Hin; [by apply elem_of_nil in Hin|lia|done].
  - destruct (get_row_Done _ _ _ R i ltac:(lia)) as (row & Hrow & Hget). cbn [last_from]. run Hget.
    rewrite fmap_last. destruct (last row) as [e|] eqn:El; cbn [fmap option_fmap option_map].
    + assert (Hin : e ∈ row) by (apply last_Some in El as [r ->]; apply elem_of_app; right; left).
      exists e. split_and!; [by eapply (row_entry _ _ _ _ Hrow)|done|]. intros f (j & r & Hj & Hf)%entry_row.
      rewrite (row_number_entry _ _ _ Hrow Hin), (row_number_entry _ _ _ Hj Hf).
      destruct (decide (i < j)); [|lia]. rewrite (He j r) in Hf by (done || lia). by apply elem_of_nil in Hf.
    + apply last_None in El as ->. apply IH; [lia| |done]. intros j r Hj Hr.
      destruct (decide (j = i)) as [->|]; [congruence|]. apply (He j); [lia|done].
Qed.

Context (b : nat) (Hb : budget (hm s) = S b).

Lemma tuple_taken e : e ∈ concat rows →
  ∃ s', (p <- tuple_copy (data (node_of e));; take_tuple p) s = Done (Some (hkey e, hval e), s')
    ∧ hrep s' rows out ∧ budget (hm s') = b.
Proof.
  intros He. destruct (pool_owned _ _ _ _ (hrep_pool _ _ _ R) He) as (Hn & Hk & Hnul & Hv).
  change (cells (hm s)) with (hcl s) in *. pose proof (pool_wf _ _ _ (hrep_pool _ _ _ R)) as Hwf.
  pose proof (mem_wf_lt _ _ _ Hwf Hk) as Bk. pose proof (mem_wf_lt _ _ _ Hwf Hv) as Bv.
  unfold tuple_copy. rewrite !bind_bind. run (h_calloc_Done s (HTuple (MkTuple None None 0)) _ Hb).
  rewrite !bind_bind. erewrite bind_Done by (eapply h_store_Done; h_lookup). rewrite bind_ret.
  set (s1 := hput _ _ _). cbn [take_tuple].
  assert (E : on_hmem (load (Some (brk (hm s)))) s1 = Done (HTuple (data (node_of e)), s1)).
  { unfold on_hmem, s1. cbn. rewrite lookup_insert_eq. done. }
  run E. cbn [node_of data key value tlength]. unfold s1.
  erewrite bind_Done by (apply load_cstr_Done; [h_lookup|assumption]).
  erewrite bind_Done by (apply load_hbytes_Done; h_lookup).
  unfold Tuple_free. rewrite !bind_bind. erewrite bind_Done by (eapply h_store_Done; h_lookup).
  rewrite !bind_bind. erewrite bind_Done by (eapply h_free_Done; h_lookup). rewrite bind_ret, firstn_all.
  eexists. split; [reflexivity|]. split; [|done]. destruct R. split; try done.
  apply (pool_same (hm s)); [done|cbn; lia|]. intros l. cbn. unfold hcl. cbn.
  rewrite lookup_delete, !lookup_insert. repeat case_decide; subst; try done. symmetry. apply Hwf. lia.
Qed.
End Tuples.

(** ** Abstract specification

    Programs over the functions of hash.h; a value is read through the
    pointer that is returned, a tuple is read and given back. *)

Inductive hash_op : Type :=
  | HSet (k v : bytes)
  | HGet (k : bytes)
  | HGetValue (k : bytes)
  | HDelete (k : bytes)
  | HFirst
  | HLast
  | HLength
  | HEmpty.

Inductive hash_res : Type :=
  | HBool (b : bool)
  | HValue (v : option bytes)
  | HPair (p : option (bytes * bytes))
  | HInt (n : Z).

(** The item of [m] that comes first for [before]: none when [m] is empty. *)
Definition foremost (before : nat → nat → Prop) (m : gmap bytes bytes) (r : hash_res) : Prop :=
  match r with
  | HPair None => m = ∅
  | HPair (Some (k, v)) => m !! k = Some v ∧ ∀ k' v', m !! k' = Some v' → before (row_number k) (row_number k')
  | _ => False
  end.

(** What an operation on the finite map [m] may return, and the map after it.
    Only [HFirst] and [HLast] leave a choice: among the keys of one row of the
    table, whose order the map does not know. *)
Definition hspec (o : hash_op) (m : gmap bytes bytes) (r : hash_res) (m' : gmap bytes bytes) : Prop :=
  match o with
  | HSet k v => r = HBool true ∧ m' = <[k := v]> m
  | HGet k => r = HPair ((k,.) <$> m !! k) ∧ m' = m
  | HGetValue k => r = HValue (m !! k) ∧ m' = m
  | HDelete k => r = HBool (bool_decide (is_Some (m !! k))) ∧ m' = delete k m
  | HFirst => foremost le m r ∧ m' = m
  | HLast => foremost ge m r ∧ m' = m
  | HLength => r = HInt (Z.of_nat (size m)) ∧ m' = m
  | HEmpty => r = HBool (bool_decide (m = ∅)) ∧ m' = m
  end.

Inductive hspec_run : list hash_op → gmap bytes bytes → list hash_res → gmap bytes bytes → Prop :=
  | hspec_nil m : hspec_run [] m [] m
  | hspec_cons o os m r m1 rs m2 : hspec o m r m1 → hspec_run os m1 rs m2 → hspec_run (o :: os) m (r :: rs) m2.

Definition run_hop (o : hash_op) : cmd hst hash_res :=
  match o with
  | HSet k v => b <- Hash_set k v (length v);; ret (HBool b)
  | HGet k => p <- Hash_get k;; x <- take_tuple p;; ret (HPair x)
  | HGetValue k =>
    p <- Hash_getValue k;;
    match p with
    | None => ret (HValue None)
    | Some _ => bs <- load_hbytes p;; ret (HValue (Some bs))
    end
  | HDelete k => b <- Hash_delete k;; ret (HBool b)
  | HFirst => p <- Hash_first;; x <- take_tuple p;; ret (HPair x)
  | HLast => p <- Hash_last;; x <- take_tuple p;; ret (HPair x)
  | HLength => n <- Hash_length;; ret (HInt n)
  | HEmpty => b <- Hash_empty;; ret (HBool b)
  end.

Fixpoint run_hops (os : list hash_op) : cmd hst (list hash_res) :=
  match os with
  | [] => ret []
  | o :: os => r <- run_hop o;; rs <- run_hops os;; ret (r :: rs)
  end.

(** C strings of a length the row computation can handle. *)
Definition good_key (k : bytes) : Prop := short_key k ∧ NUL ∉ k.
Definition good_op (o : hash_op) : Prop :=
  match o with HSet k _ | HGet k | HGetValue k | HDelete k => good_key k | _ => True end.

Definition hrefines (s : hst) (m : gmap bytes bytes) (out : gset loc) : Prop :=
  ∃ rows, hrep s rows out ∧ m = emap (concat rows).

Section Refinement.
Context (s : hst) (rows : list (list hentry)) (out : gset loc) (R : hrep s rows out).
Context (b : nat) (Hb : budget (hm s) = S b).

(** A function that hands out a copy of the tuple of [e], or [NULL]. *)
Lemma tuple_run (m : cmd hst ptr) (r : option hentry) :
  m s = match r with Some e => tuple_copy (data (node_of e)) s | None => Done (None, s) end →
  (∀ e, r = Some e → e ∈ concat rows) →
  ∃ s', (p <- m;; x <- take_tuple p;; ret (HPair x)) s = Done (HPair ((λ e, (hkey e, hval e)) <$> r), s')
    ∧ hrep s' rows out ∧ budget (hm s) ≤ budget (hm s') + 1.
Proof.
  intros Em He. unfold bind at 1. rewrite Em. destruct r as [e|].
  - destruct (tuple_taken s rows out R b Hb e (He e eq_refl)) as (s' & Ht & R' & Hb').
    exists s'. split; [|split; [done|lia]]. unfold bind in Ht |- *.
    destruct (tuple_copy _ s) as [[p s1]|]; [|done]. cbn. by rewrite Ht.
  - exists s. split; [done|]. split; [done|lia].
Qed.

Lemma emap_empty : emap (concat rows) = ∅ ↔ concat rows = [].
Proof.
  split; [|by intros ->]. intros E. destruct (concat rows) as [|e es] eqn:Ec; [done|].
  exfalso. rewrite <- Ec in E. pose proof (entry_value _ _ _ R e ltac:(rewrite Ec; left)) as H.
  rewrite E in H. by rewrite lookup_empty in H.
Qed.

Lemma foremost_entry (before : nat → nat → Prop) e : e ∈ concat rows →
  (∀ f, f ∈ concat rows → before (row_number (hkey e)) (row_number (hkey f))) →
  foremost before (emap (concat rows)) (HPair (Some (hkey e, hval e))).
Proof.
  intros He Hall. split; [by apply (entry_value _ _ _ R)|].
  intros k' v' (f & Hf & <-)%(value_entry rows). by apply Hall.
Qed.

Lemma Hash_get_refines k : short_key k →
  ∃ s', run_hop (HGet k) s = Done (HPair ((k,.) <$> emap (concat rows) !! k), s')
    ∧ hrep s' rows out ∧ budget (hm s) ≤ budget (hm s') + 1.
Proof.
  intros Hk.  destruct (Hash_find_run _ _ _ R k Hk) as (i & row & H1 & H2 & Hi & _ & Hx & r & H3 & Hm & He).
  destruct (tuple_run (Hash_get k) r) as (s' & Hrun & R' & Hb').
  - unfold Hash_get. erewrite bind_Done by done. rewrite (hlength_pos _ _ _ R).
    case_bool_decide as E; cbn [negb].
    + destruct r as [e|]; [|done]. destruct (He e eq_refl) as [Hin _]. rewrite E in Hin. by apply elem_of_nil in Hin.
    + run H1. run H2. run H3. by destruct r.
  - intros e E. by apply He.
  - exists s'. split; [|done]. cbn [run_hop]. rewrite Hrun, Hm. destruct r as [e|]; [|done]. cbn. by rewrite (proj2 (He e eq_refl)).
Qed.

Lemma Hash_first_refines :
  ∃ r s', run_hop HFirst s = Done (r, s') ∧ foremost le (emap (concat rows)) r
    ∧ hrep s' rows out ∧ budget (hm s) ≤ budget (hm s') + 1.
Proof.
  destruct (decide (concat rows = [])) as [E|E].
  - destruct (tuple_run Hash_first None) as (s' & Hrun & R' & Hb'); [|done|].
    { unfold Hash_first. erewrite bind_Done by done. rewrite (hlength_pos _ _ _ R). by rewrite bool_decide_true. }
    exists (HPair None), s'. split_and!; [exact Hrun|by apply emap_empty|done..].
  - destruct (first_found s rows out R HASH_SIZE 0) as (e & He & Hf & Hmin); [lia|intros; lia|done|].
    destruct (tuple_run Hash_first (Some e)) as (s' & Hrun & R' & Hb').
    { unfold Hash_first. erewrite bind_Done by done. rewrite (hlength_pos _ _ _ R). by rewrite bool_decide_false. }
    { by intros ? [= <-]. }
    eexists _, s'. split_and!; [exact Hrun|by apply foremost_entry|done..].
Qed.

Lemma Hash_last_refines :
  ∃ r s', run_hop HLast s = Done (r, s') ∧ foremost ge (emap (concat rows)) r
    ∧ hrep s' rows out ∧ budget (hm s) ≤ budget (hm s') + 1.
Proof.
  destruct (decide (concat rows = [])) as [E|E].
  - destruct (tuple_run Hash_last None) as (s' & Hrun & R' & Hb'); [|done|].
    { unfold Hash_last. erewrite bind_Done by done. rewrite (hlength_pos _ _ _ R). by rewrite bool_decide_true. }
    exists (HPair None), s'. split_and!; [exact Hrun|by apply emap_empty|done..].
  - destruct (last_found s rows out R HASH_SIZE) as (e & He & Hf & Hmax);
      [lia| |done|].
    { intros j row Hj Hl%lookup_lt_Some. rewrite (hrep_rows _ _ _ R) in Hl. lia. }
    destruct (tuple_run Hash_last (Some e)) as (s' & Hrun & R' & Hb').
    { unfold Hash_last. erewrite bind_Done by done. rewrite (hlength_pos _ _ _ R). by rewrite bool_decide_false. }
    { by intros ? [= <-]. }
    eexists _, s'. split_and!; [exact Hrun|by apply foremost_entry|done..].
Qed.
End Refinement.

Lemma op_refines_hash o s m out : hrefines s m out → good_op o → 3 ≤ budget (hm s) →
  (Z.of_nat (size m) < INT_MAX)%Z →
  ∃ r m' s', run_hop o s = Done (r, s') ∧ hspec o m r m' ∧ hrefines s' m' out
    ∧ budget (hm s) ≤ budget (hm s') + 3 ∧ size m' ≤ S (size m).
Proof.
  intros (rows & R & ->) Hg Hb Hi.
  assert (Hsz : size (emap (concat rows)) = length (concat rows)).
  { pose proof (Hash_length_run _ _ _ R) as E. rewrite (hrep_length _ _ _ R) in E. lia. }
  destruct (budget (hm s)) as [|[|[|b]]] eqn:Eb; [lia..|].
  (* the operations that leave the map as it is *)
  assert (Hsame : ∀ r s', run_hop o s = Done (r, s') → hspec o (emap (concat rows)) r (emap (concat rows)) →
    hrep s' rows out → S (S (S b)) ≤ budget (hm s') + 3 →
    ∃ r m' s', run_hop o s = Done (r, s') ∧ hspec o (emap (concat rows)) r m' ∧ hrefines s' m' out
      ∧ S (S (S b)) ≤ budget (hm s') + 3 ∧ size m' ≤ S (size (emap (concat rows)))).
  { intros r s' Hrun Hs R' Hb'. exists r, (emap (concat rows)), s'. split_and!; [done|done|by exists rows|lia|lia]. }
  destruct o as [k v|k|k|k| | | |]; cbn [good_op] in Hg.
  - destruct Hg as [Hs Hn]. rewrite Hsz in Hi.
    destruct (Hash_set_run _ _ _ R k Hs v b Hn Eb Hi) as (s' & rows' & Hrun & R' & Hm & Hl & Hb').
    exists (HBool true), (emap (concat rows')), s'. split_and!; [cbn [run_hop]; by run Hrun|done|by exists rows'|lia|].
    pose proof (Hash_length_run _ _ _ R') as E. rewrite (hrep_length _ _ _ R') in E. lia.
  - destruct (Hash_get_refines _ _ _ R _ Eb k (proj1 Hg)) as (s' & Hrun & R' & Hb'). apply (Hsame _ _ Hrun); [done|done|lia].
  - destruct (Hash_getValue_run _ _ _ R k (proj1 Hg)) as (p & Hrun & Hp).
    apply (Hsame (HValue (emap (concat rows) !! k)) s); [|done|done|lia]. cbn [run_hop]. run Hrun.
    destruct (emap (concat rows) !! k) as [v|]; [|by subst p].
    destruct Hp as (l & -> & Hl). by run (load_hbytes_Done _ _ _ Hl).
  - destruct Hg as [Hs Hn].
    destruct (Hash_delete_run _ _ _ R k Hs) as (s' & rows' & Hrun & R' & Hm & Hl & Hb').
    eexists _, (emap (concat rows')), s'. split; [cbn [run_hop]; by run Hrun|].
    split_and!; [done|by exists rows'|lia|].
    pose proof (Hash_length_run _ _ _ R') as E. rewrite (hrep_length _ _ _ R') in E. lia.
  - destruct (Hash_first_refines _ _ _ R _ Eb) as (r & s' & Hrun & Hf & R' & Hb'). apply (Hsame _ _ Hrun); [done|done|lia].
  - destruct (Hash_last_refines _ _ _ R _ Eb) as (r & s' & Hrun & Hf & R' & Hb'). apply (Hsame _ _ Hrun); [done|done|lia].
  - apply (Hsame (HInt (Z.of_nat (size (emap (concat rows))))) s); [|done|done|lia].
    cbn [run_hop]. unfold Hash_length, get_length, bind. by rewrite (Hash_length_run _ _ _ R).
  - apply (Hsame (HBool (bool_decide (emap (concat rows) = ∅))) s); [|done|done|lia].
    cbn [run_hop]. unfold Hash_empty. erewrite bind_Done by done.
    unfold bind, ret. do 3 f_equal. rewrite (bool_decide_ext _ _ (emap_empty _ _ _ R)), (hrep_length _ _ _ R).
    destruct (concat rows); [done|]. by rewrite bool_decide_false.
Qed.

(** C3. Refinement: any program over the functions of hash.h, from a table
    that represents a finite map [m], with C-string keys whose characters have
    a sum that fits an [int] and memory for three blocks per call, returns
    what the program returns on the finite map, whatever the collisions of the
    hash function; [Hash_first] and [Hash_last] return an item of the first
    and of the last row that is used.  The destruction of the table, which
    purges it, ends afterwards and leaves nothing of it in memory: every block
    of nodes, keys, values and tuples was released exactly once. *)
Theorem Hash_program_refines (os : list hash_op) (s : hst) (m : gmap bytes bytes) (out : gset loc)
    (Hr : hrefines s m out) (Hg : Forall good_op os)
    (Hb : 3 * length os ≤ budget (hm s)) (Hi : (Z.of_nat (size m + length os) < INT_MAX)%Z) :
  ∃ rs m' s' s'', run_hops os s = Done (rs, s') ∧ hspec_run os m rs m' ∧ hrefines s' m' out
    ∧ Hash_free s' = Done (None, s'') ∧ dom (hcl s'') = out.
Proof.
  revert s m Hr Hb Hi. induction Hg as [|o os Ho Hg IH]; intros s m Hr Hb Hi.
  - destruct Hr as (rows & R & ->). destruct (Hash_free_no_leak s rows out R) as (s'' & Hf & Hd & _).
    exists [], (emap (concat rows)), s, s''. split_and!; [done|constructor|by exists rows|done|done].
  - cbn in Hb, Hi. cbn [run_hops].
    destruct (op_refines_hash o s m out Hr Ho) as (r & m1 & s1 & Hrun & Hs & Hr1 & Hb1 & Hs1); [lia..|].
    destruct (IH s1 m1 Hr1) as (rs & m2 & s2 & s3 & Hrun2 & Hs2 & H); [lia..|].
    exists (r :: rs), m2, s2, s3. split; [run Hrun; by run Hrun2|]. split; [by econstructor|done].
Qed.

Definition fresh_hash (b : nat) : hst := Hst (Mem ∅ 1 b) empty_table 0.
Definition no_rows : list (list hentry) := replicate HASH_SIZE [].

Lemma concat_no_rows : concat no_rows = [].
Proof. reflexivity. Qed.

Lemma fresh_hash_rep b : hrep (fresh_hash b) no_rows ∅.
Proof.
  split; rewrite ?concat_no_rows; try done.
  - intros i row e Hi He. apply list_elem_of_lookup_2, elem_of_replicate in Hi as [-> _].
    by apply elem_of_nil in He.
  - split; try done; [by apply NoDup_nil|]. intros l. cbn. rewrite lookup_empty.
    split; [by intros []|]. intros [H|H]; [by apply elem_of_nil in H|set_solver].
  - by apply NoDup_nil.
Qed.

(** Two keys of the same row, and one whose characters are negative. *)
Definition odd_key : bytes := [Ascii.ascii_of_nat 200; Ascii.ascii_of_nat 255].
Definition demo_hops : list hash_op :=
  [HFirst; HSet (lit "ab") (lit "1"); HSet (lit "ba") (lit "2"); HSet odd_key (lit "3");
   HSet (lit "ab") (lit "4"); HGetValue (lit "ab"); HGet (lit "ba"); HFirst; HLast; HDelete (lit "ab");
   HGetValue (lit "ab"); HGetValue odd_key; HLength; HDelete (lit "zz"); HEmpty].

Lemma demo_keys_good : Forall good_op demo_hops.
Proof.
  repeat constructor; try done; try (unfold short_key, INT_MAX; cbn; lia);
    try (apply (bool_decide_eq_true_1 (NUL ∉ _)); by vm_compute).
Qed.

Definition returned (r : outcome (list hash_res * hst)) : list hash_res :=
  match r with Done (rs, _) => rs | Stuck _ => [] end.

Lemma Hash_program_refines_witness :
  ∃ rs m' s' s'', run_hops demo_hops (fresh_hash 60) = Done (rs, s') ∧ hspec_run demo_hops ∅ rs m'
    ∧ Hash_free s' = Done (None, s'') ∧ dom (hcl s'') = ∅
    ∧ rs = [HPair None; HBool true; HBool true; HBool true; HBool true; HValue (Some (lit "4"));
            HPair (Some (lit "ba", lit "2")); HPair (Some (lit "ab", lit "4")); HPair (Some (odd_key, lit "3"));
            HBool true; HValue None; HValue (Some (lit "3")); HInt 2; HBool false; HBool false].
Proof.
  destruct (Hash_program_refines demo_hops (fresh_hash 60) ∅ ∅) as (rs & m' & s' & s'' & H1 & H2 & _ & H3 & H4).
  - exists no_rows. split; [apply fresh_hash_rep|reflexivity].
  - exact demo_keys_good.
  - cbn. lia.
  - rewrite map_size_empty. unfold INT_MAX. cbn. lia.
  - exists rs, m', s', s''. split_and!; [exact H1|exact H2|exact H3|exact H4|].
    transitivity (returned (run_hops demo_hops (fresh_hash 60))); [by rewrite H1|vm_compute; reflexivity].
Defined.

(** The length that [Hash_purge] leaves is that of the table it emptied. *)
Lemma Hash_purge_keeps_length :
  match (Hash_set (lit "nick") (lit "v") 1;;; Hash_purge;;; n <- Hash_length;; e <- Hash_empty;;
         p <- Hash_getValue (lit "nick");; ret (n, e, p)) (fresh_hash 3) with
  | Done (r, _) => r = (1%Z, false, None)
  | Stuck _ => False
  end.
Proof. vm_compute. reflexivity. Qed.

Lemma Hash_free_no_leak_witness :
  ∃ s', Hash_free (fresh_hash 3) = Done (None, s') ∧ dom (hcl s') = ∅ ∧ hlength s' = 0%Z.
Proof. exact (Hash_free_no_leak (fresh_hash 3) no_rows ∅ (fresh_hash_rep 3)). Defined.

(** Out of memory: when one of the three allocations of a new node
    fails, [Hash_set] returns [false], the table is unchanged (an old value
    of the key survives) and nothing is leaked. *)
Theorem Hash_set_out_of_memory (s : hst) (rows : list (list hentry)) (out : gset loc)
    (k v : bytes) (R : hrep s rows out) (Hk : short_key k) (Hb : budget (hm s) < 3) :
  ∃ s', Hash_set k v (length v) s = Done (false, s') ∧ hrep s' rows out.
Proof.
  destruct (HashNode_new_fails s (concat rows) out k v (hrep_pool _ _ _ R) Hb)
    as (s1 & Hnew & P & Hh & Hl).
  exists s1. split.
  - destruct (Hash_find_run _ _ _ R k Hk) as (i & row & H1 & H2 & Hrow & _ & Hx & _).
    unfold Hash_set. run H1. run H2.
    destruct (row_cases k row) as [Hka|(A & e & B & Er & Ek & HkA)].
    + rewrite <- (app_nil_r (node_of <$> row)).
      rewrite (set_loop_pass k i _ _ _ _ _ _ Hka (load_keys _ _ _ R i row Hrow row (λ e He, He))).
      cbn [set_loop app]. by run Hnew.
    + rewrite Er, fmap_app.
      rewrite set_loop_pass; [|done|apply (load_keys _ _ _ R i row Hrow); rewrite Er; set_solver].
      cbn [set_loop app fmap list_fmap]. change (key (data (node_of e))) with (Some (hk e)).
      assert (He : e ∈ concat rows) by (apply (row_entry _ _ _ _ Hrow); rewrite Er; set_solver).
      run (load_key _ _ _ R e He). rewrite decide_True by done. by run Hnew.
  - destruct R. split; rewrite ?Hh, ?Hl; done.
Qed.

Lemma Hash_set_out_of_memory_witness :
  ∃ s', Hash_set (lit "nick") (lit "v") 1 (fresh_hash 2) = Done (false, s') ∧ hrep s' no_rows ∅.
Proof.
  apply (Hash_set_out_of_memory (fresh_hash 2) no_rows ∅ (lit "nick") (lit "v") (fresh_hash_rep 2)).
  - unfold short_key, INT_MAX. cbn. lia.
  - cbn. lia.
Defined.
