(* ===== verification/TrimLib.v ===== *)
(** * Trimming strings in place (src/lib/trim, src/lib/wtrim) *)

From S2P Require Import Prelude.
From S2P Require Import CStr.

Section Trim.
Context {A : Type} `{EqDecision A} (nul : A).
Implicit Types (buf s seps : list A).

(** [ltrim] and [wltrim]: what follows the leading separators is moved to
    the front, its terminator included. *)
Definition ltrim (buf seps : list A) : outcome (list A) :=
  let! totrim := strspn nul buf seps in
  if decide (0 < totrim) then
    let! len := strlen nul buf in
    if decide (totrim = len) then Done (<[0 := nul]> buf)
    else memcpy buf (drop totrim buf) (len + 1 - totrim)
  else Done buf.

(** The loop of [rtrim]; [n] is [i + 1]. *)
Fixpoint rtrim_from (n : nat) (buf seps : list A) : list A :=
  match n with
  | O => buf
  | S i =>
    match buf !! i with
    | Some c => if decide (c ∈ seps) then rtrim_from i (<[i := nul]> buf) seps else buf
    | None => buf
    end
  end.

(** [rtrim] and [wrtrim]: trailing separators are overwritten. *)
Definition rtrim (buf seps : list A) : outcome (list A) :=
  let! len := strlen nul buf in Done (rtrim_from len buf seps).

Definition trim (buf seps : list A) : outcome (list A) :=
  let! buf := rtrim buf seps in ltrim buf seps.

(** ** Specification *)

Fixpoint lstrip (seps s : list A) : list A :=
  match s with
  | [] => []
  | c :: s' => if decide (c ∈ seps) then lstrip seps s' else s
  end.
Definition strip (seps s : list A) : list A := lstrip seps (reverse (lstrip seps (reverse s))).

Lemma lstrip_split seps s : ∃ a, s = a ++ lstrip seps s ∧ Forall (λ c, c ∈ seps) a.
Proof.
  induction s as [|c s IH]; [by exists []|]. cbn.
  destruct (decide (c ∈ seps)) as [Hc|Hc].
  - destruct IH as (a & E & Ha). exists (c :: a). cbn. rewrite <- E. split; [done|by constructor].
  - by exists [].
Qed.

Lemma lstrip_head seps s c : head (lstrip seps s) = Some c → c ∉ seps.
Proof.
  induction s as [|d s IH]; [done|]. cbn. destruct (decide (d ∈ seps)); [apply IH|]. by intros [= ->].
Qed.

Lemma lstrip_all a seps s : Forall (λ c, c ∈ seps) a → lstrip seps (a ++ s) = lstrip seps s.
Proof. induction 1 as [|c a Hc Ha IH]; [done|]. cbn. by rewrite decide_True. Qed.

Lemma lstrip_fix seps s : (∀ c, head s = Some c → c ∉ seps) → lstrip seps s = s.
Proof. destruct s as [|c s]; [done|]. intros H. cbn. by rewrite decide_False by (by apply H). Qed.

(** The trailing part of a string. *)
Definition rstrip (seps s : list A) : list A := reverse (lstrip seps (reverse s)).

Lemma strip_padding seps s b : Forall (λ c, c ∈ seps) b → strip seps (s ++ b) = strip seps s.
Proof. intros Hb. unfold strip. rewrite reverse_app, lstrip_all; [done|]. by apply Forall_reverse. Qed.

Lemma rstrip_split seps s : ∃ b, s = rstrip seps s ++ b ∧ Forall (λ c, c ∈ seps) b.
Proof.
  unfold rstrip. destruct (lstrip_split seps (reverse s)) as (a & E & Ha).
  exists (reverse a). split; [|by apply Forall_reverse].
  rewrite <- reverse_app, <- E. by rewrite reverse_involutive.
Qed.

Lemma rstrip_snoc seps s c :
  rstrip seps (s ++ [c]) = if decide (c ∈ seps) then rstrip seps s else s ++ [c].
Proof.
  unfold rstrip. rewrite reverse_snoc. cbn [lstrip]. destruct (decide (c ∈ seps)); [done|].
  by rewrite reverse_cons, reverse_involutive.
Qed.

(** ** The buffers afterwards *)

Lemma rtrim_from_run seps s rest : nul ∉ seps →
  ∃ rest', rtrim_from (length s) (s ++ nul :: rest) seps = rstrip seps s ++ nul :: rest'
    ∧ length (rstrip seps s ++ nul :: rest') = length (s ++ nul :: rest).
Proof.
  intros Hn. revert rest. induction s as [|c s IH] using rev_ind; intros rest; [by exists rest|].
  rewrite rstrip_snoc, length_app, Nat.add_comm. cbn [length Nat.add rtrim_from].
  rewrite <- app_assoc. cbn [app]. rewrite list_lookup_middle by done.
  destruct (decide (c ∈ seps)).
  - assert (<[length s := nul]> (s ++ c :: nul :: rest) = s ++ nul :: nul :: rest) as ->.
    { rewrite insert_app_r_alt by lia. by rewrite Nat.sub_diag. }
    destruct (IH (nul :: rest)) as (rest' & -> & Hl).
    exists rest'. split; [done|]. rewrite Hl. rewrite !length_app. cbn. lia.
  - exists rest. by rewrite <- app_assoc.
Qed.

Lemma strspn_run seps a s rest : Forall (λ c, c ∈ seps ∧ c ≠ nul) a →
  (∀ c, head s = Some c → c ∉ seps) →
  strspn nul (a ++ s ++ nul :: rest) seps = Done (length a).
Proof.
  intros Ha Hs. induction Ha as [|c a [Hc1 Hc2] Ha IH]; cbn.
  - destruct s as [|c s]; cbn; rewrite decide_False; try done; [by intros [? _]|].
    intros [_ Hc]. by apply (Hs c).
  - rewrite decide_True by done. by rewrite IH.
Qed.

Lemma ltrim_run seps s rest : nul ∉ seps → nul ∉ s →
  ∃ rest', ltrim (s ++ nul :: rest) seps = Done (lstrip seps s ++ nul :: rest')
    ∧ length (lstrip seps s ++ nul :: rest') = length (s ++ nul :: rest).
Proof.
  intros Hn Hs. destruct (lstrip_split seps s) as (a & E & Ha). unfold ltrim.
  assert (Ha' : Forall (λ c, c ∈ seps ∧ c ≠ nul) a).
  { eapply Forall_impl; [exact Ha|]. intros c Hc. split; [done|]. by intros ->. }
  assert (Hspn : strspn nul (s ++ nul :: rest) seps = Done (length a)).
  { rewrite E at 1. rewrite <- app_assoc. apply strspn_run; [done|]. apply lstrip_head. }
  rewrite Hspn. cbn [outcome_bind]. destruct (decide (0 < length a)) as [Hpos|Hpos].
  - rewrite strlen_app by done. cbn [outcome_bind]. set (t := lstrip seps s) in *.
    destruct (decide (length a = length s)) as [El|El].
    + assert (t = []) as ->.
      { destruct t; [done|]. apply (f_equal length) in E. rewrite length_app in E. cbn in E. lia. }
      destruct s as [|c s]; [cbn in *; lia|]. exists (s ++ nul :: rest). done.
    + assert (Hlen : length s = length a + length t) by (rewrite E at 1; by rewrite length_app).
      assert (Hdrop : drop (length a) (s ++ nul :: rest) = t ++ nul :: rest).
      { rewrite E, <- app_assoc. by rewrite drop_app_length. }
      unfold memcpy. rewrite Hdrop. rewrite decide_True by (rewrite !length_app; cbn; lia).
      replace (length s + 1 - length a) with (length (t ++ [nul])) by (rewrite length_app; cbn; lia).
      exists (drop (length (t ++ [nul])) (s ++ nul :: rest)). split.
      * f_equal. replace (t ++ nul :: rest) with ((t ++ [nul]) ++ rest) by (by rewrite <- app_assoc).
        rewrite take_app_length. by rewrite <- app_assoc.
      * rewrite !length_app. cbn [length]. rewrite length_drop, !length_app. cbn. lia.
  - exists rest. destruct a as [|c a]; [|cbn in Hpos; lia]. cbn in E. by rewrite <- E.
Qed.

Lemma rstrip_nul seps s : nul ∉ s → nul ∉ rstrip seps s.
Proof. intros Hs Hin. apply Hs. destruct (rstrip_split seps s) as (b & -> & _). apply elem_of_app. by left. Qed.
End Trim.

(** The separators used when [seps] is [NULL]: "\t\n\v\f\r ". *)
Definition default_seps : bytes := Ascii.ascii_of_nat <$> [9; 10; 11; 12; 13; 32].
Definition wide_seps : list Z := [9; 10; 11; 12; 13; 32]%Z.

(** The two libraries: narrow and wide characters. *)
Definition trim_string (buf : bytes) : outcome bytes := trim NUL buf default_seps.
Definition wtrim_string (buf : list Z) : outcome (list Z) := trim 0%Z buf wide_seps.

Section Properties.
Context {A : Type} `{EqDecision A} (nul : A).
Implicit Types (s seps : list A).

Lemma rstrip_last seps s c : last (rstrip seps s) = Some c → c ∉ seps.
Proof.
  unfold rstrip. rewrite last_reverse. apply lstrip_head.
Qed.

Lemma lstrip_last seps s c : last (lstrip seps s) = Some c → last s = Some c.
Proof.
  destruct (lstrip_split seps s) as (a & E & _). intros H.
  destruct (lstrip seps s) as [|d t]; [done|]. rewrite E, last_app, H. done.
Qed.

Lemma strip_ends seps s c :
  head (strip seps s) = Some c ∨ last (strip seps s) = Some c → c ∉ seps.
Proof.
  unfold strip. fold (rstrip seps s). intros [H|H]; [by eapply lstrip_head|].
  apply lstrip_last in H. by eapply rstrip_last.
Qed.

Lemma strip_fix seps s :
  (∀ c, head s = Some c → c ∉ seps) → (∀ c, last s = Some c → c ∉ seps) → strip seps s = s.
Proof.
  intros Hh Hl. unfold strip. fold (rstrip seps s).
  assert (rstrip seps s = s) as ->; [|by apply lstrip_fix].
  unfold rstrip. rewrite lstrip_fix, reverse_involutive; [done|]. rewrite head_reverse. apply Hl.
Qed.

Lemma trim_run seps s rest : nul ∉ seps → nul ∉ s →
  ∃ rest', trim nul (s ++ nul :: rest) seps = Done (strip seps s ++ nul :: rest')
    ∧ length (strip seps s ++ nul :: rest') = length (s ++ nul :: rest).
Proof.
  intros Hn Hs. unfold trim, rtrim. rewrite strlen_app by done. cbn [outcome_bind].
  destruct (rtrim_from_run nul seps s rest Hn) as (r1 & -> & Hl1).
  destruct (ltrim_run nul seps (rstrip seps s) r1 Hn (rstrip_nul _ _ _ Hs)) as (r2 & Hr & Hl2).
  exists r2. split; [exact Hr|]. etrans; [exact Hl2|exact Hl1].
Qed.
End Properties.

(** [trim] and [wtrim] on any buffer that holds a string: they never
    leave the buffer, keep its size, and leave in it the string without its
    leading and trailing separators, which is the string itself cut at both
    ends, starts and ends with a non-separator, and is not changed by a
    second call. *)
Theorem trim_correct {A : Type} `{EqDecision A} (nul : A) (seps s rest : list A)
    (Hn : nul ∉ seps) (Hs : nul ∉ s) :
  (∃ rest', trim nul (s ++ nul :: rest) seps = Done (strip seps s ++ nul :: rest')
     ∧ length (strip seps s ++ nul :: rest') = length (s ++ nul :: rest))
  ∧ (∃ a b, s = a ++ strip seps s ++ b
     ∧ Forall (λ c, c ∈ seps) a ∧ Forall (λ c, c ∈ seps) b)
  ∧ (∀ c, head (strip seps s) = Some c ∨ last (strip seps s) = Some c → c ∉ seps)
  ∧ strip seps (strip seps s) = strip seps s.
Proof.
  split_and!.
  - by apply trim_run.
  - destruct (rstrip_split seps s) as (b & E & Hb).
    destruct (lstrip_split seps (rstrip seps s)) as (a & E' & Ha).
    exists a, b. split_and!; [|done..]. rewrite E at 1. rewrite E' at 1. by rewrite <- app_assoc.
  - intros c. apply strip_ends.
  - apply strip_fix; intros c H; apply (strip_ends _ s); tauto.
Qed.

Lemma trim_correct_witness :
  strip default_seps (lit "  hello world ") = lit "hello world"
  ∧ ∃ rest', trim_string (lit "  hello world " ++ [NUL]) = Done (lit "hello world" ++ NUL :: rest').
Proof.
  split; [vm_compute; reflexivity|].
  destruct (trim_correct NUL default_seps (lit "  hello world ") []) as [(rest' & H & _) _];
    [apply (bool_decide_eq_true_1 _); vm_compute; reflexivity..|].
  exists rest'. exact H.
Defined.
