(* ===== verification/MessageLib.v ===== *)
(** * Messages (src/lib/message)

    Parsing and formatting of the chat protocol, on the fixed-size arrays of
    the C structures.  Every access outside an array is a fault of the model;
    the state of a command is the number of allocations that will still
    succeed. *)

From S2P Require Import Prelude.
From S2P Require Import CStr.
From S2P Require Import TrimLib.

(** ** Sizes (c2hat.h, message.h) *)

Definition kMaxNicknameSize : nat := 60.
Definition kBufferSize : nat := 1536.
Definition kBroadcastBufferSize : nat := 9 + 60 + 1536.
Definition kMessageBufferSize : nat := 2048.

(** ** Data *)

Inductive C2HMessageType : Type :=
  | kMessageTypeNull
  | kMessageTypeNick
  | kMessageTypeAuth
  | kMessageTypeHelp
  | kMessageTypeMsg
  | kMessageTypeList
  | kMessageTypeQuit
  | kMessageTypeOk
  | kMessageTypeErr
  | kMessageTypeLog
  | kMessageTypeAdmin.

#[export] Instance type_eq_dec : EqDecision C2HMessageType.
Proof. solve_decision. Defined.

(** Bytes received and not yet parsed; [start] is an offset into [data]. *)
Record MessageBuffer : Type := MkBuffer { bdata : bytes; bstart : option nat }.

Record C2HMessage : Type := MkMessage {
  mtype : C2HMessageType;
  content : bytes;
  user : bytes
}.

Definition kMessageTypePrefixMsg : bytes := lit "/msg".
Definition kMessageTypePrefixNick : bytes := lit "/nick".
Definition kMessageTypePrefixQuit : bytes := lit "/quit".
Definition kMessageTypePrefixLog : bytes := lit "/log".
Definition kMessageTypePrefixErr : bytes := lit "/err".
Definition kMessageTypePrefixOk : bytes := lit "/ok".

(** ** printf

    The conversions the sources use are [%s], [%d] and [%%]; any other one,
    a conversion without an argument left, or one of the wrong type, is
    undefined behaviour. *)

Inductive arg : Type := AStr (s : bytes) | AInt (n : Z).

Definition digit (n : nat) : ascii := Ascii.ascii_of_nat (48 + n).
Fixpoint digits (fuel : nat) (n : nat) : bytes :=
  match fuel with
  | O => []
  | S fuel => if decide (n < 10) then [digit n] else digits fuel (n / 10) ++ [digit (n mod 10)]
  end.
Definition decimal (z : Z) : bytes :=
  if (z <? 0)%Z then lit "-" ++ digits 20 (Z.to_nat (- z)) else digits 20 (Z.to_nat z).

Definition percent : ascii := "%"%char.

Fixpoint printf (format : bytes) (args : list arg) : outcome bytes :=
  match format with
  | [] => Done []
  | c :: format =>
    if decide (c = percent) then
      match format with
      | [] => Stuck BadFormat
      | d :: format =>
        if decide (d = percent) then let! r := printf format args in Done (percent :: r)
        else match args with
             | AStr s :: args =>
               if decide (d = "s"%char) then let! r := printf format args in Done (s ++ r)
               else Stuck BadFormat
             | AInt n :: args =>
               if decide (d = "d"%char) then let! r := printf format args in Done (decimal n ++ r)
               else Stuck BadFormat
             | [] => Stuck BadFormat
             end
      end
    else let! r := printf format args in Done (c :: r)
  end.

(** What [snprintf(dest, size, ...)] writes of the text. *)
Definition sn_write (dest : bytes) (size : nat) (t : bytes) : outcome bytes :=
  match size with
  | O => Done dest
  | S room =>
    let w := take room t in
    if decide (length w < length dest) then Done (w ++ NUL :: drop (length w + 1) dest)
    else Stuck OutOfBounds
  end.

Definition vsnprintf (dest : bytes) (size : nat) (format : bytes) (args : list arg) : outcome bytes :=
  let! t := printf format args in sn_write dest size t.

(** ** Formatting *)

Definition command_prefix (type : C2HMessageType) : option bytes :=
  match type with
  | kMessageTypeNick => Some kMessageTypePrefixNick
  | kMessageTypeMsg => Some kMessageTypePrefixMsg
  | kMessageTypeLog => Some kMessageTypePrefixLog
  | kMessageTypeOk => Some kMessageTypePrefixOk
  | kMessageTypeErr => Some kMessageTypePrefixErr
  | kMessageTypeQuit => Some kMessageTypePrefixQuit
  | _ => None
  end.

Definition Message_format (type : C2HMessageType) (dest : bytes) (size : nat)
    (format : bytes) (args : list arg) : outcome bytes :=
  match command_prefix type with
  | None => Done dest
  | Some commandPrefix =>
    let! buffer := vsnprintf (replicate size NUL) size format args in
    let! t := cstr buffer in
    if decide (0 < length t)
    then vsnprintf dest size (lit "%s %s") [AStr commandPrefix; AStr t]
    else vsnprintf dest size (lit "%s") [AStr commandPrefix]
  end.

(** [C2HMessage_format]: the destination and the number of bytes written. *)
Definition C2HMessage_format (message : C2HMessage) (dest : bytes) (size : nat) : outcome (nat * bytes) :=
  let! u := cstr (user message) in
  let! c := cstr (content message) in
  let! dest :=
    (if decide (0 < length u)
     then Message_format (mtype message) dest size (lit "[%s] %s") [AStr u; AStr c]
     else Message_format (mtype message) dest size (lit "%s") [AStr c]) in
  let! n := strlen NUL dest in
  Done (n + 1, dest).

(** ** Parsing *)

(** [Message_getUser]: the text between the first '[' and the ']' after it.
    The size test lets a name of exactly [length] bytes through, for which
    the terminator goes one past the array. *)
Definition Message_getUser (message : bytes) (type : C2HMessageType) (user : bytes) (length : nat)
    : outcome (bool * bytes) :=
  if decide (type = kMessageTypeMsg ∨ type = kMessageTypeLog) then
    let! start := strchr NUL message "["%char in
    match start with
    | None => Done (false, user)
    | Some start =>
      let! fin := strchr NUL (drop (S start) message) "]"%char in
      match fin with
      | None => Done (false, user)
      | Some userLength =>
        if decide (0 < userLength ∧ userLength ≤ length) then
          let! user := memcpy user (drop (S start) message) userLength in
          if decide (userLength < List.length user)
          then Done (true, <[userLength := NUL]> user) else Stuck OutOfBounds
        else Done (false, user)
      end
    end
  else Done (false, user).

(** The loop of [Message_get] that looks for the terminator, from [pos] on;
    [fin] is [end]. *)
Fixpoint find_end (bs : bytes) (pos fin : nat) : outcome (option nat) :=
  match bs with
  | [] => Stuck OutOfBounds
  | c :: bs =>
    if decide (pos = fin ∧ c ≠ NUL) then Done None
    else if decide (c = NUL) then Done (Some pos)
    else find_end bs (S pos) fin
  end.

(** [memchr(p, '/', n)]: the offset of the first slash among [n] bytes. *)
Fixpoint memchr (bs : bytes) (c : ascii) (n : nat) : outcome (option nat) :=
  match n with
  | O => Done None
  | S n =>
    match bs with
    | [] => Stuck OutOfBounds
    | d :: bs => if decide (d = c) then Done (Some 0) else let! r := memchr bs c n in Done (S <$> r)
    end
  end.

(** An allocation; the state counts those that will still succeed. *)
Definition alloc : cmd nat bool := λ room,
  match room with O => Done (false, O) | S room => Done (true, room) end.

Definition Message_get (buffer : MessageBuffer) : cmd nat (option bytes * MessageBuffer) :=
  let data := bdata buffer in
  let start := default 0 (bstart buffer) in
  let size := length data - start in
  found <- lift (memchr (drop start data) "/"%char size);;
  match found with
  | None => ret (None, MkBuffer (replicate (length data) NUL) None)
  | Some k =>
    let start := start + k in
    let fin := start + size - 1 in
    e <- lift (find_end (drop start data) start fin);;
    match e with
    | None => ret (None, MkBuffer data (Some start))
    | Some e =>
      let len := e - start + 1 in
      if decide (len ≤ 1) then ret (None, MkBuffer data (Some start)) else
      ok <- alloc;;
      if negb ok then ret (None, MkBuffer data (Some start)) else
      let message := take len (drop start data) in
      let start' := if decide (len < size) then Some (start + len) else Some start in
      if decide (len = size)
      then ret (Some message, MkBuffer (replicate (length data) NUL) None)
      else ret (Some message, MkBuffer data start')
    end
  end.

Definition blank_message (type : C2HMessageType) : C2HMessage :=
  MkMessage type (replicate kBufferSize NUL) (replicate kMaxNicknameSize NUL).

(** [C2HMessage_create]: the text is formatted, the user name extracted, and
    the rest copied from [userLength + 3] on. *)
Definition C2HMessage_create (type : C2HMessageType) (format : bytes) (args : list arg)
    : cmd nat (option C2HMessage) :=
  ok <- alloc;;
  if negb ok then ret None else
  let message := blank_message type in
  buffer <- lift (vsnprintf (replicate kBufferSize NUL) kBufferSize format args);;
  let fin := kBufferSize - 1 in
  u <- (if decide (type = kMessageTypeMsg ∨ type = kMessageTypeLog)
        then r <- lift (Message_getUser buffer type (user message) kMaxNicknameSize);; ret (snd r)
        else ret (user message));;
  userLength <- lift (strlen NUL u);;
  let start := if decide (0 < userLength) then userLength + 3 else 0 in
  content <- (if decide (start ≤ fin)
              then lift (memcpy (content message) (drop start buffer) (fin - start))
              else stuck OutOfBounds);;
  ret (Some (MkMessage type content u)).

(** The prefix test [RMATCH] on the string [s], with the length measured at
    the start. *)
Definition rmatch (length : nat) (s prefix : bytes) : bool :=
  bool_decide (List.length prefix ≤ length) && bool_decide (take (List.length prefix) s = prefix).

(** [Message_getType] on the string at the cursor: the type and what the
    cursor has advanced to.  A prefix that needs content and has none still
    moves the cursor. *)
Definition Message_getType (s : bytes) : C2HMessageType * bytes :=
  let length := List.length s in
  let skip prefix (s : bytes) := drop (List.length prefix) s in
  let step prefix type (k : bytes → C2HMessageType * bytes) (s : bytes) :=
    if rmatch length s prefix then
      let s := skip prefix s in if decide (0 < List.length s) then (type, s) else k s
    else k s in
  let step_opt prefix type (k : bytes → C2HMessageType * bytes) (s : bytes) :=
    if rmatch length s prefix then (type, skip prefix s) else k s in
  step_opt kMessageTypePrefixOk kMessageTypeOk
    (step kMessageTypePrefixMsg kMessageTypeMsg
      (step kMessageTypePrefixLog kMessageTypeLog
        (step kMessageTypePrefixErr kMessageTypeErr
          (step_opt kMessageTypePrefixQuit kMessageTypeQuit
            (step kMessageTypePrefixNick kMessageTypeNick (λ s, (kMessageTypeNull, s))))))) s.

Definition C2HMessage_createFromString (s : bytes) (size : nat) : cmd nat (option C2HMessage) :=
  if decide (size = 0) then ret None else
  let '(type, rest) := Message_getType s in
  match type with
  | kMessageTypeNull => C2HMessage_create kMessageTypeMsg (lit "%s") [AStr rest]
  | kMessageTypeMsg | kMessageTypeNick | kMessageTypeQuit =>
    ok <- alloc;;
    if negb ok then stuck NullDereference else
    copy <- lift (trim_string (rest ++ [NUL]));;
    t <- lift (cstr copy);;
    C2HMessage_create type (lit "%s") [AStr t]
  | _ => ret None
  end.

(** [C2HMessage_get]: [end - cursor] is a pointer difference converted to
    [size_t], so a negative one is a copy past every bound. *)
Definition C2HMessage_get (buffer : MessageBuffer) : cmd nat (option C2HMessage * MessageBuffer) :=
  r <- Message_get buffer;;
  let '(data, buffer) := r in
  match data with
  | None => ret (None, buffer)
  | Some messageData =>
    ok <- alloc;;
    if negb ok then stuck NullDereference else
    s <- lift (cstr messageData);;
    let fin := length s in
    let '(type, rest) := Message_getType s in
    let cursor := length s - length rest in
    if decide (type = kMessageTypeNull) then ret (None, buffer) else
    tail <- lift (trim_string (drop cursor messageData));;
    let messageData := take cursor messageData ++ tail in
    t <- lift (cstr tail);;
    if decide ((type = kMessageTypeOk ∨ type = kMessageTypeQuit) ∧ length t = 0)
    then ret (Some (blank_message type), buffer) else
    let message := blank_message type in
    u <- (if decide (type = kMessageTypeMsg ∨ type = kMessageTypeLog)
          then r <- lift (Message_getUser messageData type (user message) kMaxNicknameSize);; ret (snd r)
          else ret (user message));;
    userLength <- lift (strlen NUL u);;
    let cursor := if decide (0 < userLength) then cursor + userLength + 3 else cursor in
    content <- (if decide (cursor ≤ fin)
                then lift (memcpy (content message) (drop cursor messageData) (fin - cursor))
                else stuck OutOfBounds);;
    ret (Some (MkMessage type content u), buffer)
  end.
