(* ===== verification/MessageSpec.v ===== *)
(** * Messages: round trips, bounds and faults (src/lib/message) *)

From S2P Require Import Prelude.
From S2P Require Import CStr.
From S2P Require Import TrimLib.
From S2P Require Import MessageLib.

(** ** Arrays *)

(** The array of [n] bytes that holds the string [s]. *)
Definition array (n : nat) (s : bytes) : bytes := s ++ replicate (n - length s) NUL.

Lemma array_text n s : NUL ∉ s → length s < n → cstr (array n s) = Done s.
Proof.
  intros Hs Hl. unfold array. destruct (n - length s) as [|k] eqn:E; [lia|].
  cbn. by apply cstr_app.
Qed.

Lemma array_length n s : length s ≤ n → length (array n s) = n.
Proof. intros H. unfold array. rewrite length_app, length_replicate. lia. Qed.

(** Copying a string and its terminator into a blank array. *)
Lemma memcpy_array n s rest : length s < n →
  memcpy (replicate n NUL) (s ++ NUL :: rest) (length s + 1) = Done (array n s).
Proof.
  intros Hl. unfold memcpy. rewrite decide_True by (rewrite length_app, length_replicate; cbn; lia).
  replace (length s + 1) with (length (s ++ [NUL])) by (rewrite length_app; cbn; lia).
  replace (s ++ NUL :: rest) with ((s ++ [NUL]) ++ rest) by (by rewrite <- app_assoc).
  rewrite take_app_length, drop_replicate, length_app. cbn. unfold array. rewrite <- app_assoc. cbn.
  do 2 f_equal. replace (n - length s) with (S (n - (length s + 1))) by lia. done.
Qed.

Lemma sn_write_fits dest size t : length t < size → length t < length dest →
  sn_write dest size t = Done (t ++ NUL :: drop (length t + 1) dest).
Proof.
  intros H1 H2. destruct size as [|r]; [lia|]. cbn.
  rewrite take_ge by lia. by rewrite decide_True.
Qed.

(** Whatever the text, [snprintf] stays inside its buffer and terminates it. *)
Lemma sn_write_bounds dest size t : 0 < size → size ≤ length dest → NUL ∉ t →
  ∃ w rest, sn_write dest size t = Done (w ++ NUL :: rest) ∧ w = take (size - 1) t
    ∧ length (w ++ NUL :: rest) = length dest ∧ length w < size ∧ NUL ∉ w.
Proof.
  intros H1 H2 Hn. destruct size as [|r]; [lia|]. cbn. replace (r - 0) with r by lia.
  assert (Hw : length (take r t) ≤ r) by (rewrite length_take; lia).
  rewrite decide_True by lia. eexists _, _. split; [done|]. split_and!; try done; [|lia|].
  - rewrite length_app. cbn. rewrite length_drop. lia.
  - intros Hin. apply Hn. rewrite <- (take_drop r t). apply elem_of_app. by left.
Qed.

(** ** The text of a message on the wire *)

Definition body (u c : bytes) : bytes :=
  if decide (0 < length u) then lit "[" ++ u ++ lit "] " ++ c else c.
Definition wire (p u c : bytes) : bytes :=
  if decide (0 < length (body u c)) then p ++ lit " " ++ body u c else p.

Lemma printf_user u c : printf (lit "[%s] %s") [AStr u; AStr c] = Done (lit "[" ++ u ++ lit "] " ++ c).
Proof. rewrite <- (app_nil_r c) at 2. reflexivity. Qed.

Lemma printf_s c : printf (lit "%s") [AStr c] = Done c.
Proof. rewrite <- (app_nil_r c) at 2. reflexivity. Qed.

Lemma printf_prefix p t : printf (lit "%s %s") [AStr p; AStr t] = Done (p ++ lit " " ++ t).
Proof. rewrite <- (app_nil_r t) at 2. reflexivity. Qed.

Lemma prefix_nul type p : command_prefix type = Some p → NUL ∉ p.
Proof.
  destruct type; cbn; try done; intros [= <-]; apply (bool_decide_eq_true_1 _); by vm_compute.
Qed.

Lemma body_nul u c : NUL ∉ u → NUL ∉ c → NUL ∉ body u c.
Proof.
  intros Hu Hc. unfold body. case_decide; [|done].
  rewrite !not_elem_of_app. split_and!; try done; apply (bool_decide_eq_true_1 _); by vm_compute.
Qed.

Lemma wire_nul p u c : NUL ∉ p → NUL ∉ u → NUL ∉ c → NUL ∉ wire p u c.
Proof.
  intros Hp Hu Hc. unfold wire. case_decide; [|done].
  rewrite !not_elem_of_app. split_and!; [done| |by apply body_nul].
  apply (bool_decide_eq_true_1 _); by vm_compute.
Qed.

(** A message whose arrays hold the strings [u] and [c]. *)
Definition message_of (type : C2HMessageType) (u c : bytes) : C2HMessage :=
  MkMessage type (array kBufferSize c) (array kMaxNicknameSize u).

Section Format.
Context (type : C2HMessageType) (p u c : bytes) (Hp : command_prefix type = Some p).
Context (Hu : NUL ∉ u) (Hc : NUL ∉ c).

Lemma Message_format_body dest size f args :
  printf f args = Done (body u c) → 0 < size → size ≤ length dest →
  ∃ w rest, Message_format type dest size f args = Done (w ++ NUL :: rest)
    ∧ length (w ++ NUL :: rest) = length dest ∧ length w < size ∧ (NUL ∉ w)
    ∧ (length (wire p u c) < size → w = wire p u c).
Proof.
  intros Hf Hs Hd. pose proof (prefix_nul _ _ Hp) as Hpn. pose proof (body_nul u c Hu Hc) as Hbn.
  unfold Message_format. rewrite Hp. unfold vsnprintf at 1. rewrite Hf. cbn [outcome_bind].
  destruct (sn_write_bounds (replicate size NUL) size (body u c)) as (w1 & r1 & -> & Hw1 & _ & Hl1 & Hn1);
    [done|by rewrite length_replicate|done|]. cbn [outcome_bind].
  rewrite cstr_app by done. cbn [outcome_bind]. unfold vsnprintf.
  assert (Hshort : length (wire p u c) < size → w1 = body u c).
  { intros Hw. rewrite Hw1. apply take_ge. revert Hw. unfold wire.
    case_decide; rewrite ?length_app; cbn; lia. }
  destruct (decide (0 < length w1)) as [Hpos|Hpos].
  - rewrite printf_prefix. cbn [outcome_bind].
    destruct (sn_write_bounds dest size (p ++ lit " " ++ w1)) as (w & rest & -> & Hw & Hlen & Hl & Hn);
      [done|done|rewrite !not_elem_of_app; split_and!; try done; apply (bool_decide_eq_true_1 _); by vm_compute|].
    exists w, rest. split_and!; try done. intros Hwire. rewrite (Hshort Hwire) in *.
    rewrite Hw. unfold wire in *. rewrite decide_True in * by done. apply take_ge. lia.
  - rewrite printf_s. cbn [outcome_bind].
    destruct (sn_write_bounds dest size p) as (w & rest & -> & Hw & Hlen & Hl & Hn); [done..|].
    exists w, rest. split_and!; try done. intros Hwire. rewrite (Hshort Hwire) in *.
    rewrite Hw. unfold wire in *. rewrite decide_False in * by done. apply take_ge. lia.
Qed.

Lemma C2HMessage_format_run m dest size : mtype m = type →
  cstr (user m) = Done u → cstr (content m) = Done c → 0 < size → size ≤ length dest →
  ∃ w rest, C2HMessage_format m dest size = Done (length w + 1, w ++ NUL :: rest)
    ∧ length (w ++ NUL :: rest) = length dest ∧ length w < size ∧ (NUL ∉ w)
    ∧ (length (wire p u c) < size → w = wire p u c).
Proof.
  intros Ht Hmu Hmc Hs Hd. unfold C2HMessage_format. rewrite Ht, Hmu, Hmc. cbn [outcome_bind].
  assert (Hbody : ∃ f args, (if decide (0 < length u)
      then Message_format type dest size (lit "[%s] %s") [AStr u; AStr c]
      else Message_format type dest size (lit "%s") [AStr c]) = Message_format type dest size f args
    ∧ printf f args = Done (body u c)).
  { unfold body. case_decide; eexists _, _; (split; [reflexivity|]); [apply printf_user|apply printf_s]. }
  destruct Hbody as (f & args & -> & Hf).
  destruct (Message_format_body dest size f args Hf Hs Hd) as (w & rest & -> & Hl & Hw & Hn & He).
  cbn [outcome_bind]. rewrite strlen_app by done. cbn [outcome_bind]. by exists w, rest.
Qed.
End Format.

(** ** The type of a formatted message *)

Definition needs_content (type : C2HMessageType) : bool :=
  match type with kMessageTypeOk | kMessageTypeQuit => false | _ => true end.

Lemma Message_getType_prefix type p s : command_prefix type = Some p →
  needs_content type = false ∨ s ≠ [] → Message_getType (p ++ s) = (type, s).
Proof.
  intros Hp Hs. destruct type; cbn in Hp; try done; injection Hp as <-; try reflexivity;
    (destruct s as [|a s]; [by destruct Hs|reflexivity]).
Qed.

(** ** The user name *)

Definition plain (s : bytes) : Prop := (NUL ∉ s) ∧ ("["%char ∉ s) ∧ ("]"%char ∉ s).

Definition is_user_type (type : C2HMessageType) : Prop :=
  type = kMessageTypeMsg ∨ type = kMessageTypeLog.

(** A name between the first brackets of the text. *)
Lemma Message_getUser_found pre u post type : plain pre → plain u → is_user_type type →
  0 < length u → length u < kMaxNicknameSize →
  Message_getUser (pre ++ lit "[" ++ u ++ lit "]" ++ post) type (replicate kMaxNicknameSize NUL) kMaxNicknameSize
  = Done (true, array kMaxNicknameSize u).
Proof.
  intros (Hn & Ho & Hc) (Hun & Huo & Huc) Ht Hpos Hlen. unfold Message_getUser.
  rewrite decide_True by done. cbn [lit String.list_ascii_of_string app].
  rewrite strchr_found by done. cbn [outcome_bind].
  assert (Hdrop : drop (S (length pre)) (pre ++ "["%char :: u ++ "]"%char :: post) = u ++ "]"%char :: post).
  { replace (pre ++ "["%char :: u ++ "]"%char :: post) with ((pre ++ ["["%char]) ++ u ++ "]"%char :: post)
      by (by rewrite <- app_assoc).
    replace (S (length pre)) with (length (pre ++ ["["%char])) by (rewrite length_app; cbn; lia).
    apply drop_app_length. }
  rewrite Hdrop. rewrite strchr_found by done. cbn [outcome_bind]. rewrite decide_True by lia.
  unfold memcpy. rewrite decide_True by (rewrite length_app, length_replicate; lia). cbn [outcome_bind].
  rewrite take_app_length, drop_replicate.
  rewrite decide_True by (rewrite length_app, length_replicate; lia).
  do 2 f_equal. rewrite insert_app_r_alt by lia. rewrite Nat.sub_diag. unfold array.
  destruct (kMaxNicknameSize - length u) as [|k] eqn:E; [lia|]. done.
Qed.

Lemma Message_getUser_none s rest type : "["%char ∉ s → NUL ∉ s →
  Message_getUser (s ++ NUL :: rest) type (replicate kMaxNicknameSize NUL) kMaxNicknameSize
  = Done (false, replicate kMaxNicknameSize NUL).
Proof.
  intros Ho Hn. unfold Message_getUser. case_decide; [|done].
  rewrite strchr_none; [done|done| |done]. done.
Qed.

(** ** Trimming what follows the prefix *)

Definition sep (c : ascii) : bool := bool_decide (c ∈ default_seps).

Lemma strip_space t : t ≠ [] →
  (∀ c, head t = Some c → c ∉ default_seps) → (∀ c, last t = Some c → c ∉ default_seps) →
  strip default_seps (lit " " ++ t) = t.
Proof.
  intros Hne Hh Hl. unfold strip. fold (rstrip default_seps (lit " " ++ t)).
  assert (rstrip default_seps (lit " " ++ t) = lit " " ++ t) as ->.
  { unfold rstrip. rewrite lstrip_fix, reverse_involutive; [done|]. rewrite head_reverse, last_app.
    destruct (last t) as [c|] eqn:E; [by apply Hl|]. apply last_None in E. done. }
  rewrite lstrip_all by (repeat constructor; apply (bool_decide_eq_true_1 _); by vm_compute).
  by apply lstrip_fix.
Qed.

Lemma default_seps_nul : NUL ∉ default_seps.
Proof. apply (bool_decide_eq_true_1 _). by vm_compute. Qed.

(** ** Messages the protocol can carry

    The user name is plain and short; the text is trimmed where the parser
    trims; a text without user name has no opening bracket, which the parser
    would take for one; a user name comes with some text. *)
Record good_message (type : C2HMessageType) (p u c : bytes) : Prop := {
  good_prefix : command_prefix type = Some p;
  good_user : plain u;
  good_user_len : length u < kMaxNicknameSize;
  good_nul : NUL ∉ c;
  good_len : length c < kBufferSize;
  good_user_type : u ≠ [] → is_user_type type ∧ c ≠ [];
  good_content : needs_content type = true → c ≠ [];
  good_bracket : u = [] → is_user_type type → "["%char ∉ c;
  good_head x : u = [] → head c = Some x → x ∉ default_seps;
  good_last x : last c = Some x → x ∉ default_seps
}.

Section Get.
Context (type : C2HMessageType) (p u c : bytes) (G : good_message type p u c).

Lemma prefix_plain : plain p.
Proof.
  pose proof (good_prefix _ _ _ _ G) as Hp.
  destruct type; cbn in Hp; try done; injection Hp as <-;
    split_and!; apply (bool_decide_eq_true_1 _); by vm_compute.
Qed.

Lemma body_head x : head (body u c) = Some x → x ∉ default_seps.
Proof.
  unfold body. case_decide as H.
  - intros [= <-]. apply (bool_decide_eq_true_1 _). by vm_compute.
  - apply (good_head _ _ _ _ G). destruct u; [done|cbn in H; lia].
Qed.

Lemma body_last x : last (body u c) = Some x → x ∉ default_seps.
Proof.
  unfold body. case_decide as H; [|apply (good_last _ _ _ _ G)]. rewrite !app_assoc, last_app.
  destruct (last c) as [y|] eqn:E; [intros [= <-]; exact (good_last _ _ _ _ G y E)|].
  apply last_None in E. destruct (good_user_type _ _ _ _ G); [|done].
  intros Eu. rewrite Eu in H. cbn in H. lia.
Qed.

(** The user name found in the trimmed data. *)
Lemma get_user rest : is_user_type type →
  ∃ b, Message_getUser (p ++ body u c ++ NUL :: rest) type (replicate kMaxNicknameSize NUL) kMaxNicknameSize
  = Done (b, array kMaxNicknameSize u).
Proof.
  intros Ht. unfold body. case_decide as H.
  - exists true. rewrite <- !app_assoc.
    replace (lit "] " ++ c ++ NUL :: rest) with (lit "]" ++ (lit " " ++ c ++ NUL :: rest)) by reflexivity.
    apply Message_getUser_found; [apply prefix_plain|apply G|done|done|apply G].
  - assert (u = []) as Hu by (destruct u; [done|cbn in H; lia]). exists false.
    rewrite app_assoc, Message_getUser_none; [rewrite Hu; reflexivity| |].
    + rewrite not_elem_of_app. split; [apply prefix_plain|by apply G].
    + rewrite not_elem_of_app. split; [apply prefix_plain|apply G].
Qed.

Lemma drop_user rest : drop (length p + (if decide (0 < length u) then length u + 3 else 0))
    (p ++ body u c ++ NUL :: rest) = c ++ NUL :: rest.
Proof.
  rewrite <- drop_drop, drop_app_length. unfold body. case_decide; [|done].
  replace ((lit "[" ++ u ++ lit "] " ++ c) ++ NUL :: rest)
    with ((lit "[" ++ u ++ lit "] ") ++ (c ++ NUL :: rest)) by (by rewrite <- !app_assoc).
  replace (length u + 3) with (length (lit "[" ++ u ++ lit "] ")) by (rewrite !length_app; cbn; lia).
  apply drop_app_length.
Qed.

Lemma length_body : length (body u c) = (if decide (0 < length u) then length u + 3 else 0) + length c.
Proof. unfold body. case_decide; [|done]. rewrite !length_app. cbn. lia. Qed.

Lemma get_wire_blank b b' r r' :
  Message_get b r = Done ((Some (wire p u c ++ [NUL]), b'), S r') → body u c = [] →
  C2HMessage_get b r = Done ((Some (message_of type u c), b'), r').
Proof.
  intros Hm Hb. pose proof prefix_plain as (Hpn & _ & _).
  assert (Hc : c = [] ∧ u = []).
  { revert Hb. unfold body. case_decide as H; [done|]. intros ->. split; [done|].
    destruct u; [done|cbn in H; lia]. }
  destruct Hc as [Ec Eu]. unfold wire in Hm. rewrite decide_False in Hm by (rewrite Hb; cbn; lia).
  unfold C2HMessage_get. run Hm. erewrite bind_Done by done. cbn [negb].
  assert (Hn : needs_content type = false).
  { destruct (needs_content type) eqn:E; [|done]. by destruct (good_content _ _ _ _ G E). }
  unfold lift at 1. rewrite cstr_app by done.
  erewrite bind_Done by done.
  pose proof (Message_getType_prefix type p [] (good_prefix _ _ _ _ G) (or_introl Hn)) as Ht.
  rewrite app_nil_r in Ht. rewrite Ht. cbn [length]. rewrite Nat.sub_0_r.
  rewrite drop_app_length. rewrite decide_False by (intros E; by rewrite E in Hn).
  unfold lift at 1. erewrite bind_Done by reflexivity. unfold lift at 1. erewrite bind_Done by reflexivity.
  rewrite decide_True; [rewrite Ec, Eu; reflexivity|]. split; [|done]. destruct type; cbn in Hn; try done; tauto.
Qed.

Lemma user_step rest (st : nat) :
  (if decide (type = kMessageTypeMsg ∨ type = kMessageTypeLog)
   then r <- lift (Message_getUser (p ++ body u c ++ NUL :: rest) type
                     (user (blank_message type)) kMaxNicknameSize);; ret (snd r)
   else ret (user (blank_message type)) : cmd nat bytes) st = Done (array kMaxNicknameSize u, st).
Proof.
  case_decide as Ht.
  - destruct (get_user rest Ht) as (bb & Hg). unfold bind, lift, ret. cbn [user blank_message].
    by rewrite Hg.
  - unfold ret. do 2 f_equal. cbn [user blank_message]. pose proof (good_user_type _ _ _ _ G) as Hu.
    destruct u; [reflexivity|]. by destruct Hu as [? _].
Qed.

(** Parsing of a non-empty body, after its trimming. *)
Lemma get_wire_body b b' r r' :
  Message_get b r = Done ((Some (wire p u c ++ [NUL]), b'), S r') → body u c ≠ [] →
  C2HMessage_get b r = Done ((Some (message_of type u c), b'), r').
Proof.
  intros Hm Hb. pose proof prefix_plain as (Hpn & _ & _).
  pose proof (good_user _ _ _ _ G) as (Hun & _ & _).
  assert (Hpos : 0 < length (body u c)) by (destruct (body u c); [done|cbn; lia]).
  assert (Hbn : NUL ∉ body u c) by (apply body_nul; [done|apply G]).
  unfold wire in Hm. rewrite decide_True in Hm by done.
  unfold C2HMessage_get. run Hm. erewrite bind_Done by done. cbn [negb].
  unfold lift at 1. rewrite cstr_app by (rewrite !not_elem_of_app; split_and!; try done;
    apply (bool_decide_eq_true_1 _); by vm_compute).
  erewrite bind_Done by done.
  rewrite (Message_getType_prefix type p _ (good_prefix _ _ _ _ G)) by (right; done).
  assert (Hcur : length (p ++ lit " " ++ body u c) - length (lit " " ++ body u c) = length p)
    by (rewrite !length_app; lia).
  rewrite Hcur. rewrite decide_False by (intros E; pose proof (good_prefix _ _ _ _ G) as Hp; by rewrite E in Hp).
  rewrite <- (app_assoc p), drop_app_length, take_app_length.
  destruct (trim_run NUL default_seps (lit " " ++ body u c) [] default_seps_nul) as (rest & Htrim & _).
  { rewrite not_elem_of_app. split; [apply (bool_decide_eq_true_1 _); by vm_compute|done]. }
  rewrite strip_space in Htrim; [|done|apply body_head|apply body_last].
  unfold lift at 1, trim_string. rewrite Htrim. erewrite bind_Done by done.
  unfold lift at 1. rewrite cstr_app by done. erewrite bind_Done by done.
  rewrite decide_False by (intros [_ E]; lia).
  run (user_step rest r').
  unfold lift at 1. unfold strlen. change (text NUL (array kMaxNicknameSize u)) with (cstr (array kMaxNicknameSize u)).
  rewrite array_text by (try done; apply G). erewrite bind_Done by done.
  assert (Hcursor : (if decide (0 < length u) then length p + length u + 3 else length p)
    = length p + (if decide (0 < length u) then length u + 3 else 0)) by (case_decide; lia).
  rewrite Hcursor, drop_user. pose proof length_body as Hlb.
  set (k := if decide (0 < length u) then length u + 3 else 0) in *.
  rewrite decide_True by (rewrite !length_app; cbn; lia).
  replace (length (p ++ lit " " ++ body u c) - (length p + k)) with (length c + 1)
    by (rewrite !length_app, Hlb; cbn; lia).
  unfold lift. cbn [content blank_message]. rewrite memcpy_array by apply G. done.
Qed.

Lemma get_wire b b' r r' :
  Message_get b r = Done ((Some (wire p u c ++ [NUL]), b'), S r') →
  C2HMessage_get b r = Done ((Some (message_of type u c), b'), r').
Proof.
  intros Hm. destruct (decide (body u c = [])); [by apply (get_wire_blank b b' r)|by apply (get_wire_body b b' r)].
Qed.
End Get.

(** ** Cutting the received bytes into messages *)

Lemma memchr_here c rest n : memchr (c :: rest) c (S n) = Done (Some 0).
Proof. cbn. by rewrite decide_True. Qed.

Lemma memchr_none bs c : c ∉ bs → memchr bs c (length bs) = Done None.
Proof.
  induction bs as [|d bs IH]; intros Hc; [done|]. apply not_elem_of_cons in Hc as [Hd Hc]. cbn.
  rewrite decide_False by done. by rewrite IH.
Qed.

Lemma find_end_run w rest pos fin : NUL ∉ w → pos + length w ≤ fin →
  find_end (w ++ NUL :: rest) pos fin = Done (Some (pos + length w)).
Proof.
  revert pos. induction w as [|c w IH]; intros pos Hn Hf; cbn.
  - rewrite decide_False by tauto. rewrite decide_True by done. by rewrite Nat.add_0_r.
  - apply not_elem_of_cons in Hn as [Hc Hn]. cbn in Hf.
    rewrite decide_False by lia. rewrite decide_False by done.
    rewrite IH by (done || lia). do 2 f_equal. lia.
Qed.

(** The offset a buffer is read from. *)
Definition offset (b : MessageBuffer) : nat := default 0 (bstart b).

Definition blank_buffer (n : nat) : MessageBuffer := MkBuffer (replicate n NUL) None.

(** A complete message at the reading position. *)
Lemma Message_get_run pre w post b r : bdata b = pre ++ ("/"%char :: w) ++ NUL :: post →
  offset b = length pre → NUL ∉ w →
  Message_get b (S r) = Done ((Some ("/"%char :: w ++ [NUL]),
    if decide (post = []) then blank_buffer (length (bdata b))
    else MkBuffer (bdata b) (Some (length (pre ++ ("/"%char :: w) ++ [NUL])))), r).
Proof.
  intros Hd Ho Hn. unfold Message_get. cbv zeta. fold (offset b). rewrite Ho, Hd, drop_app_length.
  assert (Hsize : length (pre ++ ("/"%char :: w) ++ NUL :: post) - length pre = S (length w + S (length post)))
    by (rewrite !length_app; cbn; lia).
  rewrite Hsize. cbn [app]. unfold lift at 1. rewrite memchr_here. erewrite bind_Done by done. cbv beta zeta iota.
  rewrite Nat.add_0_r, drop_app_length. unfold lift at 1.
  change ("/"%char :: w ++ NUL :: post) with (("/"%char :: w) ++ NUL :: post).
  rewrite find_end_run.
  2:{ apply not_elem_of_cons. split; [done|done]. }
  2:{ cbn. lia. }
  erewrite bind_Done by done. cbv beta zeta iota.
  replace (length pre + length ("/"%char :: w) - length pre + 1) with (S (S (length w))) by (cbn; lia).
  rewrite (decide_False (P := S (S (length w)) ≤ 1)) by lia. erewrite bind_Done by done. cbn [negb].
  assert (Htake : take (S (S (length w))) (("/"%char :: w) ++ NUL :: post) = "/"%char :: w ++ [NUL]).
  { replace (S (S (length w))) with (length ("/"%char :: w ++ [NUL])) by (cbn; rewrite length_app; cbn; lia).
    replace (("/"%char :: w) ++ NUL :: post) with (("/"%char :: w ++ [NUL]) ++ post) by (cbn; by rewrite <- app_assoc).
    by rewrite take_app_length. }
  rewrite Htake. destruct post as [|x post].
  - rewrite (decide_True (P := S (S (length w)) = S (length w + S (length [])))) by (cbn; lia).
    rewrite decide_True by done. done.
  - rewrite (decide_False (P := S (S (length w)) = S (length w + S (length (x :: post))))) by (cbn; lia).
    rewrite (decide_True (P := S (S (length w)) < S (length w + S (length (x :: post))))) by (cbn; lia).
    rewrite (decide_False (P := x :: post = [])) by done.
    assert (Hst : length (pre ++ "/"%char :: w ++ [NUL]) = length pre + S (S (length w)))
      by (rewrite length_app; cbn; rewrite length_app; cbn; lia).
    by rewrite Hst.
Qed.

(** No slash ahead: the buffer is cleaned. *)
Lemma Message_get_none pre post b r : bdata b = pre ++ post → offset b = length pre → "/"%char ∉ post →
  Message_get b r = Done ((None, blank_buffer (length (bdata b))), r).
Proof.
  intros Hd Ho Hs. unfold Message_get. cbv zeta. fold (offset b). rewrite Ho, Hd, drop_app_length, length_app.
  replace (length pre + length post - length pre) with (length post) by lia.
  unfold lift at 1. rewrite memchr_none by done. erewrite bind_Done by done.
  done.
Qed.

(** ** Streams of messages *)

(** Reading messages until [C2HMessage_get] returns [NULL]. *)
Fixpoint drain (fuel : nat) (b : MessageBuffer) : cmd nat (list C2HMessage * MessageBuffer) :=
  match fuel with
  | O => stuck OutOfFuel
  | S fuel =>
    r <- C2HMessage_get b;;
    match fst r with
    | None => ret ([], snd r)
    | Some m => rs <- drain fuel (snd r);; ret (m :: fst rs, snd rs)
    end
  end.

(** A message of the protocol: its type with its prefix, user and text. *)
Record packet : Type := Packet { ptype : C2HMessageType; pprefix : bytes; puser : bytes; ptext : bytes }.
Definition packet_wire (k : packet) : bytes := wire (pprefix k) (puser k) (ptext k).
(** A good message that is also short enough for the sending buffer. *)
Definition good_packet (k : packet) : Prop :=
  good_message (ptype k) (pprefix k) (puser k) (ptext k) ∧ length (packet_wire k) < kBufferSize.
Definition packet_message (k : packet) : C2HMessage := message_of (ptype k) (puser k) (ptext k).
Definition stream (ks : list packet) : bytes := flat_map (λ k, packet_wire k ++ [NUL]) ks.

Lemma wire_slash k : good_packet k → ∃ w, packet_wire k = "/"%char :: w ∧ NUL ∉ w.
Proof.
  intros [G _]. pose proof (good_prefix _ _ _ _ G) as Hp.
  assert (Hn : NUL ∉ packet_wire k).
  { apply wire_nul; [by eapply prefix_nul|apply G|apply G]. }
  assert (Hh : ∃ q, pprefix k = "/"%char :: q) by (destruct (ptype k); cbn in Hp; try done; injection Hp as <-; by eexists).
  destruct Hh as [q Hq]. unfold packet_wire, wire in *. rewrite Hq in *. revert Hn.
  case_decide; cbn; intros [_ Hn]%not_elem_of_cons; by eexists.
Qed.

Lemma blank_offset b n : b = blank_buffer n → offset b = 0.
Proof. by intros ->. Qed.

Lemma drain_stream_room f ks : ∀ pre k b r, Forall good_packet ks →
  bdata b = pre ++ stream ks ++ replicate k NUL → offset b = length pre →
  2 * length ks ≤ r →
  drain (S (length ks + f)) b r =
    Done ((packet_message <$> ks, blank_buffer (length (bdata b))), r - 2 * length ks).
Proof.
  assert (Hslash : ∀ k, "/"%char ∉ replicate k NUL).
  { intros k Hin. by apply elem_of_replicate in Hin as [? _]. }
  assert (Hnone : ∀ b pre k r fuel, bdata b = pre ++ replicate k NUL → offset b = length pre →
    drain (S fuel) b r = Done (([], blank_buffer (length (bdata b))), r)).
  { intros b pre k r fuel Hd Ho. cbn [drain].
    assert (Hg : C2HMessage_get b r = Done ((None, blank_buffer (length (bdata b))), r)).
    { unfold C2HMessage_get. by run (Message_get_none _ _ _ r Hd Ho (Hslash k)). }
    by run Hg. }
  induction ks as [|p ks IH]; intros pre k b r Hg Hd Ho Hr.
  { rewrite Nat.sub_0_r. by apply (Hnone b pre k). }
  inversion Hg as [|? ? G Hg']; subst. cbn [length] in *. destruct r as [|[|r]]; [lia..|].
  destruct (wire_slash p G) as (w & Hw & Hn).
  assert (Hd' : bdata b = pre ++ ("/"%char :: w) ++ NUL :: (stream ks ++ replicate k NUL)).
  { rewrite Hd. cbn [stream flat_map]. rewrite Hw. cbn. by rewrite <- !app_assoc. }
  pose proof (Message_get_run pre w _ b (S r) Hd' Ho Hn) as Hm.
  assert (Hww : "/"%char :: w ++ [NUL] = wire (pprefix p) (puser p) (ptext p) ++ [NUL]).
  { change (wire _ _ _) with (packet_wire p). by rewrite Hw. }
  rewrite Hww in Hm. pose proof (get_wire _ _ _ _ (proj1 G) b _ _ _ Hm) as Hget.
  cbn [drain]. run Hget. cbn [fst snd].
  set (b1 := if decide (stream ks ++ replicate k NUL = []) then _ else _) in *.
  assert (Hb1 : length (bdata b1) = length (bdata b)).
  { unfold b1. case_decide; cbn; [by rewrite length_replicate|done]. }
  assert (Hrest : drain (S (length ks + f)) b1 r =
    Done ((packet_message <$> ks, blank_buffer (length (bdata b1))), r - 2 * length ks)).
  { unfold b1. case_decide as E.
    - apply app_eq_nil in E as [E _]. destruct ks as [|k' ks]; [|].
      + cbn [length Nat.add fmap list_fmap]. rewrite Nat.mul_0_r, Nat.sub_0_r. by apply (Hnone _ [] (length (bdata b))).
      + exfalso. cbn in E. apply app_eq_nil in E as [E _]. by destruct (packet_wire k').
    - apply (IH (pre ++ ("/"%char :: w) ++ [NUL]) k); [done| |done|lia].
      cbn [bdata]. rewrite Hd'. by rewrite <- !app_assoc. }
  run Hrest. rewrite Hb1. unfold ret. cbn [fst snd fmap list_fmap]. do 2 f_equal. lia.
Qed.

Lemma drain_stream ks pre k b r : Forall good_packet ks →
  bdata b = pre ++ stream ks ++ replicate k NUL → offset b = length pre → 2 * length ks ≤ r →
  ∃ r', drain (S (length ks)) b r =
    Done ((packet_message <$> ks, blank_buffer (length (bdata b))), r').
Proof.
  intros. eexists. rewrite <- (Nat.add_0_r (length ks)) at 1. by eapply drain_stream_room.
Qed.


(** ** Properties *)

(** The bytes both peers transmit for a message: [C2HMessage_format] into a
    buffer of [kBufferSize] bytes, then as many bytes as it reports. *)
Definition transmitted (dest : bytes) (m : C2HMessage) : bytes :=
  match C2HMessage_format m dest kBufferSize with
  | Done (n, out) => take n out
  | Stuck _ => []
  end.

Lemma transmitted_wire dest k : length dest = kBufferSize → good_packet k →
  transmitted dest (packet_message k) = packet_wire k ++ [NUL].
Proof.
  intros Hd [G Hfit]. pose proof (good_prefix _ _ _ _ G) as Hp.
  pose proof (good_user _ _ _ _ G) as (Hun & _ & _).
  destruct (C2HMessage_format_run (ptype k) (pprefix k) (puser k) (ptext k) Hp Hun (good_nul _ _ _ _ G)
    (packet_message k) dest kBufferSize) as (w & rest & Hf & _ & _ & _ & Hw);
    [done|apply array_text; [done|apply G]|apply array_text; apply G|unfold kBufferSize; lia|lia|].
  unfold transmitted. rewrite Hf. rewrite (Hw Hfit).
  replace (length (wire (pprefix k) (puser k) (ptext k)) + 1)
    with (length (wire (pprefix k) (puser k) (ptext k) ++ [NUL])) by (rewrite length_app; cbn; lia).
  change (packet_wire k) with (wire (pprefix k) (puser k) (ptext k)).
  generalize (wire (pprefix k) (puser k) (ptext k)). intros x.
  replace (x ++ NUL :: rest) with ((x ++ [NUL]) ++ rest) by (by rewrite <- app_assoc).
  by rewrite take_app_length.
Qed.

(** C15. Round trip: any sequence of protocol messages, each formatted by
    [C2HMessage_format] and all received in one buffer, is read back by
    [C2HMessage_get] message by message, in order and without loss, with its
    type, user name and text; after them the buffer is clean. *)
Theorem C2HMessage_stream_roundtrip (ks : list packet) (dest : bytes) (zeros room : nat)
    (G : Forall good_packet ks) (Hd : length dest = kBufferSize)
    (Hr : 2 * length ks ≤ room) :
  let data := flat_map (transmitted dest) (packet_message <$> ks) ++ replicate zeros NUL in
  ∃ r, drain (S (length ks)) (MkBuffer data None) room
    = Done ((packet_message <$> ks, blank_buffer (length data)), r).
Proof.
  cbn zeta. assert (Hs : flat_map (transmitted dest) (packet_message <$> ks) = stream ks).
  { clear Hr. induction G as [|k ks G Gs IH]; [done|].
    rewrite fmap_cons. cbn [flat_map]. by rewrite IH, transmitted_wire. }
  rewrite Hs. by apply (drain_stream ks [] zeros (MkBuffer (stream ks ++ replicate zeros NUL) None) room).
Qed.

Definition demo_packets : list packet :=
  [Packet kMessageTypeMsg kMessageTypePrefixMsg (lit "bob") (lit "hello [all]");
   Packet kMessageTypeOk kMessageTypePrefixOk [] [];
   Packet kMessageTypeNick kMessageTypePrefixNick [] (lit "alice")].

(** Conditions on concrete strings, by evaluation. *)
Ltac end_char := let H := fresh in intros H; vm_compute in H;
  first [discriminate H | injection H as <-; not_in].
Ltac good_concrete :=
  split; cbn [ptype pprefix puser ptext];
  [ reflexivity | split_and!; not_in | unfold kMaxNicknameSize; cbn; lia | not_in
  | unfold kBufferSize; cbn; lia | intros Hne; first [done | split; [first [by left | by right]|done]]
  | first [done | intros H; discriminate H] | intros H1 H2; first [discriminate H1 | not_in | by destruct H2]
  | intros x H1; first [discriminate H1 | end_char] | intros x; end_char ].

Lemma demo_packets_good : Forall good_packet demo_packets.
Proof.
  unfold demo_packets. repeat (apply Forall_cons; split); [split; [good_concrete|apply Nat.ltb_lt; vm_compute; reflexivity]..|by constructor].
Qed.

Lemma C2HMessage_stream_roundtrip_witness :
  ∃ r, drain 4 (MkBuffer (flat_map (transmitted (replicate kBufferSize NUL)) (packet_message <$> demo_packets)
                          ++ replicate 100 NUL) None) 6
    = Done ((packet_message <$> demo_packets,
             blank_buffer (length (flat_map (transmitted (replicate kBufferSize NUL)) (packet_message <$> demo_packets)
                          ++ replicate 100 NUL))), r).
Proof.
  apply (C2HMessage_stream_roundtrip demo_packets (replicate kBufferSize NUL) 100 6);
    [exact demo_packets_good|apply length_replicate|cbn; lia].
Defined.

(** C34. Bounds of formatting: for a message of any printable type whose
    arrays hold terminated strings, and any destination of at least [size]
    bytes, [C2HMessage_format] stays inside the destination, terminates it,
    reports the length of what it wrote with the terminator (at most
    [size]), and writes the whole message when it fits. *)
Theorem C2HMessage_format_bounds (m : C2HMessage) (p u c dest : bytes) (size : nat)
    (Hp : command_prefix (mtype m) = Some p)
    (Hu : cstr (user m) = Done u) (Hc : cstr (content m) = Done c)
    (Hs : 0 < size) (Hd : size ≤ length dest) :
  ∃ w rest, C2HMessage_format m dest size = Done (length w + 1, w ++ NUL :: rest)
    ∧ length (w ++ NUL :: rest) = length dest ∧ length w + 1 ≤ size ∧ (NUL ∉ w)
    ∧ (length (wire p u c) < size → w = wire p u c).
Proof.
  destruct (text_inv _ _ _ Hu) as (? & _ & Hun). destruct (text_inv _ _ _ Hc) as (? & _ & Hcn).
  destruct (C2HMessage_format_run (mtype m) p u c Hp Hun Hcn m dest size eq_refl Hu Hc Hs Hd)
    as (w & rest & H1 & H2 & H3 & H4 & H5).
  exists w, rest. split_and!; try done. lia.
Qed.

Lemma C2HMessage_format_bounds_witness :
  ∃ w rest, C2HMessage_format (message_of kMessageTypeErr [] (lit "a long error text"))
      (replicate 10 NUL) 10 = Done (length w + 1, w ++ NUL :: rest)
    ∧ length (w ++ NUL :: rest) = 10 ∧ length w + 1 ≤ 10.
Proof.
  destruct (C2HMessage_format_bounds (message_of kMessageTypeErr [] (lit "a long error text"))
    (lit "/err") [] (lit "a long error text") (replicate 10 NUL) 10) as (w & rest & H1 & H2 & H3 & _);
    [reflexivity|vm_compute; reflexivity|vm_compute; reflexivity|lia|cbn; lia|].
  exists w, rest. split; [exact H1|]. split; [exact H2|exact H3].
Defined.

(** The first message of a buffer that is read from its start. *)
Lemma Message_get_first w post b r : bdata b = ("/"%char :: w) ++ NUL :: post → bstart b = None → NUL ∉ w →
  ∃ b', Message_get b (S r) = Done ((Some ("/"%char :: w ++ [NUL]), b'), r).
Proof.
  intros Hd Ho Hn. eexists. apply (Message_get_run [] w post); [done| |done]. unfold offset. by rewrite Ho.
Qed.

(** Fault: a received message that consists of "/msg" directly followed
    by a bracketed name, for example "/msg[a]", makes [C2HMessage_get] copy
    [end - cursor] bytes with [cursor] one past [end]: the difference is
    negative and the copy leaves every array.  Any peer can send it. *)
Theorem C2HMessage_get_bare_user_faults (u post : bytes) (b : MessageBuffer) (r : nat)
    (Hu : plain u) (Hpos : 0 < length u) (Hlen : length u < kMaxNicknameSize)
    (Hb : b = MkBuffer (lit "/msg[" ++ u ++ lit "]" ++ NUL :: post) None) :
  C2HMessage_get b (S (S r)) = Stuck OutOfBounds.
Proof.
  assert (Hsp : strip default_seps (lit "[" ++ u ++ lit "]") = lit "[" ++ u ++ lit "]").
  { apply strip_fix; intros c.
    - intros [= <-]. not_in.
    - change (lit "]") with ["]"%char]. rewrite app_assoc, last_snoc. intros [= <-]. not_in. }
  set (t := lit "[" ++ u ++ lit "]").
  assert (Ht : NUL ∉ t).
  { unfold t. rewrite !not_elem_of_app. split_and!; [not_in|apply Hu|not_in]. }
  destruct (Message_get_first (lit "msg" ++ t) post b (S r)) as (b' & Hm).
  { rewrite Hb. unfold t. cbn. by rewrite <- !app_assoc. }
  { by rewrite Hb. }
  { rewrite not_elem_of_app. split; [not_in|done]. }
  unfold C2HMessage_get. run Hm. erewrite bind_Done by done. cbn [negb].
  change ("/"%char :: (lit "msg" ++ t) ++ [NUL]) with ((kMessageTypePrefixMsg ++ t) ++ [NUL]).
  unfold lift at 1. rewrite cstr_app by (rewrite not_elem_of_app; split; [not_in|done]).
  erewrite bind_Done by done.
  rewrite (Message_getType_prefix kMessageTypeMsg _ t eq_refl) by (by right).
  assert (Hcur : length (kMessageTypePrefixMsg ++ t) - length t = length kMessageTypePrefixMsg)
    by (rewrite length_app; lia).
  rewrite Hcur, decide_False by done. rewrite <- app_assoc, drop_app_length, take_app_length.
  destruct (trim_run NUL default_seps t [] default_seps_nul Ht) as (rest & Htrim & _).
  unfold t in Htrim at 2. rewrite Hsp in Htrim. unfold lift at 1, trim_string. rewrite Htrim.
  erewrite bind_Done by done. fold t.
  unfold lift at 1. rewrite cstr_app by done. erewrite bind_Done by done.
  rewrite decide_False by (intros [[E|E] _]; discriminate E).
  assert (Hgu : Message_getUser (kMessageTypePrefixMsg ++ t ++ NUL :: rest) kMessageTypeMsg
      (replicate kMaxNicknameSize NUL) kMaxNicknameSize = Done (true, array kMaxNicknameSize u)).
  { unfold t. rewrite <- !app_assoc. apply Message_getUser_found; try done; [|by left].
    split_and!; not_in. }
  erewrite bind_Done; [|by unfold bind, lift; cbn [user blank_message]; rewrite decide_True by (by left); rewrite Hgu].
  cbn [snd].
  unfold lift at 1, strlen. change (text NUL (array kMaxNicknameSize u)) with (cstr (array kMaxNicknameSize u)).
  rewrite array_text by (try done; apply Hu). erewrite bind_Done by done.
  rewrite (decide_True (P := 0 < length u)) by done.
  rewrite decide_False; [done|]. unfold t. rewrite !length_app. cbn. lia.
Qed.

Lemma C2HMessage_get_bare_user_faults_witness :
  C2HMessage_get (MkBuffer (lit "/msg[a]" ++ replicate 2041 NUL) None) 5 = Stuck OutOfBounds.
Proof.
  apply (C2HMessage_get_bare_user_faults (lit "a") (replicate 2040 NUL) _ 3);
    [split_and!; not_in|cbn; lia|unfold kMaxNicknameSize; cbn; lia|reflexivity].
Defined.

(** Fault: [Message_getUser] accepts a name of exactly [length] bytes and
    writes its terminator one past the end of the array, which is the last
    byte of the message structure. *)
Theorem Message_getUser_off_by_one (pre u post : bytes) (type : C2HMessageType)
    (Hp : plain pre) (Hu : plain u) (Ht : is_user_type type) (Hlen : length u = kMaxNicknameSize) :
  Message_getUser (pre ++ lit "[" ++ u ++ lit "]" ++ post) type
    (replicate kMaxNicknameSize NUL) kMaxNicknameSize = Stuck OutOfBounds.
Proof.
  destruct Hp as (Hn & Ho & _), Hu as (Hun & Huo & Huc). unfold Message_getUser.
  rewrite decide_True by done. cbn [lit String.list_ascii_of_string app].
  rewrite strchr_found by done. cbn [outcome_bind].
  replace (pre ++ "["%char :: u ++ "]"%char :: post) with ((pre ++ ["["%char]) ++ u ++ "]"%char :: post)
    by (by rewrite <- app_assoc).
  replace (S (length pre)) with (length (pre ++ ["["%char])) by (rewrite length_app; cbn; lia).
  rewrite drop_app_length. rewrite strchr_found by done. cbn [outcome_bind].
  rewrite decide_True by (unfold kMaxNicknameSize in *; lia).
  unfold memcpy. rewrite decide_True by (rewrite length_app, length_replicate; lia). cbn [outcome_bind].
  rewrite decide_False; [done|].
  rewrite length_app, length_take, length_drop, length_replicate, !length_app.
  unfold kMaxNicknameSize in *. cbn. lia.
Qed.

Lemma Message_getUser_off_by_one_witness :
  Message_getUser (lit "[" ++ replicate 60 "n"%char ++ lit "] hi" ++ [NUL]) kMessageTypeMsg
    (replicate kMaxNicknameSize NUL) kMaxNicknameSize = Stuck OutOfBounds.
Proof.
  apply (Message_getUser_off_by_one [] (replicate 60 "n"%char) (lit " hi" ++ [NUL]));
    [split_and!; not_in|split_and!; not_in|by left|reflexivity].
Defined.

(** Building a message from a formatted text. *)
Lemma C2HMessage_create_text type f args t u b r : printf f args = Done t →
  NUL ∉ t → length t < kBufferSize →
  NUL ∉ u → length u < kMaxNicknameSize → (0 < length u → length u + 3 ≤ length t) →
  (is_user_type type → Message_getUser (array kBufferSize t) type (replicate kMaxNicknameSize NUL) kMaxNicknameSize
    = Done (b, array kMaxNicknameSize u)) →
  (~ is_user_type type → u = []) →
  C2HMessage_create type f args (S r) =
    Done (Some (message_of type u (if decide (0 < length u) then drop (length u + 3) t else t)), r).
Proof.
  intros Hpf Ht Hlt Hu Hlu Hul Hgu Hno. unfold C2HMessage_create. erewrite bind_Done by done. cbn [negb].
  unfold vsnprintf. rewrite Hpf. cbn [outcome_bind].
  rewrite sn_write_fits by (rewrite ?length_replicate; done).
  assert (Ha : t ++ NUL :: drop (length t + 1) (replicate kBufferSize NUL) = array kBufferSize t).
  { unfold array. rewrite drop_replicate.
    replace (kBufferSize - length t) with (S (kBufferSize - (length t + 1))) by lia. done. }
  rewrite Ha. unfold lift at 1. erewrite bind_Done by done.
  erewrite bind_Done; [|instantiate (1 := r); instantiate (1 := array kMaxNicknameSize u)].
  2:{ cbn [user blank_message]. destruct (decide (type = kMessageTypeMsg ∨ type = kMessageTypeLog)) as [E|E].
      - unfold bind, lift. by rewrite (Hgu E).
      - by rewrite (Hno E). }
  unfold lift at 1, strlen. change (text NUL (array kMaxNicknameSize u)) with (cstr (array kMaxNicknameSize u)).
  rewrite array_text by done. erewrite bind_Done by done. cbv beta zeta.
  set (k := if decide (0 < length u) then length u + 3 else 0).
  assert (Hk : k ≤ length t) by (unfold k; case_decide; lia).
  assert (Ek : (if decide (0 < length u) then drop (length u + 3) t else t) = drop k t)
    by (unfold k; by case_decide).
  rewrite Ek. rewrite decide_True by (unfold kBufferSize in *; lia).
  cbn [content blank_message]. unfold lift at 1, memcpy.
  rewrite decide_True by (rewrite length_drop, array_length, length_replicate by lia; lia).
  erewrite bind_Done by done. unfold ret, message_of. do 4 f_equal.
  unfold array. rewrite drop_app_le by done. rewrite length_drop, drop_replicate.
  rewrite take_app_ge by (rewrite length_drop; unfold kBufferSize in *; lia).
  rewrite length_drop, take_replicate, <- app_assoc, <- replicate_add. do 2 f_equal. lia.
Qed.

(** [C2HMessage_create] takes the first bracketed word of a chat text for
    the user name wherever it stands, and always drops the first
    [strlen(user) + 3] characters: correct when the text is "[user] text",
    it eats the beginning of the text otherwise ("say [hi] now" becomes
    "hi] now", said by a user "hi"). *)
Theorem C2HMessage_create_user_anywhere (pre u post : bytes) (r : nat)
    (Hp : plain pre) (Hu : plain u) (Hpos : 0 < length u) (Hlu : length u < kMaxNicknameSize)
    (Hpost : NUL ∉ post) (Hmore : 1 ≤ length pre + length post)
    (Hlen : length (pre ++ lit "[" ++ u ++ lit "]" ++ post) < kBufferSize) :
  let t := pre ++ lit "[" ++ u ++ lit "]" ++ post in
  C2HMessage_create kMessageTypeMsg (lit "%s") [AStr t] (S r)
  = Done (Some (message_of kMessageTypeMsg u (drop (length u + 3) t)), r).
Proof.
  cbn zeta. set (t := pre ++ lit "[" ++ u ++ lit "]" ++ post) in *.
  assert (Ht : NUL ∉ t).
  { unfold t. rewrite !not_elem_of_app. split_and!; [apply Hp|not_in|apply Hu|not_in|done]. }
  assert (Hl : length t = length pre + length u + length post + 2) by (unfold t; rewrite !length_app; cbn; lia).
  rewrite (C2HMessage_create_text _ _ _ t u true); [|apply printf_s|done|done|apply Hu|done|lia| |].
  - by rewrite decide_True.
  - intros _. unfold array, t. rewrite <- !app_assoc. apply Message_getUser_found; try done. by left.
  - intros H. destruct H. by left.
Qed.

Lemma C2HMessage_create_user_anywhere_witness :
  C2HMessage_create kMessageTypeMsg (lit "%s") [AStr (lit "say [hi] now")] 1
  = Done (Some (message_of kMessageTypeMsg (lit "hi") (lit "hi] now")), 0).
Proof.
  apply (C2HMessage_create_user_anywhere (lit "say ") (lit "hi") (lit " now") 0);
    [split_and!; not_in|split_and!; not_in|cbn; lia|unfold kMaxNicknameSize; cbn; lia|not_in|cbn; lia
    |unfold kBufferSize; cbn; lia].
Defined.

(** A chat text typed by the user that is not a command and has no
    bracket becomes exactly that message, and the commands a user may not
    send ("/ok", "/err", "/log") are refused. *)
Theorem C2HMessage_createFromString_text (t : bytes) (r : nat)
    (Ht : NUL ∉ t) (Hlen : length t < kBufferSize) :
  (t ≠ [] → head t ≠ Some "/"%char → "["%char ∉ t →
     C2HMessage_createFromString t (length t) (S r)
     = Done (Some (message_of kMessageTypeMsg [] t), r))
  ∧ (∀ type p s, type ∈ [kMessageTypeOk; kMessageTypeErr; kMessageTypeLog] →
       command_prefix type = Some p → t = p ++ s → s ≠ [] →
       C2HMessage_createFromString t (length t) (S r) = Done (None, S r)).
Proof.
  split.
  - intros Hne Hh Hb. unfold C2HMessage_createFromString.
    rewrite decide_False by (by destruct t).
    assert (Hty : Message_getType t = (kMessageTypeNull, t)).
    { destruct t as [|x t']; [done|]. assert (x ≠ "/"%char) as Hx by (intros ->; by apply Hh).
      unfold Message_getType, rmatch. cbn -[decide]. rewrite !andb_false_intro2; [done|..];
        apply bool_decide_eq_false; cbn; intros [= E _]; done. }
    rewrite Hty. rewrite (C2HMessage_create_text _ _ _ t [] false); try done.
    + apply printf_s.
    + apply not_elem_of_nil.
    + unfold kMaxNicknameSize. cbn. lia.
    + cbn. lia.
    + intros _. unfold array. destruct (kBufferSize - length t) as [|k] eqn:E; [lia|].
      change (replicate (S k) NUL) with (NUL :: replicate k NUL). by rewrite Message_getUser_none.
  - intros type p s Hty Hp -> Hs. unfold C2HMessage_createFromString.
    rewrite decide_False by (destruct p, s; done).
    rewrite (Message_getType_prefix type p s Hp) by (by right).
    apply elem_of_cons in Hty as [->|Hty]; [done|]. apply elem_of_cons in Hty as [->|Hty]; [done|].
    by apply list_elem_of_singleton in Hty as ->.
Qed.

Lemma C2HMessage_createFromString_text_witness :
  C2HMessage_createFromString (lit "hello there") 11 1
  = Done (Some (message_of kMessageTypeMsg [] (lit "hello there")), 0).
Proof.
  destruct (C2HMessage_createFromString_text (lit "hello there") 0) as [H _];
    [not_in|unfold kBufferSize; cbn; lia|].
  apply H; [discriminate|discriminate|not_in].
Defined.

(** Fault: when the first slash is not at the reading position and no
    terminator follows it, [Message_get] looks for the terminator past the
    end of the buffer, because [end] is computed with the size measured
    before the slash was found; with the slash at the reading position the
    same data is reported as incomplete. *)
Theorem Message_get_unterminated (pre w : bytes) (r : nat)
    (Hpre : "/"%char ∉ pre) (Hw : NUL ∉ w) :
  Message_get (MkBuffer (pre ++ "/"%char :: w) None) r =
    (if decide (pre = []) then Done ((None, MkBuffer ("/"%char :: w) (Some 0)), r)
     else Stuck OutOfBounds).
Proof.
  assert (Hfe : ∀ bs pos fin, NUL ∉ bs → pos + length bs ≤ fin →
    find_end bs pos fin = Stuck OutOfBounds).
  { induction bs as [|c bs IH]; intros pos fin Hn Hf; [done|]. cbn in *.
    apply not_elem_of_cons in Hn as [Hc Hn].
    rewrite decide_False by lia. rewrite decide_False by done. apply IH; [done|lia]. }
  assert (Hfn : ∀ bs pos, NUL ∉ bs → bs ≠ [] → find_end bs pos (pos + length bs - 1) = Done None).
  { induction bs as [|c bs IH]; intros pos Hn Hne; [done|]. cbn.
    apply not_elem_of_cons in Hn as [Hc Hn].
    destruct bs as [|d bs]; [by rewrite decide_True by (cbn; split; [lia|done])|].
    rewrite decide_False by (cbn; lia). rewrite decide_False by done.
    replace (pos + S (length (d :: bs)) - 1) with (S pos + length (d :: bs) - 1) by (cbn; lia).
    by apply IH. }
  assert (Hmc : memchr (pre ++ "/"%char :: w) "/"%char (length (pre ++ "/"%char :: w)) = Done (Some (length pre))).
  { clear Hfe Hfn. induction pre as [|c pre IH]; cbn; [done|].
    apply not_elem_of_cons in Hpre as [Hc Hpre]. rewrite decide_False by done. by rewrite IH. }
  unfold Message_get. cbn [bdata bstart default]. cbv zeta. rewrite drop_0, Nat.sub_0_r.
  unfold lift at 1. rewrite Hmc. erewrite bind_Done by done. cbv beta zeta iota.
  rewrite Nat.add_0_l, drop_app_length. unfold lift at 1.
  assert (Hnw : NUL ∉ "/"%char :: w) by (apply not_elem_of_cons; split; done).
  case_decide as E.
  - subst pre. pose proof (Hfn ("/"%char :: w) 0 Hnw ltac:(done)) as Hf.
    cbn [app length Nat.add] in *. by rewrite Hf.
  - rewrite Hfe; [done|done|]. rewrite length_app.
    assert (1 ≤ length pre) by (destruct pre; [done|cbn; lia]). lia.
Qed.

Lemma Message_get_unterminated_witness :
  Message_get (MkBuffer (lit "hi/msg hello") None) 3 = Stuck OutOfBounds.
Proof. exact (Message_get_unterminated (lit "hi") (lit "msg hello") 3 ltac:(not_in) ltac:(not_in)). Defined.

(** Fault: the text of a received message is copied into the [content]
    array without comparing sizes: a "/msg" whose text does not fit there
    (the receive buffer is larger than [content]) overflows it. *)
Theorem C2HMessage_get_long_text_faults (c post : bytes) (r : nat)
    (Hc : NUL ∉ c) (Hb : "["%char ∉ c) (Hlen : kBufferSize ≤ length c)
    (Hh : ∀ x, head c = Some x → x ∉ default_seps) (Hl : ∀ x, last c = Some x → x ∉ default_seps) :
  C2HMessage_get (MkBuffer (lit "/msg " ++ c ++ NUL :: post) None) (S (S r)) = Stuck OutOfBounds.
Proof.
  assert (Hne : c ≠ []) by (intros ->; unfold kBufferSize in Hlen; cbn in Hlen; lia).
  destruct (Message_get_first (lit "msg " ++ c) post (MkBuffer (lit "/msg " ++ c ++ NUL :: post) None) (S r))
    as (b' & Hm); [done|done|rewrite not_elem_of_app; split; [not_in|done]|].
  unfold C2HMessage_get. run Hm. erewrite bind_Done by done. cbn [negb].
  change ("/"%char :: (lit "msg " ++ c) ++ [NUL]) with ((kMessageTypePrefixMsg ++ lit " " ++ c) ++ [NUL]).
  unfold lift at 1. rewrite cstr_app by (rewrite !not_elem_of_app; split_and!; [not_in|not_in|done]).
  erewrite bind_Done by done.
  rewrite (Message_getType_prefix kMessageTypeMsg _ (lit " " ++ c) eq_refl) by (by right).
  assert (Hcur : length (kMessageTypePrefixMsg ++ lit " " ++ c) - length (lit " " ++ c) = length kMessageTypePrefixMsg)
    by (rewrite !length_app; lia).
  rewrite Hcur, decide_False by done. rewrite <- (app_assoc kMessageTypePrefixMsg), drop_app_length, take_app_length.
  destruct (trim_run NUL default_seps (lit " " ++ c) [] default_seps_nul) as (rest & Htrim & _).
  { rewrite not_elem_of_app. split; [not_in|done]. }
  rewrite strip_space in Htrim by done. unfold lift at 1, trim_string. rewrite Htrim.
  erewrite bind_Done by done. unfold lift at 1. rewrite cstr_app by done. erewrite bind_Done by done.
  rewrite decide_False by (intros [[E|E] _]; discriminate E).
  assert (Hgu : Message_getUser (kMessageTypePrefixMsg ++ c ++ NUL :: rest) kMessageTypeMsg
      (replicate kMaxNicknameSize NUL) kMaxNicknameSize = Done (false, replicate kMaxNicknameSize NUL)).
  { rewrite app_assoc. apply Message_getUser_none; rewrite not_elem_of_app; (split; [not_in|done]). }
  erewrite bind_Done; [|by unfold bind, lift; cbn [user blank_message]; rewrite decide_True by (by left); rewrite Hgu].
  cbn [snd]. unfold lift at 1. erewrite bind_Done by reflexivity. cbv beta zeta.
  rewrite (decide_False (P := 0 < 0)) by lia. rewrite decide_True by (rewrite !length_app; lia).
  unfold lift, memcpy. cbn [content blank_message]. rewrite length_replicate.
  rewrite (decide_False (P := _ ∧ _)); [done|]. intros [_ E]. rewrite !length_app in E. cbn in E. lia.
Qed.

Lemma C2HMessage_get_long_text_faults_witness :
  C2HMessage_get (MkBuffer (lit "/msg " ++ replicate 1536 "x"%char ++ NUL :: replicate 506 NUL) None) 5
  = Stuck OutOfBounds.
Proof.
  apply (C2HMessage_get_long_text_faults (replicate 1536 "x"%char) (replicate 506 NUL) 3);
    [not_in|not_in|unfold kBufferSize; rewrite length_replicate; lia| |];
    (intros x H; vm_compute in H; injection H as <-; not_in).
Defined.
