(* ===== verification/Logger.v ===== *)
(** * The logger (src/lib/logger)

    Levels, the opening of the log and its lines.  [vLogMessage] formats in
    two steps, each into an array of [kOutputBufferSize] characters: the first
    puts the time, the process, the thread, the level and the format of the
    caller together, the second takes the result as a format for the arguments
    of the caller. *)

From S2P Require Import Prelude.
From S2P Require Import Control.
From S2P Require Import CStr.
From S2P Require Import MessageLib.
From S2P Require Import MessageSpec.

(** ** Levels *)

Definition LOG_FATAL : Z := 60.
Definition LOG_ERROR : Z := 50.
Definition LOG_WARN : Z := 40.
Definition LOG_INFO : Z := 30.
Definition LOG_DEBUG : Z := 20.
Definition LOG_TRACE : Z := 10.
Definition LOG_OFF : Z := 0.
Definition LOG_DEFAULT : Z := LOG_INFO.

Definition kDateTimeBufferSize : nat := 100.
Definition kOutputBufferSize : nat := 1024.

(** The macros. *)
Inductive severity : Type := Trace | Debug | Info | Warn | Error | Fatal.

#[export] Instance severity_eq_dec : EqDecision severity.
Proof. solve_decision. Defined.

Definition level_of (s : severity) : Z :=
  match s with
  | Trace => LOG_TRACE
  | Debug => LOG_DEBUG
  | Info => LOG_INFO
  | Warn => LOG_WARN
  | Error => LOG_ERROR
  | Fatal => LOG_FATAL
  end.

Definition label_of (s : severity) : bytes :=
  match s with
  | Trace => lit "TRACE"
  | Debug => lit "DEBUG"
  | Info => lit "INFO"
  | Warn => lit "WARNING"
  | Error => lit "ERROR"
  | Fatal => lit "FATAL"
  end.

(** ** State *)

(** The level, and what was written to the standard error stream. *)
Record logger : Type := MkLogger { vLogLevel : Z; stream : list bytes }.

(** What the system answers for one line: the text of [strftime] ([None] when
    it returns 0), the process, the thread, and [errno] after the write. *)
Record moment : Type := Moment {
  strftime : option bytes;
  getpid : Z;
  pthread_self : Z;
  errno : Z
}.

(** ** Opening *)

(** Whether the file exists, can be written, and is opened. *)
Record log_file : Type := LogFile { f_exists : bool; f_writable : bool; f_opens : bool }.

Definition vLogInit (level : Z) (filepath : option log_file) : cmd logger bool :=
  (if ((LOG_OFF <=? level) && (level <=? LOG_FATAL))%Z
   then modify (λ l, MkLogger level (stream l)) else ret tt);;;
  match filepath with
  | None => ret true
  | Some f =>
    if f_exists f && negb (f_writable f) then ret false else
    if negb (f_opens f) then ret false else ret true
  end.

(** ** One line *)

(** The conversions [%6d] and [%-7s]. *)
Definition pad_left (n : nat) (t : bytes) : bytes := replicate (n - length t) " "%char ++ t.
Definition pad_right (n : nat) (t : bytes) : bytes := t ++ replicate (n - length t) " "%char.

(** An [unsigned long] printed by [%ld]. *)
Definition wrap_long (z : Z) : Z := ((z + SIZE_MOD / 2) mod SIZE_MOD - SIZE_MOD / 2)%Z.

Definition newline_char : ascii := Ascii.ascii_of_nat 10.
Definition separator : bytes := lit " | ".

Definition header (e : moment) (label : bytes) : bytes :=
  default [] (strftime e) ++ separator ++ pad_left 6 (decimal (getpid e)) ++ separator
  ++ decimal (wrap_long (pthread_self e)) ++ separator ++ pad_right 7 label ++ separator.

(** What is written: [format] is a string, [message] the result of the first
    step and [output] that of the second. *)
Definition vLogMessage (e : moment) (label format : bytes) (args : list arg) : cmd logger unit :=
  message <- lift (sn_write (replicate kOutputBufferSize NUL) kOutputBufferSize
                     (header e label ++ format ++ [newline_char]));;
  m <- lift (cstr message);;
  output <- lift (vsnprintf (replicate kOutputBufferSize NUL) kOutputBufferSize m args);;
  o <- lift (cstr output);;
  modify (λ l, MkLogger (vLogLevel l) (stream l ++ [o])).

Definition EXIT_SUCCESS : Z := 0.
Definition EXIT_FAILURE : Z := 1.

Definition enabled (l : logger) (s : severity) : bool :=
  negb (vLogLevel l =? 0)%Z && (vLogLevel l <=? level_of s)%Z.

(** A macro; the result is the exit code when it ends the process. *)
Definition log (s : severity) (e : moment) (format : bytes) (args : list arg) : cmd logger (option Z) :=
  l <- get;;
  if enabled l s then
    vLogMessage e (label_of s) format args;;;
    ret (if decide (s = Fatal) then Some (if (errno e =? 0)%Z then EXIT_FAILURE else errno e) else None)
  else ret None.

(** Calls of the macros in a program that does nothing else: they stop at the
    end of the process. *)
Record call : Type := Call { c_severity : severity; c_moment : moment; c_format : bytes; c_args : list arg }.

Fixpoint run_calls (cs : list call) : cmd logger (option Z) :=
  match cs with
  | [] => ret None
  | c :: cs =>
    r <- log (c_severity c) (c_moment c) (c_format c) (c_args c);;
    match r with Some code => ret (Some code) | None => run_calls cs end
  end.

(** ** Lemmas *)

Lemma digit_not_percent n : n < 10 → digit n ≠ percent ∧ digit n ≠ NUL.
Proof. intros H. do 10 (destruct n as [|n]; [split; discriminate|]). lia. Qed.

Lemma digits_plain fuel n : (percent ∉ digits fuel n) ∧ (NUL ∉ digits fuel n).
Proof.
  revert n. induction fuel as [|f IH]; intros n; cbn [digits]; [split; apply not_elem_of_nil|].
  destruct (decide (n < 10)) as [Hn|Hn].
  - destruct (digit_not_percent n Hn). rewrite !not_elem_of_cons. split; (split; [congruence|apply not_elem_of_nil]).
  - destruct (IH (n / 10)) as [H1 H2].
    destruct (digit_not_percent (n mod 10)) as [H3 H4]; [apply Nat.mod_upper_bound; lia|].
    rewrite !not_elem_of_app, !not_elem_of_cons. split; (split; [done|split; [congruence|apply not_elem_of_nil]]).
Qed.

(** The number of digits. *)
Lemma digits_long f n k : 10 ^ k ≤ n → k < f → k < length (digits f n).
Proof.
  revert n k. induction f as [|f IH]; intros n k Hn Hk; [lia|]. cbn [digits].
  destruct (decide (n < 10)) as [Hd|Hd].
  - destruct k as [|k]; [cbn; lia|]. exfalso. rewrite Nat.pow_succ_r' in Hn. pose proof (Nat.pow_nonzero 10 k). lia.
  - rewrite length_app. cbn [length]. destruct k as [|k]; [lia|]. rewrite Nat.pow_succ_r' in Hn.
    pose proof (IH (n / 10) k). assert (10 ^ k ≤ n / 10) by (apply Nat.div_le_lower_bound; lia). lia.
Qed.

Lemma digits_short f n k : n < 10 ^ S k → length (digits f n) ≤ S k.
Proof.
  revert n k. induction f as [|f IH]; intros n k Hn; [cbn; lia|]. cbn [digits].
  destruct (decide (n < 10)) as [Hd|Hd]; [cbn; lia|].
  rewrite length_app. cbn [length]. destruct k as [|k]; [cbn in Hn; lia|]. rewrite Nat.pow_succ_r' in Hn.
  pose proof (IH (n / 10) k). assert (n / 10 < 10 ^ S k) by (apply Nat.Div0.div_lt_upper_bound; lia). lia.
Qed.

(** A text that is printed as it is by a format. *)
Definition verbatim (t : bytes) : Prop := (percent ∉ t) ∧ (NUL ∉ t).

Lemma verbatim_app s t : verbatim s → verbatim t → verbatim (s ++ t).
Proof. intros [? ?] [? ?]. unfold verbatim. rewrite !not_elem_of_app. done. Qed.

Lemma decimal_verbatim z : verbatim (decimal z).
Proof.
  unfold decimal. case_match; [|apply digits_plain].
  apply verbatim_app; [split; not_in|apply digits_plain].
Qed.

Lemma spaces_verbatim n : verbatim (replicate n " "%char).
Proof. split; intros [[=] _]%elem_of_replicate. Qed.

Lemma label_verbatim s : verbatim (label_of s).
Proof. destruct s; split; not_in. Qed.

Lemma separator_verbatim : verbatim separator.
Proof. split; not_in. Qed.

#[local] Hint Resolve verbatim_app decimal_verbatim spaces_verbatim label_verbatim separator_verbatim : c2hat.

Lemma header_verbatim e s : verbatim (default [] (strftime e)) → verbatim (header e (label_of s)).
Proof. intros H. unfold header, pad_left, pad_right. auto 10 with c2hat. Qed.

(** Formats are composed from left to right. *)
Lemma printf_after t f args : percent ∉ t →
  printf (t ++ f) args = (let! r := printf f args in Done (t ++ r)).
Proof.
  induction t as [|c t IH]; intros H; cbn [app printf]; [by destruct (printf f args)|].
  apply not_elem_of_cons in H as [Hc H]. rewrite decide_False by done. rewrite IH by done.
  by destruct (printf f args).
Qed.

Lemma printf_suffix f g args t : printf f args = Done t → percent ∉ g → printf (f ++ g) args = Done (t ++ g).
Proof.
  intros Hf Hg. remember (length f) as n eqn:Hn. assert (Hle : length f ≤ n) by lia. clear Hn.
  revert f args t Hf Hle. induction n as [|n IH]; intros [|c f] args t Hf Hle; cbn in Hle; try lia.
  1, 2: (injection Hf as <-; cbn [app]; rewrite <- (app_nil_r g) at 1;
         rewrite printf_after by done; cbn; by rewrite app_nil_r).
  cbn [app printf] in *. destruct (decide (c = percent)).
  - destruct f as [|d f]; cbn [app]; [done|]. cbn in Hle.
    assert (Hr : ∀ args' r, printf f args' = Done r → printf (f ++ g) args' = Done (r ++ g))
      by (intros; apply IH; [done|lia]).
    destruct (decide (d = percent)).
    { destruct (printf f args) as [r|] eqn:E; [|done]. injection Hf as <-. by rewrite (Hr _ _ E). }
    destruct args as [|[s|z] args]; [done| |]; (case_decide; [|done]);
      (destruct (printf f args) as [r|] eqn:E; [|done]); injection Hf as <-; rewrite (Hr _ _ E); cbn;
      by rewrite <- app_assoc.
  - destruct (printf f args) as [r|] eqn:E; [|done]. injection Hf as <-.
    by rewrite (IH _ _ _ E) by lia.
Qed.

(** ** What is logged *)

(** The line of a call, whose text is [t]. *)
Definition line (c : call) (t : bytes) : bytes :=
  take (kOutputBufferSize - 1) (header (c_moment c) (label_of (c_severity c)) ++ t ++ [newline_char]).

(** The call has the text [t], and its format is not cut by the first step. *)
Record prints (c : call) (t : bytes) : Prop := Prints {
  pr_stamp : verbatim (default [] (strftime (c_moment c)));
  pr_format : NUL ∉ c_format c;
  pr_room : length (header (c_moment c) (label_of (c_severity c)) ++ c_format c) + 1 < kOutputBufferSize;
  pr_text : printf (c_format c) (c_args c) = Done t;
  pr_nul : NUL ∉ t
}.

Lemma newline_verbatim : verbatim [newline_char].
Proof. split; not_in. Qed.

Lemma vLogMessage_line c t l : prints c t →
  vLogMessage (c_moment c) (label_of (c_severity c)) (c_format c) (c_args c) l
  = Done (tt, MkLogger (vLogLevel l) (stream l ++ [line c t])).
Proof.
  intros [Hs Hf Hr Ht Hn]. destruct (header_verbatim _ (c_severity c) Hs) as [Hp Hh].
  destruct newline_verbatim as [Np Nn]. unfold line, vLogMessage. rewrite length_app in Hr.
  set (h := header _ _) in *. unfold kOutputBufferSize in *.
  rewrite sn_write_fits by (rewrite ?length_replicate, !length_app; cbn; lia).
  unfold lift at 1. erewrite bind_Done by done. unfold lift at 1. rewrite cstr_app by (rewrite !not_elem_of_app; done).
  erewrite bind_Done by done. unfold vsnprintf.
  rewrite printf_after, (printf_suffix _ _ _ _ Ht) by done. cbn [outcome_bind].
  destruct (sn_write_bounds (replicate 1024 NUL) 1024 (h ++ t ++ [newline_char]))
    as (w & rest & -> & -> & _ & _ & Hw); [lia|rewrite length_replicate; lia|rewrite !not_elem_of_app; done|].
  unfold lift at 1. erewrite bind_Done by done. unfold lift. by rewrite cstr_app.
Qed.

(** What a sequence of calls with their texts leaves in the log when the
    level is [level], and the exit code. *)
Fixpoint log_spec (level : Z) (cs : list (call * bytes)) : list bytes * option Z :=
  match cs with
  | [] => ([], None)
  | (c, t) :: cs =>
    if decide (level = LOG_OFF ∨ (level_of (c_severity c) < level)%Z) then log_spec level cs
    else if decide (c_severity c = Fatal)
    then ([line c t], Some (if decide (errno (c_moment c) = 0%Z) then EXIT_FAILURE else errno (c_moment c)))
    else let r := log_spec level cs in (line c t :: r.1, r.2)
  end.

Lemma enabled_spec l s : enabled l s = negb (bool_decide (vLogLevel l = LOG_OFF ∨ (level_of s < vLogLevel l)%Z)).
Proof.
  unfold enabled, LOG_OFF. destruct (Z.eqb_spec (vLogLevel l) 0), (Z.leb_spec (vLogLevel l) (level_of s));
    case_bool_decide; cbn; (done || lia).
Qed.

(** C27. The log holds exactly the calls at or above the level, in order, each
    as one line of at most 1023 characters that starts with the header and
    continues with its text (the end, the line break included, is cut off
    from lines that are longer), up to the first fatal error, which ends the
    process with [errno] or 1; with the level [LOG_OFF] nothing is written
    and a fatal error does not end the process. *)
Theorem calls_are_logged (l : logger) (cs : list (call * bytes))
    (H : Forall (λ ct, prints ct.1 ct.2) cs) :
  run_calls cs.*1 l
    = Done ((log_spec (vLogLevel l) cs).2, MkLogger (vLogLevel l) (stream l ++ (log_spec (vLogLevel l) cs).1))
  ∧ Forall (λ o, length o < kOutputBufferSize) (log_spec (vLogLevel l) cs).1.
Proof.
  revert l. induction H as [|[c t] cs Hc H IH]; intros l; cbn [fmap list_fmap run_calls log_spec fst snd].
  - rewrite app_nil_r. by destruct l.
  - assert (Hlen : length (line c t) < kOutputBufferSize).
    { unfold line. rewrite length_take. unfold kOutputBufferSize. lia. }
    cbn [fst snd] in Hc. unfold bind at 1. unfold log, bind at 1. cbn [get]. rewrite enabled_spec.
    destruct (decide (vLogLevel l = LOG_OFF ∨ (level_of (c_severity c) < vLogLevel l)%Z)) as [Hd|Hd];
      [rewrite bool_decide_eq_true_2 by done|rewrite bool_decide_eq_false_2 by done]; cbn [negb].
    + apply IH.
    + rewrite (bind_Done _ _ _ _ _ (vLogMessage_line c t l Hc)). cbn [ret].
      destruct (decide (c_severity c = Fatal)); cbn [fst snd].
      * split; [|by apply Forall_singleton]. cbn [ret]. do 4 f_equal. case_decide as He;
          [by rewrite He|by rewrite (proj2 (Z.eqb_neq _ _) He)].
      * destruct (IH (MkLogger (vLogLevel l) (stream l ++ [line c t]))) as [E F]. cbn [vLogLevel stream] in *.
        split; [|by constructor]. rewrite E. by rewrite <- app_assoc.
Qed.

Definition sample_moment : moment := Moment (Some (lit "2022-04-07T16:09:33+0100")) 4242 140 0.

Lemma calls_are_logged_witness :
  run_calls [Call Debug sample_moment (lit "no") []; Call Warn sample_moment (lit "%s left") [AStr (lit "bob")];
             Call Fatal sample_moment (lit "bind() failed. (%d)") [AInt 98]; Call Info sample_moment (lit "x") []]
    (MkLogger LOG_INFO [])
  = Done (Some 1%Z, MkLogger LOG_INFO
      [lit "2022-04-07T16:09:33+0100 |   4242 | 140 | WARNING | bob left" ++ [newline_char];
       lit "2022-04-07T16:09:33+0100 |   4242 | 140 | FATAL   | bind() failed. (98)" ++ [newline_char]]).
Proof.
  refine (proj1 (calls_are_logged (MkLogger LOG_INFO [])
    [(Call Debug sample_moment (lit "no") [], lit "no");
     (Call Warn sample_moment (lit "%s left") [AStr (lit "bob")], lit "bob left");
     (Call Fatal sample_moment (lit "bind() failed. (%d)") [AInt 98], lit "bind() failed. (98)");
     (Call Info sample_moment (lit "x") [], lit "x")] _)).
  repeat constructor; try reflexivity; try not_in; apply Nat.ltb_lt; vm_compute; reflexivity.
Defined.

(** A level that can be set is one of the levels or between them; it is set
    even when the file cannot be opened. *)
Lemma vLogInit_level level f l :
  vLogInit level f l
  = Done (match f with None => true | Some g => f_opens g && (negb (f_exists g) || f_writable g) end,
          if bool_decide (LOG_OFF ≤ level ≤ LOG_FATAL)%Z then MkLogger level (stream l) else l).
Proof.
  unfold vLogInit.
  destruct (decide (LOG_OFF ≤ level ≤ LOG_FATAL)%Z) as [Hb|Hb];
    [rewrite bool_decide_eq_true_2 by done|rewrite bool_decide_eq_false_2 by done].
  all: destruct (Z.leb_spec LOG_OFF level), (Z.leb_spec level LOG_FATAL); try lia;
    by destruct f as [[[] [] []]|].
Qed.

(** A format whose conversion the first step cuts in two is not one. *)
Lemma cut_format_faults e s a rest args l :
  verbatim (header e (label_of s) ++ a) → length (header e (label_of s) ++ a) = kOutputBufferSize - 2 →
  vLogMessage e (label_of s) (a ++ percent :: rest) args l = Stuck BadFormat.
Proof.
  intros [Hp Hn] Hl. unfold vLogMessage. set (h := header _ _) in *.
  assert (Hw : sn_write (replicate kOutputBufferSize NUL) kOutputBufferSize (h ++ (a ++ percent :: rest) ++ [newline_char])
    = Done ((h ++ a ++ [percent]) ++ [NUL])).
  { unfold sn_write, kOutputBufferSize in *.
    replace (h ++ (a ++ percent :: rest) ++ [newline_char])
      with ((h ++ a ++ [percent]) ++ rest ++ [newline_char]) by (by rewrite <- !app_assoc).
    assert (H2 : length (h ++ a ++ [percent]) = 1023) by (rewrite app_assoc, length_app, Hl; done).
    rewrite take_app_le, take_ge by lia. rewrite decide_True by (rewrite length_replicate; lia).
    rewrite drop_replicate, H2. reflexivity. }
  rewrite Hw. unfold lift at 1. erewrite bind_Done by done. unfold lift at 1.
  rewrite cstr_app by (rewrite app_assoc, not_elem_of_app; split; [done|not_in]).
  erewrite bind_Done by done. unfold vsnprintf. rewrite app_assoc, printf_after by done. done.
Qed.

(** ** Logging in other states *)

(** The moment has a time stamp the array of [vLogMessage] can hold. *)
Definition good_moment (e : moment) : Prop :=
  verbatim (default [] (strftime e)) ∧ length (default [] (strftime e)) < kDateTimeBufferSize.

Definition exit_code (e : moment) : Z := if decide (errno e = 0%Z) then EXIT_FAILURE else errno e.

Lemma exit_code_fails e : exit_code e ≠ EXIT_SUCCESS.
Proof. unfold exit_code, EXIT_FAILURE, EXIT_SUCCESS. by case_decide. Qed.

Lemma decimal_length z : length (decimal z) ≤ 21.
Proof.
  assert (H : ∀ f n, length (digits f n) ≤ f).
  { induction f as [|f IH]; intros n; cbn [digits]; [done|].
    specialize (IH (n / 10)). case_decide; [cbn; lia|]. rewrite length_app. cbn [length]. lia. }
  pose proof (H 20 (Z.to_nat z)). pose proof (H 20 (Z.to_nat (- z))).
  unfold decimal. case_match; [|lia]. rewrite length_app. change (length (lit "-")) with 1. lia.
Qed.

Lemma header_length e s : good_moment e → length (header e (label_of s)) < 170.
Proof.
  intros [_ H]. unfold kDateTimeBufferSize in H. unfold header, pad_left, pad_right, separator.
  pose proof (decimal_length (getpid e)). pose proof (decimal_length (wrap_long (pthread_self e))).
  assert (length (label_of s) ≤ 7) by (destruct s; cbn; lia).
  repeat rewrite length_app. rewrite !length_replicate.
  change (length (lit " | ")) with 3. lia.
Qed.

(** A text without terminator inside, from parts without. *)
Definition arg_ok (a : arg) : Prop := match a with AStr s => NUL ∉ s | AInt _ => True end.

Lemma printf_nul f args t : NUL ∉ f → Forall arg_ok args → printf f args = Done t → NUL ∉ t.
Proof.
  remember (length f) as n eqn:Hn. assert (Hle : length f ≤ n) by lia. clear Hn. revert f args t Hle.
  induction n as [|n IH]; intros [|c f] args t Hle Hf Ha; cbn in Hle; try lia.
  1, 2: intros [= <-]; apply not_elem_of_nil.
  apply not_elem_of_cons in Hf as [Hc Hf]. cbn [printf]. case_decide.
  - destruct f as [|d f]; [done|]. apply not_elem_of_cons in Hf as [Hd Hf]. cbn in Hle.
    assert (IH' : ∀ args r, Forall arg_ok args → printf f args = Done r → NUL ∉ r)
      by (intros args' r Ha' E; exact (IH f args' r ltac:(lia) Hf Ha' E)).
    case_decide.
    + destruct (printf f args) as [r|] eqn:E; [|done]. intros [= <-]. apply not_elem_of_cons. eauto.
    + destruct args as [|[s|z] args]; [done| |]; apply Forall_cons in Ha as [Ha1 Ha]; (case_decide; [|done]);
        (destruct (printf f args) as [r|] eqn:E; [|done]); intros [= <-]; apply not_elem_of_app;
        (split; [|by eapply IH']); [done|apply decimal_verbatim].
  - destruct (printf f args) as [r|] eqn:E; [|done]. intros [= <-].
    apply not_elem_of_cons. split; [done|]. exact (IH f args r ltac:(lia) Hf Ha E).
Qed.

(** A format of the sources with the text it prints. *)
Record message_text (format : bytes) (args : list arg) (t : bytes) : Prop := MessageText {
  mt_format : NUL ∉ format;
  mt_short : length format < 800;
  mt_printed : printf format args = Done t;
  mt_args : Forall arg_ok args
}.

Lemma wp_log s e format args t l (Q : option Z → logger → Prop) :
  good_moment e → message_text format args t →
  (∀ lines, Q (if enabled l s && bool_decide (s = Fatal) then Some (exit_code e) else None)
              (MkLogger (vLogLevel l) lines)) →
  wp (log s e format args) l Q.
Proof.
  intros He [H1 H2 H3 H4] HQ. unfold log. step. step. destruct (enabled l s); cbn [andb] in HQ.
  - step. eapply wp_run.
    + apply (vLogMessage_line (Call s e format args) t). split; cbn; try done; [apply He| |by eapply printf_nul].
      pose proof (header_length e s He). rewrite length_app. unfold kOutputBufferSize. lia.
    + step. specialize (HQ (stream l ++ [line (Call s e format args) t])). unfold exit_code in HQ.
      destruct (decide (s = Fatal)) as [->|Hs].
      * destruct (decide (errno e = 0%Z)) as [Hz|Hz]; [by rewrite Hz|by rewrite (proj2 (Z.eqb_neq _ _) Hz)].
      * by rewrite bool_decide_eq_false_2 in HQ.
  - step. destruct l. apply HQ.
Qed.
