(* ===== verification/Tls.v ===== *)
(** * Contexts of the TLS library

    The sources create a context, configure it by calls that may be refused,
    and free it.  A context is the list of the calls made on it; whether the
    library accepts a call is a parameter, which may depend on the calls
    before.  A context that was freed stays known, so that its use is a fault. *)

From S2P Require Import Prelude.

Definition TLS1_2_VERSION : Z := 771.

(** The calls of the sources; those without a constructor argument are made
    with the same constants by server and client. *)
Inductive ctx_call : Type :=
  | SetMinProto (version : Z)
  | SetOptions      (* SSL_OP_ALL | SSL_OP_NO_RENEGOTIATION *)
  | SetMode         (* AUTO_RETRY | ENABLE_PARTIAL_WRITE | ACCEPT_MOVING_WRITE_BUFFER *)
  | SetVerifyNone
  | SetVerifyPeer
  | SetCipherList (ciphers : bytes)
  | UseCertificateChain (path : bytes)
  | UsePrivateKey (path : bytes)
  | CheckPrivateKey
  | LoadLocations (file dir : option bytes).

#[export] Instance ctx_call_eq_dec : EqDecision ctx_call.
Proof. solve_decision. Defined.

Definition kCiphers : bytes :=
  lit "TLS_AES_256_GCM_SHA384:TLS_CHACHA20_POLY1305_SHA256:TLS_AES_128_GCM_SHA256".

(** Contexts by address; [None] for one that was freed. *)
Abbreviation contexts := (list (option (list ctx_call))).

(** What the library answers. *)
Record tls_library : Type := TlsLibrary {
  ctx_new : bool;
  accepts : list ctx_call → ctx_call → bool
}.

Section Contexts.
Context (lib : tls_library).

Definition SSL_CTX_new : cmd contexts (option nat) := λ cs,
  if ctx_new lib then Done (Some (length cs), cs ++ [Some []]) else Done (None, cs).

(** A call on a context: whether it was accepted. *)
Definition ctx_do (p : option nat) (a : ctx_call) : cmd contexts bool := λ cs,
  match p with
  | None => Stuck NullDereference
  | Some i =>
    match cs !! i with
    | Some (Some calls) => Done (accepts lib calls a, <[i := Some (calls ++ [a])]> cs)
    | _ => Stuck DanglingPointer
    end
  end.

Definition SSL_CTX_free (p : option nat) : cmd contexts unit := λ cs,
  match p with
  | None => Done (tt, cs)
  | Some i =>
    match cs !! i with
    | Some (Some _) => Done (tt, <[i := None]> cs)
    | _ => Stuck DanglingPointer
    end
  end.

(** The last context is the one in use: its calls accumulate. *)
Lemma ctx_do_last cs calls a :
  ctx_do (Some (length cs)) a (cs ++ [Some calls]) = Done (accepts lib calls a, cs ++ [Some (calls ++ [a])]).
Proof.
  unfold ctx_do. rewrite list_lookup_middle by done. do 3 f_equal.
  by rewrite insert_app_r_alt, Nat.sub_diag by lia.
Qed.

Lemma ctx_free_last cs calls : SSL_CTX_free (Some (length cs)) (cs ++ [Some calls]) = Done (tt, cs ++ [None]).
Proof.
  unfold SSL_CTX_free. rewrite list_lookup_middle by done.
  by rewrite insert_app_r_alt, Nat.sub_diag by lia.
Qed.
End Contexts.
