(* ===== verification/Transport.v ===== *)
(** * Sending and receiving (src/server/server.c, src/client/client.c)

    [Server_send]/[Client_send] and [Server_receive]/[Client_receive] over a
    connection whose [SSL_write] and [SSL_read] answer as the environment
    decides: the answers are arguments. *)

From S2P Require Import Prelude.
From S2P Require Import CStr.
From S2P Require Import TrimLib.
From S2P Require Import MessageLib.
From S2P Require Import MessageSpec.

(** ** Sending *)

(** The loop around [SSL_write]: [writes] are the values it returns, one per
    call; the result is the value returned and the bytes handed over.  A run
    that needs more answers than there are is one that is still waiting. *)
Fixpoint send_loop (writes : list Z) (data : bytes) (sentTotal len : nat) : outcome (Z * bytes) :=
  match writes with
  | [] => Stuck OutOfFuel
  | sent :: writes =>
    if (sent <? 0)%Z then Done ((-1)%Z, [])
    else
      let k := Z.to_nat sent in
      if decide (sentTotal + k < len) then
        let! r := send_loop writes (drop k data) (sentTotal + k) len in
        Done (fst r, take k data ++ snd r)
      else Done (Z.of_nat (sentTotal + k), take k data)
  end.

Definition SOCKET_isValid (s : Z) : bool := (0 <=? s)%Z.

(** [client] is the socket of the connection, [None] for a [NULL] pointer. *)
Definition Server_send (client : option Z) (message : option C2HMessage) (writes : list Z)
    : outcome (Z * bytes) :=
  match client, message with
  | None, _ => Done ((-1)%Z, [])
  | _, None => Done ((-1)%Z, [])
  | Some socket, Some m =>
    let! r := C2HMessage_format m (replicate kBufferSize NUL) kBufferSize in
    if negb (SOCKET_isValid socket) then Done ((-1)%Z, [])
    else send_loop writes (snd r) 0 (fst r)
  end.

Definition Client_send (this : option unit) (message : option C2HMessage) (writes : list Z)
    : outcome (Z * bytes) :=
  match this, message with
  | None, _ => Done ((-1)%Z, [])
  | _, None => Done ((-1)%Z, [])
  | Some _, Some m =>
    let! r := C2HMessage_format m (replicate kBufferSize NUL) kBufferSize in
    send_loop writes (snd r) 0 (fst r)
  end.

(** ** Receiving *)

(** What [SSL_read] can answer: some bytes, end of the stream, "try again",
    or an error. *)
Inductive read_answer : Type :=
  | ReadData (bs : bytes)
  | ReadClosed
  | ReadAgain
  | ReadError.

(** The padding loop [for (i = length; i >= remaining; i--) data[i] = 0]. *)
Fixpoint pad_down (steps i : nat) (data : bytes) : outcome bytes :=
  match steps with
  | O => Done data
  | S steps =>
    if decide (i < length data) then pad_down steps (i - 1) (<[i := NUL]> data)
    else Stuck OutOfBounds
  end.

(** The first half of the two functions: the buffer to read into and the
    number of bytes that may be read. *)
Definition prepare (buffer : MessageBuffer) : outcome (MessageBuffer * nat) :=
  let data := bdata buffer in
  let len := length data in
  match data !! (len - 1) with
  | None => Stuck OutOfBounds
  | Some eob =>
    if decide (bstart buffer ≠ Some 0 ∧ eob ≠ NUL) then
      match bstart buffer with
      | None => Stuck NullDereference
      | Some start =>
        let remaining := len - start in
        let! data := memcpy data (drop start data) remaining in
        let! data := pad_down (len - remaining + 1) len data in
        Done (MkBuffer data (Some (remaining + 1)), len - (remaining + 1))
      end
    else Done (MkBuffer (replicate len NUL) (Some 0), len)
  end.

(** The loop around [SSL_read]. *)
Fixpoint read_loop (closed : Z) (reads : list read_answer) (buffer : MessageBuffer) (len : nat)
    : outcome (Z * MessageBuffer) :=
  match reads with
  | [] => Stuck OutOfFuel
  | ReadAgain :: reads => read_loop closed reads buffer len
  | ReadClosed :: _ | ReadError :: _ => Done (closed, buffer)
  | ReadData bs :: _ =>
    let start := default 0 (bstart buffer) in
    if decide (length bs ≤ len ∧ start + length bs ≤ length (bdata buffer))
    then Done (Z.of_nat (length bs),
               MkBuffer (take start (bdata buffer) ++ bs ++ drop (start + length bs) (bdata buffer))
                        (bstart buffer))
    else Stuck OutOfBounds
  end.

Definition Server_receive (buffer : MessageBuffer) (reads : list read_answer) : outcome (Z * MessageBuffer) :=
  let! r := prepare buffer in read_loop 0 reads (fst r) (snd r).

Definition Client_receive (buffer : MessageBuffer) (reads : list read_answer) : outcome (Z * MessageBuffer) :=
  let! r := prepare buffer in read_loop (-1) reads (fst r) (snd r).

(** ** The sending loop *)

(** Answers [SSL_write] may give for [n] bytes: each call hands over at least
    one of the bytes that are left, until none is. *)
Fixpoint full_writes (writes : list Z) (n : nat) : Prop :=
  match writes with
  | [] => False
  | w :: ws => (0 < w ≤ Z.of_nat n)%Z ∧ (w = Z.of_nat n ∨ full_writes ws (n - Z.to_nat w))
  end.

Lemma send_loop_full writes : ∀ data total len, total < len → full_writes writes (len - total) →
  len - total ≤ length data →
  send_loop writes data total len = Done (Z.of_nat len, take (len - total) data).
Proof.
  induction writes as [|w ws IH]; intros data total len Hlt Hw Hd; [done|].
  destruct Hw as [Hw Hrest]. cbn. rewrite (proj2 (Z.ltb_ge _ _)) by lia.
  case_decide as E.
  - destruct Hrest as [Hrest|Hrest]; [lia|].
    rewrite IH; [|lia| |rewrite length_drop; lia].
    + cbn. do 2 f_equal. rewrite take_take_drop. f_equal. lia.
    + by replace (len - (total + Z.to_nat w)) with (len - total - Z.to_nat w) by lia.
  - do 2 f_equal; [lia|]. f_equal. lia.
Qed.

(** A failed write: the loop stops and reports it. *)
Lemma send_loop_error writes : ∀ data total len w ws, total < len →
  Forall (λ x, 0 ≤ x)%Z writes → total + foldr (λ x n, Z.to_nat x + n) 0 writes < len → (w < 0)%Z →
  ∃ out, send_loop (writes ++ w :: ws) data total len = Done ((-1)%Z, out).
Proof.
  induction writes as [|x writes IH]; intros data total len w ws Hlt Hpos Hsum Hw.
  - exists []. cbn. by rewrite (proj2 (Z.ltb_lt _ _)).
  - inversion Hpos as [|? ? Hx Hpos']; subst. cbn in *. rewrite (proj2 (Z.ltb_ge _ _)) by lia.
    rewrite decide_True by lia.
    destruct (IH (drop (Z.to_nat x) data) (total + Z.to_nat x) len w ws) as (out & ->); [lia|done|lia|done|].
    by eexists.
Qed.

Lemma format_any m : (∃ p, command_prefix (mtype m) = Some p) →
  (∃ u, cstr (user m) = Done u) → (∃ c, cstr (content m) = Done c) →
  ∃ n out, C2HMessage_format m (replicate kBufferSize NUL) kBufferSize = Done (n, out)
    ∧ 0 < n ≤ kBufferSize ∧ length out = kBufferSize.
Proof.
  intros (p & Hp) (u & Hu) (c & Hc).
  destruct (text_inv _ _ _ Hu) as (? & _ & Hun). destruct (text_inv _ _ _ Hc) as (? & _ & Hcn).
  destruct (C2HMessage_format_run (mtype m) p u c Hp Hun Hcn m (replicate kBufferSize NUL) kBufferSize
    eq_refl Hu Hc) as (w & rest & Hf & Hl & Hw & _ & _); [unfold kBufferSize; lia|by rewrite length_replicate|].
  rewrite length_replicate in Hl. eexists _, _. split; [exact Hf|]. split; [lia|done].
Qed.

(** Sending: whatever the sizes in which [SSL_write] takes the data, a
    connection that takes all of it gets exactly the bytes of the formatted
    message, each once and in order, and both [Server_send] and
    [Client_send] return their number; a write error makes them return -1. *)
Theorem send_transmits (m : C2HMessage) (socket : Z) (writes : list Z) (n : nat) (out : bytes)
    (Hs : SOCKET_isValid socket = true)
    (Hf : C2HMessage_format m (replicate kBufferSize NUL) kBufferSize = Done (n, out))
    (Hn : 0 < n ≤ length out) :
  (full_writes writes n →
     Server_send (Some socket) (Some m) writes = Done (Z.of_nat n, take n out)
     ∧ Client_send (Some tt) (Some m) writes = Done (Z.of_nat n, take n out))
  ∧ (∀ w ws, Forall (λ x, 0 ≤ x)%Z writes → foldr (λ x k, Z.to_nat x + k) 0 writes < n → (w < 0)%Z →
     ∃ part, Server_send (Some socket) (Some m) (writes ++ w :: ws) = Done ((-1)%Z, part)
       ∧ Client_send (Some tt) (Some m) (writes ++ w :: ws) = Done ((-1)%Z, part)).
Proof.
  unfold Server_send, Client_send. rewrite Hf, Hs. cbn [outcome_bind fst snd negb]. split.
  - intros Hw. rewrite send_loop_full by (rewrite ?Nat.sub_0_r; (done || lia)). by rewrite Nat.sub_0_r.
  - intros w ws Hpos Hsum Hneg.
    destruct (send_loop_error writes out 0 n w ws) as (part & Hp); [lia|done|lia|done|].
    by exists part.
Qed.

Definition hello : C2HMessage := message_of kMessageTypeMsg (lit "bob") (lit "hello").

Lemma send_transmits_witness :
  Server_send (Some 7%Z) (Some hello) [4; 10; 3]%Z = Done (17%Z, lit "/msg [bob] hello" ++ [NUL])
  ∧ ∃ part, Client_send (Some tt) (Some hello) [4; -1]%Z = Done ((-1)%Z, part).
Proof.
  destruct (C2HMessage_format hello (replicate kBufferSize NUL) kBufferSize) as [[n out]|] eqn:Hf;
    [|vm_compute in Hf; discriminate].
  assert (Hn : n = 17) by (vm_compute in Hf; injection Hf as <- _; reflexivity).
  assert (Ho : take 17 out = lit "/msg [bob] hello" ++ [NUL] ∧ 17 ≤ length out).
  { vm_compute in Hf. injection Hf as _ <-. split; [reflexivity|]. cbn. lia. }
  subst n. destruct Ho as [Ho Hl]. split.
  - destruct (send_transmits hello 7 [4; 10; 3]%Z 17 out eq_refl Hf) as [H _]; [lia|].
    rewrite <- Ho. apply H. cbn. lia.
  - destruct (send_transmits hello 7 [4]%Z 17 out eq_refl Hf) as [_ H]; [lia|].
    destruct (H (-1)%Z [] ltac:(repeat constructor; lia) ltac:(cbn; lia) ltac:(lia)) as (part & _ & Hc).
    exists part. exact Hc.
Defined.

(** ** The receiving side *)

(** A buffer that is new or was read to its end. *)
Definition reusable (b : MessageBuffer) : Prop :=
  ∃ c, bdata b !! (length (bdata b) - 1) = Some c ∧ (c = NUL ∨ bstart b = Some 0).

Lemma prepare_reusable b : reusable b →
  prepare b = Done (MkBuffer (replicate (length (bdata b)) NUL) (Some 0), length (bdata b)).
Proof.
  intros (c & Hc & Hor). unfold prepare. rewrite Hc. rewrite decide_False; [done|].
  intros [H1 H2]. destruct Hor; [done|congruence].
Qed.

Lemma receive_data b bs again rest closed : reusable b → length bs ≤ length (bdata b) →
  (let! r := prepare b in read_loop closed (replicate again ReadAgain ++ ReadData bs :: rest) (fst r) (snd r))
  = Done (Z.of_nat (length bs), MkBuffer (bs ++ replicate (length (bdata b) - length bs) NUL) (Some 0)).
Proof.
  intros Hb Hl. rewrite (prepare_reusable _ Hb). cbn [outcome_bind fst snd].
  induction again as [|k IH]; [|exact IH]. cbn [app replicate read_loop bstart bdata].
  change (default 0 (Some 0)) with 0.
  rewrite decide_True by (rewrite length_replicate; lia). rewrite Nat.add_0_l, drop_replicate. done.
Qed.

(** The bytes a call of [Client_send] hands over to the connection. *)
Definition client_output (k : packet) (writes : list Z) : bytes :=
  match Client_send (Some tt) (Some (packet_message k)) writes with
  | Done (_, out) => out
  | Stuck _ => []
  end.

Lemma client_send_wire k writes : good_packet k → full_writes writes (length (packet_wire k) + 1) →
  Client_send (Some tt) (Some (packet_message k)) writes
  = Done (Z.of_nat (length (packet_wire k) + 1), packet_wire k ++ [NUL]).
Proof.
  intros G Hw. rewrite <- (transmitted_wire (replicate kBufferSize NUL) k) by (try done; apply length_replicate).
  destruct G as [G Hfit]. pose proof (good_prefix _ _ _ _ G) as Hp.
  pose proof (good_user _ _ _ _ G) as (Hun & _ & _).
  destruct (C2HMessage_format_run (ptype k) (pprefix k) (puser k) (ptext k) Hp Hun (good_nul _ _ _ _ G)
    (packet_message k) (replicate kBufferSize NUL) kBufferSize) as (w & rest & Hf & Hl & _ & _ & Ew);
    [done|apply array_text; [done|apply G]|apply array_text; apply G|unfold kBufferSize; lia|by rewrite length_replicate|].
  unfold transmitted, Client_send. rewrite Hf. cbn [outcome_bind fst snd].
  rewrite (Ew Hfit). change (wire _ _ _) with (packet_wire k).
  rewrite send_loop_full; [by rewrite Nat.sub_0_r|lia|by rewrite Nat.sub_0_r|].
  rewrite length_app. cbn. lia.
Qed.

Lemma client_output_wire k writes : good_packet k → full_writes writes (length (packet_wire k) + 1) →
  client_output k writes = packet_wire k ++ [NUL].
Proof. intros G Hw. unfold client_output. by rewrite client_send_wire. Qed.

(** C16. End to end: messages sent by a peer with [Client_send], whatever the
    sizes in which its writes are taken, that arrive in one read at a server
    whose buffer for the peer is new or was read to its end, are all
    returned by [C2HMessage_get], in order and unchanged. *)
Theorem send_receive_roundtrip (ks : list packet) (writes : list (list Z)) (b : MessageBuffer)
    (again room : nat)
    (G : Forall good_packet ks) (Hb : reusable b)
    (Hw : Forall2 (λ k ws, full_writes ws (length (packet_wire k) + 1)) ks writes)
    (Hlen : length (concat (zip_with client_output ks writes)) ≤ length (bdata b))
    (Hr : 2 * length ks ≤ room) :
  let data := concat (zip_with client_output ks writes) in
  ∃ b' r, Server_receive b (replicate again ReadAgain ++ [ReadData data])
      = Done (Z.of_nat (length data), b')
    ∧ drain (S (length ks)) b' room = Done ((packet_message <$> ks, blank_buffer (length (bdata b))), r).
Proof.
  cbn zeta. assert (Hs : concat (zip_with client_output ks writes) = stream ks).
  { clear Hlen Hr. induction Hw as [|k ws ks writes Hk Hw IH]; [done|].
    inversion G as [|? ? Gk Gs]; subst. cbn [zip_with concat].
    by rewrite IH, client_output_wire. }
  rewrite Hs in *. unfold Server_receive. rewrite receive_data by done.
  set (b' := MkBuffer (stream ks ++ replicate _ NUL) (Some 0)).
  destruct (drain_stream ks [] (length (bdata b) - length (stream ks)) b' room G eq_refl eq_refl Hr) as (r & Hd).
  exists b', r. split; [done|]. rewrite Hd. do 4 f_equal. unfold b'. cbn [bdata].
  rewrite length_app, length_replicate. lia.
Qed.

Lemma send_receive_roundtrip_witness :
  ∃ b' r, Server_receive (blank_buffer kMessageBufferSize)
      [ReadAgain; ReadData (client_output (Packet kMessageTypeMsg (lit "/msg") (lit "bob") (lit "hi")) [10; 4]%Z)]
      = Done (14%Z, b')
    ∧ drain 2 b' 2 = Done (([message_of kMessageTypeMsg (lit "bob") (lit "hi")], blank_buffer kMessageBufferSize), r).
Proof.
  destruct (send_receive_roundtrip [Packet kMessageTypeMsg (lit "/msg") (lit "bob") (lit "hi")] [[10; 4]%Z]
    (blank_buffer kMessageBufferSize) 1 2) as (b' & r & H1 & H2).
  - repeat (apply Forall_cons; split); [|by constructor]. split; [good_concrete|apply Nat.ltb_lt; vm_compute; reflexivity].
  - exists NUL. split; [vm_compute; reflexivity|by left].
  - apply Forall2_cons. split; [|by apply Forall2_nil].
    replace (length (packet_wire _) + 1) with 14 by (vm_compute; reflexivity). cbn. lia.
  - apply Nat.leb_le. vm_compute. reflexivity.
  - cbn. lia.
  - exists b', r. cbn [zip_with concat] in H1. rewrite app_nil_r in H1.
    assert (E : length (client_output (Packet kMessageTypeMsg (lit "/msg") (lit "bob") (lit "hi")) [10; 4]%Z) = 14)
      by (vm_compute; reflexivity).
    rewrite E in H1. split; [exact H1|].
    assert (E2 : length (bdata (blank_buffer kMessageBufferSize)) = kMessageBufferSize) by apply length_replicate.
    rewrite E2 in H2. exact H2.
Defined.

(** Fault: when the buffer is full to its last byte and was partly read,
    the two receive functions start padding at [data[length]], one past the
    array (for any leftover). *)
Theorem receive_leftover_faults (b : MessageBuffer) (start : nat) (c : ascii) (reads : list read_answer)
    (Hs : bstart b = Some start) (Hpos : 0 < start < length (bdata b))
    (Hc : bdata b !! (length (bdata b) - 1) = Some c) (Hne : c ≠ NUL) :
  Server_receive b reads = Stuck OutOfBounds ∧ Client_receive b reads = Stuck OutOfBounds.
Proof.
  assert (Hp : prepare b = Stuck OutOfBounds).
  { unfold prepare. rewrite Hc. rewrite decide_True by (split; [rewrite Hs; intros [= E]; lia|done]).
    rewrite Hs. unfold memcpy. rewrite decide_True by (rewrite length_drop; lia). cbn [outcome_bind].
    rewrite Nat.add_1_r. cbn [pad_down]. rewrite decide_False; [done|].
    rewrite length_app, length_take, !length_drop. lia. }
  unfold Server_receive, Client_receive. by rewrite Hp.
Qed.

Lemma receive_leftover_faults_witness :
  Server_receive (MkBuffer (lit "/msg a" ++ [NUL] ++ lit "/msg b") (Some 7)) [] = Stuck OutOfBounds.
Proof.
  exact (proj1 (receive_leftover_faults (MkBuffer (lit "/msg a" ++ [NUL] ++ lit "/msg b") (Some 7)) 7
    "b"%char [] eq_refl ltac:(cbn; lia) eq_refl ltac:(discriminate))).
Defined.

(** A message that arrives in two reads is not put together: the first
    part is taken for the whole message (the zeros of the buffer end it), and
    the second part, if it has no slash, is thrown away. *)
Theorem receive_splits_message (c1 c2 : bytes) (b : MessageBuffer) (room : nat)
    (G : good_packet (Packet kMessageTypeMsg kMessageTypePrefixMsg [] c1)) (Hb : reusable b)
    (Hs : "/"%char ∉ c2) (H1 : length c1 + 5 < length (bdata b)) (H2 : length c2 + 1 ≤ length (bdata b))
    (Hr : 4 ≤ room) :
  ∃ b1 b1' r1 b2, Server_receive b [ReadData (lit "/msg " ++ c1)] = Done (Z.of_nat (length c1 + 5), b1)
    ∧ drain 2 b1 room = Done (([message_of kMessageTypeMsg [] c1], b1'), r1)
    ∧ Server_receive b1' [ReadData (c2 ++ [NUL])] = Done (Z.of_nat (length c2 + 1), b2)
    ∧ drain 2 b2 r1 = Done (([], blank_buffer (length (bdata b))), r1).
Proof.
  set (k := Packet kMessageTypeMsg kMessageTypePrefixMsg [] c1) in *. set (n := length (bdata b)) in *.
  assert (Hw : packet_wire k = lit "/msg " ++ c1).
  { unfold packet_wire, wire. cbn [puser ptext pprefix k]. rewrite decide_True; [done|].
    unfold body. rewrite decide_False by (cbn; lia).
    pose proof (good_content _ _ _ _ (proj1 G) eq_refl) as Hne. cbn in Hne. destruct c1; [done|cbn; lia]. }
  assert (Hlw : length (lit "/msg " ++ c1) = length c1 + 5) by (rewrite length_app; cbn; lia).
  pose proof (receive_data b (lit "/msg " ++ c1) 0 [] 0 Hb ltac:(fold n; lia)) as Hrec.
  cbn [replicate app] in Hrec. fold n in Hrec. rewrite Hlw in Hrec.
  set (b1 := MkBuffer _ (Some 0)) in Hrec.
  destruct (drain_stream [k] [] (n - (length c1 + 6)) b1 room) as (r1 & Hd);
    [by apply Forall_singleton|..|done|cbn; lia|].
  { unfold b1. cbn [bdata stream flat_map app]. rewrite app_nil_r, Hw.
    replace (n - (length c1 + 5)) with (S (n - (length c1 + 6))) by lia. by rewrite <- !app_assoc. }
  assert (Hl1 : length (bdata b1) = n).
  { unfold b1. cbn [bdata]. rewrite length_app, length_replicate, Hlw. lia. }
  rewrite Hl1 in Hd.
  assert (Hreuse : reusable (blank_buffer n)).
  { exists NUL. split; [|by left]. cbn. rewrite length_replicate. apply lookup_replicate. split; [done|lia]. }
  pose proof (receive_data (blank_buffer n) (c2 ++ [NUL]) 0 [] 0 Hreuse) as Hrec2.
  rewrite length_app in Hrec2. cbn [length bdata blank_buffer replicate app] in Hrec2.
  rewrite length_replicate in Hrec2. specialize (Hrec2 ltac:(lia)).
  eexists b1, (blank_buffer n), r1, _. split_and!; [exact Hrec|exact Hd|exact Hrec2|].
  cbn [drain]. rewrite bind_Done with (a := (None, blank_buffer n)) (s' := r1); [done|].
  unfold C2HMessage_get.
  rewrite bind_Done with (a := (None, blank_buffer n)) (s' := r1); [done|].
  rewrite (Message_get_none [] ((c2 ++ [NUL]) ++ replicate (n - (length c2 + 1)) NUL)); [|done|done|].
  - cbn [bdata]. rewrite !length_app, length_replicate. cbn. do 5 f_equal. lia.
  - rewrite !not_elem_of_app. split_and!; [done|not_in|].
    intros Hin. by apply elem_of_replicate in Hin as [? _].
Qed.

Lemma receive_splits_message_witness :
  ∃ b1 b1' r1 b2, Server_receive (blank_buffer kMessageBufferSize) [ReadData (lit "/msg hel")] = Done (8%Z, b1)
    ∧ drain 2 b1 9 = Done (([message_of kMessageTypeMsg [] (lit "hel")], b1'), r1)
    ∧ Server_receive b1' [ReadData (lit "lo" ++ [NUL])] = Done (3%Z, b2)
    ∧ drain 2 b2 r1 = Done (([], blank_buffer kMessageBufferSize), r1).
Proof.
  destruct (receive_splits_message (lit "hel") (lit "lo") (blank_buffer kMessageBufferSize) 9)
    as (b1 & b1' & r1 & b2 & H1 & H2 & H3 & H4).
  - split; [good_concrete|apply Nat.ltb_lt; vm_compute; reflexivity].
  - exists NUL. split; [vm_compute; reflexivity|by left].
  - not_in.
  - apply Nat.ltb_lt. vm_compute. reflexivity.
  - apply Nat.leb_le. vm_compute. reflexivity.
  - lia.
  - exists b1, b1', r1, b2.
    assert (E : length (bdata (blank_buffer kMessageBufferSize)) = kMessageBufferSize) by apply length_replicate.
    rewrite E in H4. exact (conj H1 (conj H2 (conj H3 H4))).
Defined.
