(* ===== verification/ServerIO.v ===== *)
(** * One client of the server (src/server/server.c, src/lib/validate)

    Messages the server builds and sends or queues, the comparison functions
    of the client list, the check of nicknames, and the loop that handles
    what a client sent. *)

From S2P Require Import Prelude.
From S2P Require Import CStr.
From S2P Require Import TrimLib.
From S2P Require Import MessageLib.
From S2P Require Import MessageSpec.
From S2P Require Import Transport.

(** ** State

    What the code of one client's thread acts on: the allocations that will
    still succeed, the broadcast queue (a first-in first-out queue, see
    [CQueueLib]), the messages sent to the client so far, and the outcomes of
    the calls of [Server_send] to come (a positive number of bytes or not). *)
Record srv : Type := Srv {
  room : nat;
  messages : list C2HMessage;
  sent : list C2HMessage;
  answers : list bool
}.

Definition on_room {A} (m : cmd nat A) : cmd srv A := λ s,
  match m (room s) with
  | Done (a, r) => Done (a, Srv r (messages s) (sent s) (answers s))
  | Stuck w => Stuck w
  end.

Definition CQueue_push (m : C2HMessage) : cmd srv bool := λ s,
  Done (true, Srv (room s) (messages s ++ [m]) (sent s) (answers s)).

Definition send (m : C2HMessage) : cmd srv bool := λ s,
  match answers s with
  | [] => Stuck OutOfFuel
  | ok :: rest => Done (ok, Srv (room s) (messages s) (sent s ++ [m]) rest)
  end.

(** ** Messages built by the server *)

(** The text is formatted into a buffer first, and that buffer is then the
    format of [C2HMessage_create]. *)
Definition build_message (type : C2HMessageType) (format : bytes) (args : list arg)
    : cmd srv (option C2HMessage) :=
  buffer <- lift (vsnprintf (replicate kBufferSize NUL) kBufferSize format args);;
  b <- lift (cstr buffer);;
  on_room (C2HMessage_create type b []).

Definition Server_sendMessage (type : C2HMessageType) (format : bytes) (args : list arg) : cmd srv bool :=
  m <- build_message type format args;;
  match m with
  | None => ret false
  | Some m => send m
  end.

Definition Server_broadcastMessage (type : C2HMessageType) (format : bytes) (args : list arg) : cmd srv bool :=
  m <- build_message type format args;;
  match m with
  | None => ret false
  | Some m => CQueue_push m
  end.

(** ** Nicknames *)

(** [Regex_match] over the library's [regcomp] and [regexec], which answer
    with error codes: 1 for a match, 0 for none, -1 for an error. *)
Definition REG_NOMATCH : Z := 1.
Definition Regex_match (regcomp : bytes → Z) (regexec : bytes → bytes → Z) (subject pattern : bytes) : Z :=
  if negb (regcomp pattern =? 0)%Z then (-1)%Z
  else let code := regexec pattern subject in
       if (code =? 0)%Z then 1%Z else if (code =? REG_NOMATCH)%Z then 0%Z else (-1)%Z.

Definition kRegexNicknamePattern : bytes := lit "^[[:alpha:]][[:alnum:]!@#$%&]\{1,14\}$".

(** Every result but 0 counts as valid. *)
Definition Client_nicknameIsValid (regcomp : bytes → Z) (regexec : bytes → bytes → Z) (username : bytes) : bool :=
  negb (Regex_match regcomp regexec username kRegexNicknamePattern =? 0)%Z.

(** ** Comparison functions of the client list *)

(** The difference of two [unsigned long] is returned as an [int]. *)
Definition Client_findByThreadID (a b : Z) : Z := wrap_int ((a - b) mod SIZE_MOD).

(** [strncmp(a, b, n) == 0] on strings. *)
Definition same_nickname (a b : bytes) : bool :=
  bool_decide (take kMaxNicknameSize a = take kMaxNicknameSize b).

(** ** What a client sent *)

(** The loop over the messages of a client's buffer: the result is whether
    the client quits, and the buffer afterwards.  A broadcast message is
    freed and its pointer set to [NULL], which ends the loop. *)
Fixpoint handle_messages (fuel : nat) (nickname : bytes) (buffer : MessageBuffer)
    : cmd srv (bool * MessageBuffer) :=
  match fuel with
  | O => stuck OutOfFuel
  | S fuel =>
    r <- on_room (C2HMessage_get buffer);;
    match fst r with
    | None => ret (false, snd r)
    | Some message =>
      if decide (mtype message = kMessageTypeQuit) then ret (true, snd r) else
      if decide (mtype message = kMessageTypeMsg) then
        c <- lift (cstr (content message));;
        if decide (0 < length c) then
          ok <- Server_sendMessage kMessageTypeOk [] [];;
          if negb ok then handle_messages fuel nickname (snd r) else
          Server_broadcastMessage kMessageTypeMsg (lit "[%s] %s") [AStr nickname; AStr c];;;
          ret (false, snd r)
        else handle_messages fuel nickname (snd r)
      else handle_messages fuel nickname (snd r)
    end
  end.

(** ** Formats *)

Lemma printf_literal t : percent ∉ t → printf t [] = Done t.
Proof.
  induction t as [|c t IH]; intros H; [done|]. apply not_elem_of_cons in H as [Hc H]. cbn [printf].
  rewrite decide_False by done. by rewrite IH.
Qed.

(** The text has a conversion: a percent sign that is not doubled. *)
Lemma printf_conversion a rest : percent ∉ a → head rest ≠ Some percent →
  printf (a ++ percent :: rest) [] = Stuck BadFormat.
Proof.
  intros Ha Hr. induction a as [|c a IH]; cbn [app printf].
  - rewrite decide_True by done. destruct rest as [|d rest]; [done|].
    by rewrite decide_False by (intros ->; by apply Hr).
  - apply not_elem_of_cons in Ha as [Hc Ha]. rewrite decide_False by done. by rewrite IH.
Qed.

Lemma build_message_step type f args t s : printf f args = Done t → NUL ∉ t → length t < kBufferSize →
  build_message type f args s = on_room (C2HMessage_create type t []) s.
Proof.
  intros Hf Hn Hl. unfold build_message, vsnprintf. rewrite Hf. cbn [outcome_bind].
  rewrite sn_write_fits by (rewrite ?length_replicate; done).
  unfold lift at 1. erewrite bind_Done by done. unfold lift at 1. rewrite cstr_app by done.
  by erewrite bind_Done by done.
Qed.

(** A text without user name and without conversion. *)
Lemma build_plain type f args t s r : printf f args = Done t → NUL ∉ t → length t < kBufferSize →
  percent ∉ t → "["%char ∉ t → room s = S r →
  build_message type f args s = Done (Some (message_of type [] t), Srv r (messages s) (sent s) (answers s)).
Proof.
  intros Hf Hn Hl Hp Hb Hr. rewrite (build_message_step _ _ _ t) by done.
  unfold on_room. rewrite Hr.
  rewrite (C2HMessage_create_text _ _ _ t [] false); try done.
  - by apply printf_literal.
  - apply not_elem_of_nil.
  - unfold kMaxNicknameSize. cbn. lia.
  - cbn. lia.
  - intros _. unfold array. destruct (kBufferSize - length t) as [|k] eqn:E; [lia|].
    change (replicate (S k) NUL) with (NUL :: replicate k NUL). by rewrite Message_getUser_none.
Qed.

(** A text "[user] content". *)
Definition quoted (u c : bytes) : bytes := lit "[" ++ u ++ lit "] " ++ c.

Lemma build_quoted type f args u c s r : printf f args = Done (quoted u c) → is_user_type type →
  plain u → 0 < length u → length u < kMaxNicknameSize → NUL ∉ c → percent ∉ u → percent ∉ c →
  length (quoted u c) < kBufferSize → room s = S r →
  build_message type f args s = Done (Some (message_of type u c), Srv r (messages s) (sent s) (answers s)).
Proof.
  intros Hf Ht Hu Hpos Hlu Hc Hpu Hpc Hl Hr.
  assert (Hn : NUL ∉ quoted u c).
  { unfold quoted. rewrite !not_elem_of_app. split_and!; [not_in|apply Hu|not_in|done]. }
  rewrite (build_message_step _ _ _ (quoted u c)) by done.
  unfold on_room. rewrite Hr.
  rewrite (C2HMessage_create_text _ _ _ (quoted u c) u true); try done.
  - rewrite decide_True by done. do 4 f_equal. unfold quoted.
    replace (lit "[" ++ u ++ lit "] " ++ c) with ((lit "[" ++ u ++ lit "] ") ++ c) by (by rewrite <- !app_assoc).
    replace (length u + 3) with (length (lit "[" ++ u ++ lit "] ")) by (rewrite !length_app; cbn; lia).
    by rewrite drop_app_length.
  - apply printf_literal. unfold quoted. rewrite !not_elem_of_app. split_and!; [not_in|done|not_in|done].
  - apply Hu.
  - intros _. unfold quoted. rewrite !length_app. cbn. lia.
  - intros _. unfold array, quoted. rewrite <- !app_assoc.
    replace (lit "] " ++ c ++ replicate (kBufferSize - length (lit "[" ++ u ++ lit "] " ++ c)) NUL)
      with (lit "]" ++ (lit " " ++ c ++ replicate (kBufferSize - length (lit "[" ++ u ++ lit "] " ++ c)) NUL)) by done.
    apply (Message_getUser_found []); try done. split_and!; apply not_elem_of_nil.
Qed.

(** ** Properties *)

(** A broadcast of "[nickname] text" puts into the queue exactly the
    message with that user name and that text, when neither has a percent
    sign and the text fits; the user name is the nickname of the client
    whatever brackets the text contains. *)
Theorem Server_broadcastMessage_text (u c : bytes) (s : srv) (r : nat)
    (Hu : plain u) (Hpos : 0 < length u) (Hlu : length u < kMaxNicknameSize) (Hc : NUL ∉ c)
    (Hpu : percent ∉ u) (Hpc : percent ∉ c) (Hl : length (quoted u c) < kBufferSize)
    (Hr : room s = S r) :
  Server_broadcastMessage kMessageTypeMsg (lit "[%s] %s") [AStr u; AStr c] s
  = Done (true, Srv r (messages s ++ [message_of kMessageTypeMsg u c]) (sent s) (answers s)).
Proof.
  unfold Server_broadcastMessage.
  run (build_quoted kMessageTypeMsg _ _ u c s r (printf_user u c) (or_introl eq_refl)
         Hu Hpos Hlu Hc Hpu Hpc Hl Hr). done.
Qed.

Lemma Server_broadcastMessage_text_witness :
  Server_broadcastMessage kMessageTypeMsg (lit "[%s] %s") [AStr (lit "bob"); AStr (lit "see [this]")]
    (Srv 1 [] [] [])
  = Done (true, Srv 0 [message_of kMessageTypeMsg (lit "bob") (lit "see [this]")] [] []).
Proof.
  apply (Server_broadcastMessage_text (lit "bob") (lit "see [this]") (Srv 1 [] [] []) 0);
    [split_and!; not_in|cbn; lia|unfold kMaxNicknameSize; cbn; lia|not_in|not_in|not_in
    |apply Nat.ltb_lt; vm_compute; reflexivity|reflexivity].
Defined.

(** Fault: the text of a client is used as a format.  For any nickname
    without a percent sign, a chat text with a conversion in it ("100% s",
    "%n", a percent sign at the end) is undefined behaviour in the thread
    that broadcasts it. *)
Theorem Server_broadcastMessage_format_fault (u a rest : bytes) (s : srv)
    (Hu : percent ∉ u) (Ha : percent ∉ a) (Hd : head rest ≠ Some percent)
    (Hn : NUL ∉ quoted u (a ++ percent :: rest))
    (Hl : length (quoted u (a ++ percent :: rest)) < kBufferSize) :
  room s ≠ 0 →
  Server_broadcastMessage kMessageTypeMsg (lit "[%s] %s") [AStr u; AStr (a ++ percent :: rest)] s
  = Stuck BadFormat.
Proof.
  intros Hr. unfold Server_broadcastMessage. apply bind_Stuck.
  rewrite (build_message_step _ _ _ (quoted u (a ++ percent :: rest))) by (try done; apply printf_user).
  unfold on_room, C2HMessage_create. destruct (room s) as [|r] eqn:E; [done|].
  erewrite bind_Done by done. cbn [negb]. unfold vsnprintf.
  replace (quoted u (a ++ percent :: rest)) with ((lit "[" ++ u ++ lit "] " ++ a) ++ percent :: rest)
    by (unfold quoted; by rewrite <- !app_assoc).
  rewrite printf_conversion; [done| |done].
  rewrite !not_elem_of_app. split_and!; [not_in|done|not_in|done].
Qed.

Lemma Server_broadcastMessage_format_fault_witness :
  Server_broadcastMessage kMessageTypeMsg (lit "[%s] %s") [AStr (lit "bob"); AStr (lit "100% sure")]
    (Srv 5 [] [] []) = Stuck BadFormat.
Proof.
  apply (Server_broadcastMessage_format_fault (lit "bob") (lit "100") (lit " sure") (Srv 5 [] [] []));
    [not_in|not_in|discriminate|not_in|apply Nat.ltb_lt; vm_compute; reflexivity|discriminate].
Defined.

(** The message loop on what a client sent. *)
Lemma handle_first_msg fuel nick b b' c s r1 r2 ok rest : 
  C2HMessage_get b (room s) = Done ((Some (message_of kMessageTypeMsg [] c), b'), r1) →
  NUL ∉ c → c ≠ [] → length c < kBufferSize → r1 = S (S r2) → answers s = ok :: rest → ok = true →
  plain nick → 0 < length nick → length nick < kMaxNicknameSize → percent ∉ nick → percent ∉ c →
  length (quoted nick c) < kBufferSize →
  handle_messages (S fuel) nick b s =
    Done ((false, b'), Srv r2 (messages s ++ [message_of kMessageTypeMsg nick c])
                              (sent s ++ [message_of kMessageTypeOk [] []]) rest).
Proof.
  intros Hg Hn Hne Hl -> Ha -> Hu Hpos Hlu Hpn Hpc Hq. cbn [handle_messages].
  erewrite bind_Done by (unfold on_room; rewrite Hg; reflexivity). cbn [fst snd mtype message_of content].
  rewrite decide_False, decide_True by done. unfold lift at 1. rewrite array_text by done.
  erewrite bind_Done by done. rewrite decide_True by (destruct c; [done|cbn; lia]).
  unfold Server_sendMessage. rewrite bind_bind.
  erewrite bind_Done by (apply (build_plain kMessageTypeOk [] [] [] _ (S r2)); try done;
    [apply not_elem_of_nil|unfold kBufferSize; cbn; lia|apply not_elem_of_nil|apply not_elem_of_nil]).
  cbn [messages sent answers]. unfold send at 1. erewrite bind_Done by (cbn; rewrite Ha; reflexivity).
  cbn [negb]. erewrite bind_Done; [done|].
  unfold Server_broadcastMessage. cbn [room messages sent answers].
  run (build_quoted kMessageTypeMsg _ _ nick c
    (Srv (S r2) (messages s) (sent s ++ [message_of kMessageTypeOk [] []]) rest) r2
    (printf_user nick c) (or_introl eq_refl) Hu Hpos Hlu Hn Hpn Hpc Hq eq_refl). done.
Qed.

(** The first packet of a stream, read from the start of the buffer. *)
Lemma get_first_packet k ks z r : good_packet k →
  let data := stream (k :: ks) ++ replicate (S z) NUL in
  C2HMessage_get (MkBuffer data (Some 0)) (S (S r))
  = Done ((Some (packet_message k), MkBuffer data (Some (length (packet_wire k) + 1))), r).
Proof.
  intros G. cbn zeta. destruct (wire_slash k G) as (w & Hw & Hn).
  assert (Hd : bdata (MkBuffer (stream (k :: ks) ++ replicate (S z) NUL) (Some 0))
    = [] ++ ("/"%char :: w) ++ NUL :: (stream ks ++ replicate (S z) NUL)).
  { cbn [bdata stream flat_map]. rewrite Hw. cbn. by rewrite <- !app_assoc. }
  pose proof (Message_get_run [] w _ _ (S r) Hd eq_refl Hn) as Hm.
  rewrite decide_False in Hm by (by destruct (stream ks)).
  replace ("/"%char :: w ++ [NUL]) with (packet_wire k ++ [NUL]) in Hm by (by rewrite Hw).
  replace (length ([] ++ ("/"%char :: w) ++ [NUL])) with (length (packet_wire k) + 1) in Hm
    by (rewrite Hw; cbn; rewrite length_app; cbn; lia).
  exact (get_wire _ _ _ _ (proj1 G) _ _ _ _ Hm).
Qed.

(** Lost messages: when a client's data holds a chat message followed by
    any other messages, the loop that should retrieve all of them handles
    the first one and stops (its pointer is [NULL] after the broadcast), and
    the next [Server_receive] clears the buffer: the others, a "/quit"
    included, are never handled. *)
Theorem handle_messages_loses_the_rest (nick c : bytes) (ks : list packet) (z r fuel : nat)
    (s : srv) (rest : list bool) (d : bytes)
    (G : good_packet (Packet kMessageTypeMsg kMessageTypePrefixMsg [] c))
    (Hroom : room s = S (S (S (S r)))) (Hans : answers s = true :: rest)
    (Hu : plain nick) (Hpos : 0 < length nick) (Hlu : length nick < kMaxNicknameSize)
    (Hpn : percent ∉ nick) (Hpc : percent ∉ c) (Hq : length (quoted nick c) < kBufferSize)
    (Hlen : length d ≤ length (stream (Packet kMessageTypeMsg kMessageTypePrefixMsg [] c :: ks)) + S z) :
  let data := stream (Packet kMessageTypeMsg kMessageTypePrefixMsg [] c :: ks) ++ replicate (S z) NUL in
  ∃ b', handle_messages (S fuel) nick (MkBuffer data (Some 0)) s =
      Done ((false, b'), Srv r (messages s ++ [message_of kMessageTypeMsg nick c])
                               (sent s ++ [message_of kMessageTypeOk [] []]) rest)
    ∧ Server_receive b' [ReadData d]
      = Done (Z.of_nat (length d), MkBuffer (d ++ replicate (length data - length d) NUL) (Some 0)).
Proof.
  cbn zeta. set (k := Packet kMessageTypeMsg kMessageTypePrefixMsg [] c) in *.
  pose proof (get_first_packet k ks z (S (S r)) G) as Hg. cbn zeta in Hg.
  set (b' := MkBuffer _ (Some (length (packet_wire k) + 1))) in Hg. exists b'. split.
  - destruct G as [G _]. apply (handle_first_msg fuel nick _ b' c s (S (S r)) r true rest);
      [by rewrite Hroom|exact (good_nul _ _ _ _ G)|exact (good_content _ _ _ _ G eq_refl)
      |exact (good_len _ _ _ _ G)|done..].
  - assert (Hb : reusable b').
    { exists NUL. split; [|by left]. unfold b'. cbn [bdata]. rewrite length_app, length_replicate.
      rewrite lookup_app_r by lia. apply lookup_replicate. split; [done|lia]. }
    exact (receive_data b' d 0 [] 0 Hb ltac:(unfold b'; cbn [bdata]; rewrite length_app, length_replicate; lia)).
Qed.

Lemma handle_messages_loses_the_rest_witness :
  ∃ b', handle_messages 5 (lit "bob")
      (MkBuffer (stream [Packet kMessageTypeMsg kMessageTypePrefixMsg [] (lit "hi");
                         Packet kMessageTypeMsg kMessageTypePrefixMsg [] (lit "there");
                         Packet kMessageTypeQuit kMessageTypePrefixQuit [] []]
                 ++ replicate 2000 NUL) (Some 0)) (Srv 9 [] [] [true])
    = Done ((false, b'), Srv 5 [message_of kMessageTypeMsg (lit "bob") (lit "hi")]
                               [message_of kMessageTypeOk [] []] []).
Proof.
  destruct (handle_messages_loses_the_rest (lit "bob") (lit "hi")
    [Packet kMessageTypeMsg kMessageTypePrefixMsg [] (lit "there"); Packet kMessageTypeQuit kMessageTypePrefixQuit [] []]
    1999 5 4 (Srv 9 [] [] [true]) [] []) as (b' & H & _);
    [split; [good_concrete|apply Nat.ltb_lt; vm_compute; reflexivity]|reflexivity|reflexivity
    |split_and!; not_in|cbn; lia|unfold kMaxNicknameSize; cbn; lia|not_in|not_in
    |apply Nat.ltb_lt; vm_compute; reflexivity|cbn [length]; lia|].
  exists b'. exact H.
Defined.

(** The comparison by thread truncates a 64-bit difference to an [int]:
    it reports equal exactly the thread identifiers that agree in their low
    32 bits, so different threads can be taken for the same. *)
Theorem Client_findByThreadID_truncates (a b : Z)
    (Ha : (0 ≤ a < SIZE_MOD)%Z) (Hb : (0 ≤ b < SIZE_MOD)%Z) :
  Client_findByThreadID a b = 0%Z ↔ (a mod UINT_MOD = b mod UINT_MOD)%Z.
Proof.
  unfold Client_findByThreadID, wrap_int, SIZE_MOD, UINT_MOD in *.
  assert (Hm : (((a - b) mod 18446744073709551616 + 2147483648) mod 4294967296
                = (a - b + 2147483648) mod 4294967296)%Z).
  { rewrite <- (Zplus_mod_idemp_l ((a - b) mod 18446744073709551616)).
    replace 18446744073709551616%Z with (4294967296 * 4294967296)%Z by lia.
    rewrite Z.mod_mod_divide by (exists 4294967296%Z; lia).
    by rewrite Zplus_mod_idemp_l. }
  rewrite Hm. split; intros H.
  - assert (E : ((a - b + 2147483648) mod 4294967296 = 2147483648)%Z) by lia.
    assert (H0 : ((a - b) mod 4294967296 = 0)%Z).
    { replace (a - b)%Z with ((a - b + 2147483648) - 2147483648)%Z by lia.
      rewrite Zminus_mod, E. reflexivity. }
    rewrite <- (Z.sub_add b a) at 1. rewrite Zplus_mod, H0, Z.add_0_l. by rewrite Z.mod_mod by lia.
  - rewrite <- Zplus_mod_idemp_l, Zminus_mod, H, Z.sub_diag. reflexivity.
Qed.

Lemma Client_findByThreadID_truncates_witness :
  Client_findByThreadID 4294967297 1 = 0%Z.
Proof.
  apply (Client_findByThreadID_truncates 4294967297 1); [unfold SIZE_MOD; lia|unfold SIZE_MOD; lia|reflexivity].
Defined.

(** An error of the regular expression library counts as a valid
    nickname: the branch that should log it and refuse is never reached. *)
Theorem Client_nicknameIsValid_accepts_errors (regcomp : bytes → Z) (regexec : bytes → bytes → Z)
    (username : bytes) :
  (regcomp kRegexNicknamePattern ≠ 0%Z → Client_nicknameIsValid regcomp regexec username = true)
  ∧ (regcomp kRegexNicknamePattern = 0%Z →
     (Client_nicknameIsValid regcomp regexec username = false
      ↔ regexec kRegexNicknamePattern username = REG_NOMATCH)).
Proof.
  unfold Client_nicknameIsValid, Regex_match. split; intros H.
  - by rewrite (proj2 (Z.eqb_neq _ _) H).
  - rewrite H. change (negb (0 =? 0)%Z) with false. cbv iota zeta.
    destruct (Z.eqb_spec (regexec kRegexNicknamePattern username) 0) as [E|E].
    + rewrite E. split; [done|]. by intros [=].
    + by destruct (Z.eqb_spec (regexec kRegexNicknamePattern username) REG_NOMATCH).
Qed.
