(* ===== verification/ServerSys.v ===== *)
(** * The server as a system of threads (src/server/server.c)

    The main thread, one thread per client and the broadcast thread, with the
    state they share: the list of clients with its cursor, the client
    structures the list owns, the queue of messages and the termination flag.

    Each thread is a program counter.  [step] is executable: a label says
    which thread moves and what the operating system, the network and the TLS
    library answer; the result is [None] when the thread cannot move, a fault
    when what it does is undefined, and the next state otherwise.  A critical
    section that is entered and left in one function (a search, a deletion,
    [List_next] of the broadcast thread) is one step, possible only when the
    main thread does not hold [clientsLock]; the main thread, which starts a
    client's thread while holding it, has separate steps for that. *)

From S2P Require Import Prelude.
From S2P Require Import CStr.
From S2P Require Import ListSpec.
From S2P Require Import MessageLib.
From S2P Require Import MessageSpec.
From S2P Require Import Transport.
From S2P Require Import ServerIO.

Definition kAuthenticationTimeout : Z := 30.
Definition kChatTimeout : Z := 180.

Definition kErrorMessageInvalidUsername : bytes :=
  lit "Nicknames must start with a letter and contain 2-15 latin characters and !@#$%&".

(** ** Data *)

(** A client structure; [ssl] says whether its TLS handle is still allocated. *)
Record Client : Type := MkClient {
  threadID : Z;
  nickname : bytes;
  socket : Z;
  buffer : MessageBuffer;
  ssl : bool
}.

Definition set_threadID (t : Z) (c : Client) : Client := MkClient t (nickname c) (socket c) (buffer c) (ssl c).
Definition set_nickname (n : bytes) (c : Client) : Client := MkClient (threadID c) n (socket c) (buffer c) (ssl c).
Definition set_buffer (b : MessageBuffer) (c : Client) : Client := MkClient (threadID c) (nickname c) (socket c) b (ssl c).
Definition free_ssl (c : Client) : Client := MkClient (threadID c) (nickname c) (socket c) (buffer c) false.

(** The structure the main thread fills and the list copies. *)
Definition new_client (socket : Z) : Client := MkClient 0 [] socket (blank_buffer kMessageBufferSize) true.

(** ** The list of clients

    The addresses of the client structures, in order, and the cursor of the
    list; [None] is a cursor that points to a deleted node. *)
Record roster : Type := Roster { members : list nat; cursor : option nat }.

Definition roster_append (a : nat) (r : roster) : roster :=
  Roster (members r ++ [a]) (match members r with
                             | [] => Some 0
                             | _ => (λ i, if decide (i < length (members r)) then i else S i) <$> cursor r
                             end).

Definition roster_delete (pos : nat) (r : roster) : roster :=
  Roster (take pos (members r) ++ drop (S pos) (members r))
         (if decide (pos = 0) then Some 0 else
          i ← cursor r;
          if decide (i < pos) then Some i else if decide (i = pos) then None else Some (i - 1)).

Definition roster_rewind (r : roster) : roster :=
  match members r with [] => r | _ => Roster (members r) (Some 0) end.

Definition roster_next (r : roster) : outcome (option nat * roster) :=
  match cursor r with
  | None => Stuck DanglingPointer
  | Some i => match members r !! i with
              | Some a => Done (Some a, Roster (members r) (Some (S i)))
              | None => Done (None, r)
              end
  end.

(** ** Program counters *)

(** A client's thread.  [HDrop k] is a call of [Server_dropClient] that goes
    on at [k] if it returns; [time] is what is left of the timeout handed to
    [select], [waited] the time spent waiting so far. *)
Inductive hpc : Type :=
  | HStart
  | HWelcome
  | HPrompt
  | HWait (time : Z)
  | HLookup (nick : bytes)
  | HSelf (nick : bytes)
  | HSetNick (nick : bytes)
  | HDenied
  | HHello
  | HJoined
  | HChat (time waited : Z)
  | HLeave
  | HEnd
  | HDrop (k : hpc)
  | HDropSearch (tid : Z)
  | HExit.

Record cthread : Type := CThread { pointer : nat; at_ : hpc }.

Inductive bpc : Type :=
  | BNone
  | BPop
  | BRewind (m : C2HMessage)
  | BWhile (m : C2HMessage)
  | BNext (m : C2HMessage)
  | BCheck (m : C2HMessage) (a : nat)
  | BSend (m : C2HMessage) (a : nat)
  | BDrop (m : C2HMessage) (a : nat)
  | BDropSearch (a : nat) (tid : Z)
  | BSleep
  | BExit.

Inductive mpc : Type :=
  | MStart
  | MNewList
  | MNewQueue
  | MLoop
  | MAccepted (socket : Z)
  | MLock (socket : Z)
  | MAppend (socket : Z)
  | MSetID (a : nat) (t : Z)
  | MDetach (t : Z)
  | MJoin
  | MFreeList
  | MJoinBroadcast
  | MDone.

(** ** State

    [log] records the broadcasts that were sent: the number of the message
    (its position in [popped]), the client's address and the message; [said]
    everything handed to [Server_send], with the address of the client ([None]
    for a connection that is not accepted). *)
Record sys : Type := Sys {
  maxConnections : Z;
  main : mpc;
  broadcast : bpc;
  threads : gmap Z cthread;
  structs : gmap nat Client;
  brk : nat;
  clients : option roster;
  queue : option (list C2HMessage);
  terminate : bool;
  popped : list C2HMessage;
  log : list (nat * nat * C2HMessage);
  said : list (option nat * C2HMessage)
}.

Definition initial (max : Z) : sys :=
  Sys max MStart BNone ∅ ∅ 0 None None false [] [] [].

Definition set_main p s := Sys (maxConnections s) p (broadcast s) (threads s) (structs s) (brk s) (clients s) (queue s) (terminate s) (popped s) (log s) (said s).
Definition set_broadcast p s := Sys (maxConnections s) (main s) p (threads s) (structs s) (brk s) (clients s) (queue s) (terminate s) (popped s) (log s) (said s).
Definition set_threads ts s := Sys (maxConnections s) (main s) (broadcast s) ts (structs s) (brk s) (clients s) (queue s) (terminate s) (popped s) (log s) (said s).
Definition set_structs h s := Sys (maxConnections s) (main s) (broadcast s) (threads s) h (brk s) (clients s) (queue s) (terminate s) (popped s) (log s) (said s).
Definition set_brk n s := Sys (maxConnections s) (main s) (broadcast s) (threads s) (structs s) n (clients s) (queue s) (terminate s) (popped s) (log s) (said s).
Definition set_clients r s := Sys (maxConnections s) (main s) (broadcast s) (threads s) (structs s) (brk s) r (queue s) (terminate s) (popped s) (log s) (said s).
Definition set_queue q s := Sys (maxConnections s) (main s) (broadcast s) (threads s) (structs s) (brk s) (clients s) q (terminate s) (popped s) (log s) (said s).
Definition set_terminate b s := Sys (maxConnections s) (main s) (broadcast s) (threads s) (structs s) (brk s) (clients s) (queue s) b (popped s) (log s) (said s).
Definition set_popped l s := Sys (maxConnections s) (main s) (broadcast s) (threads s) (structs s) (brk s) (clients s) (queue s) (terminate s) l (log s) (said s).
Definition set_log l s := Sys (maxConnections s) (main s) (broadcast s) (threads s) (structs s) (brk s) (clients s) (queue s) (terminate s) (popped s) l (said s).
Definition set_said l s := Sys (maxConnections s) (main s) (broadcast s) (threads s) (structs s) (brk s) (clients s) (queue s) (terminate s) (popped s) (log s) l.

(** The main thread holds [clientsLock] between adding a client and writing
    its thread's identifier. *)
Definition locked (s : sys) : bool :=
  match main s with MAppend _ | MSetID _ _ => true | _ => false end.

(** ** Access to shared memory *)

Definition load_client (a : nat) (s : sys) : outcome Client :=
  match structs s !! a with Some c => Done c | None => Stuck DanglingPointer end.

(** A call of the TLS library needs a handle that has not been freed. *)
Definition load_connected (a : nat) (s : sys) : outcome Client :=
  let! c := load_client a s in
  if ssl c then Done c else Stuck DanglingPointer.

Definition load_roster (s : sys) : outcome roster :=
  match clients s with Some r => Done r | None => Stuck NullDereference end.

Definition store_client (a : nat) (f : Client → Client) (s : sys) : sys :=
  set_structs (alter f a (structs s)) s.

(** [List_search] with a comparison of client structures. *)
Definition search (same : Client → bool) (r : roster) (s : sys) : option (nat * nat) :=
  list_find (λ a, from_option same false (structs s !! a) = true) (members r).

(** ** Environment

    What the operating system, the network and the TLS library answer during
    one step of a thread. *)

Inductive select_result : Type :=
  | SelError
  | SelTimeout
  | SelReady (readable failed : bool).

Record io : Type := IO {
  io_select : select_result;
  io_elapsed : Z;
  io_reads : list read_answer;
  io_room : nat;
  io_answers : list bool
}.

(** A connection accepted on a socket, or none; the identifier of the thread
    that is created (0 when [pthread_create] fails). *)
Record accepting : Type := Accepting { acc_socket : option Z; acc_thread : Z }.

Inductive label : Type :=
  | LMain (e : accepting) (env : io)
  | LBroadcast (ok : bool)
  | LClient (t : Z) (env : io)
  | LSignal.

(** ** Client threads *)

Section Steps.
(** The regular expression library, and whether [select] subtracts the time
    it waited from the timeout it is given (Linux does, other systems do
    not). *)
Context (regcomp : bytes → Z) (regexec : bytes → bytes → Z) (updates_timeout : bool).

Definition remaining (time elapsed : Z) : Z :=
  if updates_timeout then (time - elapsed)%Z else time.

(** The answers of [select] that are possible with [time] seconds. *)
Definition select_allowed (time : Z) (env : io) : bool :=
  match io_select env with
  | SelTimeout => (io_elapsed env =? time)%Z
  | _ => ((0 <=? io_elapsed env) && (io_elapsed env <=? time))%Z
  end.

(** Run a function of [ServerIO] for a client against the shared queue. *)
Definition with_io {A} (a : option nat) (env : io) (m : cmd srv A) (s : sys) : outcome (A * sys) :=
  let! r := m (Srv (io_room env) (default [] (queue s)) [] (io_answers env)) in
  let s := set_said (said s ++ ((a,.) <$> sent r.2)) s in
  Done (r.1, match queue s with Some _ => set_queue (Some (messages r.2)) s | None => s end).

(** [Server_sendMessage] to a client. *)
Definition say (a : nat) (env : io) (type : C2HMessageType) (format : bytes) (args : list arg)
    (s : sys) : outcome (bool * sys) :=
  let! _ := load_connected a s in
  with_io (Some a) env (Server_sendMessage type format args) s.

(** [Server_broadcastMessage] *)
Definition announce (env : io) (type : C2HMessageType) (format : bytes) (args : list arg)
    (s : sys) : outcome (bool * sys) :=
  match queue s with
  | None => Stuck NullDereference
  | Some _ => with_io None env (Server_broadcastMessage type format args) s
  end.

Definition goto (t : Z) (p : hpc) (s : sys) : sys :=
  set_threads (alter (λ th, CThread (pointer th) p) t (threads s)) s.

(** [Server_getClientInfoForNickname] and [Server_getClientInfoForThread] *)
Definition has_nickname (nick : bytes) (c : Client) : bool := same_nickname (nickname c) nick.
Definition has_thread (t : Z) (c : Client) : bool := (Client_findByThreadID (threadID c) t =? 0)%Z.

Definition Server_getClientInfoForNickname (nick : bytes) (s : sys) : outcome (option nat) :=
  let! r := load_roster s in Done (snd <$> search (has_nickname nick) r s).

Definition Server_getClientInfoForThread (t : Z) (s : sys) : outcome (option nat) :=
  let! r := load_roster s in Done (snd <$> search (has_thread t) r s).

(** The part of [Server_dropClient] that holds the lock: the connection of
    the client is closed, and the first entry of the list with the thread's
    identifier is deleted. *)
Definition drop_locked (a : nat) (tid : Z) (s : sys) : outcome sys :=
  let! r := load_roster s in
  match search (has_thread tid) r s with
  | None => Done s
  | Some (i, b) =>
    let! _ := load_connected a s in
    let s := store_client a free_ssl s in
    Done (set_structs (delete b (structs s)) (set_clients (Some (roster_delete i r)) s))
  end.

(** [Server_authenticate] from its call of [select] on: [k] is what is
    reached with a valid nickname. *)
Definition auth_wait (a : nat) (time : Z) (env : io) (s : sys) : outcome (hpc * sys) :=
  let time' := remaining time (io_elapsed env) in
  let rest (failed : bool) (c : Client) (s : sys) : outcome (hpc * sys) :=
    Done (if failed then HDenied else if SOCKET_isValid (socket c) then HWait time' else HDenied, s) in
  match io_select env with
  | SelError => Done (HWait time', s)
  | SelTimeout =>
    let! r := say a env kMessageTypeErr (lit "Authentication timeout expired!") [] s in
    Done (HDenied, r.2)
  | SelReady false failed => let! c := load_client a s in rest failed c s
  | SelReady true failed =>
    let! c := load_connected a s in
    let! r := Server_receive (buffer c) (io_reads env) in
    let s := store_client a (set_buffer r.2) s in
    if (0 <? r.1)%Z then
      let! g := C2HMessage_get r.2 (io_room env) in
      let s := store_client a (set_buffer g.1.2) s in
      match g.1.1 with
      | None => Done (HDenied, s)
      | Some m =>
        if decide (mtype m = kMessageTypeNick) then
          let! nick := cstr (content m) in
          if Client_nicknameIsValid regcomp regexec nick then Done (HLookup nick, s)
          else
            let! r := say a env kMessageTypeErr kErrorMessageInvalidUsername [] s in
            Done (HDenied, r.2)
        else rest failed c s
      end
    else if (r.1 =? 0)%Z then Done (HDenied, s)
    else rest failed c s
  end.

(** One turn of the chat loop of [Server_handleClient]. *)
Definition chat_turn (a : nat) (time waited : Z) (env : io) (s : sys) : outcome (hpc * sys) :=
  let time' := remaining time (io_elapsed env) in
  let again := HChat time' (waited + io_elapsed env) in
  match io_select env with
  | SelError => Done (again, s)
  | SelTimeout =>
    let! r := say a env kMessageTypeErr (lit "Connection timed out, you've been disconnected!") [] s in
    Done (HLeave, r.2)
  | SelReady false _ =>
    let! c := load_client a s in
    Done (if SOCKET_isValid (socket c) then again else HLeave, s)
  | SelReady true _ =>
    let! c := load_connected a s in
    let! r := Server_receive (buffer c) (io_reads env) in
    let s := store_client a (set_buffer r.2) s in
    if (r.1 <=? 0)%Z then Done (HLeave, s)
    else
      match queue s with
      | None => Stuck NullDereference
      | Some _ =>
        let! h := with_io (Some a) env (handle_messages (S (length (bdata r.2))) (nickname c) r.2) s in
        let s := store_client a (set_buffer h.1.2) h.2 in
        Done (if h.1.1 then HLeave else if SOCKET_isValid (socket c) then again else HLeave, s)
      end
  end.

(** One step of the thread [me], whose client is at [a]; [None] when it
    waits for the lock or the answer is not possible. *)
Definition client_step (me : Z) (a : nat) (p : hpc) (env : io) (s : sys) : option (outcome sys) :=
  let jump (m : outcome (hpc * sys)) : option (outcome sys) :=
    Some (let! r := m in Done (goto me r.1 r.2)) in
  let sending (ok failed : hpc) (m : outcome (bool * sys)) :=
    jump (let! r := m in Done (if r.1 then ok else failed, r.2)) in
  match p with
  | HStart => jump (let! c := load_client a s in
                    Done (if (me =? threadID c)%Z then HWelcome else HDrop HWelcome, s))
  | HWelcome => sending HPrompt (HDrop HPrompt) (say a env kMessageTypeOk (lit "Welcome to C2hat!") [] s)
  | HPrompt => sending (HWait kAuthenticationTimeout) HDenied
                       (say a env kMessageTypeNick (lit "Please enter a nickname:") [] s)
  | HWait time => if select_allowed time env then jump (auth_wait a time env s) else None
  | HLookup nick =>
    if locked s then None else
    jump (let! found := Server_getClientInfoForNickname nick s in
          Done (match found with None => HSelf nick | Some _ => HDenied end, s))
  | HSelf nick =>
    if locked s then None else
    jump (let! found := Server_getClientInfoForThread me s in
          Done (if decide (found = Some a) then HSetNick nick else HDenied, s))
  | HSetNick nick =>
    jump (let! _ := load_client a s in
          Done (HHello, store_client a (set_nickname (take (kMaxNicknameSize - 1) nick)) s))
  | HDenied => jump (let! r := say a env kMessageTypeErr (lit "Authentication failed") [] s in
                     Done (HDrop HHello, r.2))
  | HHello => jump (let! c := load_client a s in
                    let! r := say a env kMessageTypeOk (lit "Hello %s!") [AStr (nickname c)] s in
                    Done (if r.1 then HJoined else HDrop HJoined, r.2))
  | HJoined => jump (let! c := load_client a s in
                     let! r := announce env kMessageTypeLog (lit "[%s] just joined the chat") [AStr (nickname c)] s in
                     Done (HChat kChatTimeout 0, r.2))
  | HChat time waited =>
    if terminate s then jump (Done (HLeave, s))
    else if select_allowed time env then jump (chat_turn a time waited env s) else None
  | HLeave => jump (let! c := load_client a s in
                    let! r := announce env kMessageTypeLog (lit "[%s] just left the chat") [AStr (nickname c)] s in
                    Done (HDrop HEnd, r.2))
  | HEnd => jump (let! _ := load_client a s in Done (HExit, s))
  | HDrop k => jump (let! c := load_client a s in
                     if (threadID c =? 0)%Z
                     then let! _ := load_connected a s in Done (k, store_client a free_ssl s)
                     else Done (HDropSearch (threadID c), s))
  | HDropSearch tid =>
    if locked s then None else jump (let! s' := drop_locked a tid s in Done (HExit, s'))
  | HExit => None
  end.

(** ** The broadcast thread *)

Definition broadcast_step (ok : bool) (s : sys) : option (outcome sys) :=
  let at_b p s := set_broadcast p s in
  match broadcast s with
  | BNone | BExit => None
  | BPop =>
    Some (match queue s with
          | None => Stuck NullDereference
          | Some [] => Done (at_b BSleep s)
          | Some (m :: q) => Done (at_b (BRewind m) (set_popped (popped s ++ [m]) (set_queue (Some q) s)))
          end)
  | BRewind m => Some (let! r := load_roster s in Done (at_b (BWhile m) (set_clients (Some (roster_rewind r)) s)))
  | BWhile m => Some (Done (at_b (if terminate s then BSleep else BNext m) s))
  | BNext m =>
    if locked s then None else
    Some (let! r := load_roster s in
          let! n := roster_next r in
          Done (at_b (match n.1 with None => BSleep | Some a => BCheck m a end) (set_clients (Some n.2) s)))
  | BCheck m a =>
    Some (let! c := load_client a s in
          Done (at_b (if decide (nickname c = []) then BWhile m
                      else if SOCKET_isValid (socket c) then BSend m a else BWhile m) s))
  | BSend m a =>
    Some (let! _ := load_connected a s in
          if ok then Done (at_b (BWhile m) (set_said (said s ++ [(Some a, m)]) (set_log (log s ++ [(pred (length (popped s)), a, m)]) s)))
          else Done (at_b (BDrop m a) s))
  | BDrop m a =>
    Some (let! c := load_client a s in
          if (threadID c =? 0)%Z
          then let! _ := load_connected a s in Done (at_b (BWhile m) (store_client a free_ssl s))
          else Done (at_b (BDropSearch a (threadID c)) s))
  | BDropSearch a tid =>
    if locked s then None else Some (let! s' := drop_locked a tid s in Done (at_b BExit s'))
  | BSleep => Some (Done (at_b (if terminate s then BExit else BPop) s))
  end.

(** ** The main thread: [Server_start] *)

(** The identifier of a new thread is not that of a running one. *)
Definition thread_available (t : Z) (s : sys) : bool :=
  (t =? 0)%Z || ((0 <? t) && (t <? SIZE_MOD))%Z &&
    match threads s !! t with Some (CThread _ HExit) | None => true | _ => false end.

Definition main_step (e : accepting) (env : io) (s : sys) : option (outcome sys) :=
  match main s with
  | MStart => Some (Done (set_main MNewList (set_broadcast BPop s)))
  | MNewList => Some (Done (set_main MNewQueue (set_clients (Some (Roster [] (Some 0))) s)))
  | MNewQueue => Some (Done (set_main MLoop (set_queue (Some []) s)))
  | MLoop =>
    Some (Done (set_main (if terminate s then MJoin
                          else match acc_socket e with None => MLoop | Some k => MAccepted k end) s))
  | MAccepted k =>
    Some (let! r := load_roster s in
          if (Z.of_nat (length (members r)) <? maxConnections s)%Z then Done (set_main (MLock k) s)
          else let! r := with_io None env (Server_sendMessage kMessageTypeErr (lit "connection limits reached") []) s in
               Done (set_main MLoop r.2))
  | MLock k => Some (Done (set_main (MAppend k) s))
  | MAppend k =>
    if negb (thread_available (acc_thread e) s) then None else
    Some (let! r := load_roster s in
          let a := brk s in
          let t := acc_thread e in
          let s := set_brk (S a) (set_structs (<[a := new_client k]> (structs s))
                     (set_clients (Some (roster_append a r)) s)) in
          Done (set_main (MSetID a t)
                  (if (t =? 0)%Z then s else set_threads (<[t := CThread a HStart]> (threads s)) s)))
  | MSetID a t => Some (let! _ := load_client a s in
                        Done (set_main (MDetach t) (store_client a (set_threadID t) s)))
  | MDetach t => Some (if (t =? 0)%Z then Stuck InvalidThread else Done (set_main MLoop s))
  | MJoin =>
    Some (let! r := load_roster s in
          let! n := roster_next r in
          match n.1 with
          | None => Done (set_main MFreeList (set_clients (Some n.2) s))
          | Some a => let! _ := load_client a s in Stuck InvalidThread
          end)
  | MFreeList =>
    Some (let! r := load_roster s in
          Done (set_main MJoinBroadcast (set_clients None
                  (set_structs (foldr delete (structs s) (members r)) s))))
  | MJoinBroadcast =>
    match broadcast s with
    | BExit => Some (Done (set_main MDone (set_queue None s)))
    | _ => None
    end
  | MDone => None
  end.

Definition step (l : label) (s : sys) : option (outcome sys) :=
  match l with
  | LMain e env => main_step e env s
  | LBroadcast ok => broadcast_step ok s
  | LClient t env =>
    match threads s !! t with
    | Some (CThread a p) => client_step t a p env s
    | None => None
    end
  | LSignal => Some (Done (set_terminate true s))
  end.

(** The states the server can be in. *)
Inductive reachable (max : Z) : sys → Prop :=
  | reachable_init : reachable max (initial max)
  | reachable_step s l s' : reachable max s → step l s = Some (Done s') → reachable max s'.

(** Run a sequence of labels. *)
Fixpoint run (ls : list label) (s : sys) : option (outcome sys) :=
  match ls with
  | [] => Some (Done s)
  | l :: ls =>
    match step l s with
    | Some (Done s') => run ls s'
    | r => r
    end
  end.
End Steps.
