(* ===== verification/ServerInv.v ===== *)
(** * What the threads of the server do to its state

    The effect of one step of each thread on the shared state, as inductive
    relations that forget how messages are parsed and formatted, with the
    lemmas that every step of [ServerSys] has such an effect.  The invariants
    of the server are proved from the effects. *)

From S2P Require Import Prelude.
From S2P Require Import CStr.
From S2P Require Import MessageLib.
From S2P Require Import MessageSpec.
From S2P Require Import Transport.
From S2P Require Import ServerIO.
From S2P Require Import ServerSys.

(** ** The queue only grows at its end *)

Section Appends.
Context {A B : Type}.

Definition appends {T} (m : cmd srv T) : Prop :=
  ∀ s r, m s = Done r → messages s `prefix_of` messages r.2.

Lemma appends_bind (m : cmd srv A) (k : A → cmd srv B) :
  appends m → (∀ a, appends (k a)) → appends (bind m k).
Proof.
  intros Hm Hk s r. unfold bind. destruct (m s) as [[a s']|] eqn:E; [|done].
  intros H. trans (messages s'); [apply (Hm _ _ E)|apply (Hk _ _ _ H)].
Qed.

Lemma appends_ret (a : A) : appends (ret a).
Proof. intros s r [= <-]. done. Qed.

Lemma appends_lift (o : outcome A) : appends (lift o).
Proof. intros s r. unfold lift. destruct o; [|done]. by intros [= <-]. Qed.

Lemma appends_stuck w : appends (stuck w : cmd srv A).
Proof. done. Qed.

Lemma appends_on_room (m : cmd nat A) : appends (on_room m).
Proof. intros s r. unfold on_room. destruct (m (room s)) as [[a k]|]; [|done]. by intros [= <-]. Qed.
End Appends.

Lemma appends_send m : appends (send m).
Proof. intros s r. unfold send. destruct (answers s); [done|]. by intros [= <-]. Qed.

Lemma appends_push m : appends (CQueue_push m).
Proof. intros s r [= <-]. cbn. by exists [m]. Qed.

Create HintDb appends discriminated.
#[export] Hint Resolve appends_bind appends_ret appends_lift appends_stuck appends_on_room
  appends_send appends_push : appends.

Lemma appends_sendMessage type f args : appends (Server_sendMessage type f args).
Proof.
  unfold Server_sendMessage, build_message. apply appends_bind; [auto with appends|].
  intros [m|]; auto with appends.
Qed.

Lemma appends_broadcastMessage type f args : appends (Server_broadcastMessage type f args).
Proof.
  unfold Server_broadcastMessage, build_message. apply appends_bind; [auto with appends|].
  intros [m|]; auto with appends.
Qed.
#[export] Hint Resolve appends_sendMessage appends_broadcastMessage : appends.

Lemma appends_handle_messages fuel nick b : appends (handle_messages fuel nick b).
Proof.
  revert b. induction fuel as [|fuel IH]; intros b; cbn [handle_messages]; [auto with appends|].
  apply appends_bind; [auto with appends|]. intros [[m|] b']; cbn [fst snd]; [|auto with appends].
  repeat case_decide; auto with appends.
  apply appends_bind; [auto with appends|]. intros c. case_decide; [|auto].
  apply appends_bind; [auto with appends|]. intros [|]; cbn; [|auto].
  apply appends_bind; auto with appends.
Qed.
#[export] Hint Resolve appends_handle_messages : appends.

(** ** Changes that are invisible to the other threads

    The buffers of the clients may change and messages may be queued. *)

Definition identity (c : Client) : Z * bytes * Z * bool := (threadID c, nickname c, socket c, ssl c).

Definition queue_grows (q q' : option (list C2HMessage)) : Prop :=
  match q, q' with
  | None, None => True
  | Some l, Some l' => l `prefix_of` l'
  | _, _ => False
  end.

Record private (s s' : sys) : Prop := {
  private_max : maxConnections s' = maxConnections s;
  private_main : main s' = main s;
  private_broadcast : broadcast s' = broadcast s;
  private_threads : threads s' = threads s;
  private_structs : ∀ a, identity <$> structs s' !! a = identity <$> structs s !! a;
  private_brk : brk s' = brk s;
  private_clients : clients s' = clients s;
  private_queue : queue_grows (queue s) (queue s');
  private_terminate : terminate s' = terminate s;
  private_popped : popped s' = popped s;
  private_log : log s' = log s
}.

#[export] Instance queue_grows_preorder : PreOrder queue_grows.
Proof.
  split.
  - intros [l|]; cbn; done.
  - intros [l1|] [l2|] [l3|]; cbn; try done. intros H1 H2. by trans l2.
Qed.

#[export] Instance private_preorder : PreOrder private.
Proof.
  split; [by split|].
  intros s1 s2 s3 [] []. split; try congruence. by etrans.
Qed.

Lemma private_buffer a b s : private s (store_client a (set_buffer b) s).
Proof.
  split; try done. intros a'. cbn. destruct (decide (a = a')) as [->|].
  - rewrite lookup_alter_eq. by destruct (structs s !! a').
  - by rewrite lookup_alter_ne.
Qed.

Lemma private_with_io {A} a env (m : cmd srv A) s r : appends m → with_io a env m s = Done r → private s r.2.
Proof.
  intros Hm. unfold with_io. destruct (m _) as [[x k]|] eqn:E; cbn; [|done]. intros [= <-]. cbn.
  apply Hm in E. cbn in E. destruct (queue s) as [q|] eqn:Q; [|done].
  split; try done. cbn. by rewrite Q.
Qed.

Lemma private_sendMessage a env type f args s r :
  with_io a env (Server_sendMessage type f args) s = Done r → private s r.2.
Proof. apply private_with_io. auto with appends. Qed.

Lemma private_say a env type f args s r : say a env type f args s = Done r → private s r.2.
Proof.
  unfold say. destruct (load_connected a s); cbn; [|done]. apply private_sendMessage.
Qed.

Lemma private_announce env type f args s r : announce env type f args s = Done r → private s r.2.
Proof.
  unfold announce. destruct (queue s) eqn:Q; [|done]. apply private_with_io. auto with appends.
Qed.

Create HintDb private discriminated.
#[export] Hint Resolve private_buffer private_say private_announce : private.
#[export] Hint Extern 0 (private ?s ?s) => reflexivity : private.

#[export] Instance Done_inj {A} : Inj (=) (=) (@Done A).
Proof. by intros x y [= ->]. Qed.

(** Case analysis of a computation that succeeded. *)
Ltac outcome_step :=
  match goal with
  | H : Stuck _ = Done _ |- _ => discriminate H
  | H : Done _ = Done _ |- _ => apply (inj Done) in H; subst
  | H : Some _ = Some _ |- _ => apply (inj Some) in H
  | H : None = Some _ |- _ => discriminate H
  | H : outcome_bind ?m _ = Done _ |- _ =>
      let E := fresh "E" in destruct m eqn:E; cbn [outcome_bind] in H; [|discriminate H]
  | H : (if decide ?P then _ else _) = Done _ |- _ => destruct (decide P)
  | H : (if ?b then _ else _) = Done _ |- _ => let E := fresh "E" in destruct b eqn:E
  | H : match ?x with _ => _ end = Done _ |- _ => let E := fresh "E" in destruct x eqn:E
  end.
Ltac outcome_cases := repeat outcome_step.


(** Case analysis of a step that succeeded. *)
Ltac step_cases H :=
  repeat match type of H with
  | (if ?b then _ else _) = Some _ => destruct b eqn:?
  | match ?x with _ => _ end = Some _ => destruct x eqn:?
  end; try discriminate H; apply (inj Some) in H; outcome_cases.

(** A chain of private changes. *)
Ltac private_chain :=
  repeat match goal with
  | |- private ?s ?s => reflexivity
  | |- private _ (store_client _ (set_buffer _) ?s') => transitivity s'; [|apply private_buffer]
  | H : say _ _ _ _ _ ?s' = Done ?r |- private _ (snd ?r) => transitivity s'; [|exact (private_say _ _ _ _ _ _ _ H)]
  | H : announce _ _ _ _ ?s' = Done ?r |- private _ (snd ?r) => transitivity s'; [|exact (private_announce _ _ _ _ _ _ H)]
  | H : with_io _ _ _ ?s' = Done ?r |- private _ (snd ?r) =>
      transitivity s'; [|refine (private_with_io _ _ _ _ _ _ H); auto with appends]
  end.

(** ** Client threads *)

Section Effects.
Context (regcomp : bytes → Z) (regexec : bytes → bytes → Z) (updates_timeout : bool).

(** Places a thread can always go to. *)
Definition ordinary (p : hpc) : bool :=
  match p with
  | HLookup _ | HSelf _ | HSetNick _ | HChat _ _ | HDropSearch _ => false
  | _ => true
  end.

Fixpoint well_formed (p : hpc) : bool :=
  match p with HDrop k => ordinary k && well_formed k | _ => true end.

Inductive client_effect (me : Z) (a : nat) (s : sys) : hpc → sys → Prop :=
  | ce_ordinary p p' s' : private s s' → ordinary p' = true → well_formed p' = true →
      client_effect me a s p (goto me p' s')
  | ce_nick time nick s' : private s s' → Client_nicknameIsValid regcomp regexec nick = true →
      client_effect me a s (HWait time) (goto me (HLookup nick) s')
  | ce_lookup nick r : locked s = false → clients s = Some r →
      search (has_nickname nick) r s = None →
      client_effect me a s (HLookup nick) (goto me (HSelf nick) s)
  | ce_self nick r i : locked s = false → clients s = Some r →
      search (has_thread me) r s = Some (i, a) →
      client_effect me a s (HSelf nick) (goto me (HSetNick nick) s)
  | ce_set nick c : structs s !! a = Some c →
      client_effect me a s (HSetNick nick)
        (goto me HHello (store_client a (set_nickname (take (kMaxNicknameSize - 1) nick)) s))
  | ce_chat s' : private s s' → client_effect me a s HJoined (goto me (HChat kChatTimeout 0) s')
  | ce_turn time waited e s' : private s s' → (0 ≤ e ≤ time)%Z →
      client_effect me a s (HChat time waited)
        (goto me (HChat (remaining updates_timeout time e) (waited + e)) s')
  | ce_free k c : structs s !! a = Some c → threadID c = 0%Z →
      client_effect me a s (HDrop k) (goto me k (store_client a free_ssl s))
  | ce_drop k c : structs s !! a = Some c → threadID c ≠ 0%Z →
      client_effect me a s (HDrop k) (goto me (HDropSearch (threadID c)) s)
  | ce_exit tid s' : locked s = false → drop_locked a tid s = Done s' →
      client_effect me a s (HDropSearch tid) (goto me HExit s').

Lemma auth_wait_effect me a time env s r :
  auth_wait regcomp regexec updates_timeout a time env s = Done r →
  client_effect me a s (HWait time) (goto me r.1 r.2).
Proof.
  unfold auth_wait. intros H. outcome_cases; cbn [fst snd];
    repeat match goal with |- context [goto _ (if ?b then _ else _) _] => destruct b end;
    constructor; solve [done|private_chain].
Qed.

Lemma chat_turn_effect me a time waited env s r : select_allowed time env = true →
  chat_turn updates_timeout a time waited env s = Done r →
  client_effect me a s (HChat time waited) (goto me r.1 r.2).
Proof.
  intros Ha. unfold chat_turn. intros H. unfold select_allowed in Ha.
  outcome_cases; cbn [fst snd];
    repeat match goal with |- context [goto _ (if ?b then _ else _) _] => destruct b end;
    constructor; solve [done|private_chain|lia].
Qed.

Lemma client_step_effect me a p env s s' : well_formed p = true →
  client_step regcomp regexec updates_timeout me a p env s = Some (Done s') →
  client_effect me a s p s'.
Proof.
  intros Hp. destruct p; cbn [client_step]; intros H.
  all: repeat match type of H with
         | (if ?b then _ else _) = Some _ => let E := fresh "E" in destruct b eqn:E
         end; try discriminate H; apply (inj Some) in H.
  1-3, 8-10, 13-14: outcome_cases; cbn [fst snd];
    repeat match goal with |- context [goto _ (if ?b then _ else _) _] => destruct b end;
    constructor; solve [done|private_chain].
  - outcome_cases. by apply (auth_wait_effect me a time env).
  - unfold Server_getClientInfoForNickname, load_roster in H. outcome_cases; cbn [fst snd].
    destruct (search _ _ s) eqn:F; [by constructor|by eapply ce_lookup].
  - unfold Server_getClientInfoForThread, load_roster in H. outcome_cases; cbn [fst snd].
    case_decide as D; [|by constructor].
    destruct (search _ _ s) as [[i b]|] eqn:F; [|done]. injection D as ->. by eapply ce_self.
  - unfold load_client in H. outcome_cases. by eapply ce_set.
  - outcome_cases. by constructor.
  - outcome_cases. by apply (chat_turn_effect me a time waited env).
  - unfold load_client in H. outcome_cases; cbn [fst snd].
    + eapply ce_free; [done|lia].
    + eapply ce_drop; [done|lia].
  - outcome_cases. by apply ce_exit.
Qed.
End Effects.

(** ** Ownership and bounds

    The client structures that exist are exactly those of the list, each
    listed once, and the list is never longer than the configuration allows. *)

Definition owned (cs : option roster) (h : gmap nat Client) : Prop :=
  match cs with
  | None => ∀ a, h !! a = None
  | Some r => NoDup (members r) ∧ ∀ a, a ∈ members r ↔ is_Some (h !! a)
  end.

(** The main thread has found room for one more client. *)
Definition adding (p : mpc) : bool :=
  match p with MLock _ | MAppend _ => true | _ => false end.

(** The list does not exist yet. *)
Definition early (p : mpc) : bool :=
  match p with MStart | MNewList => true | _ => false end.

Definition bounded (max : Z) (p : mpc) (cs : option roster) : Prop :=
  ∀ r, cs = Some r → early p = false
    ∧ (Z.of_nat (length (members r)) ≤ Z.max 0 max)%Z
    ∧ (adding p = true → (Z.of_nat (length (members r)) < max)%Z).

Record inv (s : sys) : Prop := {
  inv_owned : owned (clients s) (structs s);
  inv_bounded : bounded (maxConnections s) (main s) (clients s);
  inv_fresh : ∀ a, is_Some (structs s !! a) → a < brk s
}.

Lemma inv_initial max : inv (initial max).
Proof. split; [done|done|]. intros a. cbn. rewrite lookup_empty. by intros [? [=]]. Qed.

(** [inv] depends on the list, the structures and the main thread only. *)
Lemma inv_same s s' : inv s → maxConnections s' = maxConnections s → main s' = main s →
  clients s' = clients s → brk s' = brk s →
  (∀ a, is_Some (structs s' !! a) ↔ is_Some (structs s !! a)) → inv s'.
Proof.
  intros [Ho Hb Hf] E1 E2 E3 E4 E5. split; rewrite ?E1, ?E2, ?E3, ?E4; [|done|].
  - destruct (clients s) as [r|]; cbn in *.
    + split; [apply Ho|]. intros a. rewrite E5. apply Ho.
    + intros a. specialize (Ho a). apply eq_None_not_Some. rewrite E5, Ho. by intros [? [=]].
  - intros a. rewrite E5. apply Hf.
Qed.

Lemma inv_private s s' : inv s → private s s' → inv s'.
Proof.
  intros I []. eapply inv_same; eauto. intros a. specialize (private_structs0 a).
  by rewrite <- !(fmap_is_Some identity), private_structs0.
Qed.

Lemma inv_goto t p s : inv s → inv (goto t p s).
Proof. intros I. by eapply inv_same; eauto. Qed.

Lemma inv_set_broadcast p s : inv s → inv (set_broadcast p s).
Proof. intros I. by eapply inv_same; eauto. Qed.

Lemma inv_store a f s : inv s → inv (store_client a f s).
Proof.
  intros I. eapply inv_same; eauto. intros b. cbn.
  destruct (decide (a = b)) as [->|]; [rewrite lookup_alter_eq|by rewrite lookup_alter_ne].
  apply fmap_is_Some.
Qed.

(** Only the cursor of the list changes. *)
Lemma inv_cursor r r' s : inv s → clients s = Some r → members r' = members r →
  inv (set_clients (Some r') s).
Proof.
  intros [Ho Hb Hf] E Em. rewrite E in Ho. split; cbn [clients structs maxConnections main brk set_clients].
  - unfold owned. by rewrite Em.
  - intros r2 [= <-]. rewrite Em. by apply Hb.
  - done.
Qed.

Lemma search_spec same r s i b : search same r s = Some (i, b) →
  members r !! i = Some b ∧ ∃ c, structs s !! b = Some c ∧ same c = true.
Proof.
  unfold search. intros (H1 & H2 & _)%list_find_Some. split; [done|].
  destruct (structs s !! b) as [c|]; [by exists c|done].
Qed.

Lemma search_none same r s a c : search same r s = None → a ∈ members r → structs s !! a = Some c →
  same c = false.
Proof.
  unfold search. intros H Ha E. apply list_find_None in H. rewrite Forall_forall in H.
  specialize (H a Ha). rewrite E in H. cbn in H. by destruct (same c).
Qed.

(** Deleting one entry. *)
Lemma elem_of_deleted i (b : nat) xs a : NoDup xs → xs !! i = Some b →
  a ∈ take i xs ++ drop (S i) xs ↔ a ∈ xs ∧ a ≠ b.
Proof.
  intros Hn Hi. pose proof (take_drop_middle xs i b Hi) as E. rewrite <- E in Hn.
  apply NoDup_app in Hn as (_ & Hd & Hn2). apply NoDup_cons in Hn2 as [Hnb _].
  rewrite <- E at 3. rewrite !elem_of_app, elem_of_cons. split.
  - intros [H|H]; split; [by left| |by right; right|].
    + intros ->. apply (Hd b H). by left.
    + by intros ->.
  - intros [[H|[->|H]] Hne]; [by left|done|by right].
Qed.

Lemma drop_locked_inv a tid s s' : inv s → drop_locked a tid s = Done s' → inv s'.
Proof.
  intros I. unfold drop_locked, load_roster. destruct (clients s) as [r|] eqn:Er; cbn; [|done].
  destruct (search _ r s) as [[i b]|] eqn:F; [|by intros [= <-]].
  apply search_spec in F as [Hi _]. destruct (load_connected a s); cbn; [|done]. intros [= <-].
  apply (inv_store a free_ssl) in I. set (s2 := store_client a free_ssl s) in *.
  destruct I as [Ho Hb Hf]. unfold owned in Ho. cbn [clients s2 store_client set_structs] in Ho.
  rewrite Er in Ho. destruct Ho as [Hn Hm]. split; cbn.
  - split.
    + eapply sublist_NoDup; [done|]. rewrite <- (take_drop i (members r)) at 3.
      apply sublist_app; [done|]. rewrite (drop_S _ _ _ Hi). by constructor.
    + intros c. rewrite elem_of_deleted, Hm by done. split.
      * intros [H1 H2]. by rewrite lookup_delete_ne.
      * intros [x H]. apply lookup_delete_Some in H as [H1 H2]. split; [by eexists|congruence].
  - intros r' [= <-]. cbn. destruct (Hb r Er) as (H0 & H1 & H2). cbn in H0, H1, H2.
    rewrite length_app, length_take, length_drop. split; [done|]. split; [lia|]. intros Ha. specialize (H2 Ha). lia.
  - intros c [x H]. apply lookup_delete_Some in H as [_ H]. apply Hf. by eexists.
Qed.

Lemma client_effect_inv regcomp regexec u me a s p s' :
  client_effect regcomp regexec u me a s p s' → inv s → inv s'.
Proof.
  intros H I. destruct H; apply inv_goto; try done;
    [by eapply inv_private..|by apply inv_store|by eapply inv_private|by eapply inv_private
    |by apply inv_store|by eapply drop_locked_inv].
Qed.

Lemma broadcast_step_inv ok s s' : inv s → broadcast_step ok s = Some (Done s') → inv s'.
Proof.
  intros I. unfold broadcast_step, load_roster, load_client, roster_next, roster_rewind.
  destruct (broadcast s) eqn:Eb; intros H;
    step_cases H; apply inv_set_broadcast; try done.
  - by eapply inv_same; eauto.
  - eapply inv_cursor; [done..|]. by destruct (members a) eqn:Ea.
  - by eapply inv_cursor.
  - by eapply inv_cursor.
  - by eapply inv_same; eauto.
  - by apply inv_store.
  - by eapply drop_locked_inv.
Qed.

(** Adding a client, in the steps of the main thread. *)
Lemma append_inv k t s r : inv s → clients s = Some r → main s = MAppend k →
  inv (set_main (MSetID (brk s) t)
        (set_brk (S (brk s)) (set_structs (<[brk s := new_client k]> (structs s))
          (set_clients (Some (roster_append (brk s) r)) s)))).
Proof.
  intros [Ho Hb Hf] Er Em. rewrite Er in Ho. destruct Ho as [Hn Ho].
  assert (Hbrk : brk s ∉ members r) by (rewrite Ho; intros H%Hf; lia).
  split; cbn.
  - split.
    + apply NoDup_app. split_and!; [done| |apply NoDup_singleton].
      intros x Hx ->%list_elem_of_singleton. done.
    + intros a. rewrite elem_of_app, Ho, list_elem_of_singleton.
      destruct (decide (brk s = a)) as [<-|Hne].
      * rewrite lookup_insert_eq. split; [by eexists|by right].
      * rewrite lookup_insert_ne by done. split; [by intros [?| ->]|by left].
  - intros r' [= <-]. cbn. rewrite length_app. cbn.
    destruct (Hb r Er) as (_ & H1 & H2). rewrite Em in H2. specialize (H2 eq_refl). split_and!; [done|lia|done].
  - intros a [c H]. apply lookup_insert_Some in H as [[<- _]|[_ H]]; [lia|].
    assert (a < brk s) by (apply Hf; by eexists). lia.
Qed.

Lemma inv_set_main p s : adding p = false → early p = false → inv s → inv (set_main p s).
Proof.
  intros Hp He [Ho Hb Hf]. split; [done| |done]. cbn. intros r Er.
  split_and!; [done|by apply Hb|by rewrite Hp].
Qed.

Lemma foldr_delete_None (h : gmap nat Client) xs a :
  (∀ b, b ∈ xs ↔ is_Some (h !! b)) → foldr delete h xs !! a = None.
Proof.
  intros H. assert (G : ∀ ys, foldr delete h ys !! a = if decide (a ∈ ys) then None else h !! a).
  { induction ys as [|y ys IH]; cbn; [by rewrite decide_False by apply not_elem_of_nil|].
    destruct (decide (y = a)) as [->|Hne].
    - rewrite lookup_delete_eq, decide_True by (by left). done.
    - rewrite lookup_delete_ne, IH by done. apply decide_ext. rewrite elem_of_cons. naive_solver. }
  rewrite G. case_decide as D; [done|]. apply eq_None_not_Some. by rewrite <- H.
Qed.

Lemma main_step_inv e env s s' : inv s → main_step e env s = Some (Done s') → inv s'.
Proof.
  intros I. unfold main_step, load_roster, load_client, roster_next.
  destruct (main s) eqn:Em; intros H;
    step_cases H.
  - destruct I as [Ho Hb Hf]. split; [done| |done]. intros r Er. destruct (Hb r Er) as [H _]. by rewrite Em in H.
  - destruct I as [Ho Hb Hf]. destruct (clients s) as [r|] eqn:Er.
    { destruct (Hb r eq_refl) as [H _]. by rewrite Em in H. }
    split; cbn; [|intros r [= <-]; cbn; split_and!; [done|lia|done]|done].
    split; [constructor|]. intros a. rewrite Ho. split; [by intros ?%not_elem_of_nil|by intros [? [=]]].
  - apply inv_set_main; [done..|]. by eapply inv_same; eauto.
  - apply inv_set_main; [by repeat case_match..|done].
  - destruct I as [Ho Hb Hf]. split; [done| |done]. intros r' Er'. cbn in Er'.
    destruct (Hb r' Er') as (H1 & H2 & _). split_and!; [done..|]. intros _. simplify_eq. cbn. lia.
  - apply inv_set_main; [done..|]. eapply inv_private; [done|by eapply private_sendMessage].
  - destruct I as [Ho Hb Hf]. split; [done| |done]. intros r' Er'. cbn in Er'.
    destruct (Hb r' Er') as (H1 & H2 & H3). rewrite Em in H3. split_and!; [done..|]. intros _. by apply H3.
  - destruct (acc_thread e =? 0)%Z; [by apply append_inv|].
    eapply inv_same; [by eapply append_inv|done..].
  - apply inv_set_main; [done..|by apply inv_store].
  - by apply inv_set_main.
  - done.
  - apply inv_set_main; [done..|]. by eapply inv_cursor.
  - destruct I as [Ho Hb Hf]. split; cbn; [|done|].
    + intros b. apply foldr_delete_None. by destruct (clients s); simplify_eq; apply Ho.
    + intros b. rewrite foldr_delete_None; [by intros [? [=]]|]. by destruct (clients s); simplify_eq; apply Ho.
  - apply inv_set_main; [done..|]. by eapply inv_same; eauto.
Qed.

(** ** Threads and waiting times *)

Definition set_pc (p : hpc) (th : cthread) : cthread := CThread (pointer th) p.

Section Threads.
Context (regcomp : bytes → Z) (regexec : bytes → bytes → Z).

(** A thread may be at this place: a [HDrop] returns to an ordinary place,
    and where the system call updates the timeout, what is left of it and
    the time waited add up to the limit. *)
Definition timed (u : bool) (p : hpc) : Prop :=
  match p with
  | HChat time waited => u = true → (0 ≤ time ∧ time + waited = kChatTimeout)%Z
  | _ => True
  end.

Definition place_ok (u : bool) (p : hpc) : Prop := well_formed p = true ∧ timed u p.

Definition threads_ok (u : bool) (s : sys) : Prop :=
  ∀ t th, threads s !! t = Some th → place_ok u (at_ th).

Lemma ordinary_ok u p : ordinary p = true → well_formed p = true → place_ok u p.
Proof. intros H1 H2. split; [done|]. by destruct p. Qed.

(** Every effect moves the thread that steps, and no other. *)
Lemma client_effect_threads u me a s p s' :
  client_effect regcomp regexec u me a s p s' → place_ok u p →
  ∃ p', place_ok u p' ∧ threads s' = alter (set_pc p') me (threads s).
Proof.
  intros H [Hw Ht].
  destruct H; cbn [goto set_threads threads store_client set_structs];
    match goal with |- context [alter (λ th, CThread _ ?q)] => exists q end;
    try match goal with H : private _ _ |- _ => destruct H as [_ _ _ Eth _ _ _ _ _ _ _] end.
  - split; [by apply ordinary_ok|by rewrite Eth].
  - split; [done|by rewrite Eth].
  - done.
  - done.
  - done.
  - split; [split; [done|]|by rewrite Eth]. cbn. intros _. unfold kChatTimeout. lia.
  - split; [split; [done|]|by rewrite Eth]. cbn. intros ->. specialize (Ht eq_refl). cbn in Ht |- *. lia.
  - cbn in Hw. apply andb_true_iff in Hw as [H1 H2]. split; [by apply ordinary_ok|done].
  - done.
  - split; [done|]. unfold drop_locked, load_roster in H0. outcome_cases; done.
Qed.

Lemma threads_ok_alter u s s' me p' : threads_ok u s → place_ok u p' →
  threads s' = alter (set_pc p') me (threads s) → threads_ok u s'.
Proof.
  intros Hs Hp E t th. rewrite E. intros H.
  apply lookup_alter_Some in H as [(-> & th' & H & ->)|[_ H]]; [done|by eapply Hs].
Qed.

Lemma threads_ok_same u s s' : threads_ok u s → threads s' = threads s → threads_ok u s'.
Proof. intros Hs E t th. rewrite E. apply Hs. Qed.

Lemma broadcast_step_threads ok s s' : broadcast_step ok s = Some (Done s') → threads s' = threads s.
Proof.
  unfold broadcast_step. intros H. destruct (broadcast s);
    unfold drop_locked in *; step_cases H; done.
Qed.

Lemma main_step_threads e env s s' : main_step e env s = Some (Done s') →
  threads s' = threads s
  ∨ ∃ t a, threads s' = <[t := CThread a HStart]> (threads s).
Proof.
  unfold main_step. intros H. destruct (main s);
    step_cases H; try (by left).
  - left. cbn. by eapply private_threads, private_sendMessage.
  - cbn. destruct (_ =? 0)%Z; [by left|]. right. by do 2 eexists.
Qed.

Lemma step_threads_ok u l s s' : threads_ok u s →
  step regcomp regexec u l s = Some (Done s') → threads_ok u s'.
Proof.
  intros Hs. destruct l as [e env|ok|t env|]; cbn [step].
  - intros H. apply main_step_threads in H as [H|(t & a & H)]; [exact (threads_ok_same _ _ _ Hs H)|].
    intros t' th. rewrite H. intros H'. apply lookup_insert_Some in H' as [[_ <-]|[_ H']]; [done|by eapply Hs].
  - intros H%broadcast_step_threads. exact (threads_ok_same _ _ _ Hs H).
  - destruct (threads s !! t) as [[a p]|] eqn:Et; [|done]. intros H.
    pose proof (Hs _ _ Et) as Hp. apply client_step_effect in H; [|apply Hp].
    apply client_effect_threads in H as (p' & Hp' & E); [|done].
    exact (threads_ok_alter _ _ _ _ _ Hs Hp' E).
  - intros [= <-]. done.
Qed.

Lemma reachable_threads_ok u max s : reachable regcomp regexec u max s → threads_ok u s.
Proof.
  induction 1 as [|s l s' _ IH H]; [|by eapply step_threads_ok].
  intros t th. cbn. by rewrite lookup_empty.
Qed.

(** The effect of any step of a reachable state. *)
Lemma step_inv u l s s' : threads_ok u s → inv s → step regcomp regexec u l s = Some (Done s') → inv s'.
Proof.
  intros Ht I. destruct l as [e env|ok|t env|]; cbn [step].
  - by apply main_step_inv.
  - by apply broadcast_step_inv.
  - destruct (threads s !! t) as [[a p]|] eqn:Et; [|done]. intros H.
    apply client_step_effect in H; [|apply (Ht _ _ Et)]. by eapply client_effect_inv.
  - intros [= <-]. by eapply inv_same; eauto.
Qed.

Lemma reachable_inv u max s : reachable regcomp regexec u max s → inv s.
Proof.
  induction 1 as [|s l s' R IH H]; [apply inv_initial|].
  eapply step_inv; [by eapply reachable_threads_ok|done..].
Qed.

Lemma client_effect_max u me a s p s' :
  client_effect regcomp regexec u me a s p s' → maxConnections s' = maxConnections s.
Proof.
  destruct 1; try done;
    try match goal with H : private _ _ |- _ => apply (private_max _ _ H) end.
  unfold drop_locked in H0. outcome_cases; done.
Qed.
End Threads.
