(* ===== verification/ServerProps.v ===== *)
(** * Properties of the running server (src/server/server.c)

    Invariants of every reachable state of [ServerSys], the behaviour of one
    pass of the broadcast thread, and the schedules that go wrong. *)

From S2P Require Import Prelude.
From S2P Require Import CStr.
From S2P Require Import ListSpec.
From S2P Require Import MessageLib.
From S2P Require Import MessageSpec.
From S2P Require Import Transport.
From S2P Require Import ServerIO.
From S2P Require Import ServerSys.
From S2P Require Import ServerInv.

(** ** The list of clients is the list of [ListSpec] *)

Section RosterList.
(** What the structure at an address holds. *)
Context (f : nat → bytes).

Definition as_list (r : roster) : aseq := ASeq (f <$> members r) (cursor r).

Lemma roster_append_spec a r :
  spec_op (OAppend (f a)) (as_list r) = Some (RBool true, as_list (roster_append a r)).
Proof.
  cbn. unfold spec_insert, as_list, cur_insert, roster_append. cbn [items cur members cursor].
  rewrite Z.leb_refl, (proj2 (Z.leb_le 0 _)) by lia. cbn [andb].
  rewrite Nat2Z.id, take_ge, drop_ge by lia. rewrite fmap_app, length_fmap.
  by destruct (members r).
Qed.

Lemma roster_delete_spec i b r : members r !! i = Some b →
  spec_op (ODelete (Z.of_nat i)) (as_list r) = Some (RBool true, as_list (roster_delete i r)).
Proof.
  intros Hi%lookup_lt_Some. cbn. unfold spec_delete, as_list, in_range, cur_delete, roster_delete.
  cbn [items cur members cursor]. rewrite length_fmap.
  rewrite (proj2 (Z.leb_le 0 _)), (proj2 (Z.ltb_lt _ _)) by lia. cbn [andb].
  by rewrite Nat2Z.id, fmap_app, fmap_take, fmap_drop.
Qed.

Lemma roster_rewind_spec r :
  snd <$> spec_op ORewind (as_list r) = Some (as_list (roster_rewind r)).
Proof. unfold as_list, roster_rewind. cbn. by destruct (members r) eqn:E; cbn; rewrite ?E. Qed.

Lemma roster_next_spec r :
  spec_op ONext (as_list r) =
  match roster_next r with
  | Done (a, r') => Some (RData (f <$> a), as_list r')
  | Stuck _ => None
  end.
Proof.
  unfold as_list, roster_next. cbn. destruct (cursor r) as [i|] eqn:E; cbn; [|done].
  rewrite list_lookup_fmap. by destruct (members r !! i); cbn; rewrite ?E.
Qed.
End RosterList.

(** ** Running schedules *)

Section Running.
Context (regcomp : bytes → Z) (regexec : bytes → bytes → Z) (u : bool).

Lemma run_reachable max ls s s' : reachable regcomp regexec u max s → run regcomp regexec u ls s = Some (Done s') → reachable regcomp regexec u max s'.
Proof.
  revert s. induction ls as [|l ls IH]; intros s R; cbn; [by intros [= <-]|].
  destruct (step _ _ _ l s) as [[s1|]|] eqn:E; [|done..]. apply IH. by eapply reachable_step.
Qed.

Lemma run_app ls ls' s s' : run regcomp regexec u ls s = Some (Done s') → run regcomp regexec u (ls ++ ls') s = run regcomp regexec u ls' s'.
Proof.
  revert s. induction ls as [|l ls IH]; intros s; cbn; [by intros [= <-]|].
  destruct (step _ _ _ l s) as [[s1|]|] eqn:E; [|done..]. apply IH.
Qed.

Lemma reachable_max max s : reachable regcomp regexec u max s → maxConnections s = max.
Proof.
  induction 1 as [|s l s' R IH H]; [done|]. rewrite <- IH.
  destruct l as [e env|ok|t env|]; cbn [step] in H.
  - unfold main_step in H. destruct (main s); step_cases H; try done.
    + cbn. by eapply private_max, private_sendMessage.
    + cbn. by destruct (_ =? 0)%Z.
  - unfold broadcast_step in H. destruct (broadcast s); unfold drop_locked in *; step_cases H; done.
  - destruct (threads s !! t) as [[a p]|] eqn:Et; [|done].
    eapply client_effect_max, client_step_effect; [|done].
    apply (reachable_threads_ok _ _ _ _ _ R _ _ Et).
  - by injection H as <-.
Qed.
End Running.

(** Concrete answers of the environment: a library that accepts every name of
    2 to 15 characters, an idle system, a message that arrives. *)
Definition any_regcomp (_ : bytes) : Z := 0.
Definition length_regexec (_ name : bytes) : Z :=
  if decide (2 ≤ length name ≤ 15) then 0%Z else REG_NOMATCH.
Definition well : io := IO SelError 0 [] 100 [true; true; true; true].
Definition arrives (data : bytes) : io := IO (SelReady true false) 0 [ReadData data] 100 [true; true; true; true].

Definition drun : list label → sys → option (outcome sys) := run any_regcomp length_regexec true.

(** The main thread starts up; accepts a client on a socket. *)
Definition go (e : accepting) : label := LMain e well.
Definition idle : accepting := Accepting None 0.
Definition startup : list label := [go idle; go idle; go idle].
Definition accept (k t : Z) : list label :=
  [go (Accepting (Some k) 0); go idle; go idle; go (Accepting None t); go idle; go idle].

(** A client's thread up to the search of its nickname, and from there until
    the user has joined. *)
Definition steps (t : Z) (n : nat) : list label := replicate n (LClient t well).
Definition ask (t : Z) (nick : bytes) : list label :=
  steps t 3 ++ [LClient t (arrives (lit "/nick " ++ nick ++ [NUL]))].
Definition login (t : Z) (nick : bytes) : list label := ask t nick ++ steps t 5.

(** The broadcast thread, with sends that succeed. *)
Definition pump (n : nat) : list label := replicate n (LBroadcast true).

(** ** Clients *)

(** C12. At any moment the list of clients holds at most the configured number
    of clients (none if that is negative), no client twice, and the client
    structures in memory are exactly the listed ones: however the threads
    interleave, the check before the lock is enough because only the main
    thread adds clients, and dropping a client frees its structure. *)
Theorem server_clients_bounded (regcomp : bytes → Z) (regexec : bytes → bytes → Z) (u : bool)
    (max : Z) (s : sys) (r : roster)
    (R : reachable regcomp regexec u max s) (Hr : clients s = Some r) :
  (Z.of_nat (length (members r)) ≤ Z.max 0 max)%Z
  ∧ NoDup (members r)
  ∧ ∀ a, a ∈ members r ↔ is_Some (structs s !! a).
Proof.
  destruct (reachable_inv _ _ _ _ _ R) as [Ho Hb _]. rewrite Hr in Ho. destruct Ho as [Hn Ho].
  rewrite <- (reachable_max _ _ _ _ _ R). destruct (Hb r Hr) as (_ & H & _). done.
Qed.

Definition two_users : list label :=
  startup ++ accept 5 101 ++ accept 6 102 ++ login 101 (lit "bob") ++ login 102 (lit "ann").

(** The state a schedule ends in. *)
Definition end_of (ls : list label) (max : Z) : sys :=
  match drun ls (initial max) with Some (Done s) => s | _ => initial max end.

Definition runs (ls : list label) (max : Z) : bool :=
  match drun ls (initial max) with Some (Done _) => true | _ => false end.

Lemma runs_reachable ls max : runs ls max = true →
  reachable any_regcomp length_regexec true max (end_of ls max).
Proof.
  unfold runs, end_of, drun. destruct (run _ _ _ ls _) as [[s|]|] eqn:E; [|done..]. intros _.
  eapply run_reachable; [apply reachable_init|done].
Qed.

(** A third connection is refused when two are allowed. *)
Lemma server_clients_bounded_witness :
  (Z.of_nat (length [0; 1]) ≤ Z.max 0 2)%Z
  ∧ NoDup [0; 1]
  ∧ ∀ a, a ∈ [0; 1] ↔ is_Some (structs (end_of (two_users ++ [go (Accepting (Some 7) 0); go idle])%Z 2) !! a).
Proof.
  apply (server_clients_bounded any_regcomp length_regexec true 2
    (end_of (two_users ++ [go (Accepting (Some 7) 0); go idle])%Z 2) (Roster [0; 1] (Some 0)));
    [apply runs_reachable; vm_compute; reflexivity|vm_compute; reflexivity].
Defined.

(** ** Order of broadcasts *)

(** Every message ever queued, in order. *)
Definition history (s : sys) : list C2HMessage := popped s ++ default [] (queue s).

(** The message the broadcast thread is working on. *)
Definition holding (p : bpc) : option C2HMessage :=
  match p with
  | BRewind m | BWhile m | BNext m | BCheck m _ | BSend m _ | BDrop m _ => Some m
  | _ => None
  end.

Definition number (e : nat * nat * C2HMessage) : nat := e.1.1.

Record order_ok (s : sys) : Prop := {
  order_log : Forall (λ e, popped s !! number e = Some e.2) (log s);
  order_sorted : StronglySorted le (number <$> log s);
  order_held : ∀ m, holding (broadcast s) = Some m → last (popped s) = Some m
}.

Lemma order_same s s' : order_ok s → popped s' = popped s → log s' = log s →
  (∀ m, holding (broadcast s') = Some m → holding (broadcast s) = Some m) → order_ok s'.
Proof. intros [] E1 E2 E3. split; rewrite ?E1, ?E2; eauto. Qed.

Lemma StronglySorted_snoc (xs : list nat) x :
  StronglySorted le xs → (∀ y, y ∈ xs → y ≤ x) → StronglySorted le (xs ++ [x]).
Proof.
  intros Hs H. apply StronglySorted_app_2; [|done|by repeat constructor].
  intros a b Ha ->%list_elem_of_singleton. by apply H.
Qed.

(** One more message is taken. *)
Lemma order_pop s s' m : order_ok s → popped s' = popped s ++ [m] → log s' = log s →
  holding (broadcast s') = Some m → order_ok s'.
Proof.
  intros [H1 H2 H3] E1 E2 E3. split; rewrite ?E1, ?E2; [|done|].
  - eapply Forall_impl; [done|]. intros e He. by apply lookup_app_l_Some.
  - intros m' Hm. rewrite E3 in Hm. rewrite last_snoc. congruence.
Qed.

(** One more message is sent. *)
Lemma order_send s s' a m : order_ok s → holding (broadcast s) = Some m → popped s' = popped s →
  log s' = log s ++ [(pred (length (popped s)), a, m)] → holding (broadcast s') = Some m → order_ok s'.
Proof.
  intros [H1 H2 H3] Hm E1 E2 E3. pose proof (H3 m Hm) as Hl. rewrite last_lookup in Hl.
  split; rewrite ?E1, ?E2.
  - apply Forall_app. split; [done|]. by repeat constructor.
  - rewrite fmap_app. apply StronglySorted_snoc; [done|].
    intros y (e & -> & He)%list_elem_of_fmap. rewrite Forall_forall in H1.
    apply H1, lookup_lt_Some in He. cbn. lia.
  - intros m' Hm'. rewrite E3 in Hm'. injection Hm' as <-. by apply H3.
Qed.

(** What a client's thread leaves to the broadcast thread. *)
Lemma client_effect_broadcast regcomp regexec u me a s p s' :
  client_effect regcomp regexec u me a s p s' →
  popped s' = popped s ∧ log s' = log s ∧ broadcast s' = broadcast s ∧ main s' = main s
  ∧ queue_grows (queue s) (queue s').
Proof.
  intros H. destruct H;
    try match goal with H : private _ _ |- _ => destruct H; by split_and! end;
    try (split_and!; try done; reflexivity).
  unfold drop_locked in H0. outcome_cases; split_and!; done || reflexivity.
Qed.

Lemma step_order regcomp regexec u l s s' : threads_ok u s → order_ok s →
  step regcomp regexec u l s = Some (Done s') → order_ok s'.
Proof.
  intros Ht O. destruct l as [e env|ok|t env|]; cbn [step]; intros H.
  - unfold main_step in H. destruct (main s); step_cases H; try (eapply order_same; eauto; done).
    + destruct (private_sendMessage _ _ _ _ _ _ _ E1). eapply order_same; [done|done..|]. cbn. intros m. by rewrite private_broadcast.
    + cbn. by destruct (_ =? 0)%Z; eapply order_same; eauto.
  - unfold broadcast_step in H. destruct (broadcast s) eqn:Eb; unfold drop_locked in *; step_cases H.
    2: by eapply order_pop.
    6: by eapply (order_send s _ a m); rewrite ?Eb.
    all: eapply order_same; [exact O|reflexivity..|]; cbn; rewrite Eb; intros m'; by repeat case_match.
  - destruct (threads s !! t) as [[a p]|] eqn:Et; [|done].
    apply client_step_effect in H; [|apply (Ht _ _ Et)].
    apply client_effect_broadcast in H as (E1 & E2 & E3 & _). eapply order_same; eauto. by rewrite E3.
  - injection H as <-. by eapply order_same; eauto.
Qed.

Lemma reachable_order regcomp regexec u max s : reachable regcomp regexec u max s → order_ok s.
Proof.
  induction 1 as [|s l s' R IH H]; [by split; [constructor|constructor|]|].
  eapply step_order; [by eapply reachable_threads_ok|done..].
Qed.

Lemma queue_grows_history s s' : popped s' = popped s → queue_grows (queue s) (queue s') →
  history s `prefix_of` history s'.
Proof.
  intros E H. unfold history. rewrite E. apply prefix_app.
  by destruct (queue s), (queue s'); cbn in *.
Qed.

Lemma step_history regcomp regexec u l s s' : threads_ok u s → (main s = MNewQueue → queue s = None) →
  step regcomp regexec u l s = Some (Done s') → main s' ≠ MDone → history s `prefix_of` history s'.
Proof.
  intros Ht Hq. destruct l as [e env|ok|t env|]; cbn [step]; intros H Hd.
  - unfold main_step in H. destruct (main s) eqn:Em; step_cases H; try done.
    + unfold history. cbn. by rewrite Hq.
    + destruct (private_sendMessage _ _ _ _ _ _ _ E1). by apply queue_grows_history.
    + cbn. by destruct (_ =? 0)%Z.
  - unfold broadcast_step in H. destruct (broadcast s) eqn:Eb; unfold drop_locked in *; step_cases H; try done.
    unfold history. cbn. rewrite E. cbn. by rewrite <- app_assoc.
  - destruct (threads s !! t) as [[a p]|] eqn:Et; [|done].
    apply client_step_effect in H; [|apply (Ht _ _ Et)].
    apply client_effect_broadcast in H as (E1 & _ & _ & _ & E2). by apply queue_grows_history.
  - by injection H as <-.
Qed.

(** There is no queue before the main thread makes it. *)
Definition no_queue_yet (s : sys) : Prop :=
  match main s with MStart | MNewList | MNewQueue => queue s = None | _ => True end.

Lemma reachable_no_queue_yet regcomp regexec u max s : reachable regcomp regexec u max s → no_queue_yet s.
Proof.
  induction 1 as [|s l s' R IH H]; [done|]. unfold no_queue_yet in *.
  destruct l as [e env|ok|t env|]; cbn [step] in H.
  - unfold main_step in H. destruct (main s) eqn:Em; step_cases H; try done.
    all: cbn; by repeat case_match.
  - unfold broadcast_step in H. destruct (broadcast s) eqn:Eb; unfold drop_locked in *; step_cases H; try done.
    all: cbn; destruct (main s); try done; congruence.
  - destruct (threads s !! t) as [[a p]|] eqn:Et; [|done].
    apply client_step_effect in H; [|apply (reachable_threads_ok _ _ _ _ _ R _ _ Et)].
    apply client_effect_broadcast in H as (_ & _ & _ & -> & E2).
    by destruct (main s), (queue s), (queue s').
  - by injection H as <-.
Qed.

(** C13. Broadcasts keep the order of the queue.  In every reachable state the
    messages sent so far are messages that were taken from the queue, and
    their numbers never decrease along the log: no client ever receives a
    later message before an earlier one.  And until the server ends, every
    step of every thread only adds to the end of the messages ever queued. *)
Theorem broadcasts_in_order (regcomp : bytes → Z) (regexec : bytes → bytes → Z) (u : bool)
    (max : Z) (s : sys) (R : reachable regcomp regexec u max s) :
  Forall (λ e, popped s !! number e = Some e.2) (log s)
  ∧ StronglySorted le (number <$> log s)
  ∧ ∀ l s', step regcomp regexec u l s = Some (Done s') → main s' ≠ MDone →
      history s `prefix_of` history s'.
Proof.
  destruct (reachable_order _ _ _ _ _ R) as [H1 H2 _]. split_and!; [done..|].
  intros l s' H Hd. eapply step_history; [by eapply reachable_threads_ok| |done..].
  intros Em. pose proof (reachable_no_queue_yet _ _ _ _ _ R) as Hq. unfold no_queue_yet in Hq.
  by rewrite Em in Hq.
Qed.

(** Both announcements, sent to both users. *)
Definition joined (nick : bytes) : C2HMessage :=
  message_of kMessageTypeLog nick (lit "just joined the chat").

Lemma broadcasts_in_order_witness :
  let s := end_of (two_users ++ pump 26) 2 in
  (λ e, (number e, e.1.2, e.2)) <$> log s
    = [(0, 0, joined (lit "bob")); (0, 1, joined (lit "bob"));
       (1, 0, joined (lit "ann")); (1, 1, joined (lit "ann"))]
  ∧ Forall (λ e, popped s !! number e = Some e.2) (log s)
  ∧ StronglySorted le (number <$> log s).
Proof.
  cbv zeta.
  destruct (broadcasts_in_order any_regcomp length_regexec true 2 (end_of (two_users ++ pump 26) 2))
    as (H1 & H2 & _); [apply runs_reachable; vm_compute; reflexivity|].
  split_and!; [vm_compute; reflexivity|exact H1|exact H2].
Defined.

(** ** One pass of the broadcast thread *)

(** A client that can be sent to. *)
Definition connected (s : sys) (a : nat) : Prop :=
  ∃ c, structs s !! a = Some c ∧ ssl c = true ∧ SOCKET_isValid (socket c) = true.

Definition authenticated (s : sys) (a : nat) : bool :=
  from_option (λ c, negb (bool_decide (nickname c = []))) false (structs s !! a).

Section Pass.
Context (regcomp : bytes → Z) (regexec : bytes → bytes → Z) (u : bool) (m : C2HMessage).

(** The state after the thread has visited some clients. *)
Definition visited (p : bpc) (i : nat) (xs ys : list nat) (s : sys) : sys :=
  set_broadcast p
    (set_said (said s ++ ((λ a, (Some a, m)) <$> filter (authenticated s) ys))
      (set_log (log s ++ ((λ a, (pred (length (popped s)), a, m)) <$> filter (authenticated s) ys))
        (set_clients (Some (Roster xs (Some i))) s))).

Lemma visit_one s xs i ys a : terminate s = false → locked s = false → xs !! i = Some a → connected s a →
  ∃ n, run regcomp regexec u (pump n) (visited (BWhile m) i xs ys s)
       = Some (Done (visited (BWhile m) (S i) xs (ys ++ [a]) s)).
Proof.
  intros Ht Hl Hi (c & Hc & Hs & Hk).
  assert (Hstart : run regcomp regexec u (pump 2) (visited (BWhile m) i xs ys s)
    = Some (Done (visited (BCheck m a) (S i) xs ys s))).
  { cbn. unfold broadcast_step. cbn. rewrite Ht. cbn. unfold locked in Hl |- *. cbn in Hl |- *.
    rewrite Hl. unfold roster_next. cbn. by rewrite Hi. }
  assert (Hx : filter (authenticated s) (ys ++ [a])
    = filter (authenticated s) ys ++ (if decide (nickname c = []) then [] else [a])).
  { rewrite filter_app. f_equal. rewrite filter_cons, filter_nil. unfold authenticated. rewrite Hc. cbn.
    by destruct (decide (nickname c = [])); [rewrite bool_decide_true|rewrite bool_decide_false]. }
  destruct (decide (nickname c = [])) as [E|E].
  - exists (2 + 1). unfold pump. rewrite replicate_add. erewrite run_app by done.
    cbn. unfold broadcast_step. cbn. unfold load_client. cbn. rewrite Hc. cbn. rewrite decide_True by done.
    unfold visited. by rewrite !Hx, !app_nil_r.
  - exists (2 + 2). unfold pump. rewrite replicate_add. erewrite run_app by done.
    cbn. unfold broadcast_step. cbn. unfold load_client. cbn. rewrite Hc. cbn. rewrite decide_False, Hk by done.
    cbn. unfold load_connected, load_client. cbn. rewrite Hc. cbn. rewrite Hs. cbn.
    unfold visited. rewrite !Hx, !fmap_app, !app_assoc. reflexivity.
Qed.

Lemma pump_app n k s s' : run regcomp regexec u (pump n) s = Some (Done s') →
  run regcomp regexec u (pump (n + k)) s = run regcomp regexec u (pump k) s'.
Proof. intros H. unfold pump. rewrite replicate_add. by apply run_app. Qed.

Lemma visit_all s xs : terminate s = false → locked s = false → (∀ a, a ∈ xs → connected s a) →
  ∀ k i, i + k = length xs →
  ∃ n, run regcomp regexec u (pump n) (visited (BWhile m) i xs (take i xs) s)
       = Some (Done (visited BSleep (length xs) xs xs s)).
Proof.
  intros Ht Hl Hc. induction k as [|k IH]; intros i Hi.
  - exists 2. replace i with (length xs) by lia. rewrite take_ge by lia.
    cbn. unfold broadcast_step. cbn. rewrite Ht. cbn. unfold locked in Hl |- *. cbn in Hl |- *.
    rewrite Hl. unfold roster_next. cbn. by rewrite lookup_ge_None_2 by lia.
  - destruct (lookup_lt_is_Some_2 xs i) as [a Ha]; [lia|].
    destruct (visit_one s xs i (take i xs) a Ht Hl Ha) as [n1 H1]; [apply Hc; by eapply list_elem_of_lookup_2|].
    destruct (IH (S i)) as [n2 H2]; [lia|]. exists (n1 + n2).
    rewrite (pump_app _ _ _ _ H1). by rewrite <- (take_S_r xs i a Ha).
Qed.

(** The whole pass, from the moment the message was taken from the queue. *)
Lemma pass_run s (r : roster) : broadcast s = BRewind m → clients s = Some r → members r ≠ [] →
  terminate s = false → locked s = false → (∀ a, a ∈ members r → connected s a) →
  ∃ n, run regcomp regexec u (pump n) s = Some (Done (visited BSleep (length (members r)) (members r) (members r) s)).
Proof.
  intros Hb Hr Hne Ht Hl Hc. destruct (visit_all s (members r) Ht Hl Hc (length (members r)) 0 eq_refl) as [n Hn].
  exists (1 + n). erewrite pump_app; [exact Hn|]. cbn. unfold broadcast_step. rewrite Hb.
  unfold load_roster. rewrite Hr. cbn. unfold roster_rewind, visited.
  destruct (members r) as [|x xs] eqn:E; [done|]. cbn. by rewrite !app_nil_r.
Qed.
End Pass.

(** A pass of the broadcast thread that nobody interferes with takes the
    message to every authenticated client, exactly once and in the order of
    the list, and to nobody else: from the moment the message was taken from
    the queue, while no other thread moves and every send succeeds, the
    thread comes to its pause with those sends logged and the rest of the
    state unchanged, its cursor at the end. *)
Theorem broadcast_pass (regcomp : bytes → Z) (regexec : bytes → bytes → Z) (u : bool)
    (s : sys) (r : roster) (m : C2HMessage)
    (Hb : broadcast s = BRewind m) (Hr : clients s = Some r) (Hne : members r ≠ [])
    (Ht : terminate s = false) (Hl : locked s = false)
    (Hc : ∀ a, a ∈ members r → connected s a) :
  ∃ n, run regcomp regexec u (pump n) s = Some (Done
    (set_broadcast BSleep
      (set_said (said s ++ ((λ a, (Some a, m)) <$> filter (authenticated s) (members r)))
        (set_log (log s ++ ((λ a, (pred (length (popped s)), a, m)) <$> filter (authenticated s) (members r)))
          (set_clients (Some (Roster (members r) (Some (length (members r))))) s))))).
Proof. by apply pass_run. Qed.

(** A pass with two authenticated clients and one that is not. *)
Definition three_clients : list label :=
  startup ++ accept 5 101 ++ accept 6 102 ++ accept 7 103 ++ login 101 (lit "bob") ++ login 103 (lit "ann") ++ pump 1.

Lemma broadcast_pass_witness :
  ∃ n s', run any_regcomp length_regexec true (pump n) (end_of three_clients 5) = Some (Done s')
    ∧ log s' = [(0, 0, joined (lit "bob")); (0, 2, joined (lit "bob"))].
Proof.
  destruct (broadcast_pass any_regcomp length_regexec true (end_of three_clients 5)
    (Roster [0; 1; 2] (Some 0)) (joined (lit "bob"))) as [n Hn];
    [vm_compute; reflexivity|vm_compute; reflexivity|discriminate|vm_compute; reflexivity|vm_compute; reflexivity
    | |exists n; eexists; split; [exact Hn|vm_compute; reflexivity]].
  intros a Ha. unfold connected.
  repeat (apply elem_of_cons in Ha as [->|Ha];
    [eexists; split; [vm_compute; reflexivity|split; reflexivity]|]).
  by apply not_elem_of_nil in Ha.
Defined.

(** ** The time a session may take *)

(** C38. Where [select] updates its timeout (Linux), the timeout of the chat is
    not a limit on idleness but on the whole session: it is never set again,
    so the time a client's thread has spent waiting for data since the user
    joined, over all its messages, is at most [kChatTimeout] seconds, and the
    next wait can only last what is left. *)
Theorem chat_time_limited (regcomp : bytes → Z) (regexec : bytes → bytes → Z) (max : Z) (s : sys)
    (t : Z) (a : nat) (time waited : Z) (env : io) (s' : sys)
    (R : reachable regcomp regexec true max s)
    (Ht : threads s !! t = Some (CThread a (HChat time waited)))
    (Hrun : terminate s = false)
    (Hs : step regcomp regexec true (LClient t env) s = Some (Done s')) :
  (waited + io_elapsed env ≤ kChatTimeout)%Z.
Proof.
  destruct (reachable_threads_ok _ _ _ _ _ R _ _ Ht) as [_ Hp]. destruct (Hp eq_refl) as [H1 H2].
  cbn [step] in Hs. rewrite Ht in Hs. cbn [client_step] in Hs. rewrite Hrun in Hs.
  destruct (select_allowed time env) eqn:E; [|done]. unfold select_allowed in E.
  destruct (io_select env); lia.
Qed.

(** A user who writes after 100 seconds may be silent for 80 more. *)
Definition late_message : label :=
  LClient 101 (IO (SelReady true false) 100 [ReadData (lit "/msg hello" ++ [NUL])] 100 [true; true]).

Lemma chat_time_limited_witness :
  (100 + 80 ≤ kChatTimeout)%Z.
Proof.
  assert (E : ∃ s', step any_regcomp length_regexec true (LClient 101 (IO SelTimeout 80 [] 100 [true]))
    (end_of (two_users ++ [late_message]) 2) = Some (Done s')) by (eexists; vm_compute; reflexivity).
  destruct E as [s' E].
  refine (chat_time_limited any_regcomp length_regexec 2 (end_of (two_users ++ [late_message]) 2)
    101 0 80 100 (IO SelTimeout 80 [] 100 [true]) s' _ _ _ E);
    [apply runs_reachable; vm_compute; reflexivity|vm_compute; reflexivity|vm_compute; reflexivity].
Defined.

(** ** The end of the broadcast thread *)

(** What happens to the identifiers of the threads: a client keeps the one it
    has, but for the step in which the main thread writes it. *)
Definition ids_from (s s' : sys) : Prop :=
  ∀ b c', structs s' !! b = Some c' → ∃ c, structs s !! b = Some c ∧ threadID c' = threadID c.

Lemma ids_refl s s' : structs s' = structs s → ids_from s s'.
Proof. intros E b c'. rewrite E. intros H. by exists c'. Qed.

Lemma ids_alter a f s s' : structs s' = alter f a (structs s) → (∀ c, threadID (f c) = threadID c) → ids_from s s'.
Proof.
  intros E Hf b c'. rewrite E. intros H.
  apply lookup_alter_Some in H as [(<- & c & H & ->)|[_ H]]; [by exists c|by exists c'].
Qed.

Lemma ids_private s s' : private s s' → ids_from s s'.
Proof.
  intros [_ _ _ _ H _ _ _ _ _ _] b c' Hb. specialize (H b). rewrite Hb in H. cbn in H.
  destruct (structs s !! b) as [c|]; [|done]. exists c. split; [done|]. unfold identity in H. cbn in H.
  by injection H.
Qed.

Lemma ids_drop a tid s s' : drop_locked a tid s = Done s' → ids_from s s' ∧ brk s' = brk s.
Proof.
  unfold drop_locked. intros H. outcome_cases; (split; [|done]); [|by apply ids_refl].
  intros b c' Hb. cbn in Hb. apply lookup_delete_Some in Hb as [_ Hb].
  apply lookup_alter_Some in Hb as [(<- & c & Hb & ->)|[_ Hb]]; [by exists c|by exists c'].
Qed.

Lemma client_effect_ids regcomp regexec u me a s p s' : client_effect regcomp regexec u me a s p s' →
  ids_from s s' ∧ brk s' = brk s.
Proof.
  intros H. destruct H;
    try match goal with H : private _ _ |- _ => split; [exact (ids_private _ _ H)|exact (private_brk _ _ H)] end;
    try (split; [by apply ids_refl|done]).
  - split; [|done]. by eapply (ids_alter a (set_nickname _)).
  - split; [|done]. by eapply (ids_alter a free_ssl).
  - exact (ids_drop _ _ _ _ H0).
Qed.

Lemma broadcast_step_ids ok s s' : broadcast_step ok s = Some (Done s') → ids_from s s' ∧ brk s' = brk s.
Proof.
  unfold broadcast_step. intros H. destruct (broadcast s); step_cases H; try (split; [by apply ids_refl|done]).
  - split; [|done]. by eapply (ids_alter a free_ssl).
  - exact (ids_drop _ _ _ _ E).
Qed.

(** The identifier of a client is written once, by the step after the one that
    added it. *)
Definition unwritten (s : sys) : Prop :=
  ∀ a t c, main s = MSetID a t → structs s !! a = Some c → threadID c = 0%Z.

Lemma main_step_ids e env s s' : main_step e env s = Some (Done s') →
  ∀ b c', structs s' !! b = Some c' →
    (∃ c, structs s !! b = Some c ∧ threadID c' = threadID c)
    ∨ b = brk s ∨ ∃ t, main s = MSetID b t.
Proof.
  unfold main_step. intros H b c' Hb.
  destruct (main s) eqn:Em; step_cases H; try (left; by apply (ids_refl s _ eq_refl)).
  - left. by apply (ids_private s _ (private_sendMessage _ _ _ _ _ _ _ E1)).
  - assert (Hi : <[brk s := new_client socket]> (structs s) !! b = Some c')
      by (cbn in Hb; by destruct (acc_thread e =? 0)%Z).
    apply lookup_insert_Some in Hi as [[<- _]|[_ Hi]]; [by right; left|left; by exists c'].
  - cbn in Hb. apply lookup_alter_Some in Hb as [(<- & c & Hb & ->)|[_ Hb]]; [right; right; eexists; reflexivity|left; by exists c'].
  - left. exists c'. split; [|done]. cbn in Hb. revert Hb. generalize (members a).
    intros xs. induction xs as [|x xs IH]; cbn; [done|]. intros [_ Hb]%lookup_delete_Some. by apply IH.
Qed.

Lemma main_step_setid e env s s' b t : main_step e env s = Some (Done s') → main s' = MSetID b t →
  b = brk s ∧ structs s' !! b = Some (new_client (match main s with MAppend k => k | _ => 0%Z end)).
Proof.
  unfold main_step. intros H Hm. destruct (main s) eqn:Em; step_cases H; cbn in Hm; try done;
    try (by repeat case_match).
  injection Hm as <- _. split; [done|]. cbn. destruct (acc_thread e =? 0)%Z; cbn; by rewrite lookup_insert_eq.
Qed.

Lemma step_unwritten regcomp regexec u l s s' : threads_ok u s → unwritten s →
  step regcomp regexec u l s = Some (Done s') → unwritten s'.
Proof.
  intros Ht U. destruct l as [e env|ok|t env|]; cbn [step]; intros H a tid c' Hm Hc.
  - destruct (main_step_setid _ _ _ _ _ _ H Hm) as [-> E]. rewrite E in Hc. by injection Hc as <-.
  - assert (Em : main s' = main s).
    { unfold broadcast_step in H. destruct (broadcast s); unfold drop_locked in *; step_cases H; done. }
    destruct (proj1 (broadcast_step_ids _ _ _ H) _ _ Hc) as (c & Hc0 & ->). rewrite Em in Hm. by eapply U.
  - destruct (threads s !! t) as [[b p]|] eqn:Et; [|done].
    apply client_step_effect in H; [|apply (Ht _ _ Et)].
    destruct (proj1 (client_effect_ids _ _ _ _ _ _ _ _ H) _ _ Hc) as (c & Hc0 & ->).
    apply client_effect_broadcast in H as (_ & _ & _ & Em & _). rewrite Em in Hm. by eapply U.
  - injection H as <-. by eapply U.
Qed.

Lemma reachable_unwritten regcomp regexec u max s : reachable regcomp regexec u max s → unwritten s.
Proof.
  induction 1 as [|s l s' R IH H]; [done|]. eapply step_unwritten; [by eapply reachable_threads_ok|done..].
Qed.

(** The broadcast thread starts in the first step of the main thread. *)
Lemma reachable_started regcomp regexec u max s : reachable regcomp regexec u max s →
  main s = MStart → broadcast s = BNone.
Proof.
  induction 1 as [|s l s' R IH H]; [done|]. intros Hm. destruct l as [e env|ok|t env|]; cbn [step] in H.
  - exfalso. unfold main_step in H. destruct (main s) eqn:Em; step_cases H; cbn in Hm; try done; by repeat case_match.
  - assert (Em : main s' = main s).
    { unfold broadcast_step in H. destruct (broadcast s); unfold drop_locked in *; step_cases H; done. }
    rewrite Em in Hm. unfold broadcast_step in H. by rewrite IH in H.
  - destruct (threads s !! t) as [[a p]|] eqn:Et; [|done].
    apply client_step_effect in H; [|apply (reachable_threads_ok _ _ _ _ _ R _ _ Et)].
    apply client_effect_broadcast in H as (_ & _ & -> & Em & _). apply IH. by rewrite <- Em.
  - injection H as <-. by apply IH.
Qed.

(** The broadcast thread on its way out, after a failed send to [a]; [k] steps
    are left. *)
Definition leaving (m : C2HMessage) (a k : nat) (s : sys) : Prop :=
  main s ≠ MStart ∧ a < brk s ∧
  match k with
  | 2 => broadcast s = BDrop m a ∧ (∀ c, structs s !! a = Some c → threadID c ≠ 0%Z) ∧ (∀ t, main s ≠ MSetID a t)
  | 1 => ∃ tid, broadcast s = BDropSearch a tid
  | 0 => broadcast s = BExit
  | _ => False
  end.

Definition is_broadcast (l : label) : bool := match l with LBroadcast _ => true | _ => false end.

Lemma leaving_same m a k s s' : leaving m a k s → ids_from s s' → brk s' = brk s → main s' = main s →
  broadcast s' = broadcast s → leaving m a k s'.
Proof.
  intros (H1 & H2 & H3) Hi Eb Em Ebr. unfold leaving. rewrite Em, Eb. split_and!; [done|done|].
  destruct k as [|[|[|]]]; rewrite ?Ebr; try done. destruct H3 as (H3 & H4 & H5). split_and!; [done| |done].
  intros c' Hc. destruct (Hi _ _ Hc) as (c & Hc0 & ->). by apply H4.
Qed.

Lemma step_leaving regcomp regexec u l m a k s s' : threads_ok u s → leaving m a k s →
  step regcomp regexec u l s = Some (Done s') →
  log s' = log s ∧ leaving m a (if is_broadcast l then pred k else k) s' ∧ (is_broadcast l = true → k ≠ 0).
Proof.
  intros Ht L. destruct l as [e env|ok|t env|]; cbn [step is_broadcast]; intros H.
  - destruct L as (H1 & H2 & H3).
    assert (E : log s' = log s ∧ broadcast s' = broadcast s ∧ main s' ≠ MStart ∧ brk s ≤ brk s').
    { clear H2 H3. unfold main_step in H. destruct (main s) eqn:Em; step_cases H; try (split_and!; done || lia).
      - cbn. split_and!; [done..| |lia]. by repeat case_match.
      - destruct (private_sendMessage _ _ _ _ _ _ _ E1). cbn. split_and!; try congruence. lia.
      - cbn. destruct (_ =? 0)%Z; cbn; split_and!; done || lia. }
    destruct E as (-> & Eb & Em & Hbrk). split; [done|]. split; [|done]. split; [done|]. split; [lia|].
    rewrite Eb. destruct k as [|[|[|]]]; try done. destruct H3 as (H3 & H4 & H5). split; [done|]. split.
    + intros c' Hc. destruct (main_step_ids _ _ _ _ H _ _ Hc) as [(c & Hc0 & ->)|[->|[t Ht']]]; [by apply H4|lia|by destruct (H5 t)].
    + intros t Hm. destruct (main_step_setid _ _ _ _ _ _ H Hm) as [-> _]. lia.
  - destruct L as (H1 & H2 & H3). unfold broadcast_step in H.
    destruct k as [|[|[|]]]; [by rewrite H3 in H| | |done].
    + destruct H3 as [tid H3]. rewrite H3 in H. destruct (locked s); [done|].
      apply (inj Some) in H. destruct (drop_locked a tid s) as [s1|] eqn:E; [|done]. cbn in H. injection H as <-.
      unfold drop_locked in E. outcome_cases; split_and!; done.
    + destruct H3 as (H3 & H4 & _). rewrite H3 in H. unfold load_client in H.
      destruct (structs s !! a) as [c|] eqn:Hc; cbn in H; [|done]. specialize (H4 c eq_refl).
      rewrite (proj2 (Z.eqb_neq _ _)) in H by done. injection H as <-. split; [done|]. split; [|done]. split; [done|]. split; [done|]. by exists (threadID c).
  - destruct (threads s !! t) as [[b p]|] eqn:Et; [|done].
    apply client_step_effect in H; [|apply (Ht _ _ Et)].
    destruct (client_effect_ids _ _ _ _ _ _ _ _ H) as [Hi Hb].
    apply client_effect_broadcast in H as (_ & El & Ebr & Em & _). split; [done|]. split; [|done].
    by eapply leaving_same.
  - injection H as <-. split; [done|]. split; [|done]. by eapply leaving_same; [done|by apply ids_refl|..].
Qed.

(** C39. One failed send ends all broadcasts.  When the broadcast thread sends
    to a client that has a thread, and the send fails, it calls
    [Server_dropClient], which ends the thread that calls it.  Whatever the
    other threads do from then on, nothing is broadcast any more: the thread
    only finishes that call, and is over after two more steps of its own,
    while the server goes on accepting clients and queuing their messages. *)
Theorem broadcast_thread_dies (regcomp : bytes → Z) (regexec : bytes → bytes → Z) (u : bool)
    (max : Z) (s s1 s2 : sys) (m : C2HMessage) (a : nat) (c : Client) (ls : list label)
    (R : reachable regcomp regexec u max s)
    (Hb : broadcast s = BSend m a) (Hc : structs s !! a = Some c) (Hid : threadID c ≠ 0%Z)
    (H1 : step regcomp regexec u (LBroadcast false) s = Some (Done s1))
    (H2 : run regcomp regexec u ls s1 = Some (Done s2)) :
  log s2 = log s
  ∧ match length (filter (λ l, is_broadcast l = true) ls) with
    | 0 => broadcast s2 = BDrop m a
    | 1 => ∃ tid, broadcast s2 = BDropSearch a tid
    | _ => broadcast s2 = BExit
    end.
Proof.
  assert (L : log s1 = log s ∧ leaving m a 2 s1).
  { cbn [step] in H1. unfold broadcast_step in H1. rewrite Hb in H1. unfold load_connected, load_client in H1.
    rewrite Hc in H1. cbn in H1. destruct (ssl c); [|done]. cbn in H1. injection H1 as <-. split; [done|].
    split; [|split; [|split_and!]]; cbn; try done.
    - intros Em. by rewrite (reachable_started _ _ _ _ _ R Em) in Hb.
    - apply (inv_fresh _ (reachable_inv _ _ _ _ _ R)). by exists c.
    - intros c' Hc'. congruence.
    - intros t Em. by apply Hid, (reachable_unwritten _ _ _ _ _ R a t). }
  destruct L as [<- L]. assert (R1 : reachable regcomp regexec u max s1) by (by eapply reachable_step).
  clear R Hb Hc Hid H1 s c. assert (E : ∃ k, k ≤ 2 ∧ leaving m a k s1 ∧ k = 2) by (by exists 2).
  destruct E as (k & Hk & Lk & Ek). clear L.
  assert (G : log s2 = log s1 ∧ leaving m a (k - length (filter (λ l, is_broadcast l = true) ls)) s2
    ∧ length (filter (λ l, is_broadcast l = true) ls) ≤ k).
  { clear Ek Hk. revert k s1 R1 Lk H2. induction ls as [|l ls IH]; intros k s1 R1 Lk H2; cbn in H2.
    - injection H2 as <-. cbn. rewrite Nat.sub_0_r. split_and!; [done..|lia].
    - destruct (step regcomp regexec u l s1) as [[s3|]|] eqn:E; [|done..].
      destruct (step_leaving _ _ _ _ _ _ _ _ _ (reachable_threads_ok _ _ _ _ _ R1) Lk E) as (<- & L3 & Hz).
      destruct (IH _ s3 (reachable_step _ _ _ _ _ _ _ R1 E) L3 H2) as (El & L2 & Hl). split; [done|].
      rewrite filter_cons. destruct (is_broadcast l) eqn:Eb.
      + rewrite decide_True by done. cbn [length]. specialize (Hz eq_refl).
        replace (k - S (length (filter (λ l, is_broadcast l = true) ls)))
          with (pred k - length (filter (λ l, is_broadcast l = true) ls)) by lia. split; [done|lia].
      + rewrite decide_False by done. done. }
  destruct G as (-> & (_ & _ & G) & Hl). split; [done|]. subst k.
  destruct (length _) as [|[|[|]]]; cbn in G; [by destruct G|done|done|lia].
Qed.

(** The send to ann fails; bob's later message stays in the queue. *)
Definition before_send : list label := two_users ++ pump 9.
Definition after_failure : list label :=
  [LBroadcast true; LClient 101 (arrives (lit "/msg hello" ++ [NUL])); LBroadcast true].

Definition failed_send : sys := end_of (before_send ++ [LBroadcast false]) 2.

Lemma broadcast_thread_dies_witness :
  ∃ s2, run any_regcomp length_regexec true after_failure failed_send = Some (Done s2)
    ∧ broadcast s2 = BExit ∧ log s2 = log (end_of before_send 2)
    ∧ queue s2 = Some [joined (lit "ann"); message_of kMessageTypeMsg (lit "bob") (lit "hello")].
Proof.
  assert (E : ∃ s2, run any_regcomp length_regexec true after_failure failed_send = Some (Done s2)
      ∧ queue s2 = Some [joined (lit "ann"); message_of kMessageTypeMsg (lit "bob") (lit "hello")])
    by (eexists; split; vm_compute; reflexivity).
  destruct E as (s2 & E & Q). exists s2. split; [exact E|].
  destruct (broadcast_thread_dies any_regcomp length_regexec true 2 (end_of before_send 2) failed_send s2 (joined (lit "bob")) 1
    (default (new_client 0) (structs (end_of before_send 2) !! 1)) after_failure) as [H1 H2];
    [apply runs_reachable; vm_compute; reflexivity|vm_compute; reflexivity|vm_compute; reflexivity
    |vm_compute; discriminate|vm_compute; reflexivity|exact E|].
  split_and!; [exact H2|exact H1|exact Q].
Defined.

(** ** Nicknames *)

(** The nickname a thread is about to check or take; it is taken by the two
    steps after the check found nobody with it. *)
Definition wanted (p : hpc) : option bytes :=
  match p with HLookup n | HSelf n | HSetNick n => Some n | _ => None end.
Definition claiming (p : hpc) : bool :=
  match p with HSelf _ | HSetNick _ => true | _ => false end.

(** At most one thread is between the check and the assignment. *)
Definition serial (s : sys) : Prop :=
  ∀ t1 t2 th1 th2, threads s !! t1 = Some th1 → threads s !! t2 = Some th2 →
    claiming (at_ th1) = true → claiming (at_ th2) = true → t1 = t2.

(** No two clients have the same nickname, except one that is what is kept of
    a name that was accepted though it is too long to be kept whole. *)
Definition nicknames_distinct (valid : bytes → bool) (s : sys) : Prop :=
  ∀ a b ca cb, structs s !! a = Some ca → structs s !! b = Some cb → a ≠ b →
    nickname ca ≠ [] → nickname ca = nickname cb →
    ∃ n, valid n = true ∧ kMaxNicknameSize ≤ length n ∧ nickname ca = take (kMaxNicknameSize - 1) n.

Definition claim_ok (valid : bytes → bool) (s : sys) (th : cthread) : Prop :=
  ∀ n, wanted (at_ th) = Some n → valid n = true
    ∧ (claiming (at_ th) = true → ∀ b c, structs s !! b = Some c → nickname c ≠ [] → same_nickname (nickname c) n = false).

Record names_ok (valid : bytes → bool) (s : sys) : Prop := {
  names_distinct : nicknames_distinct valid s;
  names_short : ∀ b c, structs s !! b = Some c → length (nickname c) < kMaxNicknameSize;
  names_claims : ∀ t th, threads s !! t = Some th → claim_ok valid s th
}.

(** No nickname appears that was not there before. *)
Definition names_from (s s' : sys) : Prop :=
  ∀ b c', structs s' !! b = Some c' →
    nickname c' = [] ∨ ∃ c, structs s !! b = Some c ∧ nickname c = nickname c'.

Lemma names_from_alter a f s s' : structs s' = alter f a (structs s) → (∀ c, nickname (f c) = nickname c) →
  names_from s s'.
Proof.
  intros E Hf b c'. rewrite E. intros H. right.
  apply lookup_alter_Some in H as [(<- & c & H & ->)|[_ H]]; [by exists c|by exists c'].
Qed.

Lemma names_from_private s s' : private s s' → names_from s s'.
Proof.
  intros [_ _ _ _ H _ _ _ _ _ _] b c' Hb. right. specialize (H b). rewrite Hb in H. cbn in H.
  destruct (structs s !! b) as [c|]; [|done]. exists c. split; [done|]. unfold identity in H. cbn in H.
  by injection H as _ ->.
Qed.

Lemma names_from_drop a tid s s' : drop_locked a tid s = Done s' → names_from s s'.
Proof.
  unfold drop_locked. intros H. outcome_cases; intros b c' Hb; right; [|by exists c'].
  cbn in Hb. apply lookup_delete_Some in Hb as [_ Hb].
  apply lookup_alter_Some in Hb as [(<- & c & Hb & ->)|[_ Hb]]; [by exists c|by exists c'].
Qed.

Lemma claim_ok_from valid s s' th : names_from s s' → claim_ok valid s th → claim_ok valid s' th.
Proof.
  intros Hf Hc n Hn. destruct (Hc n Hn) as [Hv Hd]. split; [done|]. intros Hcl b c' Hb Hne.
  destruct (Hf b c' Hb) as [E|(c & H & E)]; [done|]. rewrite <- E in Hne |- *. by eapply Hd.
Qed.

Lemma names_ok_from valid s s' : names_ok valid s → names_from s s' →
  (∀ t th, threads s' !! t = Some th → claim_ok valid s th) → names_ok valid s'.
Proof.
  intros [H1 H2 H3] Hf Ht. split.
  - intros a b ca cb Ha Hb Hne Hn E. destruct (Hf a ca Ha) as [Ea|(c & Ha' & Ea)]; [done|].
    destruct (Hf b cb Hb) as [Eb|(d & Hb' & Eb)]; [congruence|].
    rewrite <- Ea in Hn, E |- *. rewrite <- Eb in E. by apply (H1 a b c d).
  - intros b c Hb. destruct (Hf b c Hb) as [->|(d & Hb' & <-)]; [unfold kMaxNicknameSize; cbn; lia|by eapply H2].
  - intros t th H. eapply claim_ok_from; [done|by eapply Ht].
Qed.

Lemma claims_alter valid s s' me p' : names_ok valid s → threads s' = alter (set_pc p') me (threads s) →
  (∀ a, claim_ok valid s (CThread a p')) → ∀ t th, threads s' !! t = Some th → claim_ok valid s th.
Proof.
  intros N E Hp t th. rewrite E. intros H.
  apply lookup_alter_Some in H as [(_ & th' & _ & ->)|[_ H]]; [apply Hp|by eapply N].
Qed.

Section Nicknames.
Context (regcomp : bytes → Z) (regexec : bytes → bytes → Z) (u : bool).
Abbreviation valid := (Client_nicknameIsValid regcomp regexec).
Abbreviation claim_ok := (claim_ok valid).
Abbreviation names_ok := (names_ok valid).

Lemma claim_other s a p : wanted p = None → claim_ok s (CThread a p).
Proof. intros E n Hn. cbn in Hn. congruence. Qed.

(** The check finds every structure with the nickname. *)
Lemma lookup_free s r nick : inv s → clients s = Some r → search (has_nickname nick) r s = None →
  ∀ b c, structs s !! b = Some c → same_nickname (nickname c) nick = false.
Proof.
  intros [Ho _ _] Hr F b c Hb. rewrite Hr in Ho. destruct Ho as [_ Ho].
  assert (Hm : b ∈ members r) by (apply Ho; by eexists).
  exact (search_none _ _ _ _ _ F Hm Hb).
Qed.

(** A kept nickname that another client has, though the check found nobody
    with the whole one. *)
Lemma kept_nickname n x : length x < kMaxNicknameSize → x = take (kMaxNicknameSize - 1) n →
  same_nickname x n = false → kMaxNicknameSize ≤ length n.
Proof.
  intros Hx E Hs. unfold same_nickname in Hs. apply bool_decide_eq_false in Hs.
  destruct (decide (kMaxNicknameSize ≤ length n)) as [|Hlt]; [done|]. exfalso. apply Hs.
  rewrite (take_ge x) by lia. rewrite E, !take_ge by lia. done.
Qed.

Lemma names_ok_set s me a nick c : names_ok s → serial s → structs s !! a = Some c →
  threads s !! me = Some (CThread a (HSetNick nick)) →
  names_ok (goto me HHello (store_client a (set_nickname (take (kMaxNicknameSize - 1) nick)) s)).
Proof.
  intros [H1 H2 H3] Hs Hc Hme. destruct (H3 _ _ Hme nick eq_refl) as [Hv Hd]. specialize (Hd eq_refl).
  split; unfold nicknames_distinct, goto, store_client; cbn [structs threads set_threads set_structs].
  - intros x y cx cy Hx Hy Hne Hn E.
    apply lookup_alter_Some in Hx as [(<- & cx' & Hx & ->)|[Hxa Hx]];
    apply lookup_alter_Some in Hy as [(<- & cy' & Hy & ->)|[Hya Hy]]; cbn [nickname set_nickname] in *.
    + done.
    + exists nick. split_and!; [done| |done]. apply (kept_nickname nick (nickname cy)); [by eapply H2|done|].
      apply (Hd y cy Hy). congruence.
    + exists nick. split_and!; [done| |done]. apply (kept_nickname nick (nickname cx)); [by eapply H2|done|].
      by apply (Hd x cx Hx).
    + by apply (H1 x y cx cy).
  - intros b d Hb. apply lookup_alter_Some in Hb as [(<- & d' & Hb & ->)|[_ Hb]]; [|by eapply H2].
    cbn [nickname set_nickname]. rewrite length_take. unfold kMaxNicknameSize. lia.
  - intros t th Ht. apply lookup_alter_Some in Ht as [(_ & th' & _ & ->)|[Hne Ht]]; [by apply claim_other|].
    intros n Hn. destruct (H3 _ _ Ht n Hn) as [Hv' _]. split; [done|]. intros Hcl.
    exfalso. apply Hne. by eapply (Hs me t).
Qed.

Lemma ordinary_wanted p : ordinary p = true → wanted p = None.
Proof. by destruct p. Qed.

Lemma names_from_refl s s' : structs s' = structs s → names_from s s'.
Proof. intros E b c'. rewrite E. intros H. right. by exists c'. Qed.

Lemma names_from_goto t p s s' : names_from s s' → names_from s (goto t p s').
Proof. done. Qed.

Lemma client_effect_names me a s p s' : client_effect regcomp regexec u me a s p s' →
  well_formed p = true → inv s → serial s → names_ok s →
  threads s !! me = Some (CThread a p) → names_ok s'.
Proof.
  intros H W I S N Hme. pose proof (names_claims _ _ N _ _ Hme) as Hp. destruct H.
  1-2, 6-7: eapply names_ok_from; [done|by apply names_from_goto, names_from_private|];
    eapply claims_alter; [done|cbn; by rewrite (private_threads _ _ H)|];
    intros b; try first [by apply claim_other|by apply claim_other, ordinary_wanted].
  - by intros n [= <-].
  - eapply names_ok_from; [done|by apply names_from_refl|].
    eapply claims_alter; [done|done|]. intros b n [= <-].
    destruct (Hp nick eq_refl) as [Hv _]. split; [done|]. intros _ b' c Hb _. by eapply lookup_free.
  - eapply names_ok_from; [done|by apply names_from_refl|].
    eapply claims_alter; [done|done|]. intros b n [= <-]. by destruct (Hp nick eq_refl).
  - by eapply names_ok_set.
  - eapply names_ok_from; [done|by apply (names_from_alter a free_ssl)|].
    eapply claims_alter; [done|done|]. intros b. apply claim_other, ordinary_wanted.
    cbn in W. by apply andb_true_iff in W as [W _].
  - eapply names_ok_from; [done|by apply names_from_refl|].
    eapply claims_alter; [done|done|]. intros b. by apply claim_other.
  - pose proof (names_from_drop _ _ _ _ H0) as Hf.
    assert (Et : threads s' = threads s) by (unfold drop_locked in H0; outcome_cases; done).
    eapply names_ok_from; [done|exact Hf|].
    eapply claims_alter; [done|cbn; by rewrite Et|]. intros b. by apply claim_other.
Qed.

Lemma foldr_delete_Some (h : gmap nat Client) xs b c :
  foldr delete h xs !! b = Some c → h !! b = Some c.
Proof.
  induction xs as [|x xs IH]; cbn; [done|]. intros H. apply lookup_delete_Some in H as [_ H]. by apply IH.
Qed.

Lemma main_step_names e env s s' : main_step e env s = Some (Done s') → names_from s s'.
Proof.
  unfold main_step. intros H. destruct (main s); step_cases H; try (by apply names_from_refl).
  - apply private_sendMessage, names_from_private in E1. exact E1.
  - intros b c' Hb.
    assert (Hi : <[brk s := new_client socket]> (structs s) !! b = Some c')
      by (cbn in Hb; by destruct (acc_thread e =? 0)%Z).
    apply lookup_insert_Some in Hi as [[_ <-]|[_ Hi]]; [by left|right; by exists c'].
  - by apply (names_from_alter a (set_threadID t)).
  - intros b c' Hb. right. exists c'. split; [exact (foldr_delete_Some _ _ _ _ Hb)|done].
Qed.

Lemma broadcast_step_names ok s s' : broadcast_step ok s = Some (Done s') → names_from s s'.
Proof.
  unfold broadcast_step. intros H. destruct (broadcast s); step_cases H; try (by apply names_from_refl).
  - by apply (names_from_alter a free_ssl).
  - apply names_from_drop in E. exact E.
Qed.

Lemma step_names l s s' : threads_ok u s → inv s → serial s → names_ok s →
  step regcomp regexec u l s = Some (Done s') → names_ok s'.
Proof.
  intros Ht I S N. destruct l as [e env|ok|t env|]; cbn [step]; intros H.
  - eapply names_ok_from; [done|by eapply main_step_names|]. intros t th.
    apply main_step_threads in H as [->|(t' & a & ->)]; [apply N|].
    intros H'. apply lookup_insert_Some in H' as [[_ <-]|[_ H']]; [by apply claim_other|by eapply N].
  - eapply names_ok_from; [done|by eapply broadcast_step_names|].
    apply broadcast_step_threads in H as ->. apply N.
  - destruct (threads s !! t) as [[a p]|] eqn:Et; [|done].
    apply client_step_effect in H; [|apply (Ht _ _ Et)].
    eapply client_effect_names; [done|apply (Ht _ _ Et)|done..].
  - injection H as <-. eapply names_ok_from; [done|by apply names_from_refl|apply N].
Qed.

(** The states reached by schedules that never let a second thread between
    a check and the assignment that belongs to it. *)
Inductive serially_reachable (max : Z) : sys → Prop :=
  | serially_init : serially_reachable max (initial max)
  | serially_step s l s' : serially_reachable max s →
      step regcomp regexec u l s = Some (Done s') → serial s' → serially_reachable max s'.

Lemma serially_ok max s : serially_reachable max s →
  reachable regcomp regexec u max s ∧ serial s ∧ names_ok s.
Proof.
  induction 1 as [|s l s' _ (R & S & N) H S'].
  - split_and!; [apply reachable_init| |].
    + intros t1 t2 th1 th2. cbn. by rewrite lookup_empty.
    + by split; intros ? ?; cbn; rewrite lookup_empty.
  - split_and!; [by eapply reachable_step|done|].
    eapply step_names; [by eapply reachable_threads_ok|by eapply reachable_inv|done..].
Qed.

(** The check and the run, executable. *)
Definition serial_check (s : sys) : bool :=
  (length (filter (λ p, claiming (at_ p.2) = true) (map_to_list (threads s))) <=? 1)%nat.

Lemma serial_check_sound s : serial_check s = true → serial s.
Proof.
  unfold serial_check. rewrite Nat.leb_le. intros H t1 t2 th1 th2 H1 H2 C1 C2.
  assert (I1 : (t1, th1) ∈ filter (λ p, claiming (at_ p.2) = true) (map_to_list (threads s)))
    by (apply list_elem_of_filter; split; [done|by apply elem_of_map_to_list]).
  assert (I2 : (t2, th2) ∈ filter (λ p, claiming (at_ p.2) = true) (map_to_list (threads s)))
    by (apply list_elem_of_filter; split; [done|by apply elem_of_map_to_list]).
  destruct (filter _ _) as [|x [|y l]]; cbn in H; [by apply not_elem_of_nil in I1| |lia].
  apply list_elem_of_singleton in I1, I2. congruence.
Qed.

Fixpoint serial_run (ls : list label) (s : sys) : option sys :=
  match ls with
  | [] => Some s
  | l :: ls =>
    match step regcomp regexec u l s with
    | Some (Done s') => if serial_check s' then serial_run ls s' else None
    | _ => None
    end
  end.

Lemma serial_run_reachable max ls : ∀ s s', serially_reachable max s → serial_run ls s = Some s' →
  serially_reachable max s'.
Proof.
  induction ls as [|l ls IH]; intros s s' R; cbn; [by intros [= <-]|].
  destruct (step _ _ _ l s) as [[s1|]|] eqn:E; [|done..]. destruct (serial_check s1) eqn:C; [|done].
  apply IH. eapply serially_step; [done..|]. by apply serial_check_sound.
Qed.
End Nicknames.

(** C14. Nicknames are unique as long as the check and the assignment of a
    nickname are not interleaved with those of another client, up to the bytes
    that are kept of them: whatever the regular expression library accepts (an
    error of it counts as acceptance), in every state reached by schedules in
    which at most one thread at a time is between the two, two clients have
    the same nickname only if it is the first 59 bytes of an accepted name of
    60 bytes or more. *)
Theorem nicknames_unique (regcomp : bytes → Z) (regexec : bytes → bytes → Z) (u : bool)
    (max : Z) (s : sys) (R : serially_reachable regcomp regexec u max s)
    (a b : nat) (ca cb : Client)
    (Ha : structs s !! a = Some ca) (Hb : structs s !! b = Some cb) (Hab : a ≠ b)
    (Hne : nickname ca ≠ []) (Heq : nickname ca = nickname cb) :
  ∃ n, Client_nicknameIsValid regcomp regexec n = true ∧ 60 ≤ length n ∧ nickname ca = take 59 n.
Proof. destruct (serially_ok regcomp regexec u max s R) as (_ & _ & [H _ _]). by apply (H a b ca cb). Qed.

(** A library that counts characters of UTF-8: 2 to 15 of them. *)
Definition is_character (c : ascii) : bool := negb (128 <=? N_of_ascii c)%N || (192 <=? N_of_ascii c)%N.
Definition utf8_regexec (_ name : bytes) : Z :=
  if decide (2 ≤ length (filter (λ c, is_character c = true) name) ≤ 15) then 0%Z else REG_NOMATCH.

(** U+20000, a letter of four bytes, fifteen times: two clients with that name,
    one after the other. *)
Definition ideograph : bytes := Ascii.ascii_of_nat <$> [240; 160; 128; 128].
Definition long_name : bytes := concat (replicate 15 ideograph).
Definition same_long_name : list label :=
  startup ++ accept 5 101 ++ accept 6 102 ++ login 101 long_name ++ login 102 long_name.

(** What the two clients of a schedule are called. *)
Definition names_of (r : option sys) : option (bytes * bytes) :=
  s ← r; ca ← structs s !! 0; cb ← structs s !! 1; Some (nickname ca, nickname cb).

Lemma names_of_inv r x y : names_of r = Some (x, y) →
  ∃ s ca cb, r = Some s ∧ structs s !! 0 = Some ca ∧ structs s !! 1 = Some cb ∧ nickname ca = x ∧ nickname cb = y.
Proof.
  destruct r as [s|]; [|done]. cbn. destruct (structs s !! 0) as [ca|] eqn:Ha; cbn; [|done].
  destruct (structs s !! 1) as [cb|] eqn:Hb; cbn; [|done]. intros [= <- <-]. by exists s, ca, cb.
Qed.

(** Names of fifteen characters that take 60 bytes are not unique: the second
    client is let in with the same name, because the whole name is compared
    with what is kept of the first. *)
Lemma long_nicknames_collide :
  names_of (serial_run any_regcomp utf8_regexec true same_long_name (initial 5))
  = Some (take 59 long_name, take 59 long_name).
Proof. vm_compute. reflexivity. Qed.

Lemma nicknames_unique_witness :
  ∃ n, Client_nicknameIsValid any_regcomp utf8_regexec n = true ∧ 60 ≤ length n ∧ take 59 long_name = take 59 n.
Proof.
  destruct (names_of_inv _ _ _ long_nicknames_collide) as (s & ca & cb & E & Ha & Hb & <- & Nb).
  apply (nicknames_unique any_regcomp utf8_regexec true 5 s
    (serial_run_reachable _ _ _ 5 same_long_name (initial 5) s (serially_init _ _ _ _) E) 0 1 ca cb Ha Hb);
    [discriminate| |congruence].
  intros Hn. pose proof long_nicknames_collide as H. rewrite E in H. cbn in H. rewrite Ha, Hb in H. cbn in H.
  rewrite Hn in H. discriminate H.
Defined.

(** Names that are kept whole are unique. *)
Theorem short_nicknames_unique (regcomp : bytes → Z) (regexec : bytes → bytes → Z) (u : bool)
    (max : Z) (s : sys) (Hshort : ∀ n, Client_nicknameIsValid regcomp regexec n = true → length n < kMaxNicknameSize)
    (R : serially_reachable regcomp regexec u max s) (a b : nat) (ca cb : Client) :
  structs s !! a = Some ca → structs s !! b = Some cb → a ≠ b → nickname ca ≠ [] → nickname ca ≠ nickname cb.
Proof.
  intros Ha Hb Hab Hne Heq. destruct (serially_ok regcomp regexec u max s R) as (_ & _ & [H _ _]).
  destruct (H a b ca cb Ha Hb Hab Hne Heq) as (n & Hv & Hl & _). specialize (Hshort n Hv). lia.
Qed.

(** Two users log in one after the other; a third who asks for a name in use
    is refused. *)
Definition refused : list label :=
  two_users ++ accept 7 103 ++ ask 103 (lit "ann") ++ steps 103 1.

Lemma refused_name : ∃ s, serial_run any_regcomp length_regexec true refused (initial 5) = Some s
    ∧ threads s !! 103%Z = Some (CThread 2 HDenied).
Proof. eexists; split; vm_compute; reflexivity. Qed.

(** ** Schedules that go wrong *)

(** Two clients ask for the same name; both check before either is assigned. *)
Definition same_name : list label :=
  startup ++ accept 5 101 ++ accept 6 102 ++ ask 101 (lit "bob") ++ ask 102 (lit "bob")
  ++ steps 101 1 ++ steps 102 1 ++ steps 101 2 ++ steps 102 2.

(** The first client quits while its announcement is being broadcast, when
    the second has been sent to: deleting the first node sets the cursor to
    the new first node. *)
Definition first_leaves : list label :=
  two_users ++ pump 10 ++ [LClient 101 (arrives (lit "/quit" ++ [NUL]))] ++ steps 101 3 ++ pump 4.

(** What interleaving can do without breaking a rule of the language: two
    clients with the same nickname, and a message delivered twice to a
    client. *)
Theorem interleavings_break_guarantees :
  (∃ s ca cb, drun same_name (initial 5) = Some (Done s)
     ∧ structs s !! 0 = Some ca ∧ structs s !! 1 = Some cb
     ∧ nickname ca = lit "bob" ∧ nickname cb = lit "bob")
  ∧ (∃ s, drun first_leaves (initial 5) = Some (Done s)
     ∧ log s = [(0, 0, joined (lit "bob")); (0, 1, joined (lit "bob")); (0, 1, joined (lit "bob"))]).
Proof.
  split; [do 3 eexists|eexists]; split_and!; vm_compute; reflexivity.
Qed.

(** Schedules that end in undefined behaviour.

    The broadcast thread runs before the main thread has made the queue. *)
Definition startup_race : list label := [go idle; LBroadcast true].

(** A client's thread compares its identifier with the one in its structure
    before the main thread has written it: the connection is freed as one
    without a thread, and the thread goes on to use it. *)
Definition early_thread : list label := startup ++ take 4 (accept 5 101) ++ steps 101 3.

(** A client leaves when the cursor of the list is on its node. *)
Definition lost_cursor : list label :=
  two_users ++ pump 6 ++ [LClient 102 (arrives (lit "/quit" ++ [NUL]))] ++ steps 102 3 ++ pump 2.

(** A client leaves when the broadcast thread has just got its address. *)
Definition freed_client : list label :=
  two_users ++ pump 8 ++ [LClient 102 (arrives (lit "/quit" ++ [NUL]))] ++ steps 102 3 ++ pump 1.

(** The main thread waits for client threads, which it has detached. *)
Definition shutdown : list label := two_users ++ [LSignal; go idle; go idle].

(** A nickname is refused: the explanation has a percent sign. *)
Definition invalid_name : list label := startup ++ accept 5 101 ++ ask 101 (lit "x").

(** A nickname with a percent sign, which the pattern allows. *)
Definition percent_name : list label := startup ++ accept 5 101 ++ ask 101 (lit "a%b") ++ steps 101 4.

Definition faulty_schedules : list (list label * fault) :=
  [(startup_race, NullDereference); (early_thread, DanglingPointer); (lost_cursor, DanglingPointer);
   (freed_client, DanglingPointer); (shutdown, InvalidThread); (invalid_name, BadFormat);
   (percent_name, BadFormat)].

(** Seven short schedules of a server that end in undefined behaviour:
    a race at start-up, a client thread that starts before its identifier is
    written, clients that leave during a broadcast (the cursor of the list or
    the address of the client dangles), the shutdown that joins detached
    threads, and nicknames refused or accepted with a percent sign. *)
Theorem schedules_with_faults :
  Forall (λ p, drun p.1 (initial 5) = Some (Stuck p.2)) faulty_schedules.
Proof. repeat constructor; vm_compute; reflexivity. Qed.
