(* ===== verification/ServerDelivery.v ===== *)
(** * Who receives a message (src/server/server.c)

    What becomes of one message of the queue in any schedule in which no user
    leaves: other threads may run between any two steps of the broadcast
    thread, other messages may wait before it or be queued after it, and new
    connections may be added.  The message is followed by its number, its
    position among all messages ever queued. *)

From S2P Require Import Prelude.
From S2P Require Import CStr.
From S2P Require Import ListSpec.
From S2P Require Import MessageLib.
From S2P Require Import MessageSpec.
From S2P Require Import Transport.
From S2P Require Import ServerIO.
From S2P Require Import ServerSys.
From S2P Require Import ServerInv.
From S2P Require Import ServerProps.

(** ** Names

    A user keeps its name: it is written once, by the user's own thread. *)

(** The places of a thread before it names its client. *)
Fixpoint unnamed_at (p : hpc) : bool :=
  match p with
  | HStart | HWelcome | HPrompt | HWait _ | HLookup _ | HSelf _ | HSetNick _ => true
  | HDrop k => unnamed_at k
  | _ => false
  end.

Definition is_setnick (p : hpc) : bool := match p with HSetNick _ => true | _ => false end.

Record naming (s : sys) : Prop := {
  naming_fresh : ∀ t th, threads s !! t = Some th → pointer th < brk s;
  naming_own : ∀ t t' th th', threads s !! t = Some th → threads s !! t' = Some th' → pointer th = pointer th' → t = t';
  naming_empty : ∀ t th c, threads s !! t = Some th → unnamed_at (at_ th) = true →
    structs s !! pointer th = Some c → nickname c = []
}.

(** A client that is a user, with a connection that can be written to. *)
Definition present (s : sys) (a : nat) : Prop :=
  ∃ c, structs s !! a = Some c ∧ nickname c ≠ [] ∧ SOCKET_isValid (socket c) = true.

(** The clients of [s'] are those of [s], but for what [named] allows. *)
Definition names_kept (named : nat → Prop) (s s' : sys) : Prop :=
  ∀ b c', structs s' !! b = Some c' → ∃ c, structs s !! b = Some c ∧ socket c' = socket c
    ∧ (nickname c' = nickname c ∨ named b).

Lemma kept_refl P s s' : structs s' = structs s → names_kept P s s'.
Proof. intros E b c'. rewrite E. intros H. exists c'. auto. Qed.

Lemma kept_private P s s' : private s s' → names_kept P s s'.
Proof.
  intros [_ _ _ _ H _ _ _ _ _ _] b c' Hb. specialize (H b). rewrite Hb in H. cbn in H.
  destruct (structs s !! b) as [c|]; [|done]. exists c. unfold identity in H. cbn in H. injection H as _ -> -> _. auto.
Qed.

Lemma kept_alter (P : nat → Prop) a f s s' : structs s' = alter f a (structs s) → (∀ c, socket (f c) = socket c) →
  (P a ∨ ∀ c, nickname (f c) = nickname c) → names_kept P s s'.
Proof.
  intros E Hs Hn b c'. rewrite E. intros H.
  apply lookup_alter_Some in H as [(<- & c & H & ->)|[_ H]]; [|exists c'; auto].
  exists c. split_and!; [done|done|]. destruct Hn; [by right|by left].
Qed.

Lemma kept_drop P a tid s s' : drop_locked a tid s = Done s' → names_kept P s s'.
Proof.
  unfold drop_locked. intros H. outcome_cases; [|by apply kept_refl].
  intros b c' Hb. cbn in Hb. apply lookup_delete_Some in Hb as [_ Hb].
  apply lookup_alter_Some in Hb as [(<- & c & Hb & ->)|[_ Hb]]; [exists c|exists c']; auto.
Qed.

Lemma client_effect_keeps_names regcomp regexec u me a s p s' : client_effect regcomp regexec u me a s p s' →
  names_kept (λ b, b = a ∧ is_setnick p = true) s s'.
Proof.
  intros H. destruct H;
    try match goal with H : private _ _ |- _ => exact (kept_private _ _ _ H) end;
    try (by apply kept_refl).
  - eapply (kept_alter _ a); [done|done|by left].
  - eapply (kept_alter _ a free_ssl); [done|done|by right].
  - exact (kept_drop _ _ _ _ _ H0).
Qed.

Lemma broadcast_step_keeps_names ok s s' : broadcast_step ok s = Some (Done s') → names_kept (λ _, False) s s'.
Proof.
  unfold broadcast_step. intros H. destruct (broadcast s); step_cases H; try (by apply kept_refl).
  - eapply (kept_alter _ a free_ssl); [done|done|by right].
  - exact (kept_drop _ _ _ _ _ E).
Qed.

(** A client that appears is one the main thread has just added. *)
Lemma main_step_keeps_names e env s s' b c' : main_step e env s = Some (Done s') → structs s' !! b = Some c' →
  (∃ c, structs s !! b = Some c ∧ socket c' = socket c ∧ nickname c' = nickname c) ∨ (b = brk s ∧ nickname c' = []).
Proof.
  assert (K : names_kept (λ _, False) s s' → structs s' !! b = Some c' →
    ∃ c, structs s !! b = Some c ∧ socket c' = socket c ∧ nickname c' = nickname c).
  { intros N H. destruct (N b c' H) as (c & ? & ? & [|[]]). by exists c. }
  unfold main_step. intros H Hb.
  destruct (main s) eqn:Em; step_cases H; try (left; apply K; [by apply kept_refl|done]).
  - left. apply K; [|done]. exact (kept_private _ _ _ (private_sendMessage _ _ _ _ _ _ _ E1)).
  - assert (Hi : <[brk s := new_client socket]> (structs s) !! b = Some c')
      by (cbn in Hb; by destruct (acc_thread e =? 0)%Z).
    apply lookup_insert_Some in Hi as [[<- <-]|[_ Hi]]; [by right|left; by exists c'].
  - left. apply K; [|done]. eapply (kept_alter _ a (set_threadID t)); [done|done|by right].
  - left. exists c'. split; [|done]. cbn in Hb. revert Hb. generalize (members a).
    intros xs. induction xs as [|x xs IH]; cbn; [done|]. intros [_ Hb]%lookup_delete_Some. by apply IH.
Qed.

(** A thread that has named its client does not come back. *)
Lemma client_step_forward regcomp regexec u me a p env s s' :
  client_step regcomp regexec u me a p env s = Some (Done s') →
  ∃ p' s1, s' = goto me p' s1 ∧ (unnamed_at p' = true → unnamed_at p = true ∧ is_setnick p = false).
Proof.
  intros H. destruct p; cbn [client_step] in H;
    repeat match type of H with (if ?b then _ else _) = Some _ => destruct b end;
    try discriminate H; apply (inj Some) in H.
  all: unfold auth_wait, chat_turn in H; outcome_cases; eexists _, _; (split; [reflexivity|]); cbn [fst snd unnamed_at is_setnick];
    repeat match goal with |- context [if ?b then _ else _] => destruct b end; cbn; auto; discriminate.
Qed.

Section Reachable.
Context (regcomp : bytes → Z) (regexec : bytes → bytes → Z) (u : bool).

Lemma client_step_threads me a p env s s' : threads_ok u s → threads s !! me = Some (CThread a p) →
  client_step regcomp regexec u me a p env s = Some (Done s') →
  ∃ p', threads s' = alter (set_pc p') me (threads s)
    ∧ (unnamed_at p' = true → unnamed_at p = true ∧ is_setnick p = false).
Proof.
  intros Ht Em H. destruct (client_step_forward _ _ _ _ _ _ _ _ _ H) as (p' & s1 & -> & Hp).
  apply client_step_effect in H; [|apply (Ht _ _ Em)].
  destruct (client_effect_threads _ _ _ _ _ _ _ _ H (Ht _ _ Em)) as (p2 & _ & E). exists p2. split; [done|].
  assert (p2 = p') as ->; [|done].
  assert (Hl : threads (goto me p' s1) !! me = Some (CThread a p2)) by (rewrite E, lookup_alter_eq, Em; done).
  cbn in Hl. rewrite lookup_alter_eq in Hl. destruct (threads s1 !! me); [|done]. by injection Hl.
Qed.

Lemma naming_client t a p env s s' : threads_ok u s → naming s → threads s !! t = Some (CThread a p) →
  client_step regcomp regexec u t a p env s = Some (Done s') → naming s'.
Proof.
  intros Ht [N1 N2 N3] Em H. destruct (client_step_threads _ _ _ _ _ _ Ht Em H) as (p' & E & Hp).
  apply client_step_effect in H; [|apply (Ht _ _ Em)].
  pose proof (client_effect_keeps_names _ _ _ _ _ _ _ _ H) as K.
  destruct (client_effect_ids _ _ _ _ _ _ _ _ H) as [_ Eb].
  assert (Hth : ∀ t' th', threads s' !! t' = Some th' → ∃ th, threads s !! t' = Some th ∧ pointer th' = pointer th
    ∧ (unnamed_at (at_ th') = true → unnamed_at (at_ th) = true ∧ (t' = t → is_setnick p = false))).
  { intros t' th'. rewrite E. intros [(-> & th & H1 & ->)|[Hne H1]]%lookup_alter_Some.
    - rewrite Em in H1. injection H1 as <-. eexists. split; [exact Em|]. split; [done|]. cbn. naive_solver.
    - exists th'. split_and!; [done|done|]. intros ?. split; [done|]. by intros ->. }
  split.
  - intros t' th' (th & H1 & -> & _)%Hth. rewrite Eb. by eapply N1.
  - intros t1 t2 th1' th2' (th1 & H1 & E1 & _)%Hth (th2 & H2 & E2 & _)%Hth Hp'. eapply N2; [exact H1|exact H2|congruence].
  - intros t' th' c' Ht' Hu Hc. destruct (Hth _ _ Ht') as (th & H1 & E1 & Hu'). destruct (Hu' Hu) as [Hu1 Hu2].
    destruct (K _ _ Hc) as (c & Hc1 & _ & [->|[Ea Hs]]); rewrite E1 in *; [by eapply N3|].
    rewrite Hu2 in Hs; [done|]. by eapply (N2 t' t th (CThread a p)).
Qed.

Lemma naming_main e env s s' : inv s → naming s → main_step e env s = Some (Done s') → naming s'.
Proof.
  intros I [N1 N2 N3] H. pose proof (λ b c', main_step_keeps_names e env s s' b c' H) as K.
  assert (Hc : ∀ t th c', threads s !! t = Some th → unnamed_at (at_ th) = true → structs s' !! pointer th = Some c' → nickname c' = []).
  { intros t th c' Ht Hu Hb. destruct (K _ _ Hb) as [(c & Hb' & _ & ->)|[_ ?]]; [|done]. by eapply N3. }
  assert (Hk : threads s' = threads s ∧ brk s ≤ brk s' ∨ ∃ t, threads s' = <[t := CThread (brk s) HStart]> (threads s) ∧ brk s' = S (brk s)).
  { clear - H. unfold main_step in H. destruct (main s); step_cases H; try (left; split; cbn; done || lia).
    - left. pose proof (private_sendMessage _ _ _ _ _ _ _ E1) as P. split; [exact (private_threads _ _ P)|cbn; by rewrite (private_brk _ _ P)].
    - cbn. destruct (acc_thread e =? 0)%Z; [left; cbn; split; [done|lia]|right]. by exists (acc_thread e). }
  destruct Hk as [[E Eb]|(t & E & Eb)].
  - split; rewrite ?E; [|done|done]. intros t th Ht. specialize (N1 t th Ht). lia.
  - split; rewrite E.
    + intros t' th [[_ <-]|[_ Ht]]%lookup_insert_Some; [cbn; lia|]. specialize (N1 _ _ Ht). lia.
    + intros t1 t2 th1 th2 [[<- <-]|[Hne1 H1]]%lookup_insert_Some [[<- <-]|[Hne2 H2]]%lookup_insert_Some; cbn; [done|..].
      * specialize (N1 _ _ H2). lia.
      * specialize (N1 _ _ H1). lia.
      * by eapply N2.
    + intros t' th c' [[<- <-]|[_ Ht]]%lookup_insert_Some Hu Hb; [|by eapply Hc].
      cbn in Hb. destruct (K _ _ Hb) as [(c & Hb' & _)|[_ ?]]; [|done].
      pose proof (inv_fresh _ I (brk s)) as F. rewrite Hb' in F. specialize (F ltac:(by eexists)). lia.
Qed.

Lemma reachable_naming max s : reachable regcomp regexec u max s → naming s.
Proof.
  induction 1 as [|s l s' R IH H]; [by split; intros t; cbn; rewrite lookup_empty|].
  pose proof (reachable_threads_ok _ _ _ _ _ R) as Ht. pose proof (reachable_inv _ _ _ _ _ R) as I.
  destruct l as [e env|ok|t env|]; cbn [step] in H.
  - by eapply naming_main.
  - destruct IH as [N1 N2 N3]. pose proof (broadcast_step_keeps_names _ _ _ H) as K. pose proof (broadcast_step_threads _ _ _ H) as E.
    destruct (broadcast_step_ids _ _ _ H) as [_ Eb]. split; rewrite ?E, ?Eb; [done|done|].
    intros t th c' Ht' Hu Hc. destruct (K _ _ Hc) as (c & Hc1 & _ & [->|[]]). by eapply N3.
  - destruct (threads s !! t) as [[a p]|] eqn:Et; [|done]. by eapply naming_client.
  - injection H as <-. destruct IH. by split.
Qed.

(** Who is a user stays one while its client is in memory. *)
Lemma present_step max l s s' a : reachable regcomp regexec u max s → step regcomp regexec u l s = Some (Done s') →
  present s a → is_Some (structs s' !! a) → present s' a.
Proof.
  intros R H (c & Hc & Hn & Hs) [c' Hc']. exists c'. split; [done|].
  assert (E : socket c' = socket c ∧ nickname c' = nickname c); [|by destruct E as [-> ->]].
  destruct l as [e env|ok|t env|]; cbn [step] in H.
  - destruct (main_step_keeps_names _ _ _ _ _ _ H Hc') as [(c1 & Hc1 & ?)|[-> _]]; [by simplify_eq|].
    pose proof (inv_fresh _ (reachable_inv _ _ _ _ _ R) (brk s)) as F. rewrite Hc in F. specialize (F ltac:(by eexists)). lia.
  - destruct (broadcast_step_keeps_names _ _ _ H _ _ Hc') as (c1 & Hc1 & ? & [?|[]]). by simplify_eq.
  - destruct (threads s !! t) as [[b p]|] eqn:Et; [|done].
    pose proof (reachable_threads_ok _ _ _ _ _ R _ _ Et) as Hp. apply client_step_effect in H; [|apply Hp].
    destruct (client_effect_keeps_names _ _ _ _ _ _ _ _ H _ _ Hc') as (c1 & Hc1 & ? & [?|[-> Hset]]); [by simplify_eq|].
    simplify_eq. destruct Hn. eapply (naming_empty _ (reachable_naming _ _ R)); [exact Et|by destruct p|exact Hc].
  - injection H as <-. cbn in Hc'. by simplify_eq.
Qed.

(** The server ends only when it is told to. *)
Definition ending (p : mpc) : bool :=
  match p with MJoin | MFreeList | MJoinBroadcast | MDone => true | _ => false end.

Lemma client_effect_terminate me a s p s' : client_effect regcomp regexec u me a s p s' → terminate s' = terminate s.
Proof.
  intros H. destruct H; try match goal with H : private _ _ |- _ => exact (private_terminate _ _ H) end; try done.
  unfold drop_locked in H0. outcome_cases; done.
Qed.

Lemma reachable_ending max s : reachable regcomp regexec u max s → ending (main s) = true → terminate s = true.
Proof.
  induction 1 as [|s l s' R IH H]; [done|]. destruct l as [e env|ok|t env|]; cbn [step] in H.
  - unfold main_step in H. destruct (main s) eqn:Em; step_cases H; cbn; try done; try by apply IH.
    destruct (terminate s); [done|]. by destruct (acc_socket e).
  - assert (E : main s' = main s ∧ terminate s' = terminate s); [|by destruct E as [-> ->]].
    unfold broadcast_step in H. destruct (broadcast s); unfold drop_locked in *; step_cases H; done.
  - destruct (threads s !! t) as [[b p]|] eqn:Et; [|done].
    apply client_step_effect in H; [|apply (reachable_threads_ok _ _ _ _ _ R _ _ Et)].
    rewrite (client_effect_terminate _ _ _ _ _ H). apply client_effect_broadcast in H as (_ & _ & _ & -> & _). done.
  - by injection H as <-.
Qed.
End Reachable.

(** ** One message *)

(** The clients that were sent message number [K], in order, and what they
    were sent. *)
Definition deliveries (K : nat) (s : sys) : list (nat * C2HMessage) :=
  (λ e, (e.1.2, e.2)) <$> filter (λ e, number e = K) (log s).

(** The broadcast thread is done with message number [K]. *)
Definition pass_over (K : nat) (s : sys) : Prop :=
  S K < length (popped s) ∨ length (popped s) = S K ∧ (broadcast s = BSleep ∨ broadcast s = BPop).

(** A roster that only the broadcast thread and new connections have changed. *)
Definition roster_follows (r r' : roster) : Prop := r' = r ∨ ∃ a, r' = roster_append a r.

(** How far the pass has come, when [D] have been sent the message: [xs] is
    the list when the message was queued, [P] those of it who must get it,
    [Q] those who may. *)
Definition progress (xs D : list nat) (P Q : nat → Prop) (r : roster) (p : bpc) : Prop :=
  match p with
  | BRewind _ => D = []
  | BWhile _ | BNext _ => ∃ c, cursor r = Some c ∧ c ≤ length (members r)
      ∧ D `sublist_of` take c (members r) ∧ ∀ x, x ∈ take c xs → P x → x ∈ D
  | BCheck _ a | BSend _ a => ∃ j c, cursor r = Some c ∧ members r !! j = Some a ∧ S j ≤ c ≤ length (members r)
      ∧ D `sublist_of` take j (members r) ∧ (∀ x, x ∈ take c xs → P x → x = a ∨ x ∈ D)
      ∧ match p with BSend _ _ => Q a | _ => True end
  | BSleep | BPop => D `sublist_of` members r ∧ ∀ x, x ∈ xs → P x → x ∈ D
  | _ => False
  end.

Section Follows.
Context (xs D : list nat) (P Q Q' : nat → Prop) (r r' : roster).
Context (Hpre : xs `prefix_of` members r) (Hf : roster_follows r r').

Lemma follows_prefix : members r `prefix_of` members r'.
Proof. destruct Hf as [E|[b E]]; rewrite E; [done|]. by exists [b]. Qed.

(** The cursor moves only past a new client. *)
Lemma follows_cursor c : cursor r = Some c → c ≤ length (members r) → (members r = [] → c = 0) →
  ∃ c', cursor r' = Some c' ∧ c ≤ c' ≤ length (members r') ∧ take c' xs = take c xs.
Proof.
  intros Hc Hl He. destruct Hf as [E'|[b' E']]; rewrite E'; [by exists c|]. unfold roster_append. cbn [cursor members].
  rewrite length_app. destruct (members r) as [|b ys] eqn:E; [exists 0; rewrite He; [cbn; auto with lia|done]|].
  rewrite Hc. cbn [fmap option_fmap option_map length] in *. case_decide; [exists c; auto with lia|].
  exists (S c). split; [done|]. split; [lia|]. apply prefix_length in Hpre. cbn in Hpre. rewrite !take_ge by lia. done.
Qed.

Lemma sublist_longer (ys zs : list nat) i k : D `sublist_of` take i ys → i ≤ k → ys `prefix_of` zs → i ≤ length ys →
  D `sublist_of` take k zs.
Proof.
  intros Hs Hi [ws ->] Hl. etrans; [exact Hs|]. rewrite <- (take_app_le ys ws) by lia.
  replace i with (i `min` k) at 1 by lia. rewrite <- take_take. apply sublist_take.
Qed.

Lemma progress_follows p : xs ≠ [] → (∀ a, a ∈ members r → Q a → Q' a) → progress xs D P Q r p → progress xs D P Q' r' p.
Proof.
  intros Hne HQ. pose proof follows_prefix as Hp.
  assert (Hr : members r ≠ []) by (intros E; rewrite E in Hpre; by apply prefix_nil_inv in Hpre).
  destruct p; cbn; try done.
  1,6: intros [H1 H2]; split; [destruct Hp as [ws ->]; by apply sublist_inserts_r|done].
  1,2: intros (c & H1 & H2 & H3 & H4); destruct (follows_cursor c H1 H2) as (c' & E1 & E2 & E3); [done|];
    exists c'; rewrite E3; split_and!; [done|lia|by eapply sublist_longer; [exact H3|lia|done|lia]|done].
  all: intros (j & c & H1 & H2 & H3 & H4 & H5 & H6); destruct (follows_cursor c H1 ltac:(lia)) as (c' & E1 & E2 & E3); [done|];
    exists j, c'; rewrite E3; pose proof (lookup_lt_Some _ _ _ H2);
    split_and!; try done; try lia; [by eapply prefix_lookup_Some|by eapply sublist_longer; [exact H4|lia|done|lia]|..].
  apply HQ; [by eapply list_elem_of_lookup_2|done].
Qed.
End Follows.

Section Delivery.
Context (regcomp : bytes → Z) (regexec : bytes → bytes → Z) (u : bool) (max : Z).

(** A run in which no send fails, the server is not told to end, and nobody
    in the list leaves it. *)
Inductive calm : sys → sys → Prop :=
  | calm_refl s : calm s s
  | calm_step s s1 l s2 r1 r2 : calm s s1 → step regcomp regexec u l s1 = Some (Done s2) →
      l ≠ LBroadcast false → terminate s2 = false →
      clients s1 = Some r1 → clients s2 = Some r2 → members r1 `prefix_of` members r2 → calm s s2.

Lemma calm_trans s1 s2 s3 : calm s1 s2 → calm s2 s3 → calm s1 s3.
Proof. intros H1 H2. induction H2 as [|s1' s2' l s3' r1 r2 _ IH]; [done|]. by eapply (calm_step s1 s2' l s3' r1 r2); [apply IH|..]. Qed.

Lemma calm_reachable s s' : calm s s' → reachable regcomp regexec u max s → reachable regcomp regexec u max s'.
Proof. intros H. induction H as [|s s1 l s2 r1 r2 _ IH H]; [done|]. intros R. eapply reachable_step; [by apply IH|exact H]. Qed.

(** What the other threads leave to the broadcast thread. *)
Lemma step_aside l s s' r r' : reachable regcomp regexec u max s → step regcomp regexec u l s = Some (Done s') →
  is_broadcast l = false → clients s = Some r → clients s' = Some r' → members r `prefix_of` members r' →
  roster_follows r r' ∧ log s' = log s ∧ popped s' = popped s ∧ broadcast s' = broadcast s.
Proof.
  intros R H Hb Hr Hr' Hp. destruct (inv_bounded _ (reachable_inv _ _ _ _ _ R) r Hr) as (He & _).
  destruct l as [e env|ok|t env|]; cbn [step] in H; [|done| |].
  - unfold main_step, load_roster, roster_next in H. rewrite Hr in H. destruct (main s) eqn:Em; try done; step_cases H;
      cbn in Hr'; try (by (split; [left; congruence|]; split_and!)).
    + match goal with W : with_io _ _ _ _ = Done _ |- _ =>
        destruct (private_sendMessage _ _ _ _ _ _ _ W) as [_ _ Eb _ _ _ Ec _ _ Epo El] end.
      cbn. rewrite Eb, Epo, El. split; [left; congruence|done].
    + cbn. split; [right; exists (brk s); by destruct (acc_thread e =? 0)%Z; cbn in Hr'; congruence|].
      by destruct (acc_thread e =? 0)%Z.
    + discriminate E0.
  - destruct (threads s !! t) as [[b p]|] eqn:Et; [|done].
    apply client_step_effect in H; [|apply (reachable_threads_ok _ _ _ _ _ R _ _ Et)].
    pose proof (client_effect_broadcast _ _ _ _ _ _ _ _ H) as (E1 & E2 & E3 & _). split; [left|by split_and!].
    destruct H; cbn in Hr'; try match goal with H : private _ _ |- _ => rewrite (private_clients _ _ H) in Hr' end; try congruence.
    unfold drop_locked, load_roster in H0. rewrite Hr in H0. cbn [outcome_bind] in H0. outcome_cases; [|congruence].
    injection Hr' as <-. apply search_spec in E as [Hi%lookup_lt_Some _]. apply prefix_length in Hp.
    cbn in Hp. rewrite length_app, length_take, length_drop in Hp. lia.
  - injection H as <-. cbn in Hr'. split; [left; congruence|done].
Qed.

Section Message.
Context (K : nat) (m : C2HMessage) (xs : list nat) (P : nat → Prop) (Hne : xs ≠ []).

(** To whom it was sent so far. *)
Definition sent_to (s : sys) (r : roster) : Prop :=
  length (popped s) ≤ K ∨ K < length (popped s) ∧ ∃ D, deliveries K s = (λ b, (b, m)) <$> D ∧ (∀ x, x ∈ D → present s x)
    ∧ progress xs D P (present s) r (if decide (length (popped s) = S K) then broadcast s else BSleep).

(** Message number [K] on its way to the list [xs]. *)
Record tracked (s : sys) (r : roster) : Prop := {
  tr_list : clients s = Some r;
  tr_before : xs `prefix_of` members r;
  tr_present : ∀ x, x ∈ xs → P x → present s x;
  tr_message : history s !! K = Some m;
  tr_sent : sent_to s r
}.

Lemma progress_in D Q r p x : progress xs D P Q r p → x ∈ D → x ∈ members r.
Proof.
  assert (G : ∀ i, D `sublist_of` take i (members r) → x ∈ D → x ∈ members r).
  { intros i Hs Hx. eapply elem_of_sublist; [exact Hx|]. etrans; [exact Hs|apply sublist_take]. }
  destruct p; cbn; try done.
  1,7: intros [Hs _] Hx; by eapply elem_of_sublist.
  1: by intros -> ?%not_elem_of_nil.
  1,2: intros (c & _ & _ & Hs & _); exact (G c Hs).
  all: intros (j & c & _ & _ & _ & Hs & _); exact (G j Hs).
Qed.

(** No message is sent before it was taken. *)
Lemma no_deliveries s : order_ok s → length (popped s) ≤ K → deliveries K s = [].
Proof.
  intros [O _ _] Hl. unfold deliveries. replace (filter _ _) with (@nil (nat * nat * C2HMessage)); [done|].
  symmetry. apply elem_of_nil_inv. intros e [He1 He]%list_elem_of_filter. rewrite Forall_forall in O. specialize (O e He).
  apply lookup_lt_Some in O. lia.
Qed.

(** One step of the broadcast thread that works on the message. *)
Lemma progress_step s s' r r' D : broadcast_step true s = Some (Done s') → clients s = Some r → clients s' = Some r' →
  terminate s = false → xs `prefix_of` members r → (∀ x, x ∈ xs → P x → present s x) →
  (∀ m', holding (broadcast s) = Some m' → m' = m) →
  broadcast s ≠ BPop → progress xs D P (present s) r (broadcast s) →
  ∃ E, progress xs (D ++ E) P (present s) r' (broadcast s') ∧ (∀ x, x ∈ E → present s x)
    ∧ log s' = log s ++ ((λ b, (pred (length (popped s)), b, m)) <$> E) ∧ members r' = members r.
Proof.
  intros H Hr Hr' Ht Hpre Hx Hm Hpop Hp. unfold broadcast_step, load_roster in H. rewrite Hr, ?Ht in H.
  destruct (broadcast s) as [| |m0|m0|m0|m0 a|m0 a|m0 a|a tid| |] eqn:Eb; try done; cbn in Hp.
  - (* rewind *)
    subst D. cbn in H. injection H as <-. cbn in Hr'. injection Hr' as <-. exists []. cbn. rewrite app_nil_r.
    split_and!; [|by intros ? ?%not_elem_of_nil|done|by unfold roster_rewind; case_match].
    assert (Hr2 : members r ≠ []) by (intros E; rewrite E in Hpre; by apply prefix_nil_inv in Hpre).
    exists 0. unfold roster_rewind. destruct (members r) eqn:E; [done|]. cbn. split_and!; [done|lia|done|].
    by intros x ?%not_elem_of_nil.
  - (* while *)
    injection H as <-. cbn in Hr'. rewrite Hr in Hr'. injection Hr' as <-. exists []. rewrite !app_nil_r.
    split_and!; [exact Hp|by intros ? ?%not_elem_of_nil|done|done].
  - (* next *)
    destruct (locked s); [done|]. apply (inj Some) in H. destruct Hp as (c & H1 & H2 & H3 & H4).
    unfold roster_next in H. cbn [outcome_bind] in H. rewrite H1 in H.
    destruct (members r !! c) as [a|] eqn:Ea; cbn in H; injection H as <-; cbn in Hr'; injection Hr' as <-;
      exists []; rewrite !app_nil_r; (split_and!; [|by intros ? ?%not_elem_of_nil|done|done]); cbn.
    + pose proof (lookup_lt_Some _ _ _ Ea). exists c, (S c). split_and!; [done|done|lia|lia|done| |done].
      intros x (i & Hi & Hic)%elem_of_take HP. destruct (decide (i = c)) as [->|].
      * left. apply (prefix_lookup_Some _ _ _ _ Hi) in Hpre. congruence.
      * right. apply H4; [|done]. apply elem_of_take. exists i. split; [done|lia].
    + apply lookup_ge_None in Ea. apply prefix_length in Hpre. rewrite take_ge in H3 by lia. rewrite take_ge in H4 by lia. done.
  - (* check *)
    destruct Hp as (j & c & H1 & H2 & H3 & H4 & H5 & _). apply (inj Some) in H. unfold load_client in H.
    destruct (structs s !! a) as [cl|] eqn:Ea; cbn in H; [|done]. injection H as <-. cbn in Hr'. rewrite Hr in Hr'. injection Hr' as <-.
    exists []; rewrite !app_nil_r; (split_and!; [|by intros ? ?%not_elem_of_nil|done|done]); cbn.
    assert (Skip : ¬ present s a → ∃ c', cursor r = Some c' ∧ c' ≤ length (members r)
      ∧ D `sublist_of` take c' (members r) ∧ (∀ x, x ∈ take c' xs → P x → x ∈ D)).
    { intros Hno. exists c. split_and!; [done|lia|eapply sublist_longer; [exact H4|lia|done|lia]|].
      intros x Hx1 HP. destruct (H5 x Hx1 HP) as [->|]; [|done]. destruct Hno. apply Hx; [|done].
      eapply elem_of_sublist; [exact Hx1|apply sublist_take]. }
    case_decide as D1; [apply Skip; intros (cl' & ? & ? & _); by simplify_eq|].
    destruct (SOCKET_isValid (socket cl)) eqn:Es; [|apply Skip; intros (cl' & ? & _ & ?); simplify_eq; congruence].
    exists j, c. split_and!; [done|done|lia|lia|done|done|]. by exists cl.
  - (* send *)
    destruct Hp as (j & c & H1 & H2 & H3 & H4 & H5 & H6). apply (inj Some) in H.
    destruct (load_connected a s); cbn in H; [|done]. injection H as <-. cbn in Hr'. rewrite Hr in Hr'. injection Hr' as <-.
    rewrite (Hm m0 eq_refl) in *. exists [a]. split_and!; [|by intros ? ->%list_elem_of_singleton|done|done]. cbn.
    exists c. split_and!; [done|lia| |].
    + apply (sublist_longer _ (take (S j) (members r)) _ (S j)); [|lia|apply prefix_take|rewrite length_take; lia].
      rewrite take_take, Nat.min_id, (take_S_r _ _ _ H2). by apply sublist_app.
    + intros x Hx1 HP. rewrite elem_of_app, list_elem_of_singleton. destruct (H5 x Hx1 HP); auto.
  - (* sleep *)
    injection H as <-. cbn in Hr'. rewrite Hr in Hr'. injection Hr' as <-. exists []. rewrite !app_nil_r.
    split_and!; [exact Hp|by intros ? ?%not_elem_of_nil|done|done].
Qed.

Lemma deliveries_same s s' : log s' = log s → deliveries K s' = deliveries K s.
Proof. intros E. unfold deliveries. by rewrite E. Qed.

Lemma deliveries_app s s' n E : log s' = log s ++ ((λ b, (n, b, m)) <$> E) →
  deliveries K s' = deliveries K s ++ (if decide (n = K) then (λ b, (b, m)) <$> E else []).
Proof.
  intros El. unfold deliveries. rewrite El, filter_app, fmap_app. f_equal. clear El.
  induction E as [|b E IH]; [cbn; by case_decide|]. cbn [fmap list_fmap]. rewrite filter_cons. change (number (n, b, m)) with n.
  case_decide; cbn [fmap list_fmap]; [f_equal|]; exact IH.
Qed.

(** What the message has come to, after any step of a calm run. *)
Lemma sent_same s s' r r' : roster_follows r r' → xs `prefix_of` members r → log s' = log s → popped s' = popped s →
  (broadcast s' = broadcast s ∨ broadcast s = BPop ∧ broadcast s' = BSleep) →
  (∀ x, x ∈ members r → present s x → present s' x) → sent_to s r → sent_to s' r'.
Proof.
  intros Hf Hpre El Ep Eb Hpr T. unfold sent_to. rewrite (deliveries_same s s'), Ep by done.
  destruct T as [T|(HK & D & E & Hd & Hp)]; [by left|right]. split; [done|]. exists D. split; [done|]. split.
  - intros x Hx. apply Hpr; [exact (progress_in _ _ _ _ _ Hp Hx)|by apply Hd].
  - eapply (progress_follows xs D P (present s)); [done..|].
    destruct Eb as [->|[Eb ->]]; [done|]. rewrite Eb in Hp. by case_decide.
Qed.

(** Later messages are none of its deliveries. *)
Lemma deliveries_later ok s s' : broadcast_step ok s = Some (Done s') → length (popped s) ≠ S K → 0 < length (popped s) →
  deliveries K s' = deliveries K s.
Proof.
  intros H Hl Hpos. assert (E : log s' = log s ∨ ∃ b m', log s' = log s ++ [(pred (length (popped s)), b, m')]).
  { unfold broadcast_step in H. destruct (broadcast s); unfold drop_locked in *; step_cases H; try by left. right. by do 2 eexists. }
  destruct E as [E|(b & m' & E)]; [by apply deliveries_same|]. unfold deliveries. rewrite E, filter_app, fmap_app, filter_cons_False.
  - by rewrite app_nil_r.
  - cbn. lia.
Qed.

(** The broadcast thread takes a message. *)
Lemma pop_inv ok s s' : broadcast_step ok s = Some (Done s') → broadcast s = BPop →
  log s' = log s ∧ clients s' = clients s
  ∧ ((popped s' = popped s ∧ broadcast s' = BSleep) ∨ ∃ m0, popped s' = popped s ++ [m0] ∧ broadcast s' = BRewind m0).
Proof.
  intros H E. unfold broadcast_step in H. rewrite E in H. destruct (queue s) as [[|m0 q]|]; apply (inj Some) in H; [..|done];
    injection H as <-; cbn; split_and!; try done; [by left|right; by exists m0].
Qed.

(** It never takes one otherwise. *)
Lemma no_pop ok s s' : broadcast_step ok s = Some (Done s') → broadcast s ≠ BPop → popped s' = popped s.
Proof.
  intros H Hb. unfold broadcast_step in H. destruct (broadcast s); unfold drop_locked in *; step_cases H; done.
Qed.

Lemma broadcast_step_terminate ok s s' : broadcast_step ok s = Some (Done s') → terminate s' = terminate s.
Proof. unfold broadcast_step. intros H. destruct (broadcast s); unfold drop_locked in *; step_cases H; done. Qed.

Lemma sent_pop s s' r m0 : order_ok s → log s' = log s → popped s' = popped s ++ [m0] → broadcast s = BPop →
  broadcast s' = BRewind m0 → (∀ x, x ∈ members r → present s x → present s' x) → sent_to s r → sent_to s' r.
Proof.
  intros O El Ep Eb Eb' Hpr T. unfold sent_to. rewrite (deliveries_same s s'), Ep, length_app by done. cbn [length].
  destruct T as [T|(HK & D & E & Hd & Hq)].
  - destruct (decide (length (popped s) = K)); [right|left; lia]. split; [lia|]. exists [].
    rewrite no_deliveries by done. split; [done|]. split; [by intros ? ?%not_elem_of_nil|].
    by rewrite decide_True, Eb' by lia.
  - right. split; [lia|]. exists D. split; [done|]. split; [intros x Hx; apply Hpr; [exact (progress_in _ _ _ _ _ Hq Hx)|by apply Hd]|].
    rewrite decide_False by lia. rewrite Eb in Hq. by case_decide.
Qed.

Lemma sent_broadcast s s' r r' : order_ok s → broadcast_step true s = Some (Done s') → clients s' = Some r' →
  terminate s = false → members r `prefix_of` members r' → (∀ x, x ∈ members r → present s x → present s' x) →
  tracked s r → sent_to s' r'.
Proof.
  intros O H Hr' Ht Hp Hpr T. pose proof (tr_list _ _ T) as Hr. pose proof (tr_before _ _ T) as Hpre.
  assert (broadcast s = BPop ∨ broadcast s ≠ BPop) as [Eb|Eb] by (destruct (broadcast s); auto).
  { destruct (pop_inv _ _ _ H Eb) as (El & Ec & Hpop). assert (r' = r) as -> by congruence.
    destruct Hpop as [[Ep Eb']|(m0 & Ep & Eb')].
    - eapply sent_same; [by left|done..|by right|done|apply T].
    - eapply sent_pop; [done..|apply T]. }
  pose proof (no_pop _ _ _ H Eb) as Ep. destruct (tr_sent _ _ T) as [T'|(HK & D & E & Hd & Hq)]; [left; by rewrite Ep|].
  right. rewrite Ep. split; [done|]. case_decide as D1.
  - destruct (progress_step s s' r r' D H Hr Hr' Ht Hpre (tr_present _ _ T)) as (E1 & P1 & P2 & P3 & Hm); [|done|done|].
    { intros m' Hm. pose proof (order_held _ O _ Hm) as Hl. rewrite last_lookup, D1 in Hl. cbn in Hl.
      pose proof (tr_message _ _ T) as Hh. unfold history in Hh. rewrite (lookup_app_l_Some _ _ _ _ Hl) in Hh. congruence. }
    exists (D ++ E1). rewrite (deliveries_app _ _ _ _ P3), E, fmap_app, decide_True by lia. split; [done|].
    assert (Hr2 : ∀ x, x ∈ D ++ E1 → present s x) by (intros x [|]%elem_of_app; auto).
    assert (Hin : ∀ x, x ∈ D ++ E1 → x ∈ members r) by (intros x Hx; rewrite <- Hm; exact (progress_in _ _ _ _ _ P1 Hx)).
    split; [intros x Hx; by auto|]. eapply (progress_follows xs _ P (present s) _ r'); [by rewrite Hm|by left|done| |done].
    intros x Hx. rewrite Hm in Hx. by apply Hpr.
  - exists D. rewrite <- E. split; [eapply deliveries_later; [exact H|lia|lia]|].
    split; [intros x Hx; apply Hpr; [exact (progress_in _ _ _ _ _ Hq Hx)|by apply Hd]|].
    destruct Hq as [Hs Hq]. split; [|done]. destruct Hp as [ws ->]. by apply sublist_inserts_r.
Qed.

Lemma tracked_step l s s' r r' : reachable regcomp regexec u max s → step regcomp regexec u l s = Some (Done s') →
  l ≠ LBroadcast false → terminate s' = false → clients s' = Some r' → members r `prefix_of` members r' →
  tracked s r → tracked s' r'.
Proof.
  intros R H Hl Ht Hr' Hp T. pose proof (reachable_step _ _ _ _ _ _ _ R H) as R'.
  assert (Hpr : ∀ x, x ∈ members r → present s x → present s' x).
  { intros x Hx Hs. eapply (present_step regcomp regexec u max l s); [done..|]. pose proof (inv_owned _ (reachable_inv _ _ _ _ _ R')) as I. rewrite Hr' in I.
    apply I. destruct Hp as [ws ->]. apply elem_of_app. by left. }
  assert (Hh : history s' !! K = Some m).
  { eapply prefix_lookup_Some; [exact (tr_message _ _ T)|].
    eapply (step_history regcomp regexec u l); [by eapply reachable_threads_ok| |exact H|].
    - intros Em. pose proof (reachable_no_queue_yet _ _ _ _ _ R) as Hq. unfold no_queue_yet in Hq. by rewrite Em in Hq.
    - intros Em. by rewrite (reachable_ending _ _ _ _ _ R') in Ht by (by rewrite Em). }
  pose proof (tr_before _ _ T) as Hpre. split; [done|by etrans| |done|].
  - intros x Hx HP. apply Hpr; [|by apply (tr_present _ _ T)]. destruct Hpre as [ws ->]. apply elem_of_app. by left.
  - destruct (is_broadcast l) eqn:Eb.
    + destruct l as [|[]| |]; try done. cbn [step] in H. eapply (sent_broadcast s s' r r'); [by eapply reachable_order|done|done| |done..].
      by rewrite <- (broadcast_step_terminate _ _ _ H).
    + destruct (step_aside l s s' r r' R H Eb (tr_list _ _ T) Hr' Hp) as (Hf & E1 & E2 & E3).
      eapply (sent_same s s' r r'); [done..|by left|done|apply T].
Qed.

Lemma tracked_calm s s' r : reachable regcomp regexec u max s → calm s s' → tracked s r → ∃ r', tracked s' r'.
Proof.
  intros R H. revert R. induction H as [|s s1 l s2 r1 r2 Hc IH H Hl Ht Hr1 Hr2 Hp]; intros R T; [by exists r|].
  destruct (IH R T) as (r' & T'). assert (r' = r1) as -> by (pose proof (tr_list _ _ T'); congruence).
  exists r2. eapply (tracked_step l s1 s2 r1); [by eapply calm_reachable|done..].
Qed.
End Message.

(** ** The broadcast thread comes to the end of its work

    When it runs alone: nobody can say in general how long it takes while
    others keep queueing. *)

(** It is at work on a client of the list, or looks for work. *)
Definition under_way (r : roster) (p : bpc) : Prop :=
  match p with
  | BNone | BDrop _ _ | BDropSearch _ _ | BExit => False
  | BCheck _ a | BSend _ a => a ∈ members r
  | _ => True
  end.

Record lively (s : sys) (r : roster) : Prop := {
  lv_list : clients s = Some r;
  lv_some : members r ≠ [];
  lv_cursor : is_Some (cursor r);
  lv_running : terminate s = false;
  lv_unlocked : locked s = false;
  lv_connected : ∀ a, a ∈ members r → connected s a;
  lv_queue : is_Some (queue s);
  lv_place : under_way r (broadcast s)
}.

(** What is left to do. *)
Definition work (s : sys) (r : roster) : nat :=
  let n := length (members r) in
  let rest := 4 * (n - default 0 (cursor r)) in
  length (default [] (queue s)) * (4 * n + 10)
  + match broadcast s with
    | BRewind _ => 4 * n + 6
    | BWhile _ => rest + 3
    | BNext _ => rest + 2
    | BCheck _ _ => rest + 5
    | BSend _ _ => rest + 4
    | BSleep => 1
    | _ => 0
    end.

Definition idle_at_last (s : sys) : Prop := broadcast s = BSleep ∧ queue s = Some [].

Lemma lively_step s r : lively s r → idle_at_last s ∨
  ∃ s' r', broadcast_step true s = Some (Done s') ∧ lively s' r' ∧ members r' = members r ∧ history s' = history s
    ∧ (work s' r' < work s r ∨ idle_at_last s').
Proof.
  intros [Hr Hne [c Hc] Ht Hl Hcon [q Hq] Hp]. unfold broadcast_step, load_roster. rewrite Hr, Hl, Ht, Hq.
  unfold work, idle_at_last. rewrite Hc, Hq. cbn [default].
  destruct (broadcast s) as [| |m0|m0|m0|m0 a|m0 a|m0 a|a tid| |] eqn:Eb; try done; cbn [under_way] in Hp.
  - destruct q as [|m0 q]; right; eexists _, r; (split; [reflexivity|]); (split; [by split|]); (split; [done|]).
    + split; [done|by right].
    + unfold history. cbn. rewrite Hq. cbn. rewrite <- app_assoc. split; [done|left; lia].
  - right. eexists _, (roster_rewind r). split; [reflexivity|]. unfold roster_rewind. destruct (members r) eqn:E; [done|].
    split; [split; try done; cbn; by rewrite ?Hq|]. split; [cbn; congruence|]. split; [done|left; cbn; rewrite Hq; cbn; lia].
  - right. eexists _, r. split; [reflexivity|]. split; [by split|]. split; [done|]. split; [done|left; cbn; rewrite Hq, Hc; cbn; lia].
  - right. cbn [outcome_bind]. unfold roster_next. rewrite Hc.
    destruct (members r !! c) as [a|] eqn:Ea; cbn [outcome_bind fst snd]; eexists _, _; (split; [reflexivity|]).
    + pose proof (lookup_lt_Some _ _ _ Ea). split; [split; try done; cbn; by eapply list_elem_of_lookup_2|].
      split; [done|]. split; [done|left; cbn; rewrite Hq; cbn; lia].
    + split; [by split|]. split; [done|]. split; [done|left; cbn; rewrite Hq; cbn; lia].
  - right. destruct (Hcon a Hp) as (cl & Hcl & Hs & Hk). unfold load_client. rewrite Hcl. cbn [outcome_bind]. rewrite Hk.
    case_decide; eexists _, r; (split; [reflexivity|]); (split; [by split|]); (split; [done|]); (split; [done|]);
      left; cbn; rewrite Hq, Hc; cbn; lia.
  - right. destruct (Hcon a Hp) as (cl & Hcl & Hs & Hk). unfold load_connected, load_client. rewrite Hcl. cbn [outcome_bind].
    rewrite Hs. eexists _, r. split; [reflexivity|]. split; [by split|]. split; [done|]. split; [done|left; cbn; rewrite Hq, Hc; cbn; lia].
  - destruct q as [|m0 q]; [by left|right]. eexists _, r. split; [reflexivity|]. split; [by split|]. split; [done|]. split; [done|].
    left. cbn. rewrite Hq. cbn. lia.
Qed.

Lemma work_ends s r : lively s r →
  ∃ j s' r', run regcomp regexec u (pump j) s = Some (Done s') ∧ calm s s' ∧ idle_at_last s' ∧ history s' = history s
    ∧ clients s' = Some r' ∧ members r' = members r.
Proof.
  remember (work s r) as k eqn:E. revert s r E. induction (lt_wf k) as [k _ IH]. intros s r -> L.
  destruct (lively_step s r L) as [Hi|(s1 & r1 & H & L1 & Em & Eh & Hw)].
  { exists 0, s, r. split_and!; try done; [constructor|apply L]. }
  assert (C : calm s s1).
  { apply (calm_step s s (LBroadcast true) s1 r r1); [constructor|exact H|done|apply L1|apply L|apply L1|by rewrite Em]. }
  destruct Hw as [Hw|Hi].
  - destruct (IH _ Hw s1 r1 eq_refl L1) as (j & s' & r' & R1 & R2 & R3 & R4 & R5 & R6). exists (S j), s', r'. cbn [pump replicate run step].
    rewrite H. split_and!; [done|by eapply calm_trans|done|congruence|done|congruence].
  - exists 1, s1, r1. cbn. rewrite H. split_and!; try done. apply L1.
Qed.

(** The users [users] got message number [K] once each: it was sent to some
    clients of the list that are users, in its order, to none twice and to
    nobody else, and all of [users] are among them. *)
Definition received_once (K : nat) (m : C2HMessage) (users : nat → Prop) (s : sys) : Prop :=
  ∃ r D, clients s = Some r ∧ deliveries K s = (λ b, (b, m)) <$> D
    ∧ D `sublist_of` members r ∧ NoDup D ∧ (∀ x, x ∈ D → present s x) ∧ ∀ x, users x → x ∈ D.

(** In a calm run, when the broadcast thread is done with a message, those who
    were users when it was queued got it once each. *)
Lemma delivered K m s s' r : reachable regcomp regexec u max s → clients s = Some r → members r ≠ [] →
  history s !! K = Some m → length (popped s) ≤ K → calm s s' → pass_over K s' →
  received_once K m (λ x, x ∈ members r ∧ present s x) s'.
Proof.
  intros R Hr Hne Hh HK Hc Hover.
  destruct (tracked_calm K m (members r) (present s) Hne s s' r R Hc) as [r' T].
  { split; [done..| |left; done]; done. }
  destruct T as [Hr' Hpre _ _ [T|(_ & D & E & Hd & Hp)]]; [destruct Hover as [|[]]; lia|].
  exists r', D. pose proof (inv_owned _ (reachable_inv _ _ _ _ _ (calm_reachable _ _ Hc R))) as I. rewrite Hr' in I.
  assert (G : D `sublist_of` members r' ∧ ∀ x, x ∈ members r → present s x → x ∈ D).
  { destruct Hover as [|[Hl Hb]]; case_decide; try lia; [done|]. by destruct Hb as [Hb|Hb]; rewrite Hb in Hp. }
  destruct G as [G1 G2]. split_and!; try done; [eapply sublist_NoDup; [apply I|done]|]. intros x []. by apply G2.
Qed.

(** There are such runs: the broadcast thread has only to be left alone. *)
Lemma delivery_ends K s r : lively s r → K < length (history s) →
  ∃ j s', run regcomp regexec u (pump j) s = Some (Done s') ∧ calm s s' ∧ pass_over K s'.
Proof.
  intros L HK. destruct (work_ends s r L) as (j & s' & r' & R1 & R2 & [R3 R4] & R5 & _). exists j, s'. split_and!; [done|done|].
  unfold history in R5 at 1. rewrite R4 in R5. cbn [default] in R5. change (id []) with (@nil C2HMessage) in R5. rewrite app_nil_r in R5.
  unfold pass_over. rewrite R5, R3. destruct (decide (S K < length (history s))); [by left|right]. split; [lia|by left].
Qed.

(** A run that is calm, by computation. *)
Fixpoint calm_run (ls : list label) (s : sys) : option sys :=
  match ls with
  | [] => Some s
  | l :: ls =>
    match step regcomp regexec u l s, clients s with
    | Some (Done s1), Some r =>
      match clients s1 with
      | Some r1 =>
        if negb (terminate s1) && bool_decide (members r `prefix_of` members r1)
           && match l with LBroadcast ok => ok | _ => true end
        then calm_run ls s1 else None
      | None => None
      end
    | _, _ => None
    end
  end.

Lemma calm_run_sound ls : ∀ s s', calm_run ls s = Some s' → calm s s'.
Proof.
  induction ls as [|l ls IH]; intros s s'; cbn; [intros [= <-]; constructor|].
  destruct (step _ _ _ l s) as [[s1|]|] eqn:E; try done. destruct (clients s) as [r|] eqn:Er; [|done].
  destruct (clients s1) as [r1|] eqn:Er1; [|done]. destruct (negb (terminate s1) && _ && _) eqn:B; [|done].
  apply andb_true_iff in B as [[B1%negb_true_iff B2%bool_decide_eq_true]%andb_true_iff B3].
  intros H. eapply calm_trans; [|by apply IH]. eapply (calm_step s s l); [constructor|done| |done..]. by intros ->.
Qed.
End Delivery.

(** The announcement of "bob" is on its way, that of "ann" waits, when a
    third connection is accepted and a fourth client asks for a name: both
    users get both announcements once. *)
Definition newcomers : list label :=
  pump 6 ++ accept 7 103 ++ pump 2 ++ accept 8 104 ++ ask 104 (lit "joe") ++ pump 30.

Lemma newcomers_calm : ∃ s, calm_run any_regcomp length_regexec true newcomers (end_of two_users 5) = Some s
  ∧ pass_over 0 s ∧ pass_over 1 s
  ∧ deliveries 0 s = [(0, joined (lit "bob")); (1, joined (lit "bob"))]
  ∧ deliveries 1 s = [(0, joined (lit "ann")); (1, joined (lit "ann"))].
Proof.
  eexists. split; [vm_compute; reflexivity|]. split; [left; apply Nat.ltb_lt; vm_compute; reflexivity|].
  split; [right; split; [vm_compute; reflexivity|right; vm_compute; reflexivity]|].
  split; vm_compute; reflexivity.
Qed.
