(* ===== verification/IniLib.v ===== *)
(** * Parser of configuration files (src/lib/ini)

    The parser works in place on a line buffer; a pointer into it is an offset
    and a handler is given the buffer from the value to the end of the array,
    so that what it reads behind the value is part of the model.  The options
    of ini.h are those of the build: the Makefile compiles ini.c with
    [INI_ALLOW_MULTILINE] 0, so a line with leading blanks is no continuation
    of the one before; the others have their defaults, which are a buffer of
    200 characters on the stack, a byte order mark, comments that start with a
    semicolon or hash sign, inline comments with a semicolon. *)

From S2P Require Import Prelude.
From S2P Require Import CStr.
From S2P Require Import TrimLib.

Definition INI_MAX_LINE : nat := 200.
Definition MAX_SECTION : nat := 50.
Definition MAX_NAME : nat := 50.

Definition newline : ascii := Ascii.ascii_of_nat 10.
Definition isspace (c : ascii) : bool := bool_decide (c ∈ default_seps).
Definition INI_START_COMMENT_PREFIXES : bytes := lit ";#".
Definition INI_INLINE_COMMENT_PREFIXES : bytes := lit ";".

(** ** Helpers *)

Fixpoint rstrip_from (p : nat) (s : bytes) : bytes :=
  match p with
  | O => s
  | S p => match s !! p with
           | Some c => if isspace c then rstrip_from p (<[p := NUL]> s) else s
           | None => s
           end
  end.

Definition rstrip (s : bytes) : outcome bytes :=
  let! n := strlen NUL s in Done (rstrip_from n s).

Fixpoint lskip (s : bytes) : outcome nat :=
  match s with
  | [] => Stuck OutOfBounds
  | c :: s => if decide (c ≠ NUL ∧ isspace c = true) then let! n := lskip s in Done (S n) else Done 0
  end.

(** [chars] is empty for a [NULL] pointer. *)
Fixpoint find_chars_or_comment (was_space : bool) (chars : bytes) (s : bytes) : outcome nat :=
  match s with
  | [] => Stuck OutOfBounds
  | c :: s =>
    if decide (c = NUL) then Done 0
    else if decide (c ∈ chars) then Done 0
    else if decide (was_space = true ∧ c ∈ INI_INLINE_COMMENT_PREFIXES) then Done 0
    else let! n := find_chars_or_comment (isspace c) chars s in Done (S n)
  end.

(** Write a string with its terminator over the beginning of an array. *)
Definition put_string (t dest : bytes) : outcome bytes :=
  if decide (length t < length dest) then Done (t ++ NUL :: drop (S (length t)) dest)
  else Stuck OutOfBounds.

Definition strncpy0 (dest src : bytes) (size : nat) : outcome bytes :=
  let! t := str_prefix (size - 1) src in put_string t dest.

(** ** Readers *)

Fixpoint read_chars (num : nat) (stream : bytes) : bytes * bytes :=
  match num, stream with
  | S num, c :: rest =>
    if decide (c = newline) then ([c], rest)
    else ((c :: (read_chars num rest).1), (read_chars num rest).2)
  | _, _ => ([], stream)
  end.

(** [ini_reader_string] on what is left of the string, and [fgets] on what is
    left of the file: the line buffer and the rest, or nothing at the end. *)
Definition ini_reader_string (line : bytes) (num : nat) (stream : bytes) : outcome (option (bytes * bytes)) :=
  if decide (stream = [] ∨ num < 2) then Done None
  else
    let r := read_chars (num - 1) stream in
    let! line := put_string r.1 line in
    Done (Some (line, r.2)).

(** ** Parsing *)

Section Parser.
Context {U : Type}.

(** A handler is given the user data, the section, the name and the buffer
    that starts with the value. *)
Definition ini_handler : Type := U → bytes → bytes → bytes → outcome (bool * U).

Record ini : Type := Ini {
  section : bytes;
  prev_name : bytes;
  lineno : Z;
  error : Z;
  user : U
}.

Definition fail (st : ini) : ini :=
  Ini (section st) (prev_name st) (lineno st) (if (error st =? 0)%Z then lineno st else error st) (user st).

(** [HANDLER], and the line number kept for the first failure. *)
Definition call_handler (handler : ini_handler) (name : bytes) (value : bytes) (st : ini) : outcome ini :=
  let! s := text NUL (section st) in
  let! n := text NUL name in
  let! r := handler (user st) s n value in
  let st := Ini (section st) (prev_name st) (lineno st) (error st) r.2 in
  Done (if r.1 then st else fail st).

(** Replace the buffer from an offset on; the character there. *)
Definition at_offset (k : nat) (line : bytes) : outcome ascii :=
  match line !! k with Some c => Done c | None => Stuck OutOfBounds end.

Definition rstrip_at (k : nat) (line : bytes) : outcome bytes :=
  let! s := rstrip (drop k line) in Done (take k line ++ s).

Definition byte_order_mark : bytes := Ascii.ascii_of_nat <$> [239; 187; 191].

(** "[section]" *)
Definition section_line (start : nat) (line : bytes) (st : ini) : outcome ini :=
  let! n := find_chars_or_comment false (lit "]") (drop (S start) line) in
  let! c := at_offset (S start + n) line in
  if decide (c = "]"%char) then
    let line := <[S start + n := NUL]> line in
    let! s := strncpy0 (section st) (drop (S start) line) MAX_SECTION in
    let! p := put_string [] (prev_name st) in
    Done (Ini s p (lineno st) (error st) (user st))
  else Done (fail st).

(** "name = value" *)
Definition pair_line (handler : ini_handler) (start : nat) (line : bytes) (st : ini) : outcome ini :=
  let! n := find_chars_or_comment false (lit "=:") (drop start line) in
  let! c := at_offset (start + n) line in
  if decide (c = "="%char ∨ c = ":"%char) then
    let line := <[start + n := NUL]> line in
    let! line := rstrip_at start line in
    let value := S (start + n) in
    let! n := find_chars_or_comment false [] (drop value line) in
    let! c := at_offset (value + n) line in
    let line := if decide (c = NUL) then line else <[value + n := NUL]> line in
    let! n := lskip (drop value line) in
    let value := value + n in
    let! line := rstrip_at value line in
    let! p := strncpy0 (prev_name st) (drop start line) MAX_NAME in
    call_handler handler (drop start line) (drop value line)
      (Ini (section st) p (lineno st) (error st) (user st))
  else Done (fail st).

(** One line of the file. *)
Definition parse_line (handler : ini_handler) (line : bytes) (st : ini) : outcome ini :=
  let! k := int_add (lineno st) 1 in
  let st := Ini (section st) (prev_name st) k (error st) (user st) in
  let start := if decide (k = 1%Z ∧ take 3 line = byte_order_mark) then 3 else 0 in
  let! line := rstrip_at start line in
  let! n := lskip (drop start line) in
  let start := start + n in
  let! c := at_offset start line in
  if decide (c = NUL ∨ c ∈ INI_START_COMMENT_PREFIXES) then Done st
  else if decide (c = "["%char) then section_line start line st
  else pair_line handler start line st.

Fixpoint parse_lines (handler : ini_handler) (fuel : nat) (line stream : bytes) (st : ini) : outcome ini :=
  match fuel with
  | O => Stuck OutOfFuel
  | S fuel =>
    let! r := ini_reader_string line INI_MAX_LINE stream in
    match r with
    | None => Done st
    | Some (line, stream) =>
      let! st := parse_line handler line st in
      parse_lines handler fuel line stream st
    end
  end.

(** [ini_parse_stream]: the error (0 or the number of the first line that is
    wrong) and the user data; [line] is what the buffer holds at first. *)
Definition ini_parse_stream (handler : ini_handler) (line stream : bytes) (user : U) : outcome (Z * U) :=
  let! st := parse_lines handler (S (length stream)) line stream
               (Ini (replicate MAX_SECTION NUL) (replicate MAX_NAME NUL) 0 0 user) in
  Done (error st, (* the user data *) let 'Ini _ _ _ _ u := st in u).

(** [ini_parse] on a file that may not exist. *)
Definition ini_parse (handler : ini_handler) (line : bytes) (file : option bytes) (user : U) : outcome (Z * U) :=
  match file with
  | None => Done ((-1)%Z, user)
  | Some stream => ini_parse_stream handler line stream user
  end.

Definition ini_parse_string (handler : ini_handler) (line string : bytes) (user : U) : outcome (Z * U) :=
  let! s := text NUL string in ini_parse_stream handler line s user.
End Parser.
