(* ===== verification/IniSpec.v ===== *)
(** * Properties of the configuration parser

    Parsing any file stays inside the parser's buffers and ends; a file
    printed from sections and name and value pairs is parsed back. *)

From S2P Require Import Prelude.
From S2P Require Import CStr.
From S2P Require Import TrimLib.
From S2P Require Import IniLib.

(** ** Terminated buffers *)

Lemma text_total (s : bytes) : NUL ∈ s → ∃ t, text NUL s = Done t ∧ length t < length s.
Proof.
  induction s as [|c s IH]; intros H; [by apply not_elem_of_nil in H|]. cbn.
  case_decide as E; [exists []; cbn; split; [done|lia]|].
  apply elem_of_cons in H as [H|H]; [congruence|]. destruct (IH H) as (t & -> & Hl).
  exists (c :: t). cbn. split; [done|lia].
Qed.

Lemma nul_drop (s : bytes) k : NUL ∈ drop k s ↔ ∃ i, k ≤ i ∧ s !! i = Some NUL.
Proof.
  rewrite list_elem_of_lookup. split.
  - intros [i H]. rewrite lookup_drop in H. exists (k + i). split; [lia|done].
  - intros (i & Hi & H). exists (i - k). rewrite lookup_drop. by replace (k + (i - k)) with i by lia.
Qed.

(** Changes to a buffer that only write terminators. *)
Definition keeps (s s' : bytes) : Prop :=
  length s' = length s ∧ ∀ i, s !! i = Some NUL → s' !! i = Some NUL.

#[export] Instance keeps_preorder : PreOrder keeps.
Proof.
  split; [by split|]. intros a b c [H1 H2] [H3 H4]. split; [congruence|auto].
Qed.

Lemma keeps_drop s s' k : keeps s s' → NUL ∈ drop k s → NUL ∈ drop k s'.
Proof. intros [_ H]. rewrite !nul_drop. intros (i & Hi & E). exists i. auto. Qed.

Lemma keeps_insert s i : keeps s (<[i := NUL]> s).
Proof.
  split; [apply length_insert|]. intros j H. destruct (decide (i = j)) as [->|].
  - apply list_lookup_insert_eq. by eapply lookup_lt_Some.
  - by rewrite list_lookup_insert_ne.
Qed.

Lemma keeps_rstrip_from p s : keeps s (rstrip_from p s).
Proof.
  revert s. induction p as [|p IH]; intros s; cbn; [done|].
  destruct (s !! p) as [c|]; [|done]. destruct (isspace c); [|done].
  etrans; [apply keeps_insert|apply IH].
Qed.

Lemma keeps_tail a s s' : keeps s s' → keeps (a ++ s) (a ++ s').
Proof.
  intros [H1 H2]. split; [rewrite !length_app; lia|]. intros i H.
  destruct (decide (i < length a)); [by rewrite lookup_app_l in H |- * by done|].
  rewrite lookup_app_r in H |- * by lia. auto.
Qed.

Lemma rstrip_at_Done k s : NUL ∈ drop k s → ∃ s', rstrip_at k s = Done s' ∧ keeps s s'.
Proof.
  intros H. unfold rstrip_at, rstrip, strlen. destruct (text_total _ H) as (t & -> & _). cbn.
  eexists. split; [done|]. rewrite <- (take_drop k s) at 1. apply keeps_tail, keeps_rstrip_from.
Qed.

(** A scan stops at the terminator at the latest. *)
Definition stops (f : bytes → outcome nat) : Prop :=
  ∀ s, NUL ∈ s → ∃ n c, f s = Done n ∧ s !! n = Some c ∧ NUL ∈ drop n s.

Lemma lskip_stops : stops lskip.
Proof.
  intros s. induction s as [|c s IH]; intros H; [by apply not_elem_of_nil in H|]. cbn [lskip].
  case_decide as E; [|exists 0, c; done]. destruct E as [E _].
  apply elem_of_cons in H as [H|H]; [congruence|]. destruct (IH H) as (n & d & -> & Hd & Hn).
  by exists (S n), d.
Qed.

Lemma find_stops chars : ∀ b, stops (find_chars_or_comment b chars).
Proof.
  intros b s. revert b. induction s as [|c s IH]; intros b H; [by apply not_elem_of_nil in H|].
  cbn [find_chars_or_comment]. repeat (case_decide; [by exists 0, c|]).
  apply elem_of_cons in H as [H|H]; [congruence|]. destruct (IH (isspace c) H) as (n & d & -> & Hd & Hn).
  by exists (S n), d.
Qed.

Lemma scan_at f s k : stops f → NUL ∈ drop k s →
  ∃ n c, f (drop k s) = Done n ∧ at_offset (k + n) s = Done c ∧ s !! (k + n) = Some c ∧ NUL ∈ drop (k + n) s.
Proof.
  intros Hf H. destruct (Hf _ H) as (n & c & H1 & H2 & H3). exists n, c.
  rewrite lookup_drop in H2. rewrite drop_drop in H3. unfold at_offset. rewrite H2. done.
Qed.

(** The next character is not the terminator yet. *)
Lemma nul_next (s : bytes) k c : NUL ∈ drop k s → s !! k = Some c → c ≠ NUL → NUL ∈ drop (S k) s.
Proof.
  rewrite !nul_drop. intros (i & Hi & H) Hc Hn. exists i. split; [|done].
  destruct (decide (i = k)) as [->|]; [congruence|lia].
Qed.

Lemma put_string_Done t dest : length t < length dest →
  ∃ d, put_string t dest = Done d ∧ length d = length dest ∧ NUL ∈ d.
Proof.
  intros H. unfold put_string. rewrite decide_True by done. eexists. split; [done|]. split.
  - rewrite length_app. cbn. rewrite length_drop. lia.
  - rewrite elem_of_app. right. by left.
Qed.

Lemma strncpy0_Done dest src : NUL ∈ src → dest ≠ [] →
  ∃ d, strncpy0 dest src (length dest) = Done d ∧ length d = length dest ∧ NUL ∈ d.
Proof.
  intros Hs Hd. unfold strncpy0. destruct (str_prefix_Done (length dest - 1) src Hs) as (t & -> & Hl). cbn.
  apply put_string_Done. destruct dest; [done|]. cbn in *. lia.
Qed.

(** ** Safety *)

Section Safety.
Context {U : Type} (handler : @ini_handler U).

(** The handler reads the section, the name and the string of the value. *)
Context (Hh : ∀ u s n v, NUL ∈ v → is_Done (handler u s n v)).

(** The parser's own arrays. *)
Definition arrays_ok (st : @ini U) : Prop :=
  (length (section st) = MAX_SECTION ∧ NUL ∈ section st)
  ∧ (length (prev_name st) = MAX_NAME ∧ NUL ∈ prev_name st).

Definition ok_after (k : Z) (m : outcome (@ini U)) : Prop :=
  ∃ st, m = Done st ∧ arrays_ok st ∧ lineno st = k.

Lemma ok_fail k st : arrays_ok st → lineno st = k → ok_after k (Done (fail st)).
Proof. intros H1 H2. by eexists. Qed.

Lemma call_handler_ok name v st : arrays_ok st → NUL ∈ name → NUL ∈ v →
  ok_after (lineno st) (call_handler handler name v st).
Proof.
  intros [[H1 H2] H3] Hn Hv. unfold call_handler. destruct (text_total _ H2) as (s & -> & _).
  destruct (text_total _ Hn) as (n & -> & _). cbn. destruct (Hh (user st) s n v Hv) as [[ok u] ->]. cbn.
  destruct ok; by eexists.
Qed.

Lemma section_line_ok start line st : arrays_ok st → NUL ∈ drop (S start) line →
  ok_after (lineno st) (section_line start line st).
Proof.
  intros A H. pose proof A as [[S1 S2] [P1 P2]]. unfold section_line.
  destruct (scan_at _ line (S start) (find_stops (lit "]") false) H) as (n & c & -> & Hc & Hl & Hn).
  cbn [outcome_bind]. rewrite Hc. cbn [outcome_bind]. case_decide as E; [|by apply ok_fail].
  rewrite <- S1.
  destruct (strncpy0_Done (section st) (drop (S start) (<[S start + n := NUL]> line))) as (d & -> & D1 & D2).
  { eapply keeps_drop; [apply keeps_insert|done]. }
  { intros E'. rewrite E' in S1. discriminate. }
  cbn [outcome_bind]. destruct (put_string_Done [] (prev_name st)) as (p & -> & E1 & E2).
  { rewrite P1. unfold MAX_NAME. cbn. lia. }
  eexists. split; [done|]. split; [|done]. split; cbn; split; congruence.
Qed.

Lemma pair_line_ok start line st : arrays_ok st → NUL ∈ drop start line →
  ok_after (lineno st) (pair_line handler start line st).
Proof.
  intros A H. pose proof A as [[S1 S2] [P1 P2]]. unfold pair_line.
  destruct (scan_at _ line start (find_stops (lit "=:") false) H) as (n & c & -> & Hc & Hl & Hn).
  cbn [outcome_bind]. rewrite Hc. cbn [outcome_bind]. case_decide as E; [|by apply ok_fail].
  assert (Hv : NUL ∈ drop (S (start + n)) line) by (eapply nul_next; [done..|]; by destruct E as [-> | ->]).
  set (line1 := <[start + n := NUL]> line).
  destruct (rstrip_at_Done start line1) as (line2 & -> & K2); [eapply keeps_drop; [apply keeps_insert|done]|].
  cbn [outcome_bind].
  assert (K : keeps line line2) by (etrans; [apply keeps_insert|exact K2]).
  assert (Hv2 : NUL ∈ drop (S (start + n)) line2) by (by eapply keeps_drop).
  destruct (scan_at _ line2 _ (find_stops [] false) Hv2) as (n2 & c2 & -> & Hc2 & Hl2 & Hn2).
  cbn [outcome_bind]. rewrite Hc2. cbn [outcome_bind].
  set (line3 := if decide (c2 = NUL) then line2 else <[S (start + n) + n2 := NUL]> line2).
  assert (K3 : keeps line2 line3) by (unfold line3; case_decide; [done|apply keeps_insert]).
  destruct (scan_at _ line3 (S (start + n)) lskip_stops) as (n3 & c3 & -> & Hc3 & Hl3 & Hn3);
    [by eapply keeps_drop|]. cbn [outcome_bind].
  destruct (rstrip_at_Done _ line3 Hn3) as (line4 & -> & K4). cbn [outcome_bind].
  assert (K5 : keeps line line4) by (etrans; [exact K|etrans; [exact K3|exact K4]]).
  rewrite <- P1. destruct (strncpy0_Done (prev_name st) (drop start line4)) as (d & -> & D1 & D2).
  { exact (keeps_drop _ _ _ K5 H). }
  { intros E'. rewrite E' in P1. discriminate. }
  cbn [outcome_bind].
  apply (call_handler_ok _ _ (Ini (section st) d (lineno st) (error st) (user st))).
  - split; cbn; split; congruence.
  - exact (keeps_drop _ _ _ K5 H).
  - exact (keeps_drop _ _ _ K4 Hn3).
Qed.

Lemma parse_line_ok line st : arrays_ok st → length line = INI_MAX_LINE → NUL ∈ line →
  (0 ≤ lineno st < INT_MAX)%Z → ok_after (lineno st + 1) (parse_line handler line st).
Proof.
  intros A Hl Hn Hk. unfold parse_line. rewrite int_add_Done by (unfold INT_MIN, INT_MAX in *; lia).
  cbn [outcome_bind].
  set (st1 := Ini (section st) (prev_name st) (lineno st + 1) (error st) (user st)).
  set (start := if decide _ then 3 else 0).
  assert (Hs : NUL ∈ drop start line).
  { unfold start. case_decide as E; [|done]. destruct E as [_ E]. rewrite <- (take_drop 3 line) in Hn.
    apply elem_of_app in Hn as [Hn|Hn]; [|done]. rewrite E in Hn. exfalso. revert Hn. clear.
    unfold byte_order_mark. vm_compute. intros H. repeat (inversion H as [|? ? ? H']; subst; clear H; rename H' into H). }
  destruct (rstrip_at_Done _ _ Hs) as (line1 & -> & K). cbn [outcome_bind].
  assert (Hs1 : NUL ∈ drop start line1) by exact (keeps_drop _ _ _ K Hs).
  destruct (scan_at _ _ _ lskip_stops Hs1) as (n & c & -> & Ec & Hc & Hs2).
  cbn [outcome_bind]. rewrite Ec. cbn [outcome_bind].
  assert (A1 : arrays_ok st1) by exact A.
  case_decide as E1; [by exists st1|]. case_decide.
  - apply (section_line_ok _ _ st1); [done|]. eapply nul_next; [done..|]. by intros ->.
  - by apply (pair_line_ok _ _ st1).
Qed.

Lemma read_chars_length num stream : length (read_chars num stream).1 ≤ num
  ∧ length (read_chars num stream).2 + length (read_chars num stream).1 = length stream.
Proof.
  revert stream. induction num as [|num IH]; intros [|c stream]; cbn; [lia..|].
  case_decide; cbn; [lia|]. destruct (IH stream). lia.
Qed.

Lemma line_size : 2 ≤ INI_MAX_LINE.
Proof. apply Nat.leb_le. reflexivity. Qed.

Lemma read_chars_rest num c stream : (length (read_chars (S num) (c :: stream)).2 < S (length stream))%nat.
Proof.
  cbn [read_chars]. case_decide; cbn; [lia|]. destruct (read_chars_length num stream). lia.
Qed.

Lemma reader_ok line stream : length line = INI_MAX_LINE → stream ≠ [] →
  ∃ line' rest, ini_reader_string line INI_MAX_LINE stream = Done (Some (line', rest))
    ∧ length line' = INI_MAX_LINE ∧ NUL ∈ line' ∧ length rest < length stream.
Proof.
  intros Hl Hs. pose proof line_size as Hsize. unfold ini_reader_string.
  rewrite decide_False by (intros [?|?]; [done|lia]).
  destruct (read_chars_length (INI_MAX_LINE - 1) stream) as [H1 H2].
  destruct (put_string_Done (read_chars (INI_MAX_LINE - 1) stream).1 line) as (d & -> & D1 & D2); [lia|].
  cbn [outcome_bind]. do 2 eexists. split; [done|]. split_and!; [congruence|done|].
  destruct stream as [|c stream]; [done|].
  destruct (INI_MAX_LINE - 1) as [|k] eqn:E; [lia|]. apply read_chars_rest.
Qed.

Lemma parse_lines_ok fuel : ∀ line stream st, arrays_ok st → length line = INI_MAX_LINE →
  length stream < fuel → (0 ≤ lineno st)%Z → (lineno st + Z.of_nat (length stream) < INT_MAX)%Z →
  is_Done (parse_lines handler fuel line stream st).
Proof.
  induction fuel as [|fuel IH]; intros line stream st A Hl Hf H0 Hm; [lia|]. cbn [parse_lines].
  destruct (decide (stream = [])) as [->|Hne]; [by eexists|].
  destruct (reader_ok line stream Hl Hne) as (line' & rest & -> & Hl' & Hn & Hr). cbn [outcome_bind].
  destruct (parse_line_ok line' st A Hl' Hn) as (st' & -> & A' & Hk); [lia|]. cbn [outcome_bind].
  apply IH; [done..|lia|lia|lia].
Qed.

(** C22. Parsing never leaves the parser's buffers and always ends: for any
    file of fewer than 2^31 - 1 bytes (line breaks, comments, brackets and
    terminators anywhere, lines of any length), whatever the line buffer held
    before, and any handler that can handle a terminated value, the parser
    returns. *)
Theorem ini_parse_safe (line stream : bytes) (user : U)
    (Hl : length line = INI_MAX_LINE) (Hs : (Z.of_nat (length stream) < INT_MAX)%Z) :
  is_Done (ini_parse_stream handler line stream user).
Proof.
  unfold ini_parse_stream.
  destruct (parse_lines_ok (S (length stream)) line stream
    (Ini (replicate MAX_SECTION NUL) (replicate MAX_NAME NUL) 0 0 user)) as [[s n k e u] ->].
  - split; cbn [section prev_name]; (split; [apply length_replicate|by left]).
  - done.
  - lia.
  - done.
  - cbn [lineno]. lia.
  - by eexists.
Qed.
End Safety.

(** A handler that notes what it is given: section, name and value. *)
Definition record : Type := (bytes * bytes * bytes)%type.

Definition note (u : list record) (s n v : bytes) : outcome (bool * list record) :=
  let! t := text NUL v in Done (true, u ++ [(s, n, t)]).

Lemma note_total u s n v : NUL ∈ v → is_Done (note u s n v).
Proof. intros H. unfold note. destruct (text_total v H) as (t & -> & _). by eexists. Qed.

Lemma ini_parse_safe_witness :
  is_Done (ini_parse_stream note (replicate INI_MAX_LINE "x"%char)
    (lit "[log" ++ [newline] ++ lit " level=" ++ [newline; NUL; newline] ++ lit "=;]") []).
Proof.
  apply (ini_parse_safe note note_total); [apply length_replicate|vm_compute; reflexivity].
Defined.

(** ** Printed files are parsed back *)

Inductive item : Type :=
  | Heading (name : bytes)
  | Pair (name value : bytes).

Definition print_item (i : item) : bytes :=
  match i with
  | Heading s => "["%char :: s ++ lit "]"
  | Pair n v => n ++ lit " = " ++ v
  end.

Definition print_items (its : list item) : bytes := flat_map (λ i, print_item i ++ [newline]) its.

(** The calls of the handler. *)
Fixpoint calls (section : bytes) (its : list item) : list record :=
  match its with
  | [] => []
  | Heading s :: its => calls s its
  | Pair n v :: its => (section, n, v) :: calls section its
  end.

(** No semicolon after a space. *)
Fixpoint no_comment (was_space : bool) (s : bytes) : Prop :=
  match s with
  | [] => True
  | c :: s => ¬ (was_space = true ∧ c ∈ INI_INLINE_COMMENT_PREFIXES) ∧ no_comment (isspace c) s
  end.

Definition is_plain (chars : bytes) (s : bytes) : Prop :=
  Forall (λ c, c ≠ NUL ∧ c ≠ newline ∧ (c ∉ chars)) s.

Definition trimmed (s : bytes) : Prop :=
  match s, last s with c :: _, Some d => isspace c = false ∧ isspace d = false | _, _ => False end.

Definition good_item (i : item) : Prop :=
  length (print_item i) < INI_MAX_LINE - 1 ∧
  match i with
  | Heading s => is_plain (lit "]") s ∧ no_comment false s ∧ length s < MAX_SECTION
  | Pair n v =>
    is_plain (lit "=:") n ∧ trimmed n ∧ no_comment false n
    ∧ (∀ c, head n = Some c → c ∉ lit "[;#" ++ byte_order_mark)
    ∧ is_plain [] v ∧ trimmed v ∧ no_comment true v
  end.

Lemma plain_nul chars s : is_plain chars s → NUL ∉ s.
Proof. unfold is_plain. rewrite Forall_forall. intros H Hn. by destruct (H NUL Hn) as (? & _ & _). Qed.

Lemma plain_newline chars s : is_plain chars s → newline ∉ s.
Proof. unfold is_plain. rewrite Forall_forall. intros H Hn. by destruct (H newline Hn) as (_ & ? & _). Qed.

Lemma plain_app chars a b : is_plain chars a → is_plain chars b → is_plain chars (a ++ b).
Proof. apply Forall_app_2. Qed.

(** Stripping the end of a buffer. *)
Lemma rstrip_from_stop p s c : s !! p = Some c → isspace c = false → rstrip_from (S p) s = s.
Proof. intros H E. cbn. by rewrite H, E. Qed.

Lemma rstrip_from_spaces a sp rest : Forall (λ c, isspace c = true) sp →
  rstrip_from (length a + length sp) (a ++ sp ++ rest)
  = rstrip_from (length a) (a ++ replicate (length sp) NUL ++ rest).
Proof.
  revert rest. induction sp as [|c sp IH] using rev_ind; intros rest H; [by rewrite Nat.add_0_r|].
  apply Forall_app in H as [H Hc]. inversion Hc as [|? ? Hc' _]; subst.
  rewrite length_app. cbn [length]. rewrite Nat.add_1_r, Nat.add_succ_r. cbn [rstrip_from].
  rewrite <- app_assoc. cbn [app].
  rewrite lookup_app_r by lia. rewrite lookup_app_r by lia.
  replace (length a + length sp - length a - length sp) with 0 by lia. cbn [lookup list_lookup]. rewrite Hc'.
  rewrite insert_app_r_alt by lia. rewrite insert_app_r_alt by lia.
  replace (length a + length sp - length a - length sp) with 0 by lia. cbn [insert list_insert].
  rewrite IH by done. by rewrite replicate_S_end, <- app_assoc.
Qed.

Lemma rstrip_run a sp rest : NUL ∉ a ++ sp → Forall (λ c, isspace c = true) sp →
  (∀ d, last a = Some d → isspace d = false) →
  rstrip (a ++ sp ++ NUL :: rest) = Done (a ++ replicate (length sp) NUL ++ NUL :: rest).
Proof.
  intros Hn Hs Ha. unfold rstrip.
  assert (E : strlen NUL (a ++ sp ++ NUL :: rest) = Done (length a + length sp)).
  { rewrite app_assoc, strlen_app by done. by rewrite length_app. }
  rewrite E. cbn [outcome_bind]. rewrite rstrip_from_spaces by done. f_equal.
  destruct a as [|d a _] using rev_ind; [done|].
  rewrite length_app, Nat.add_1_r. eapply rstrip_from_stop.
  - rewrite <- !app_assoc, lookup_app_r, Nat.sub_diag by done. done.
  - apply Ha. by rewrite last_snoc.
Qed.

Lemma find_run chars b s c rest : no_comment b s → is_plain chars s → c ∈ chars →
  ¬ (NUL = c) → find_chars_or_comment b chars (s ++ c :: rest) = Done (length s).
Proof.
  revert b. induction s as [|d s IH]; intros b Hc Hp Hin Hn; cbn.
  - rewrite decide_False by congruence. by rewrite decide_True.
  - destruct Hc as [Hc1 Hc2]. inversion Hp as [|? ? (H1 & _ & H2) Hp']; subst.
    rewrite !decide_False by done. by rewrite IH.
Qed.

Lemma find_end b s rest : no_comment b s → is_plain [] s →
  find_chars_or_comment b [] (s ++ NUL :: rest) = Done (length s).
Proof.
  revert b. induction s as [|d s IH]; intros b Hc Hp; cbn; [done|].
  destruct Hc as [Hc1 Hc2]. inversion Hp as [|? ? (H1 & _ & H2) Hp']; subst.
  rewrite !decide_False by done. by rewrite IH.
Qed.

(** Reading one printed line. *)
Lemma read_line line text rest : length line = INI_MAX_LINE → newline ∉ text →
  length text < INI_MAX_LINE - 1 →
  ∃ junk, ini_reader_string line INI_MAX_LINE (text ++ newline :: rest)
    = Done (Some (text ++ newline :: NUL :: junk, rest))
    ∧ length (text ++ newline :: NUL :: junk) = INI_MAX_LINE.
Proof.
  intros Hl Hn Ht. pose proof line_size. unfold ini_reader_string.
  rewrite decide_False by (intros [H'|?]; [by apply app_nil in H' as [_ ?]|lia]).
  assert (R : ∀ k t, length t < k → newline ∉ t → read_chars k (t ++ newline :: rest) = (t ++ [newline], rest)).
  { induction k as [|k IH]; intros [|c t] Hk Ht'; cbn in *; [lia|lia|by rewrite decide_True|].
    apply not_elem_of_cons in Ht' as [Hc Ht']. rewrite decide_False by done. by rewrite IH by (done || lia). }
  rewrite R by done. cbn [fst snd]. unfold put_string. rewrite length_app. cbn [length].
  rewrite decide_True by lia. cbn [outcome_bind]. rewrite <- app_assoc. eexists. split; [done|].
  rewrite length_app. cbn [length]. rewrite length_drop, Hl. lia.
Qed.

(** The parser is inside a section, with no error so far. *)
Record inside {U : Type} (sec : bytes) (u : U) (st : @ini U) : Prop := {
  inside_arrays : arrays_ok st;
  inside_section : text NUL (section st) = Done sec;
  inside_error : error st = 0%Z;
  inside_user : user st = u
}.

Lemma strncpy0_run dest s rest : NUL ∉ s → dest ≠ [] →
  strncpy0 dest (s ++ NUL :: rest) (length dest)
  = Done (take (length dest - 1) s ++ NUL :: drop (S (length (take (length dest - 1) s))) dest).
Proof.
  intros Hn Hd. unfold strncpy0.
  assert (E : str_prefix (length dest - 1) (s ++ NUL :: rest) = Done (take (length dest - 1) s)).
  { clear Hd. revert s Hn. generalize (length dest - 1) as k. induction k as [|k IH]; intros [|c s] Hn; cbn; try done.
    apply not_elem_of_cons in Hn as [Hc Hn]. rewrite decide_False by done. by rewrite IH. }
  rewrite E. cbn [outcome_bind]. unfold put_string. rewrite decide_True; [done|].
  rewrite length_take. destruct dest; [done|]. cbn. lia.
Qed.

Lemma at_middle a c rest k : k = length a → at_offset k (a ++ c :: rest) = Done c.
Proof. intros ->. unfold at_offset. by rewrite list_lookup_middle. Qed.

Lemma write_middle a c rest k : k = length a → <[k := NUL]> (a ++ c :: rest) = a ++ NUL :: rest.
Proof. intros ->. by rewrite insert_app_r_alt, Nat.sub_diag by done. Qed.

Lemma heading_run {U} s rest sec (u : U) st : good_item (Heading s) → inside sec u st →
  ∃ st', section_line 0 ("["%char :: s ++ "]"%char :: rest) st = Done st' ∧ inside s u st' ∧ lineno st' = lineno st.
Proof.
  intros (_ & Hp & Hc & Hl) [[[S1 S2] [P1 P2]] Hs He Hu]. unfold section_line.
  cbn [drop]. rewrite drop_0, (find_run (lit "]") false s "]"%char rest Hc Hp) by (try done; by left). cbn [outcome_bind].
  change ("["%char :: s ++ ?r) with (("["%char :: s) ++ r).
  rewrite at_middle by done. cbn [outcome_bind]. rewrite decide_True, write_middle by done.
  cbn [app drop]. rewrite drop_0, <- S1, strncpy0_run.
  2:{ by eapply plain_nul. }
  2:{ intros E. by rewrite E in S1. }
  cbn [outcome_bind].
  destruct (put_string_Done [] (prev_name st)) as (p & -> & E1 & E2); [rewrite P1; unfold MAX_NAME; cbn; lia|].
  assert (Ht : take (length (section st) - 1) s = s) by (apply take_ge; lia). rewrite Ht.
  eexists. split; [done|]. split; [|done]. split; cbn [section prev_name error user]; try done.
  - split; cbn [section prev_name]; split; [| |congruence|done].
    + rewrite length_app. cbn. rewrite length_drop. lia.
    + rewrite elem_of_app. right. by left.
  - apply text_app. by eapply plain_nul.
Qed.

Lemma no_comment_space b s : no_comment b s → no_comment b (s ++ lit " ").
Proof.
  revert b. induction s as [|c s IH]; intros b; cbn; [|by intros [H1 H2%IH]].
  intros _. split; [|done]. intros [_ H]. revert H. unfold INI_INLINE_COMMENT_PREFIXES. by rewrite list_elem_of_singleton.
Qed.

Lemma trimmed_last s d : trimmed s → last s = Some d → isspace d = false.
Proof. unfold trimmed. destruct s; [done|]. intros H E. rewrite E in H. by destruct H. Qed.

Lemma rstrip_at_run a b sp rest k : k = length a → NUL ∉ b ++ sp → Forall (λ c, isspace c = true) sp →
  (∀ d, last b = Some d → isspace d = false) →
  rstrip_at k (a ++ b ++ sp ++ NUL :: rest) = Done (a ++ b ++ replicate (length sp) NUL ++ NUL :: rest).
Proof.
  intros -> Hn Hs Hb. unfold rstrip_at. rewrite drop_app_length, take_app_length.
  by rewrite rstrip_run.
Qed.

Lemma lskip_trimmed v rest : trimmed v → lskip (v ++ rest) = Done 0.
Proof.
  unfold trimmed. destruct v as [|c v]; [done|]. intros H. cbn [app lskip]. rewrite decide_False; [done|].
  intros [_ E]. destruct (last (c :: v)); [|done]. destruct H. congruence.
Qed.

(** What a pair's line does: the handler is called with the section, the name
    and the buffer that starts with the value. *)
Definition called {U} (h : @ini_handler U) (sec n v : bytes) (rest : bytes) (st : @ini U) : outcome (bool * U) :=
  h (user st) sec n (v ++ NUL :: rest).

Lemma pair_run {U} (h : @ini_handler U) n v rest sec u st : good_item (Pair n v) → inside sec u st →
  ∃ p, length p = MAX_NAME ∧ (NUL ∈ p) ∧
    pair_line h 0 (n ++ lit " = " ++ v ++ NUL :: rest) st
    = let! r := called h sec n v rest st in
      let st' := Ini (section st) p (lineno st) (error st) r.2 in
      Done (if r.1 then st' else fail st').
Proof.
  intros (_ & Hp & Ht & Hc & _ & Hvp & Hvt & Hvc) [[[S1 S2] [P1 P2]] Hs He Hu].
  pose proof (plain_nul _ _ Hp) as Hn. pose proof (plain_nul _ _ Hvp) as Hvn.
  unfold pair_line. set (tail := " "%char :: v ++ NUL :: rest).
  replace (n ++ lit " = " ++ v ++ NUL :: rest) with ((n ++ lit " ") ++ "="%char :: tail)
    by (unfold tail; by rewrite <- app_assoc).
  rewrite drop_0, (find_run (lit "=:") false (n ++ lit " ") "="%char tail);
    [|by apply no_comment_space|apply plain_app; [done|]|by left|done].
  2:{ repeat constructor; try done. not_in. }
  cbn [outcome_bind Nat.add]. rewrite at_middle by done. cbn [outcome_bind].
  rewrite decide_True, write_middle by (done || by left).
  assert (R1 : rstrip_at 0 ((n ++ lit " ") ++ NUL :: tail) = Done ((n ++ [NUL; NUL]) ++ tail)).
  { rewrite <- app_assoc. pose proof (rstrip_at_run [] n (lit " ") tail 0 eq_refl) as R. cbn [app] in R.
    rewrite R; [by rewrite <- app_assoc|rewrite elem_of_app; intros [?|?]; [done|by apply list_elem_of_singleton in H]
      |by repeat constructor|intros d; by apply trimmed_last]. }
  rewrite R1. cbn [outcome_bind]. set (L := (n ++ [NUL; NUL]) ++ tail).
  assert (Hd : drop (S (length (n ++ lit " "))) L = tail).
  { unfold L. replace (S (length (n ++ lit " "))) with (length (n ++ [NUL; NUL])) by (rewrite !length_app; cbn; lia).
    by rewrite drop_app_length. }
  rewrite Hd. unfold tail at 1. change (" "%char :: v ++ NUL :: rest) with ((lit " " ++ v) ++ NUL :: rest).
  rewrite find_end; [|split; [by intros [? _]|done]|apply plain_app; [|done]; repeat constructor; try done; not_in].
  assert (L2 : L = (n ++ [NUL; NUL] ++ lit " " ++ v) ++ NUL :: rest) by (unfold L, tail; by rewrite <- !app_assoc).
  assert (E2 : at_offset (S (length (n ++ lit " ") + length (lit " " ++ v))) L = Done NUL).
  { rewrite L2. apply at_middle. rewrite !length_app. cbn. lia. }
  cbn [outcome_bind]. rewrite E2. cbn [outcome_bind]. rewrite !decide_True by done. rewrite Hd.
  unfold tail. cbn [lskip]. rewrite decide_True by done. rewrite lskip_trimmed by done. cbn [outcome_bind].
  assert (L3 : L = (n ++ [NUL; NUL] ++ lit " ") ++ v ++ [] ++ NUL :: rest) by (unfold L, tail; by rewrite <- !app_assoc).
  assert (E3 : rstrip_at (S (length (n ++ lit " ") + 1)) L = Done L).
  { rewrite L3. apply rstrip_at_run; [rewrite !length_app; cbn; lia|by rewrite app_nil_r|done|].
    intros d. by apply trimmed_last. }
  assert (E4 : drop (S (length (n ++ lit " ") + 1)) L = v ++ NUL :: rest).
  { rewrite L3. apply drop_app_length'. rewrite !length_app. cbn. lia. }
  rewrite E3. cbn [outcome_bind]. rewrite drop_0, E4.
  rewrite <- P1.
  assert (L4 : L = n ++ NUL :: NUL :: tail) by (unfold L; by rewrite <- app_assoc).
  destruct (strncpy0_Done (prev_name st) L) as (d & D0 & D1 & D2).
  { rewrite L4, elem_of_app. right. by left. }
  { intros E. by rewrite E in P1. }
  rewrite D0. cbn [outcome_bind]. unfold call_handler. rewrite L4. cbn [section user]. rewrite Hs. cbn [outcome_bind].
  rewrite text_app by done. exists d. split_and!; [congruence|done|done].
Qed.

(** The section after an item, and the calls of an item. *)
Definition next_section (sec : bytes) (i : item) : bytes :=
  match i with Heading s => s | Pair _ _ => sec end.

Lemma calls_cons sec i its : calls sec (i :: its) = calls sec [i] ++ calls (next_section sec i) its.
Proof. by destruct i. Qed.

Lemma item_trimmed i : good_item i → trimmed (print_item i).
Proof.
  intros [_ G]. destruct i as [s|n v]; cbn [print_item].
  - unfold trimmed. change ("["%char :: s ++ lit "]") with (("["%char :: s) ++ ["]"%char]).
    by rewrite last_snoc.
  - destruct G as (_ & Hn & _ & _ & _ & Hv & _). unfold trimmed in *.
    destruct n as [|c n]; [done|]. cbn [app]. rewrite app_comm_cons, last_app, last_app.
    destruct v as [|d v]; [done|]. destruct (last (c :: n)); [|done].
    destruct (last (d :: v)); [|done]. naive_solver.
Qed.

Lemma item_text i : good_item i → (NUL ∉ print_item i) ∧ (newline ∉ print_item i).
Proof.
  intros [_ G].
  assert (P : is_plain [] (print_item i)).
  { assert (W : ∀ chars t, is_plain chars t → is_plain [] t).
    { intros chars t H. eapply Forall_impl; [exact H|]. intros c (? & ? & _). split_and!; [done..|apply not_elem_of_nil]. }
    assert (C : ∀ t : bytes, (NUL ∉ t) → (newline ∉ t) → is_plain [] t).
    { intros t H1 H2. apply Forall_forall. intros c Hc. split_and!; [congruence..|apply not_elem_of_nil]. }
    destruct i as [s|n v]; cbn [print_item].
    - destruct G as (Hs & _). change ("["%char :: s ++ lit "]") with (lit "[" ++ s ++ lit "]").
      repeat apply plain_app; [apply C; not_in|by eapply W|apply C; not_in].
    - destruct G as (Hn & _ & _ & _ & Hv & _).
      repeat apply plain_app; [by eapply W|apply C; not_in|done]. }
  split; [by eapply plain_nul|by eapply plain_newline].
Qed.

Lemma item_head i : good_item i → ∃ c t, print_item i = c :: t
  ∧ (c ∉ lit ";#" ++ byte_order_mark) ∧ (c = "["%char ↔ ∃ s, i = Heading s).
Proof.
  intros [_ G]. destruct i as [s|n v]; cbn [print_item].
  - exists "["%char, (s ++ lit "]"). split_and!; [done|not_in|]. split; [by exists s|done].
  - destruct G as (_ & Ht & _ & Hh & _). destruct n as [|c n]; [done|]. specialize (Hh c eq_refl).
    exists c, (n ++ lit " = " ++ v). split_and!; [done| |].
    + intros H. apply Hh. revert H. rewrite !elem_of_app. intros [H|H]; [left|by right].
      by right.
    + split; [|by intros [? ?]]. intros ->. exfalso. apply Hh. by left.
Qed.

(** A printed line up to its kind: nothing is stripped but the line break. *)
Lemma item_line_start {U} (h : @ini_handler U) i junk st : good_item i → arrays_ok st → (0 ≤ lineno st < INT_MAX)%Z →
  let st1 := Ini (section st) (prev_name st) (lineno st + 1) (error st) (user st) in
  let line := print_item i ++ NUL :: NUL :: junk in
  parse_line h (print_item i ++ newline :: NUL :: junk) st
  = match i with Heading _ => section_line 0 line st1 | Pair _ _ => pair_line h 0 line st1 end.
Proof.
  intros G A Hk st1 line. unfold parse_line. rewrite int_add_Done by (unfold INT_MIN, INT_MAX in *; lia).
  cbn [outcome_bind]. fold st1.
  destruct (item_text i G) as [Hn _]. destruct (item_head i G) as (c & t & Ec & Hc & Hb).
  rewrite decide_False.
  2:{ intros [_ H]. rewrite Ec in H. cbn [app take] in H. unfold byte_order_mark in H.
      injection H as H _. apply Hc. rewrite H. apply elem_of_app. right. by left. }
  assert (R : rstrip_at 0 (print_item i ++ newline :: NUL :: junk) = Done line).
  { apply (rstrip_at_run [] (print_item i) [newline] junk 0 eq_refl).
    - rewrite elem_of_app, list_elem_of_singleton. by intros [?|?].
    - by repeat constructor.
    - intros d. apply trimmed_last. by apply item_trimmed. }
  rewrite R. cbn [outcome_bind]. unfold line at 1.
  rewrite drop_0, lskip_trimmed by (by apply item_trimmed). cbn [outcome_bind].
  assert (E0 : at_offset (0 + 0) line = Done c) by (unfold line; by rewrite Ec).
  rewrite E0. cbn [outcome_bind].
  rewrite decide_False.
  2:{ intros [->|H]; [|apply Hc, elem_of_app; by left].
      apply Hn. rewrite Ec. by left. }
  destruct i as [s|n v]; [rewrite decide_True; [done|apply Hb; by exists s]|].
  rewrite decide_False; [done|]. intros H. by apply Hb in H as [? ?].
Qed.

Lemma inside_next {U} sec (u : U) st k : inside sec u st →
  inside sec u (Ini (section st) (prev_name st) k (error st) (user st)).
Proof. by intros []. Qed.

Section Roundtrip.
Context {U : Type} (h : @ini_handler U) (f : U → record → U) (cs : list record).
Context (Hh : ∀ u s n v rest, (s, n, v) ∈ cs → h u s n (v ++ NUL :: rest) = Done (true, f u (s, n, v))).

Lemma item_line_run i junk sec u st : good_item i → inside sec u st → (0 ≤ lineno st < INT_MAX)%Z →
  (∀ c, c ∈ calls sec [i] → c ∈ cs) →
  ∃ st', parse_line h (print_item i ++ newline :: NUL :: junk) st = Done st'
    ∧ inside (next_section sec i) (fold_left f (calls sec [i]) u) st' ∧ lineno st' = (lineno st + 1)%Z.
Proof.
  intros G I Hk Hcs. rewrite item_line_start by (done || apply I). cbn zeta.
  apply (inside_next _ _ _ (lineno st + 1)) in I. set (st1 := Ini _ _ _ _ _) in *.
  destruct i as [s|n v]; cbn [print_item next_section calls fold_left].
  - destruct (heading_run s (NUL :: NUL :: junk) sec u st1 G I) as (st' & E & I' & K).
    exists st'. split; [|done]. rewrite <- E. f_equal. cbn. by rewrite <- app_assoc.
  - destruct (pair_run h n v (NUL :: junk) sec u st1 G I) as (p & P1 & P2 & E).
    rewrite <- !app_assoc, E. unfold called. rewrite Hh by (apply Hcs; by left). cbn [outcome_bind fst snd].
    eexists. split; [done|]. split; [|done]. destruct I as [[S0 _] Hs He Hu].
    split; cbn; [|done|done|by rewrite <- Hu]. split; cbn; split; done || apply S0.
Qed.

Lemma print_cons i its : print_items (i :: its) = print_item i ++ newline :: print_items its.
Proof. unfold print_items. cbn [flat_map]. by rewrite <- app_assoc. Qed.

Lemma items_run its : ∀ fuel line sec u st, Forall good_item its → inside sec u st →
  length line = INI_MAX_LINE → length (print_items its) < fuel →
  (0 ≤ lineno st)%Z → (lineno st + Z.of_nat (length its) < INT_MAX)%Z →
  (∀ c, c ∈ calls sec its → c ∈ cs) →
  ∃ st', parse_lines h fuel line (print_items its) st = Done st'
    ∧ error st' = 0%Z ∧ user st' = fold_left f (calls sec its) u.
Proof.
  induction its as [|i its IH]; intros fuel line sec u st G I Hl Hf H0 Hm Hcs; (destruct fuel as [|fuel]; [lia|]).
  - exists st. split_and!; [done|apply I|apply I].
  - inversion G as [|? ? Gi Gs]; subst. rewrite print_cons in Hf |- *. cbn [parse_lines].
    destruct (item_text i Gi) as [_ Hnl].
    destruct (read_line line (print_item i) (print_items its) Hl Hnl (proj1 Gi)) as (junk & -> & Hl').
    cbn [outcome_bind] in *. cbn [length] in Hm. rewrite calls_cons in Hcs |- *.
    destruct (item_line_run i junk sec u st Gi I) as (st1 & -> & I1 & K1);
      [lia|intros c Hc; apply Hcs, elem_of_app; by left|].
    cbn [outcome_bind]. rewrite length_app in Hf. cbn [length] in Hf. rewrite fold_left_app.
    apply IH; [done..|lia|lia|lia|]. intros c Hc. apply Hcs, elem_of_app. by right.
Qed.
End Roundtrip.

Lemma ini_roundtrip_fold {U : Type} (h : @ini_handler U) (f : U → record → U) (line : bytes)
    (its : list item) (u : U)
    (Hh : ∀ u s n v rest, (s, n, v) ∈ calls [] its → h u s n (v ++ NUL :: rest) = Done (true, f u (s, n, v)))
    (Hl : length line = INI_MAX_LINE) (Hg : Forall good_item its)
    (Hn : (Z.of_nat (length its) < INT_MAX)%Z) :
  ini_parse_stream h line (print_items its) u = Done (0%Z, fold_left f (calls [] its) u).
Proof.
  unfold ini_parse_stream.
  destruct (items_run h f (calls [] its) Hh its (S (length (print_items its))) line [] u
    (Ini (replicate MAX_SECTION NUL) (replicate MAX_NAME NUL) 0 0 u)) as (st & E & E1 & E2).
  - done.
  - split; [|done..]. split; cbn [section prev_name]; (split; [apply length_replicate|by left]).
  - done.
  - lia.
  - done.
  - cbn [lineno]. lia.
  - done.
  - rewrite E. cbn [outcome_bind]. destruct st. cbn in E1, E2. by rewrite E1, E2.
Qed.

(** C20. Round trip: a file that is printed from section headings and
    "name = value" lines is parsed without error, and the handler is called
    for exactly the pairs, in order, each with its section, its name and its
    value: for any handler that accepts them and does [f] with them, the
    result is [f] over the list of pairs. *)
Theorem ini_roundtrip {U : Type} (h : @ini_handler U) (f : U → record → U) (line : bytes)
    (its : list item) (u : U)
    (Hh : ∀ u s n v rest, (s, n, v) ∈ calls [] its → h u s n (v ++ NUL :: rest) = Done (true, f u (s, n, v)))
    (Hl : length line = INI_MAX_LINE) (Hg : Forall good_item its)
    (Hn : (Z.of_nat (length its) < INT_MAX)%Z) :
  ini_parse_stream h line (print_items its) u = Done (0%Z, fold_left f (calls [] its) u).
Proof. by apply ini_roundtrip_fold. Qed.

Definition demo_items : list item :=
  [Heading (lit "server"); Pair (lit "host") (lit "localhost"); Pair (lit "max_connections") (lit "5");
   Heading (lit "log"); Pair (lit "level") (lit "debug = all")].

Lemma demo_items_good : Forall good_item demo_items.
Proof.
  repeat constructor; try (apply Nat.ltb_lt; vm_compute; reflexivity); try done; try not_in; try discriminate.
  all: intros c H; injection H as <-; not_in.
Qed.

Lemma ini_roundtrip_witness :
  ini_parse_stream note (replicate INI_MAX_LINE NUL) (print_items demo_items) []
  = Done (0%Z, [(lit "server", lit "host", lit "localhost"); (lit "server", lit "max_connections", lit "5");
                (lit "log", lit "level", lit "debug = all")]).
Proof.
  apply (ini_roundtrip note (λ u r, u ++ [r]) (replicate INI_MAX_LINE NUL) demo_items []);
    [|apply length_replicate|exact demo_items_good|vm_compute; reflexivity].
  intros u s n v rest H. unfold note.
  repeat (apply elem_of_cons in H as [H|H]; [injection H as -> -> ->; reflexivity|]).
  by apply not_elem_of_nil in H.
Defined.
