(* ===== verification/ServerSettings.v ===== *)
(** * Settings of the server (src/server/settings.c, main.c)

    Default paths, the handler of the configuration file and the command line
    options, on the fixed-size arrays of [ServerConfigInfo].  What the process
    finds outside (user, home directory, files, working directory) is an
    environment; [getopt_long] is a library function, and the options it
    recognised are given as a list. *)

From S2P Require Import Prelude.
From S2P Require Import CStr.
From S2P Require Import TrimLib.
From S2P Require Import MessageLib.
From S2P Require Import Logger.
From S2P Require Import IniLib.

Definition kMaxPath : nat := 4096.
Definition kMaxHostLength : nat := 40.
Definition kMaxLocaleLength : nat := 25.
Definition APPNAME : bytes := lit "c2hat".

(** ** The configuration *)

Record config : Type := Config {
  logLevel : Z;
  configFilePath : bytes;
  logFilePath : bytes;
  pidFilePath : bytes;
  sslCertFilePath : bytes;
  sslKeyFilePath : bytes;
  host : bytes;
  locale : bytes;
  port : Z;
  maxConnections : Z;
  foreground : bool;
  workingDirPath : bytes
}.

Definition with_logLevel v c := Config v (configFilePath c) (logFilePath c) (pidFilePath c) (sslCertFilePath c) (sslKeyFilePath c) (host c) (locale c) (port c) (maxConnections c) (foreground c) (workingDirPath c).
Definition with_configFilePath v c := Config (logLevel c) v (logFilePath c) (pidFilePath c) (sslCertFilePath c) (sslKeyFilePath c) (host c) (locale c) (port c) (maxConnections c) (foreground c) (workingDirPath c).
Definition with_logFilePath v c := Config (logLevel c) (configFilePath c) v (pidFilePath c) (sslCertFilePath c) (sslKeyFilePath c) (host c) (locale c) (port c) (maxConnections c) (foreground c) (workingDirPath c).
Definition with_pidFilePath v c := Config (logLevel c) (configFilePath c) (logFilePath c) v (sslCertFilePath c) (sslKeyFilePath c) (host c) (locale c) (port c) (maxConnections c) (foreground c) (workingDirPath c).
Definition with_sslCertFilePath v c := Config (logLevel c) (configFilePath c) (logFilePath c) (pidFilePath c) v (sslKeyFilePath c) (host c) (locale c) (port c) (maxConnections c) (foreground c) (workingDirPath c).
Definition with_sslKeyFilePath v c := Config (logLevel c) (configFilePath c) (logFilePath c) (pidFilePath c) (sslCertFilePath c) v (host c) (locale c) (port c) (maxConnections c) (foreground c) (workingDirPath c).
Definition with_host v c := Config (logLevel c) (configFilePath c) (logFilePath c) (pidFilePath c) (sslCertFilePath c) (sslKeyFilePath c) v (locale c) (port c) (maxConnections c) (foreground c) (workingDirPath c).
Definition with_locale v c := Config (logLevel c) (configFilePath c) (logFilePath c) (pidFilePath c) (sslCertFilePath c) (sslKeyFilePath c) (host c) v (port c) (maxConnections c) (foreground c) (workingDirPath c).
Definition with_port v c := Config (logLevel c) (configFilePath c) (logFilePath c) (pidFilePath c) (sslCertFilePath c) (sslKeyFilePath c) (host c) (locale c) v (maxConnections c) (foreground c) (workingDirPath c).
Definition with_maxConnections v c := Config (logLevel c) (configFilePath c) (logFilePath c) (pidFilePath c) (sslCertFilePath c) (sslKeyFilePath c) (host c) (locale c) (port c) v (foreground c) (workingDirPath c).
Definition with_foreground v c := Config (logLevel c) (configFilePath c) (logFilePath c) (pidFilePath c) (sslCertFilePath c) (sslKeyFilePath c) (host c) (locale c) (port c) (maxConnections c) v (workingDirPath c).
Definition with_workingDirPath v c := Config (logLevel c) (configFilePath c) (logFilePath c) (pidFilePath c) (sslCertFilePath c) (sslKeyFilePath c) (host c) (locale c) (port c) (maxConnections c) (foreground c) v.

(** ** Environment *)

Record environ : Type := Environ {
  uid : Z;
  home : bytes;
  readable : bytes → bool;
  file : bytes → option bytes;
  cwd : bytes
}.

(** ** Default paths *)

(** A path formatted into a fresh array of [kMaxPath] characters. *)
Definition path_array (format : bytes) (args : list arg) : outcome bytes :=
  vsnprintf (replicate kMaxPath NUL) kMaxPath format args.

(** [access(path, R_OK) == 0] *)
Definition accessible (env : environ) (path : bytes) : outcome bool :=
  let! t := cstr path in Done (readable env t).

Definition GetConfigFilePath (env : environ) (filePath : bytes) : outcome bytes :=
  let! user := path_array (lit "%s/.config/%s/server.conf") [AStr (home env); AStr APPNAME] in
  let! etc := path_array (lit "/etc/%s/server.conf") [AStr APPNAME] in
  let! usr := path_array (lit "/usr/local/etc/%s/server.conf") [AStr APPNAME] in
  let n := length filePath in
  let filePath := replicate n NUL in
  let! u := accessible env user in
  let! e := accessible env etc in
  let! l := accessible env usr in
  if negb (uid env =? 0)%Z && u then memcpy filePath user n
  else if e then memcpy filePath etc n
  else if l then memcpy filePath usr n
  else Done filePath.

Definition GetDefaultPidFilePath (env : environ) (filePath : bytes) : outcome bytes :=
  let n := length filePath in
  if (uid env =? 0)%Z then vsnprintf (replicate n NUL) n (lit "/var/run/%s.pid") [AStr APPNAME]
  else vsnprintf (replicate n NUL) n (lit "%s/.local/run/%s.pid") [AStr (home env); AStr APPNAME].

Definition GetWorkingDirectory (env : environ) (dirPath : bytes) : outcome bytes :=
  let n := length dirPath in
  if (uid env =? 0)%Z then vsnprintf (replicate n NUL) n (lit "/usr/local/%s") [AStr APPNAME]
  else vsnprintf (replicate n NUL) n (lit "%s/.local/state/%s") [AStr (home env); AStr APPNAME].

Definition GetDefaultLogFilePath (env : environ) (filePath : bytes) : outcome bytes :=
  let n := length filePath in
  if (uid env =? 0)%Z then vsnprintf filePath n (lit "/var/log/%s-server.log") [AStr APPNAME]
  else vsnprintf filePath n (lit "%s/.local/state/%s/server.log") [AStr (home env); AStr APPNAME].

(** The certificate and key paths. *)
Definition GetDefaultTlsFilePaths (env : environ) (certPath keyPath : bytes) : outcome (bytes * bytes) :=
  let certPath := replicate (length certPath) NUL in
  let keyPath := replicate (length keyPath) NUL in
  let! userCert := path_array (lit "%s/.config/%s/ssl/cert.pem") [AStr (home env); AStr APPNAME] in
  let! userKey := path_array (lit "%s/.config/%s/ssl/key.pem") [AStr (home env); AStr APPNAME] in
  let! etcCert := path_array (lit "/etc/%s/ssl/cert.pem") [AStr APPNAME] in
  let! etcKey := path_array (lit "/etc/%s/ssl/key.pem") [AStr APPNAME] in
  let! localCert := path_array (lit "/usr/local/etc/%s/ssl/cert.pem") [AStr APPNAME] in
  let! localKey := path_array (lit "/usr/local/etc/%s/ssl/key.pem") [AStr APPNAME] in
  let! uc := accessible env userCert in
  let! uk := accessible env userKey in
  let! ec := accessible env etcCert in
  let! ek := accessible env etcKey in
  let! lc := accessible env localCert in
  let! lk := accessible env localKey in
  let print dest src :=
    let! t := cstr src in vsnprintf dest (length dest) (lit "%s") [AStr t] in
  if negb (uid env =? 0)%Z && uc && uk then
    let! c := memcpy certPath userCert (length certPath) in
    let! k := memcpy keyPath userKey (length keyPath) in
    Done (c, k)
  else if ec && ek then
    let! c := print certPath etcCert in let! k := print keyPath etcKey in Done (c, k)
  else if lc && lk then
    let! c := print certPath localCert in let! k := print keyPath localKey in Done (c, k)
  else Done (certPath, keyPath).

(** ** Numbers and levels *)

(** [atoi]; a value outside [int] is undefined. *)
Definition digit_value (c : ascii) : option Z :=
  let n := Ascii.nat_of_ascii c in
  if decide (48 ≤ n ≤ 57) then Some (Z.of_nat (n - 48)) else None.

Fixpoint digits_value (acc : Z) (s : bytes) : Z :=
  match s with
  | c :: s => match digit_value c with Some d => digits_value (10 * acc + d) s | None => acc end
  | [] => acc
  end.

Fixpoint skip_spaces (s : bytes) : bytes :=
  match s with c :: t => if isspace c then skip_spaces t else s | [] => [] end.

Definition atoi (s : bytes) : outcome Z :=
  let v := match skip_spaces s with
           | "-"%char :: t => (- digits_value 0 t)%Z
           | "+"%char :: t => digits_value 0 t
           | t => digits_value 0 t
           end in
  if ((INT_MIN <=? v) && (v <=? INT_MAX))%Z then Done v else Stuck SignedOverflow.

(** Assignment of an [int] to an [unsigned int]. *)
Definition to_unsigned (z : Z) : Z := (z mod UINT_MOD)%Z.

Definition tolower (c : ascii) : ascii :=
  let n := Ascii.nat_of_ascii c in
  if decide (65 ≤ n ≤ 90) then Ascii.ascii_of_nat (n + 32) else c.

(** [strncasecmp(value, level, 5) == 0] *)
Definition LOG_LEVEL_MATCH (value level : bytes) : bool :=
  bool_decide (take 5 (tolower <$> value) = take 5 (tolower <$> level)).

Definition LOG_LEVEL (value : bytes) : Z :=
  if LOG_LEVEL_MATCH value (lit "trace") then LOG_TRACE
  else if LOG_LEVEL_MATCH value (lit "debug") then LOG_DEBUG
  else if LOG_LEVEL_MATCH value (lit "info") then LOG_INFO
  else if LOG_LEVEL_MATCH value (lit "warn") then LOG_WARN
  else if LOG_LEVEL_MATCH value (lit "error") then LOG_ERROR
  else if LOG_LEVEL_MATCH value (lit "fatal") then LOG_FATAL
  else LOG_DEFAULT.

(** ** The handler of the configuration file *)

Definition matches (section name : bytes) (s n : string) : bool :=
  bool_decide (section = lit s) && bool_decide (name = lit n).

(** [memcpy(field, value, sizeof(field) - 1)]; the key file copies one more. *)
Definition copy_value (field value : bytes) : outcome bytes := memcpy field value (length field - 1).

Definition handler (settings : config) (section name value : bytes) : outcome (bool * config) :=
  let key := matches section name in
  let stored (set : bytes → config → config) (m : outcome bytes) : outcome (bool * config) :=
    let! v := m in Done (true, set v settings) in
  if key EmptyString "locale" then stored with_locale (copy_value (locale settings) value)
  else if key "log"%string "level" then
    let! t := cstr value in Done (true, with_logLevel (LOG_LEVEL t) settings)
  else if key "log" "path" then stored with_logFilePath (copy_value (logFilePath settings) value)
  else if key "server" "host" then stored with_host (copy_value (host settings) value)
  else if key "server" "port" then
    let! t := cstr value in let! n := atoi t in Done (true, with_port (to_unsigned n) settings)
  else if key "server" "max_connections" then
    let! t := cstr value in let! n := atoi t in Done (true, with_maxConnections (to_unsigned n) settings)
  else if key "server" "pid_file_path" then stored with_pidFilePath (copy_value (pidFilePath settings) value)
  else if key "tls" "cert_file" then stored with_sslCertFilePath (copy_value (sslCertFilePath settings) value)
  else if key "tls" "key_file" then
    stored with_sslKeyFilePath (memcpy (sslKeyFilePath settings) value (length (sslKeyFilePath settings)))
  else Done (false, settings).

(** ** Command line options *)

Inductive option_found : Type :=
  | OptHost (s : bytes)
  | OptPort (s : bytes)
  | OptMax (s : bytes)
  | OptForeground
  | OptCert (s : bytes)
  | OptKey (s : bytes)
  | OptConfig (s : bytes)
  | OptInvalid.

(** The local variables of the option loop. *)
Record cli : Type := Cli {
  cli_host : bytes;
  cli_port : Z;
  cli_max : Z;
  cli_cert : bytes;
  cli_key : bytes;
  cli_config : bytes;
  cli_valid : bool;
  cli_settings : config
}.

(** [snprintf(dest, sizeof(dest) - 1, "%s", optarg)] *)
Definition take_option (dest optarg : bytes) : outcome bytes :=
  vsnprintf dest (length dest - 1) (lit "%s") [AStr optarg].

(** [getcwd(dest, sizeof(dest))]; nothing is stored when it does not fit. *)
Definition getcwd (env : environ) (dest : bytes) : outcome bytes :=
  if decide (length (cwd env) < length dest) then sn_write dest (length dest) (cwd env) else Done dest.

Definition one_option (env : environ) (o : option_found) (l : cli) : outcome cli :=
  match o with
  | OptHost s => let! v := take_option (cli_host l) s in
      Done (Cli v (cli_port l) (cli_max l) (cli_cert l) (cli_key l) (cli_config l) (cli_valid l) (cli_settings l))
  | OptPort s => let! n := atoi s in
      Done (Cli (cli_host l) (to_unsigned n) (cli_max l) (cli_cert l) (cli_key l) (cli_config l) (cli_valid l) (cli_settings l))
  | OptMax s => let! n := atoi s in
      Done (Cli (cli_host l) (cli_port l) (to_unsigned n) (cli_cert l) (cli_key l) (cli_config l) (cli_valid l) (cli_settings l))
  | OptForeground => let! d := getcwd env (workingDirPath (cli_settings l)) in
      Done (Cli (cli_host l) (cli_port l) (cli_max l) (cli_cert l) (cli_key l) (cli_config l) (cli_valid l)
                (with_workingDirPath d (with_foreground true (cli_settings l))))
  | OptCert s => let! v := take_option (cli_cert l) s in
      Done (Cli (cli_host l) (cli_port l) (cli_max l) v (cli_key l) (cli_config l) (cli_valid l) (cli_settings l))
  | OptKey s => let! v := take_option (cli_key l) s in
      Done (Cli (cli_host l) (cli_port l) (cli_max l) (cli_cert l) v (cli_config l) (cli_valid l) (cli_settings l))
  | OptConfig s => let! v := take_option (cli_config l) s in
      Done (Cli (cli_host l) (cli_port l) (cli_max l) (cli_cert l) (cli_key l) v (cli_valid l) (cli_settings l))
  | OptInvalid =>
      Done (Cli (cli_host l) (cli_port l) (cli_max l) (cli_cert l) (cli_key l) (cli_config l) false (cli_settings l))
  end.

Fixpoint all_options (env : environ) (os : list option_found) (l : cli) : outcome cli :=
  match os with
  | [] => Done l
  | o :: os => let! l := one_option env o l in all_options env os l
  end.

(** A field is replaced by an option that was given. *)
Definition override (field option : bytes) : outcome bytes :=
  let! t := cstr option in
  if decide (0 < length t) then memcpy (replicate (length field) NUL) option (length field - 1) else Done field.

(** [parseOptions]: success, and the settings; [line] is what the parser's
    line buffer holds at first. *)
Definition parseOptions (env : environ) (line : bytes) (os : list option_found) (settings : config)
    : outcome (bool * config) :=
  let! lg := GetDefaultLogFilePath env (logFilePath settings) in
  let! pid := GetDefaultPidFilePath env (pidFilePath settings) in
  let! tls := GetDefaultTlsFilePaths env (sslCertFilePath settings) (sslKeyFilePath settings) in
  let! wd := GetWorkingDirectory env (workingDirPath settings) in
  let settings := with_logFilePath lg (with_pidFilePath pid (with_sslCertFilePath tls.1
                    (with_sslKeyFilePath tls.2 (with_workingDirPath wd settings)))) in
  let! l := all_options env os
    (Cli (replicate kMaxHostLength NUL) 0 0 (replicate kMaxPath NUL) (replicate kMaxPath NUL)
         (replicate kMaxPath NUL) true settings) in
  let! given := cstr (cli_config l) in
  let! path := (if decide (length given = 0) then GetConfigFilePath env (cli_config l) else Done (cli_config l)) in
  let! t := cstr path in
  let! r := (if decide (0 < length t) then
               let! p := ini_parse handler line (file env t) (cli_settings l) in
               let! c := memcpy (replicate (length (configFilePath p.2)) NUL) path (length (configFilePath p.2) - 1) in
               Done ((p.1 =? 0)%Z, with_configFilePath c p.2)
             else Done (cli_valid l, cli_settings l)) in
  let valid := r.1 in
  let settings := r.2 in
  if bool_decide (0 < length t) && negb valid then Done (false, settings)
  else
    let! h := override (host settings) (cli_host l) in
    let! c := override (sslCertFilePath settings) (cli_cert l) in
    let! k := override (sslKeyFilePath settings) (cli_key l) in
    Done (valid,
          with_host h (with_sslCertFilePath c (with_sslKeyFilePath k
            (with_port (if (0 <? cli_port l)%Z then cli_port l else port settings)
              (with_maxConnections (if (0 <? cli_max l)%Z then cli_max l else maxConnections settings)
                settings))))).

(** The settings [main] starts from. *)
Definition default_settings : config :=
  Config LOG_INFO (replicate kMaxPath NUL) (replicate kMaxPath NUL) (replicate kMaxPath NUL)
    (replicate kMaxPath NUL) (replicate kMaxPath NUL)
    (lit "localhost" ++ replicate (kMaxHostLength - 9) NUL) (replicate kMaxLocaleLength NUL)
    10000 5 false (replicate kMaxPath NUL).
