(* ===== verification/SettingsSpec.v ===== *)
(** * Properties of the server's settings

    What a configuration file does to the settings, and what invalid options
    do. *)

From S2P Require Import Prelude.
From S2P Require Import CStr.
From S2P Require Import TrimLib.
From S2P Require Import MessageLib.
From S2P Require Import IniLib.
From S2P Require Import IniSpec.
From S2P Require Import ServerSettings.

(** ** Numbers *)

Lemma digit_value_digit n : n < 10 → digit_value (digit n) = Some (Z.of_nat n).
Proof.
  intros H. unfold digit_value, digit. rewrite Ascii.nat_ascii_embedding by lia.
  rewrite decide_True by lia. do 2 f_equal. lia.
Qed.

Lemma digits_value_app a s t : Forall (λ c, is_Some (digit_value c)) s →
  digits_value a (s ++ t) = digits_value (digits_value a s) t.
Proof.
  revert a. induction s as [|c s IH]; intros a H; [done|]. inversion H as [|? ? [d E] H']; subst.
  cbn. rewrite E. by apply IH.
Qed.

Lemma digits_digits fuel n : Forall (λ c, is_Some (digit_value c)) (digits fuel n).
Proof.
  revert n. induction fuel as [|fuel IH]; intros n; cbn [digits]; [constructor|]. case_decide.
  - repeat constructor. rewrite digit_value_digit by done. by eexists.
  - apply Forall_app. split; [apply IH|]. repeat constructor.
    rewrite digit_value_digit by (pose proof (Nat.mod_upper_bound n 10); lia). by eexists.
Qed.

Lemma digits_value_digits fuel n : n < 10 ^ fuel → digits_value 0 (digits fuel n) = Z.of_nat n.
Proof.
  revert n. induction fuel as [|fuel IH]; intros n Hn; [cbn in *; lia|]. cbn [digits]. case_decide as H.
  - cbn [digits_value]. rewrite digit_value_digit by done. cbn. lia.
  - rewrite digits_value_app by apply digits_digits. rewrite IH.
    + cbn [digits_value]. rewrite digit_value_digit by (pose proof (Nat.mod_upper_bound n 10); lia).
      pose proof (Nat.div_mod_eq n 10). lia.
    + apply Nat.Div0.div_lt_upper_bound. rewrite Nat.pow_succ_r' in Hn. lia.
Qed.

Lemma digits_head fuel n : 0 < fuel → ∃ c t, digits fuel n = c :: t ∧ is_Some (digit_value c).
Proof.
  intros H. pose proof (digits_digits fuel n) as D.
  destruct (digits fuel n) as [|c t] eqn:E; [|inversion D; subst; by exists c, t].
  destruct fuel as [|fuel]; [lia|]. cbn in E. case_decide; [done|]. by apply app_nil in E as [_ ?].
Qed.

Lemma digit_not_space c : is_Some (digit_value c) → isspace c = false ∧ c ≠ "-"%char ∧ c ≠ "+"%char.
Proof.
  unfold digit_value. case_decide as H; [|by intros [? ?]]. intros _.
  assert (E : ∀ k, k < 48 → c ≠ Ascii.ascii_of_nat k).
  { intros k Hk ->. rewrite Ascii.nat_ascii_embedding in H by lia. lia. }
  split_and!; [|apply (E 45); lia|apply (E 43); lia].
  unfold isspace. apply bool_decide_false. unfold default_seps.
  intros (k & -> & Hk)%list_elem_of_fmap. apply (E k); [|done].
  repeat (apply elem_of_cons in Hk as [->|Hk]; [lia|]). by apply not_elem_of_nil in Hk.
Qed.

(** Printing a number and reading it back. *)
Lemma atoi_decimal n : (0 ≤ n ≤ INT_MAX)%Z → atoi (decimal n) = Done n.
Proof.
  intros Hn. unfold decimal. rewrite (proj2 (Z.ltb_ge _ _)) by lia.
  assert (Hlt : Z.to_nat n < 10 ^ 20).
  { apply Nat2Z.inj_lt. rewrite Nat2Z.inj_pow, Z2Nat.id by lia. unfold INT_MAX in Hn.
    change (Z.of_nat 10 ^ Z.of_nat 20)%Z with 100000000000000000000%Z. lia. }
  pose proof (digits_value_digits 20 (Z.to_nat n) Hlt) as V.
  destruct (digits_head 20 (Z.to_nat n) ltac:(lia)) as (c & t & E & D). rewrite E in V |- *.
  destruct (digit_not_space c D) as (S1 & S2 & S3). unfold atoi. cbn [skip_spaces]. rewrite S1.
  assert (M : match c :: t with
              | "-"%char :: t => (- digits_value 0 t)%Z
              | "+"%char :: t => digits_value 0 t
              | t => digits_value 0 t
              end = n).
  { rewrite <- (Z2Nat.id n), <- V by lia. clear - S2 S3.
    destruct c as [[] [] [] [] [] [] [] []]; try reflexivity; by exfalso; (apply S2 || apply S3). }
  rewrite M. rewrite (proj2 (Z.leb_le _ _)), (proj2 (Z.leb_le _ _)); [done|..]; unfold INT_MIN, INT_MAX in *; lia.
Qed.

Lemma decimal_plain chars n : (0 ≤ n)%Z → Forall (λ c, digit_value c = None) chars → is_plain chars (decimal n).
Proof.
  intros Hn Hc. unfold decimal. rewrite (proj2 (Z.ltb_ge _ _)) by lia.
  eapply Forall_impl; [apply digits_digits|]. intros c [d E]. split_and!.
  - intros ->. by vm_compute in E.
  - intros ->. by vm_compute in E.
  - intros H. rewrite Forall_forall in Hc. specialize (Hc c H). congruence.
Qed.

(** ** Reading numbers from the file *)

Definition number_items (p m : Z) : list item :=
  [Heading (lit "server"); Pair (lit "port") (decimal p); Pair (lit "max_connections") (decimal m)].

(** The effect of a pair with a number. *)
Definition set_number (c : config) (r : record) : config :=
  let v := digits_value 0 r.2 in
  if bool_decide (r.1.2 = lit "port") then with_port v c else with_maxConnections v c.

Lemma decimal_digits n : (0 ≤ n ≤ INT_MAX)%Z →
  digits_value 0 (decimal n) = n ∧ ∃ c t, decimal n = c :: t ∧ is_Some (digit_value c).
Proof.
  intros Hn. unfold decimal. rewrite (proj2 (Z.ltb_ge _ _)) by lia. split.
  - rewrite digits_value_digits; [lia|]. apply Nat2Z.inj_lt. rewrite Nat2Z.inj_pow, Z2Nat.id by lia.
    unfold INT_MAX in Hn. change (Z.of_nat 10 ^ Z.of_nat 20)%Z with 100000000000000000000%Z. lia.
  - apply digits_head. lia.
Qed.

Lemma length_digits fuel n : length (digits fuel n) ≤ fuel.
Proof.
  revert n. induction fuel as [|fuel IH]; intros n; cbn [digits]; [done|]. case_decide; [cbn; lia|].
  rewrite length_app. cbn [length]. specialize (IH (n / 10)). lia.
Qed.

Lemma digits_spaces s : Forall (λ c, is_Some (digit_value c)) s →
  Forall (λ c, isspace c = false) s ∧ ∀ b, no_comment b s.
Proof.
  intros H. split.
  - eapply Forall_impl; [exact H|]. intros c Hc. by apply digit_not_space.
  - induction s as [|c s IH]; intros b; [done|]. inversion H as [|? ? [d E] H']; subst.
    split; [|by apply IH]. intros [_ Hc]. unfold INI_INLINE_COMMENT_PREFIXES in Hc.
    apply list_elem_of_singleton in Hc as ->. by vm_compute in E.
Qed.

Lemma good_number k n : (0 ≤ n ≤ INT_MAX)%Z → k = lit "port" ∨ k = lit "max_connections" → good_item (Pair k (decimal n)).
Proof.
  intros Hn Hk.
  assert (D : Forall (λ c, is_Some (digit_value c)) (decimal n)).
  { unfold decimal. rewrite (proj2 (Z.ltb_ge _ _)) by lia. apply digits_digits. }
  destruct (digits_spaces _ D) as [Hs Hc].
  assert (L : length (decimal n) ≤ 20).
  { unfold decimal. rewrite (proj2 (Z.ltb_ge _ _)) by lia. apply length_digits. }
  assert (T : trimmed (decimal n)).
  { destruct (decimal_digits n Hn) as [_ (c & t & E & _)]. rewrite E in Hs |- *. unfold trimmed.
    destruct (last (c :: t)) as [d|] eqn:Ed; [|by apply last_None in Ed].
    rewrite Forall_forall in Hs. split; apply Hs; [by left|]. by apply last_Some_elem_of. }
  assert (P : is_plain [] (decimal n)) by (apply decimal_plain; [lia|constructor]).
  split.
  - cbn [print_item]. rewrite !length_app. unfold INI_MAX_LINE. destruct Hk as [-> | ->]; cbn [length lit String.length]; cbn; lia.
  - split_and!; [| | | |done|done|by apply Hc]; destruct Hk as [-> | ->];
      try (repeat constructor; done || not_in || discriminate).
    all: try (repeat constructor; intros [? ?]; discriminate).
    all: intros c H; injection H as <-; not_in.
Qed.

(** Numbers in the configuration file: for any port and limit that an
    [int] can hold, a file that gives them in decimal under "[server]" is
    accepted, and the settings have exactly these numbers and are otherwise
    unchanged. *)
Theorem config_numbers (line : bytes) (p m : Z) (c : config)
    (Hl : length line = INI_MAX_LINE) (Hp : (0 ≤ p ≤ INT_MAX)%Z) (Hm : (0 ≤ m ≤ INT_MAX)%Z) :
  ini_parse_stream handler line (print_items (number_items p m)) c
  = Done (0%Z, with_maxConnections m (with_port p c)).
Proof.
  rewrite (ini_roundtrip_fold handler set_number line (number_items p m) c).
  - cbn [calls number_items fold_left]. unfold set_number. cbn [fst snd].
    rewrite (proj1 (decimal_digits p Hp)), (proj1 (decimal_digits m Hm)). reflexivity.
  - intros u s n v rest H.
    assert (N : ∀ k, (0 ≤ k ≤ INT_MAX)%Z → cstr (decimal k ++ NUL :: rest) = Done (decimal k)
      ∧ atoi (decimal k) = Done k ∧ to_unsigned k = k).
    { intros k Hk. split_and!.
      - apply cstr_app. eapply plain_nul. apply (decimal_plain []); [lia|constructor].
      - by apply atoi_decimal.
      - unfold to_unsigned, UINT_MOD, INT_MAX in *. by rewrite Z.mod_small by lia. }
    cbn [calls number_items] in H.
    apply elem_of_cons in H as [H|H]; [|apply list_elem_of_singleton in H];
      injection H as -> -> ->; unfold handler, set_number; cbn [fst snd].
    + destruct (N p Hp) as (-> & E1 & E2). cbn [outcome_bind]. rewrite E1. cbn [outcome_bind].
      by rewrite E2, (proj1 (decimal_digits p Hp)).
    + destruct (N m Hm) as (-> & E1 & E2). cbn [outcome_bind]. rewrite E1. cbn [outcome_bind].
      by rewrite E2, (proj1 (decimal_digits m Hm)).
  - done.
  - unfold number_items. apply Forall_cons. split; [|apply Forall_cons; split; [|apply Forall_cons; split; [|constructor]]].
    + repeat constructor; try (apply Nat.ltb_lt; vm_compute; reflexivity); try done; not_in.
    + apply good_number; [done|by left].
    + apply good_number; [done|by right].
  - vm_compute. reflexivity.
Qed.

Lemma config_numbers_witness :
  ini_parse_stream handler (replicate INI_MAX_LINE NUL) (print_items (number_items 8080 20)) default_settings
  = Done (0%Z, with_maxConnections 20 (with_port 8080 default_settings)).
Proof.
  apply (config_numbers (replicate INI_MAX_LINE NUL) 8080 20 default_settings);
    [apply length_replicate|unfold INT_MAX; lia|unfold INT_MAX; lia].
Defined.

(** ** Paths in the configuration file *)

Definition path_keys : list (bytes * bytes) :=
  [(lit "log", lit "path"); (lit "server", lit "pid_file_path");
   (lit "tls", lit "cert_file"); (lit "tls", lit "key_file")].

(** The arrays of [ServerConfigInfo]. *)
Definition paths_sized (c : config) : Prop :=
  length (logFilePath c) = kMaxPath ∧ length (pidFilePath c) = kMaxPath
  ∧ length (sslCertFilePath c) = kMaxPath ∧ length (sslKeyFilePath c) = kMaxPath.

Lemma sizes_apart : INI_MAX_LINE < kMaxPath - 1.
Proof. apply Nat.ltb_lt. reflexivity. Qed.

Lemma memcpy_short (dest src : bytes) n : length src < n → memcpy dest src n = Stuck OutOfBounds.
Proof. intros H. unfold memcpy. rewrite decide_False; [done|]. intros [? _]. lia. Qed.

(** Decide which key a concrete section and name are. *)
Ltac decide_matches :=
  cbv beta zeta;
  repeat match goal with
  | |- context [matches ?a ?b ?c ?d] =>
      let v := eval vm_compute in (matches a b c d) in change (matches a b c d) with v
  end; cbv iota.

Lemma handler_path_fault c s n buf : (s, n) ∈ path_keys → paths_sized c → length buf ≤ INI_MAX_LINE →
  handler c s n buf = Stuck OutOfBounds.
Proof.
  intros Hk (H1 & H2 & H3 & H4) Hb. pose proof sizes_apart.
  unfold path_keys in Hk. repeat (apply elem_of_cons in Hk as [Hk|Hk];
    [injection Hk as -> ->; unfold handler, copy_value; decide_matches;
     rewrite memcpy_short by lia; reflexivity|]).
  by apply not_elem_of_nil in Hk.
Qed.

Lemma path_heading s n : (s, n) ∈ path_keys → good_item (Heading s).
Proof.
  intros Hk. unfold path_keys in Hk. repeat (apply elem_of_cons in Hk as [Hk|Hk];
    [injection Hk as -> ->; repeat constructor; try (apply Nat.ltb_lt; vm_compute; reflexivity); try done; not_in|]).
  by apply not_elem_of_nil in Hk.
Qed.

(** Fault: a path in the configuration file is undefined behaviour.  The
    handler copies the size of the path array, 4095 bytes, from the value,
    which lies in the parser's line buffer of 200: whatever the path is, the
    log path, the PID file path, the certificate and the key file cannot be
    read from a file without reading outside that buffer. *)
Theorem config_paths_fault (line : bytes) (s n v more : bytes) (c : config)
    (Hk : (s, n) ∈ path_keys) (Hg : good_item (Pair n v)) (Hc : paths_sized c)
    (Hl : length line = INI_MAX_LINE) :
  ini_parse_stream handler line (print_items [Heading s; Pair n v] ++ more) c = Stuck OutOfBounds.
Proof.
  pose proof (path_heading s n Hk) as Hh. unfold ini_parse_stream.
  assert (E : print_items [Heading s; Pair n v] ++ more
    = print_item (Heading s) ++ newline :: print_item (Pair n v) ++ newline :: more).
  { rewrite !print_cons, <- app_assoc. cbn [app]. by rewrite <- app_assoc. }
  rewrite E. set (st0 := Ini _ _ _ _ _).
  assert (I0 : inside [] c st0).
  { split; [|done..]. split; cbn [section prev_name]; (split; [apply length_replicate|by left]). }
  assert (F : ∃ k, S (length (print_item (Heading s) ++ newline :: print_item (Pair n v) ++ newline :: more)) = S (S k)).
  { rewrite length_app. cbn [length]. rewrite Nat.add_succ_r. by eexists. }
  destruct F as [k ->]. cbn [parse_lines].
  destruct (read_line line (print_item (Heading s)) (print_item (Pair n v) ++ newline :: more) Hl
    (proj2 (item_text _ Hh)) (proj1 Hh)) as (j1 & -> & Hl1). cbn [outcome_bind].
  rewrite (item_line_start handler (Heading s) j1 st0 Hh (inside_arrays _ _ _ I0)) by (cbn; unfold INT_MAX; lia). cbn zeta.
  apply (inside_next _ _ _ (lineno st0 + 1)) in I0.
  set (st1 := Ini (section st0) (prev_name st0) (lineno st0 + 1) (error st0) (user st0)) in *.
  destruct (heading_run s (NUL :: NUL :: j1) [] c st1 Hh I0) as (st2 & E2 & I2 & K2).
  assert (E5 : print_item (Heading s) ++ NUL :: NUL :: j1 = "["%char :: s ++ "]"%char :: NUL :: NUL :: j1)
    by (cbn; by rewrite <- app_assoc).
  rewrite E5, E2. cbn [outcome_bind].
  destruct (read_line (print_item (Heading s) ++ newline :: NUL :: j1) (print_item (Pair n v)) more Hl1)
    as (j2 & E3 & Hl2); [apply (item_text _ Hg)|apply Hg|].
  rewrite E3. cbn [outcome_bind].
  rewrite (item_line_start handler (Pair n v) j2 st2 Hg (inside_arrays _ _ _ I2)).
  2:{ rewrite K2. cbn. unfold INT_MAX. lia. }
  cbn zeta. apply (inside_next _ _ _ (lineno st2 + 1)) in I2.
  destruct (pair_run handler n v (NUL :: j2) s c _ Hg I2) as (p & _ & _ & E4).
  cbn [print_item]. rewrite <- !app_assoc, E4. unfold called.
  rewrite handler_path_fault; [done|done|by rewrite (inside_user _ _ _ I2)|].
  cbn [print_item] in Hl2. rewrite <- Hl2. rewrite !length_app. cbn [length]. lia.
Qed.

Lemma config_paths_fault_witness :
  ini_parse_stream handler (replicate INI_MAX_LINE NUL)
    (print_items [Heading (lit "log"); Pair (lit "path") (lit "/tmp/c2hat.log")] ++ []) default_settings
  = Stuck OutOfBounds.
Proof.
  apply (config_paths_fault (replicate INI_MAX_LINE NUL) (lit "log") (lit "path") (lit "/tmp/c2hat.log") [] default_settings).
  - by left.
  - repeat constructor; try (apply Nat.ltb_lt; vm_compute; reflexivity); try done; try not_in; try discriminate.
    intros c H; injection H as <-; not_in.
  - split_and!; apply length_replicate.
  - apply length_replicate.
Defined.

(** ** Invalid options *)

Definition invalidate (l : cli) : cli :=
  Cli (cli_host l) (cli_port l) (cli_max l) (cli_cert l) (cli_key l) (cli_config l) false (cli_settings l).

Lemma one_option_invalidate env o l :
  one_option env o (invalidate l) = let! l' := one_option env o l in Done (invalidate l').
Proof.
  destruct o; cbn;
    try match goal with |- context [outcome_bind ?m _] => destruct m; reflexivity end; reflexivity.
Qed.

Lemma all_options_invalidate env os l :
  all_options env os (invalidate l) = let! l' := all_options env os l in Done (invalidate l').
Proof.
  revert l. induction os as [|o os IH]; intros l; [done|]. cbn [all_options].
  rewrite one_option_invalidate. destruct (one_option env o l) as [l'|]; [|done]. apply IH.
Qed.

Lemma all_options_app env os1 os2 l :
  all_options env (os1 ++ os2) l = let! l' := all_options env os1 l in all_options env os2 l'.
Proof.
  revert l. induction os1 as [|o os1 IH]; intros l; [done|]. cbn [app all_options].
  destruct (one_option env o l) as [l'|]; [|done]. apply IH.
Qed.

Lemma all_options_invalid env os1 os2 l :
  all_options env (os1 ++ OptInvalid :: os2) l
  = let! l' := all_options env (os1 ++ os2) l in Done (invalidate l').
Proof.
  rewrite !all_options_app. destruct (all_options env os1 l) as [l'|]; [|done].
  cbn [all_options one_option outcome_bind]. by rewrite <- all_options_invalidate.
Qed.

Lemma all_options_config env os l l' : all_options env os l = Done l' →
  configFilePath (cli_settings l') = configFilePath (cli_settings l).
Proof.
  revert l. induction os as [|o os IH]; intros l; cbn [all_options]; [by intros [= ->]|].
  destruct (one_option env o l) as [l1|] eqn:E; [|done]. intros H. rewrite (IH _ H). clear IH H.
  destruct o; cbn in E;
    try (match type of E with outcome_bind ?m _ = _ => destruct m end; [|done]); by injection E as <-.
Qed.

(** An option that [getopt_long] does not know makes [parseOptions] fail
    only when there is no configuration file: when there is one, the result
    is that of its parsing, and the invalid option is ignored, wherever on
    the command line it is. *)
Theorem parseOptions_ignores_invalid (env : environ) (line : bytes) (os1 os2 : list option_found)
    (settings c : config) (b : bool)
    (H : parseOptions env line (os1 ++ os2) settings = Done (b, c))
    (Hfresh : head (configFilePath settings) = Some NUL)
    (Hread : head (configFilePath c) ≠ Some NUL) :
  parseOptions env line (os1 ++ OptInvalid :: os2) settings = Done (b, c).
Proof.
  unfold parseOptions in *.
  destruct (GetDefaultLogFilePath _ _) as [lg|]; [|done].
  destruct (GetDefaultPidFilePath _ _) as [pid|]; [|done].
  destruct (GetDefaultTlsFilePaths _ _ _) as [tls|]; [|done].
  destruct (GetWorkingDirectory _ _) as [wd|]; [|done].
  cbn [outcome_bind] in *. rewrite all_options_invalid.
  destruct (all_options env (os1 ++ os2) _) as [l|] eqn:El; [|done]. cbn [outcome_bind] in *.
  apply all_options_config in El. cbn in El.
  cbn [cli_config cli_settings cli_host cli_cert cli_key cli_port cli_max invalidate].
  destruct (cstr (cli_config l)) as [given|]; [|done]. cbn [outcome_bind] in *.
  destruct (if decide (length given = 0) then _ else _) as [path|]; [|done]. cbn [outcome_bind] in *.
  destruct (cstr path) as [t|]; [|done]. cbn [outcome_bind] in *.
  case_decide as D; [exact H|]. exfalso. cbn [outcome_bind fst snd] in H.
  rewrite bool_decide_false in H by done. cbn [andb] in H.
  destruct (override _ _) as [h|]; [|done]. cbn [outcome_bind] in H.
  destruct (override _ _) as [ce|]; [|done]. cbn [outcome_bind] in H.
  destruct (override _ _) as [ke|]; [|done]. cbn [outcome_bind] in H.
  injection H as <- <-. apply Hread. cbn. by rewrite El.
Qed.

(** A user with a configuration file. *)
Definition with_file : environ :=
  Environ 1000 (lit "/home/u") (λ _, true)
    (λ _, Some (print_items (number_items 8080 20))) (lit "/tmp").

Lemma parseOptions_ignores_invalid_witness :
  ∃ c, parseOptions with_file (replicate INI_MAX_LINE NUL) [OptMax (lit "7"); OptInvalid] default_settings
       = Done (true, c) ∧ port c = 8080%Z ∧ maxConnections c = 7%Z.
Proof.
  assert (E : ∃ c, parseOptions with_file (replicate INI_MAX_LINE NUL) ([OptMax (lit "7")] ++ []) default_settings
    = Done (true, c) ∧ port c = 8080%Z ∧ maxConnections c = 7%Z ∧ head (configFilePath c) ≠ Some NUL).
  { eexists. split; [vm_compute; reflexivity|]. split_and!; [reflexivity|reflexivity|discriminate]. }
  destruct E as (c & E & H1 & H2 & H3). exists c. split_and!; [|exact H1|exact H2].
  exact (parseOptions_ignores_invalid with_file (replicate INI_MAX_LINE NUL) [OptMax (lit "7")] []
    default_settings c true E eq_refl H3).
Defined.
