(* ===== verification/ServerSetup.v ===== *)
(** * Setting up the server (src/server/server.c, src/lib/socket)

    [Server_init] from the settings to the listening socket, [Server_free] and
    [Server_catch].  What the name service, the kernel and the TLS library
    answer is a record of answers; the calls that were made on sockets and on
    contexts are recorded.  [Fatal] ends the process, unless the log is off. *)

From S2P Require Import Prelude.
From S2P Require Import Control.
From S2P Require Import CStr.
From S2P Require Import MessageLib.
From S2P Require Import MessageSpec.
From S2P Require Import Logger.
From S2P Require Import Tls.
From S2P Require Import ServerSettings.
From S2P Require Import SettingsSpec.

(** ** State *)

(** A result of [getaddrinfo]. *)
Record addrinfo : Type := AddrInfo { ai_family : Z; ai_socktype : Z; ai_protocol : Z; ai_addr : bytes }.

Inductive sock_call : Type :=
  | CallSocket (family type protocol : Z)
  | ClearIPV6Only
  | SetReuseAddr
  | SetNonBlock
  | CallBind (addr : bytes)
  | CallListen (n : Z).

(** [struct Server]; the context is an address. *)
Record Server : Type := MkServer {
  server_host : option bytes;
  server_port : Z;
  server_maxConnections : Z;
  server_socket : Z;
  server_ssl : option nat
}.

(** The disposition of a signal. *)
Inductive disposition : Type := Default | Ignore | Handler.

(** The process: the global [server], the contexts, the calls on sockets, the
    address lists not yet freed, signals, and the log. *)
Record process : Type := Process {
  p_server : option Server;
  p_contexts : contexts;
  p_sockets : list (Z * sock_call);
  p_infos : nat;
  p_signals : gmap Z disposition;
  p_log : logger
}.

Definition set_server v p := Process v (p_contexts p) (p_sockets p) (p_infos p) (p_signals p) (p_log p).
Definition set_contexts v p := Process (p_server p) v (p_sockets p) (p_infos p) (p_signals p) (p_log p).
Definition set_sockets v p := Process (p_server p) (p_contexts p) v (p_infos p) (p_signals p) (p_log p).
Definition set_infos v p := Process (p_server p) (p_contexts p) (p_sockets p) v (p_signals p) (p_log p).
Definition set_signals v p := Process (p_server p) (p_contexts p) (p_sockets p) (p_infos p) v (p_log p).
Definition set_log v p := Process (p_server p) (p_contexts p) (p_sockets p) (p_infos p) (p_signals p) v.

(** What the system answers. *)
Record system : Type := System {
  s_getaddrinfo : bytes → bytes → option addrinfo;
  s_tls : tls_library;
  s_socket : Z;
  s_accepts : sock_call → bool;
  s_calloc : bool;
  s_strdup : bool;
  s_numeric : bytes * bytes;
  s_moment : moment;
  s_errno : Z;
  s_strerror : bytes;
  s_gai_strerror : bytes;
  s_ssl_error : bytes
}.

Section Setup.
Context (e : system).

Definition say (s : severity) (format : bytes) (args : list arg) : proc process unit := λ p,
  match log s (s_moment e) format args (p_log p) with
  | Done (None, l) => Done (Go tt, set_log l p)
  | Done (Some code, l) => Done (Exit code, set_log l p)
  | Stuck w => Stuck w
  end.

Definition when (b : bool) (m : proc process unit) : proc process unit := if b then m else go tt.

Definition on_contexts {A} (m : cmd contexts A) : cmd process A := λ p,
  match m (p_contexts p) with
  | Done (a, cs) => Done (a, set_contexts cs p)
  | Stuck w => Stuck w
  end.

(** ** lib/socket *)

Definition SOCKET_isValid (s : Z) : bool := (0 <=? s)%Z.

(** A call on a socket: recorded, and whether it succeeds. *)
Definition sock_do (fd : Z) (c : sock_call) : cmd process bool := λ p,
  Done (s_accepts e c, set_sockets (p_sockets p ++ [(fd, c)]) p).

Definition error_args : list arg := [AInt (s_errno e); AStr (s_strerror e)].
Definition ends_line (s : string) : bytes := lit s ++ [newline_char].

Definition Socket_new (domain type protocol : Z) : proc process Z :=
  let this := s_socket e in
  _ <~ exec (sock_do this (CallSocket domain type protocol));;
  when (negb (SOCKET_isValid this)) (say Fatal (ends_line "socket() failed. (%d)") [AInt (s_errno e)]) ;~
  say Info (lit "Socket created") [] ;~
  go this.

Definition Socket_unsetIPV6Only (this : Z) : proc process unit :=
  ok <~ exec (sock_do this ClearIPV6Only);;
  when (negb ok) (say Error (ends_line "Unable to unset IPv6 Only (%d): %s") error_args).

Definition Socket_setReusableAddress (this : Z) : proc process unit :=
  ok <~ exec (sock_do this SetReuseAddr);;
  when (negb ok) (say Error (ends_line "Unable to set reusable address (%d): %s") error_args).

Definition Socket_setNonBlocking (this : Z) : proc process unit :=
  ok <~ exec (sock_do this SetNonBlock);;
  when (negb ok) (say Error (ends_line "Unable to set non-blocking socket (%d): %s") error_args).

Definition Socket_bind (this : Z) (addr : bytes) : proc process unit :=
  ok <~ exec (sock_do this (CallBind addr));;
  when (negb ok) (say Fatal (ends_line "bind() failed. (%d): %s") error_args) ;~
  say Info (lit "Bind done on %s:%s") [AStr (s_numeric e).1; AStr (s_numeric e).2].

Definition Socket_listen (this : Z) (maxConnections : Z) : proc process unit :=
  ok <~ exec (sock_do this (CallListen maxConnections));;
  when (negb ok) (say Fatal (ends_line "Unable to listen for connections (%d): %s") error_args) ;~
  say Info (lit "Waiting for incoming connections...") [].

(** ** Server_init *)

(** [sprintf(dest, "%d", n)] *)
Definition sprintf_int (dest : bytes) (n : Z) : outcome bytes :=
  sn_write dest (S (length (decimal n))) (decimal n).

(** A pointer that must not be [NULL], or was never set. *)
Definition deref {A} (why : fault) (p : option A) : proc process A :=
  match p with Some a => go a | None => stuck why end.

(** From a new context to the one the server uses. *)
Definition init_context (certFile keyFile : bytes) : proc process (option nat) :=
  sslContext <~ exec (on_contexts (SSL_CTX_new (s_tls e)));;
  when (bool_decide (sslContext = None)) (say Fatal (lit "SSL_CTX_new() failed: cannot create SSL context") []) ;~
  let call a := exec (on_contexts (ctx_do (s_tls e) sslContext a)) in
  let free := exec (on_contexts (SSL_CTX_free sslContext)) in
  ok <~ call (SetMinProto TLS1_2_VERSION);;
  when (negb ok) (free ;~ say Fatal (lit "Cannot set minimum TLS protocol version") []) ;~
  _ <~ call SetOptions;;
  _ <~ call SetMode;;
  _ <~ call SetVerifyNone;;
  _ <~ call (SetCipherList kCiphers);;
  chain <~ call (UseCertificateChain certFile);;
  key <~ (if chain then call (UsePrivateKey keyFile) else go false);;
  when (negb key) (free ;~ say Fatal (lit "SSL_CTX_use_certificate_file() failed: %s") [AStr (s_ssl_error e)]) ;~
  ok <~ call CheckPrivateKey;;
  when (negb ok) (free ;~ say Fatal (lit "Private key does not match the public certificate") []) ;~
  go sslContext.

Definition init_socket (bindAddress : addrinfo) : proc process Z :=
  this <~ Socket_new (ai_family bindAddress) (ai_socktype bindAddress) (ai_protocol bindAddress);;
  Socket_unsetIPV6Only this ;~
  Socket_setReusableAddress this ;~
  Socket_setNonBlocking this ;~
  Socket_bind this (ai_addr bindAddress) ;~
  go this.

Definition Server_init (c : config) : proc process Server :=
  p <~ exec get;;
  when (bool_decide (p_server p ≠ None)) (say Fatal (lit "The server process is already running") []) ;~
  serverPort <~ exec (lift (sprintf_int (replicate 6 NUL) (wrap_int (port c))));;
  h <~ exec (lift (cstr (host c)));;
  n <~ exec (lift (cstr serverPort));;
  let bindAddress := s_getaddrinfo e h n in
  _ <~ exec (modify (λ p, match bindAddress with Some _ => set_infos (S (p_infos p)) p | None => p end));;
  when (bool_decide (s_getaddrinfo e h n = None)) (say Fatal (lit "Invalid IP/port configuration: %s") [AStr (s_gai_strerror e)]) ;~
  cert <~ exec (lift (cstr (sslCertFilePath c)));;
  key <~ exec (lift (cstr (sslKeyFilePath c)));;
  sslContext <~ init_context cert key;;
  _ <~ deref NullDereference (if s_calloc e then Some tt else None);;
  _ <~ exec (modify (set_server (Some (MkServer None 0 0 0 sslContext))));;
  address <~ deref DanglingPointer bindAddress;;
  fd <~ init_socket address;;
  _ <~ exec (modify (λ p, set_infos (p_infos p - 1) p));;
  Socket_listen fd (wrap_int (maxConnections c)) ;~
  let server := MkServer (if s_strdup e then Some h else None) (wrap_int (port c)) (wrap_int (maxConnections c)) fd sslContext in
  _ <~ exec (modify (set_server (Some server)));;
  go server.

(** ** Server_free *)

(** The argument is the global pointer. *)
Definition Server_free : cmd process unit :=
  p <- get;;
  match p_server p with
  | None => stuck NullDereference
  | Some this =>
    on_contexts (SSL_CTX_free (server_ssl this));;;
    modify (set_server None)
  end.

(** ** Signals *)

Definition SIGINT : Z := 2.
Definition SIGPIPE : Z := 13.
Definition SIGTERM : Z := 15.

(** [Server_catch]: [sigaction] succeeds for these signals. *)
Definition Server_catch (sig : Z) (handler : disposition) : cmd process Z :=
  modify (λ p, set_signals (<[sig := handler]> (p_signals p)) p);;; ret 0%Z.
End Setup.

(** ** What the calls do *)

(** The texts of the library can be logged. *)
Record good_system (e : system) : Prop := GoodSystem {
  gs_moment : good_moment (s_moment e);
  gs_strerror : NUL ∉ s_strerror e;
  gs_gai : NUL ∉ s_gai_strerror e;
  gs_ssl : NUL ∉ s_ssl_error e;
  gs_host : NUL ∉ (s_numeric e).1;
  gs_service : NUL ∉ (s_numeric e).2
}.

Section Steps.
Context (e : system) (G : good_system e).
Implicit Types p : process.

(** A log that is not off. *)
Definition logging p : Prop := (0 < vLogLevel (p_log p) ≤ LOG_FATAL)%Z.

(** The process [p] with more lines in its log. *)
Definition logged p p' : Prop := ∃ lines, p' = set_log (MkLogger (vLogLevel (p_log p)) lines) p.

Lemma logged_refl p : logged p p.
Proof. exists (stream (p_log p)). by destruct p as [? ? ? ? ? []]. Qed.

Lemma wp_say s f args t p Q : message_text f args t → logging p →
  (s = Fatal → ∀ p', Q (Exit (exit_code (s_moment e))) p') →
  (s ≠ Fatal → ∀ p', logged p p' → Q (Go tt) p') →
  wp (say e s f args) p Q.
Proof.
  intros Ht [Hl1 Hl2] HF HN.
  assert (W : wp (log s (s_moment e) f args) (p_log p) (λ r l,
    Q (match r with None => Go tt | Some code => Exit code end) (set_log l p))).
  { apply (wp_log _ _ _ _ t); [apply G|done|]. intros lines.
    destruct (decide (s = Fatal)) as [->|Hs].
    - rewrite enabled_spec. cbn [level_of]. rewrite !bool_decide_eq_false_2, bool_decide_eq_true_2
        by (unfold LOG_OFF; done || lia). by apply HF.
    - rewrite (bool_decide_eq_false_2 (s = Fatal)), andb_false_r by done. apply HN; [done|]. by exists lines. }
  destruct W as (r & l & E & HQ). unfold say. destruct r as [code|];
    eapply wp_run; (rewrite E; reflexivity) || exact HQ.
Qed.

(** A check that ends the process when it fails. *)
Lemma wp_check (b : bool) f args t p Q : message_text f args t → logging p →
  (b = true → ∀ p', Q (Exit (exit_code (s_moment e))) p') → (b = false → Q (Go tt) p) →
  wp (when b (say e Fatal f args)) p Q.
Proof.
  intros Ht Hl HF HN. unfold when. destruct b; [|step; auto]. apply (wp_say _ _ _ t); auto. done.
Qed.

(** The same, where a context is freed before. *)
Lemma wp_check_free (b : bool) cs calls f args t p Q : message_text f args t → logging p →
  p_contexts p = cs ++ [Some calls] →
  (b = true → ∀ p', Q (Exit (exit_code (s_moment e))) p') → (b = false → Q (Go tt) p) →
  wp (when b (exec (on_contexts (SSL_CTX_free (Some (length cs)))) ;~ say e Fatal f args)) p Q.
Proof.
  intros Ht Hl Hc HF HN. unfold when. destruct b; [|step; auto]. step. step.
  eapply wp_run; [unfold on_contexts; by rewrite Hc, ctx_free_last|]. apply (wp_say _ _ _ t); auto. done.
Qed.

(** A warning. *)
Lemma wp_warn (b : bool) f args t p Q : message_text f args t → logging p →
  (∀ p', logged p p' → Q (Go tt) p') → wp (when b (say e Error f args)) p Q.
Proof.
  intros Ht Hl HN. unfold when. destruct b; [|step; apply HN, logged_refl]. apply (wp_say _ _ _ t); auto. done.
Qed.

Lemma wp_sock_do fd call p Q : Q (s_accepts e call) (set_sockets (p_sockets p ++ [(fd, call)]) p) →
  wp (sock_do e fd call) p Q.
Proof. by apply wp_run. Qed.

Lemma wp_call cs calls a p Q : p_contexts p = cs ++ [Some calls] →
  Q (accepts (s_tls e) calls a) (set_contexts (cs ++ [Some (calls ++ [a])]) p) →
  wp (on_contexts (ctx_do (s_tls e) (Some (length cs)) a)) p Q.
Proof. intros H. apply wp_run. unfold on_contexts. by rewrite H, ctx_do_last. Qed.
End Steps.

(** A text of the sources, with what is put into it. *)
Ltac text := econstructor; [not_in|apply Nat.ltb_lt; vm_compute; reflexivity|reflexivity|repeat constructor; cbn; try (done || by eauto using gs_strerror, gs_gai, gs_ssl, gs_host, gs_service)].

(** The calls on the context of the server. *)
Definition server_calls (cert key : bytes) : list ctx_call :=
  [SetMinProto TLS1_2_VERSION; SetOptions; SetMode; SetVerifyNone; SetCipherList kCiphers;
   UseCertificateChain cert; UsePrivateKey key; CheckPrivateKey].

(** The library accepts what the server depends on. *)
Definition context_accepted (lib : tls_library) (cert key : bytes) : Prop :=
  let cs := server_calls cert key in
  ctx_new lib = true ∧ ∀ i, i = 0 ∨ i = 5 ∨ i = 6 ∨ i = 7 →
    ∀ a, cs !! i = Some a → accepts lib (take i cs) a = true.

(** The calls on the socket. *)
Definition socket_calls (a : addrinfo) (n : Z) : list sock_call :=
  [CallSocket (ai_family a) (ai_socktype a) (ai_protocol a); ClearIPV6Only; SetReuseAddr; SetNonBlock;
   CallBind (ai_addr a); CallListen n].

Section Init.
Context (e : system) (G : good_system e).
Implicit Types p : process.

Lemma wp_init_context cert key p Q : logging p →
  (∀ p', ¬ context_accepted (s_tls e) cert key → Q (Exit (exit_code (s_moment e))) p') →
  (context_accepted (s_tls e) cert key →
     Q (Go (Some (length (p_contexts p)))) (set_contexts (p_contexts p ++ [Some (server_calls cert key)]) p)) →
  wp (init_context e cert key) p Q.
Proof.
  intros Hl HF HN. unfold context_accepted in *.
  assert (HF' : ∀ i a p', i = 0 ∨ i = 5 ∨ i = 6 ∨ i = 7 → server_calls cert key !! i = Some a →
    accepts (s_tls e) (take i (server_calls cert key)) a = false → Q (Exit (exit_code (s_moment e))) p').
  { intros i a p' Hi Ha Hr. apply HF. intros [_ H]. by rewrite (H i Hi a Ha) in Hr. }
  unfold init_context. step. step. unfold SSL_CTX_new. set (cs := p_contexts p) in *.
  destruct (ctx_new (s_tls e)) eqn:Hn.
  2: { eapply wp_run; [reflexivity|]. step.
       eapply (wp_check e G); [text|done| |done]. intros _ p'. apply HF. by intros []. }
  eapply wp_run; [reflexivity|]. fold cs. step.
  eapply (wp_check e G); [text|done|intros Hb%bool_decide_eq_true; done|intros _].
  step. step. apply (wp_call _ cs []); [done|].
  step. eapply (wp_check_free e G _ cs); [text|done|done| |].
  { intros Hb p'. apply negb_true_iff in Hb. by apply (HF' 0 _ p' ltac:(lia) eq_refl). }
  intros H0%negb_false_iff.
  do 4 (step; step; eapply (wp_call _ cs); [done|cbn [app]]).
  step. step. eapply (wp_call _ cs); [done|cbn [app]]. step.
  destruct (accepts _ _ (UseCertificateChain cert)) eqn:H5.
  2: { step. step. eapply (wp_check_free e G _ cs); [text|done|done| |done].
       intros _ p'. by apply (HF' 5 _ p' ltac:(lia) eq_refl). }
  step. eapply (wp_call _ cs); [done|cbn [app]].
  step. eapply (wp_check_free e G _ cs); [text|done|done| |].
  { intros Hb p'. apply negb_true_iff in Hb. by apply (HF' 6 _ p' ltac:(lia) eq_refl). }
  intros H6%negb_false_iff.
  step. step. eapply (wp_call _ cs); [done|cbn [app]].
  step. eapply (wp_check_free e G _ cs); [text|done|done| |].
  { intros Hb p'. apply negb_true_iff in Hb. by apply (HF' 7 _ p' ltac:(lia) eq_refl). }
  intros H7%negb_false_iff. step. apply HN. split; [done|].
  intros i [-> | [-> | [-> | ->]]] a [= <-]; done.
Qed.

Lemma wp_init_socket a p Q : logging p →
  (∀ p', (s_socket e < 0)%Z ∨ s_accepts e (CallBind (ai_addr a)) = false → Q (Exit (exit_code (s_moment e))) p') →
  (∀ p', (0 ≤ s_socket e)%Z → s_accepts e (CallBind (ai_addr a)) = true →
     logged (set_sockets (p_sockets p ++ ((s_socket e,.) <$> take 5 (socket_calls a 0))) p) p' → Q (Go (s_socket e)) p') →
  wp (init_socket e a) p Q.
Proof.
  intros Hl HF HN. unfold init_socket, Socket_new, Socket_unsetIPV6Only, Socket_setReusableAddress, Socket_setNonBlocking, Socket_bind. steps. apply wp_sock_do. steps.
  eapply (wp_check e G); [text|done| |].
  { intros Hb%negb_true_iff p'. apply HF. left. by apply Z.leb_gt. }
  intros Hv%negb_false_iff. apply Z.leb_le in Hv. steps.
  eapply (wp_say e G); [text|done|done|intros _ ? [l1 ->]]. steps.
  steps. apply wp_sock_do. eapply (wp_warn e G); [text|done|intros ? [l2 ->]].
  steps. apply wp_sock_do. eapply (wp_warn e G); [text|done|intros ? [l3 ->]].
  steps. apply wp_sock_do. eapply (wp_warn e G); [text|done|intros ? [l4 ->]].
  steps. apply wp_sock_do. steps. eapply (wp_check e G); [text|done| |].
  { intros Hb%negb_true_iff p'. apply HF. by right. }
  intros Hb%negb_false_iff. eapply (wp_say e G); [text|done|done|intros _ ? [l5 ->]].
  steps. apply HN; [done..|]. exists l5. destruct p. cbn. by rewrite <- !app_assoc.
Qed.

Lemma wp_Socket_listen fd n p Q : logging p →
  (∀ p', s_accepts e (CallListen n) = false → Q (Exit (exit_code (s_moment e))) p') →
  (∀ p', s_accepts e (CallListen n) = true →
     logged (set_sockets (p_sockets p ++ [(fd, CallListen n)]) p) p' → Q (Go tt) p') →
  wp (Socket_listen e fd n) p Q.
Proof.
  intros Hl HF HN. unfold Socket_listen. steps. apply wp_sock_do. steps. eapply (wp_check e G); [text|done| |].
  { intros Hb%negb_true_iff p'. by apply HF. }
  intros Hb%negb_false_iff. eapply (wp_say e G); [text|done|done|intros _ ? [l5 ->]].
  apply HN; [done|]. by exists l5.
Qed.

(** What the server needs from the system. *)
Definition can_start (p : process) (h n cert key : bytes) (max : Z) (a : addrinfo) : Prop :=
  p_server p = None ∧ s_getaddrinfo e h n = Some a ∧ context_accepted (s_tls e) cert key
  ∧ (0 ≤ s_socket e)%Z ∧ s_accepts e (CallBind (ai_addr a)) = true ∧ s_accepts e (CallListen max) = true.

Lemma sprintf_int_run k z : length (decimal z) < k → sprintf_int (replicate k NUL) z = Done (array k (decimal z)).
Proof.
  intros H. unfold sprintf_int. rewrite sn_write_fits by (rewrite ?length_replicate; lia).
  rewrite drop_replicate. unfold array. do 2 f_equal.
  replace (k - length (decimal z)) with (S (k - (length (decimal z) + 1))) by lia. done.
Qed.
End Init.

(** C11. Setting up the server either ends the process with a code that is not
    success, exactly when something the server needs is refused, or returns
    the server of the settings: its context was given TLS 1.2 as the minimum,
    the certificate and the key, which the library accepted and found to
    match, its socket is bound to the address the host and the port stand
    for, and listens; the list of addresses is freed again. *)
Theorem Server_init_listens_or_exits (e : system) (c : config) (p : process) (h cert key : bytes)
    (G : good_system e) (Hlog : logging p) (Hmem : s_calloc e = true)
    (Hh : cstr (host c) = Done h) (Hc : cstr (sslCertFilePath c) = Done cert)
    (Hk : cstr (sslKeyFilePath c) = Done key) (Hp : length (decimal (wrap_int (port c))) < 6) :
  let n := decimal (wrap_int (port c)) in
  let max := wrap_int (maxConnections c) in
  ∃ r p', Server_init e c p = Done (r, p')
  ∧ match r with
    | Exit code => code ≠ EXIT_SUCCESS ∧ ∀ a, ¬ can_start e p h n cert key max a
    | Go s => ∃ a, can_start e p h n cert key max a
        ∧ s = MkServer (if s_strdup e then Some h else None) (wrap_int (port c)) max (s_socket e)
                (Some (length (p_contexts p)))
        ∧ p_server p' = Some s
        ∧ p_contexts p' = p_contexts p ++ [Some (server_calls cert key)]
        ∧ p_sockets p' = p_sockets p ++ ((s_socket e,.) <$> socket_calls a max)
        ∧ p_infos p' = p_infos p
    end.
Proof.
  cbn zeta. set (n := decimal (wrap_int (port c))) in *. set (max := wrap_int (maxConnections c)).
  lazymatch goal with |- ex (λ r, ex (λ p', _ ∧ @?Q r p')) =>
    change (wp (Server_init e c) p Q);
    assert (HF : ∀ p', (∀ a, ¬ can_start e p h n cert key max a) → Q (Exit (exit_code (s_moment e))) p')
      by (intros p' H; split; [apply exit_code_fails|exact H])
  end.
  unfold Server_init. steps. eapply (wp_check e G); [text|done| |].
  { intros Hb%bool_decide_eq_true p'. apply (HF p'). unfold can_start. naive_solver. }
  intros H0%bool_decide_eq_false%dec_stable. steps. eapply wp_lift; [by apply sprintf_int_run|].
  steps. eapply wp_lift; [exact Hh|]. steps.
  eapply wp_lift; [unfold array; fold n; destruct (6 - length n) eqn:E; [lia|]; apply cstr_app; apply decimal_verbatim|].
  fold n. steps. eapply (wp_check e G); [text|by destruct (s_getaddrinfo e h n)| |].
  { intros Hb%bool_decide_eq_true p'. apply (HF p'). intros a (_ & Ha & _). congruence. }
  intros Ha%bool_decide_eq_false. destruct (s_getaddrinfo e h n) as [a|] eqn:Hga; [clear Ha|done].
  steps. eapply wp_lift; [exact Hc|]. steps. eapply wp_lift; [exact Hk|].
  steps. apply (wp_init_context e G); [done| |].
  { intros p' Hn. apply (HF p'). unfold can_start. naive_solver. }
  intros Hctx. rewrite Hmem. unfold deref. steps. apply (wp_init_socket e G); [done| |].
  { intros p' Hn. apply (HF p'). intros a' (_ & Ha' & _ & Hs & Hb & _). rewrite Hga in Ha'. injection Ha' as <-.
    destruct Hn; [lia|congruence]. }
  intros p1 Hs Hb [l1 ->]. steps. apply (wp_Socket_listen e G); [done| |].
  { intros p' Hn. apply (HF p'). intros a' (_ & _ & _ & _ & _ & Hx). unfold max in Hx. congruence. }
  intros p2 Hli [l2 ->]. steps. exists a. destruct p. cbn in *. subst.
  split_and!; try done; [by rewrite <- !app_assoc|lia].
Qed.

(** ** The port *)

Lemma port_fits z : (0 ≤ z < 100000)%Z → length (decimal z) < 6.
Proof.
  intros H. unfold decimal. rewrite (proj2 (Z.ltb_ge _ _)) by lia.
  pose proof (digits_short 20 (Z.to_nat z) 4) as D. cbn [Nat.pow] in D. lia.
Qed.

Lemma port_too_long z : (100000 ≤ z)%Z → 5 < length (decimal z).
Proof.
  intros H. unfold decimal. rewrite (proj2 (Z.ltb_ge _ _)) by lia.
  apply digits_long; [|lia]. apply Nat2Z.inj_le. rewrite Z2Nat.id by lia. exact H.
Qed.

Definition sample_system : system :=
  System (λ h n, if decide (h = lit "localhost" ∧ n = lit "10000") then Some (AddrInfo 10 1 6 (lit "::1:10000")) else None)
    (TlsLibrary true (λ _ a, negb (bool_decide (a = SetCipherList kCiphers)))) 5 (λ _, true) true true
    (lit "::1", lit "10000") sample_moment 0 [] [] [].

Lemma sample_system_good : good_system sample_system.
Proof. split; not_in. Qed.

Definition sample_config : config :=
  Config LOG_INFO [] [] [] (lit "cert.pem" ++ [NUL]) (lit "key.pem" ++ [NUL]) (lit "localhost" ++ [NUL]) [] 10000 5 true [].

Definition sample_process : process := Process None [] [] 0 ∅ (MkLogger LOG_INFO []).

Lemma Server_init_listens_or_exits_witness :
  ∃ p', Server_init sample_system sample_config sample_process
    = Done (Go (MkServer (Some (lit "localhost")) 10000 5 5 (Some 0)), p')
  ∧ p_contexts p' = [Some (server_calls (lit "cert.pem") (lit "key.pem"))].
Proof.
  destruct (Server_init_listens_or_exits sample_system sample_config sample_process (lit "localhost")
    (lit "cert.pem") (lit "key.pem") sample_system_good) as ([s|code] & p' & E & H);
    [split; vm_compute; congruence|reflexivity..|apply Nat.ltb_lt; vm_compute; reflexivity| |].
  - exists p'. destruct H as (a & _ & -> & _ & Hc & _). split; [exact E|exact Hc].
  - exfalso. apply (proj2 H (AddrInfo 10 1 6 (lit "::1:10000"))).
    split_and!; try (vm_compute; congruence). split; [reflexivity|].
    intros i [-> | [-> | [-> | ->]]] a [= <-]; reflexivity.
Defined.

(** The settings accept any port that is an [int], but one of more than
    five digits, given in the configuration file, does not fit the array
    [Server_init] prints it into: the write goes past its end. *)
Theorem port_overflows_its_array (e : system) (c : config) (p : process) (n : Z)
    (Hn : (100000 ≤ n ≤ INT_MAX)%Z) (Hp : p_server p = None) :
  ∃ c', handler c (lit "server") (lit "port") (decimal n ++ [NUL]) = Done (true, c')
    ∧ port c' = n ∧ Server_init e c' p = Stuck OutOfBounds.
Proof.
  exists (with_port n c).
  assert (Hw : wrap_int n = n) by (apply wrap_int_id; unfold INT_MIN; lia).
  split_and!; [|done|].
  - change (handler c (lit "server") (lit "port") (decimal n ++ [NUL]))
      with (let! t := cstr (decimal n ++ [NUL]) in let! n := atoi t in Done (true, with_port (to_unsigned n) c)).
    rewrite cstr_app by apply decimal_verbatim. cbn [outcome_bind].
    rewrite atoi_decimal by lia. cbn [outcome_bind]. unfold to_unsigned.
    rewrite Z.mod_small; [done|]. unfold UINT_MOD, INT_MAX in *. lia.
  - unfold Server_init. unfold pbind at 1, exec at 1. rewrite bind_bind, bind_get, bind_ret.
    rewrite Hp, bool_decide_eq_false_2 by (by intros []). unfold when, go at 1, pbind at 1. rewrite bind_ret.
    unfold pbind at 1. apply bind_Stuck. unfold exec. apply bind_Stuck.
    cbn [port with_port]. rewrite Hw. unfold lift, sprintf_int, sn_write. rewrite firstn_all.
    pose proof (port_too_long n). by rewrite decide_False by (rewrite length_replicate; lia).
Qed.

Lemma port_overflows_its_array_witness :
  ∃ c', handler sample_config (lit "server") (lit "port") (lit "100000" ++ [NUL]) = Done (true, c')
    ∧ port c' = 100000%Z ∧ Server_init sample_system c' sample_process = Stuck OutOfBounds.
Proof.
  exact (port_overflows_its_array sample_system sample_config sample_process 100000
    ltac:(unfold INT_MAX; lia) eq_refl).
Defined.

(** The level the settings give turns the log on. *)
Lemma configured_log_is_on value f l ok l' :
  vLogInit (LOG_LEVEL value) f l = Done (ok, l') → (0 < vLogLevel l' ≤ LOG_FATAL)%Z.
Proof.
  assert (H : (10 ≤ LOG_LEVEL value ≤ 60)%Z).
  { unfold LOG_LEVEL, LOG_TRACE, LOG_DEBUG, LOG_INFO, LOG_WARN, LOG_ERROR, LOG_FATAL, LOG_DEFAULT.
    repeat case_match; unfold LOG_INFO; lia. }
  rewrite vLogInit_level, bool_decide_eq_true_2 by (unfold LOG_OFF, LOG_FATAL; lia).
  intros [= _ <-]. cbn. unfold LOG_FATAL. lia.
Qed.

(** Freeing the server frees its context, the only one that was created. *)
Lemma Server_free_releases p s cs calls :
  p_server p = Some s → server_ssl s = Some (length cs) → p_contexts p = cs ++ [Some calls] →
  Server_free p = Done (tt, set_server None (set_contexts (cs ++ [None]) p)).
Proof.
  intros Hs Hc Hp. unfold Server_free. rewrite bind_get, Hs, Hc.
  erewrite bind_Done by (unfold on_contexts; rewrite Hp, ctx_free_last; reflexivity). done.
Qed.
