(* ===== verification/FsUtil.v ===== *)
(** * Directories and kinds of files (src/lib/fsutil)

    [TouchDir] walks over a copy of the path and creates what is missing.
    The file system is a parameter: which paths exist, and an [mkdir] that
    may fail. *)

From S2P Require Import Prelude.
From S2P Require Import CStr.
From S2P Require Import MessageLib.
From S2P Require Import MessageSpec.

Definition slash : ascii := "/"%char.
Definition kTouchBuffer : nat := 512.

(** The existing paths. *)
Definition paths : Type := gset bytes.

Section TouchDir.
(** Whether [mkdir] succeeds, given what exists. *)
Context (mkdir : paths → bytes → bool).

(** Make a directory if it is missing. *)
Definition ensure (p : bytes) (fs : paths) : bool * paths :=
  if decide (p ∈ fs) then (true, fs)
  else if mkdir fs p then (true, {[p]} ∪ fs) else (false, fs).

(** The loop over the string: [before] is what the cursor has passed. *)
Fixpoint touch_parents (before rest : bytes) (fs : paths) : bool * paths :=
  match rest with
  | [] => (true, fs)
  | c :: rest =>
    if decide (c = slash) then
      let r := ensure before fs in
      if r.1 then touch_parents (before ++ [c]) rest r.2 else r
    else touch_parents (before ++ [c]) rest fs
  end.

(** A path without its trailing slash; the length is taken before, so an
    empty path is written in front of the buffer. *)
Definition drop_slash (p : bytes) : outcome bytes :=
  match last p with
  | None => Stuck OutOfBounds
  | Some c => Done (if decide (c = slash) then take (length p - 1) p else p)
  end.

Definition TouchDir (path : bytes) (fs : paths) : outcome (bool * paths) :=
  let! buffer := vsnprintf (replicate kTouchBuffer NUL) kTouchBuffer (lit "%s") [AStr path] in
  let! text := cstr buffer in
  let! p := drop_slash text in
  if decide (p ∈ fs) then Done (true, fs)
  else
    match p with
    | [] => (* the cursor starts behind the terminator, which the buffer has *)
        Done (if mkdir fs [] then (true, {[[]]} ∪ fs) else (false, fs))
    | c :: rest =>
      let r := touch_parents [c] rest fs in
      if r.1 then
        Done (if mkdir r.2 p then (true, {[p]} ∪ r.2) else (false, r.2))
      else Done r
    end.
End TouchDir.

(** ** What [TouchDir] creates *)

(** The paths in front of the separators of a path. *)
Definition ancestor (q p : bytes) : Prop := q ≠ [] ∧ ∃ r, p = q ++ slash :: r.

Section TouchDirSpec.
Context (mkdir : paths → bytes → bool).

(** [fs'] has what [fs] has and perhaps some of the paths in [new]. *)
Definition grows (fs fs' : paths) (new : bytes → Prop) : Prop :=
  fs ⊆ fs' ∧ ∀ q, q ∈ fs' → q ∈ fs ∨ new q.

Lemma grows_refl fs new : grows fs fs new.
Proof. split; [done|by left]. Qed.

Lemma grows_trans fs1 fs2 fs3 new : grows fs1 fs2 new → grows fs2 fs3 new → grows fs1 fs3 new.
Proof.
  intros [H1 H2] [H3 H4]. split; [set_solver|]. intros q Hq. destruct (H4 q Hq); [by apply H2|by right].
Qed.

Lemma grows_add fs p (new : bytes → Prop) : new p → grows fs ({[p]} ∪ fs) new.
Proof.
  intros H. split; [set_solver|]. intros q [Hq|Hq]%elem_of_union; [|by left].
  apply elem_of_singleton in Hq as ->. by right.
Qed.

Lemma ensure_spec p fs (new : bytes → Prop) : new p →
  grows fs (ensure mkdir p fs).2 new ∧ ((ensure mkdir p fs).1 = true → p ∈ (ensure mkdir p fs).2).
Proof.
  intros H. unfold ensure. case_decide; cbn; [split; [apply grows_refl|done]|].
  destruct (mkdir fs p); cbn; split; [by apply grows_add|set_solver|apply grows_refl|done].
Qed.

(** The ancestors from the cursor on. *)
Lemma touch_parents_spec p rest : ∀ before fs, p = before ++ rest → before ≠ [] →
  let r := touch_parents mkdir before rest fs in
  grows fs r.2 (λ q, ancestor q p)
  ∧ (r.1 = true → ∀ q s, rest = q ++ slash :: s → before ++ q ∈ r.2).
Proof.
  induction rest as [|c rest IH]; intros before fs Hp Hb; cbn.
  - split; [apply grows_refl|]. intros _ [|? ?] s; done.
  - assert (Hp' : p = (before ++ [c]) ++ rest) by (by rewrite <- app_assoc).
    assert (Hb' : before ++ [c] ≠ []) by (by destruct before).
    case_decide as E.
    + subst c. assert (A : ancestor before p) by (split; [done|by exists rest]).
      destruct (ensure_spec before fs (λ q, ancestor q p) A) as [G1 G2].
      destruct (ensure mkdir before fs) as [[|] fs1]; cbn in *; [|split; [done|done]].
      destruct (IH (before ++ [slash]) fs1 Hp' Hb') as [G3 G4]. split; [by eapply grows_trans|].
      intros Ht q s Hq. destruct q as [|d q].
      * rewrite app_nil_r. apply G3. by apply G2.
      * cbn in Hq. injection Hq as <- Hq. specialize (G4 Ht q s Hq). by rewrite <- app_assoc in G4.
    + destruct (IH (before ++ [c]) fs Hp' Hb') as [G3 G4]. split; [done|].
      intros Ht q s Hq. destruct q as [|d q]; [cbn in Hq; congruence|].
      cbn in Hq. injection Hq as <- Hq. specialize (G4 Ht q s Hq). by rewrite <- app_assoc in G4.
Qed.

(** The buffer holds the path. *)
Lemma touch_text path : NUL ∉ path → length path < kTouchBuffer →
  ∃ buffer, vsnprintf (replicate kTouchBuffer NUL) kTouchBuffer (lit "%s") [AStr path] = Done buffer
    ∧ cstr buffer = Done path.
Proof.
  intros Hn Hl. unfold vsnprintf. rewrite printf_s. cbn [outcome_bind].
  rewrite sn_write_fits by (rewrite ?length_replicate; done). eexists. split; [done|]. by apply cstr_app.
Qed.

Lemma drop_slash_path p : p ≠ [] → last p ≠ Some slash →
  drop_slash p = Done p ∧ drop_slash (p ++ [slash]) = Done p.
Proof.
  intros Hne Hl. unfold drop_slash. split.
  - destruct (last p) as [c|] eqn:E; [|by apply last_None in E]. by rewrite decide_False by congruence.
  - rewrite last_snoc, decide_True by done. rewrite length_app. cbn [length].
    replace (length p + 1 - 1) with (length p) by lia. by rewrite take_app_length.
Qed.

(** [TouchDir] on a path, with or without a slash at its end: it returns;
    everything that existed still does; nothing is created but the path and
    its ancestors; and when it reports success the path exists and, unless it
    existed before, so do all its ancestors. *)
Theorem TouchDir_makes_path (p : bytes) (trailing : bool) (fs : paths)
    (Hn : NUL ∉ p) (Hne : p ≠ []) (Hlast : last p ≠ Some slash) (Hl : length p + 1 < kTouchBuffer) :
  ∃ b fs', TouchDir mkdir (if trailing then p ++ [slash] else p) fs = Done (b, fs')
    ∧ grows fs fs' (λ q, q = p ∨ ancestor q p)
    ∧ (b = true → p ∈ fs' ∧ (p ∉ fs → ∀ q, ancestor q p → q ∈ fs')).
Proof.
  destruct (drop_slash_path p Hne Hlast) as [D1 D2].
  assert (Hd : drop_slash (if trailing then p ++ [slash] else p) = Done p) by (by destruct trailing).
  destruct (touch_text (if trailing then p ++ [slash] else p)) as (buffer & E1 & E2).
  { destruct trailing; [|done]. rewrite not_elem_of_app. split; [done|not_in]. }
  { destruct trailing; rewrite ?length_app; cbn; lia. }
  unfold TouchDir. rewrite E1. cbn [outcome_bind]. rewrite E2. cbn [outcome_bind]. rewrite Hd. cbn [outcome_bind].
  case_decide as Hp.
  { exists true, fs. split_and!; [done|apply grows_refl|]. intros _. split; [done|]. done. }
  destruct p as [|c rest]; [done|].
  destruct (touch_parents_spec (c :: rest) rest [c] fs eq_refl ltac:(done)) as [G1 G2].
  destruct (touch_parents mkdir [c] rest fs) as [[|] fs1]; cbn [fst snd] in *.
  - assert (W : grows fs fs1 (λ q, q = c :: rest ∨ ancestor q (c :: rest))).
    { destruct G1 as [H1 H2]. split; [done|]. intros q Hq. destruct (H2 q Hq); auto. }
    destruct (mkdir fs1 (c :: rest)).
    + do 2 eexists. split; [done|]. split.
      * eapply grows_trans; [exact W|]. apply grows_add. by left.
      * intros _. split; [set_solver|]. intros _ q [Hq [s E]]. apply elem_of_union_r.
        destruct q as [|d q]; [done|]. cbn in E. injection E as <- E. exact (G2 eq_refl q s E).
    + do 2 eexists. split; [done|]. split; [exact W|done].
  - do 2 eexists. split; [done|]. split; [|done].
    destruct G1 as [H1 H2]. split; [done|]. intros q Hq. destruct (H2 q Hq); auto.
Qed.
End TouchDirSpec.

(** [mkdir] as it works: the parent must exist. *)
Definition parent (p : bytes) : bytes :=
  match list_find (λ c, c = slash) (reverse p) with
  | Some (i, _) => take (length p - i - 1) p
  | None => []
  end.
Definition plain_mkdir (fs : paths) (p : bytes) : bool := bool_decide (parent p = [] ∨ parent p ∈ fs).

Lemma TouchDir_makes_path_witness :
  ∃ b fs', TouchDir plain_mkdir (lit "/v/l/") {[lit "/v"]} = Done (b, fs')
    ∧ b = true ∧ lit "/v/l" ∈ fs' ∧ lit "/v" ∈ fs'.
Proof.
  destruct (TouchDir_makes_path plain_mkdir (lit "/v/l") true {[lit "/v"]})
    as (b & fs' & E & _ & H);
    [not_in|discriminate|discriminate|apply Nat.ltb_lt; vm_compute; reflexivity|].
  assert (B : match TouchDir plain_mkdir (lit "/v/l/") {[lit "/v"]} with Done r => r.1 | Stuck _ => false end = true)
    by (vm_compute; reflexivity).
  change (TouchDir plain_mkdir (lit "/v/l/") {[lit "/v"]} = Done (b, fs')) in E.
  rewrite E in B. cbn in B. exists b, fs'. destruct (H B) as [H1 H2]. split_and!; [exact E|exact B|exact H1|].
  apply H2; [not_in|]. split; [discriminate|]. exists (lit "l"). reflexivity.
Defined.

(** ** Kinds of files *)

Inductive file_type : Type := S_IFREG | S_IFDIR | S_IFLNK | S_IFIFO | S_IFSOCK | S_IFCHR | S_IFBLK.

#[export] Instance file_type_eq_dec : EqDecision file_type.
Proof. solve_decision. Defined.

Section Kinds.
(** What [stat] finds at a path, when it succeeds. *)
Context (stat : bytes → option file_type).

Definition IsDir (path : bytes) : bool := bool_decide (stat path = Some S_IFDIR).
Definition IsFile (path : bytes) : bool := bool_decide (stat path = Some S_IFREG).
Definition IsLink (path : bytes) : bool := bool_decide (stat path = Some S_IFLNK).
Definition IsFiFo (path : bytes) : bool := bool_decide (stat path = Some S_IFIFO).
Definition IsSocket (path : bytes) : bool := bool_decide (stat path = Some S_IFSOCK).

(** At most one of the tests succeeds. *)
Lemma one_kind path : length (filter (λ b, b = true) [IsDir path; IsFile path; IsLink path; IsFiFo path; IsSocket path]) ≤ 1.
Proof. unfold IsDir, IsFile, IsLink, IsFiFo, IsSocket. destruct (stat path) as [[]|]; apply Nat.leb_le; vm_compute; reflexivity. Qed.
End Kinds.

(** A file system with links: [stat] follows them, so it never finds one, and
    [IsLink] is false for every path. *)
Fixpoint followed (fuel : nat) (fs : gmap bytes (file_type + bytes)) (path : bytes) : option file_type :=
  match fs !! path with
  | Some (inl S_IFLNK) | None => None
  | Some (inl t) => Some t
  | Some (inr target) => match fuel with O => None | S fuel => followed fuel fs target end
  end.

Lemma IsLink_never fuel fs path : IsLink (followed fuel fs) path = false.
Proof.
  apply bool_decide_eq_false_2. revert path. induction fuel as [|fuel IH]; intros path; cbn;
    destruct (fs !! path) as [[[]|]|]; try done; apply IH.
Qed.
