(* ===== verification/ServerCommands.v ===== *)
(** * Commands of the server (src/server/commands.c, pid.c, src/lib/config, src/lib/encrypt)

    [start] leaves the encrypted settings of the running server in a shared
    memory object, and a PID file; [stop] and [status] read them back.  The
    operating system's objects are the state; what system calls answer, the
    cipher and the digest of the TLS library, and the memory layout of
    [ServerConfigInfo] are parameters. *)

From S2P Require Import Prelude.
From S2P Require Import CStr.
From S2P Require Import MessageLib.
From S2P Require Import Logger.
From S2P Require Import IniLib.
From S2P Require Import IniSpec.
From S2P Require Import ServerSettings.
From S2P Require Import SettingsSpec.
From S2P Require Import FsUtil.

(** ** The command word *)

Inductive Command : Type :=
  | kCommandUnknown
  | kCommandStart
  | kCommandStop
  | kCommandStatus.

Definition kMaxCommandSize : nat := 10.

(** [strndup], then lower case. *)
Definition parseCommand (argc : Z) (arg : bytes) : Command :=
  let command := tolower <$> take kMaxCommandSize arg in
  if bool_decide (command = lit "status") && (argc =? 2)%Z then kCommandStatus
  else if bool_decide (command = lit "stop") && (argc =? 2)%Z then kCommandStop
  else if bool_decide (command = lit "start") && (argc <=? 9)%Z then kCommandStart
  else kCommandUnknown.

(** ** Locale *)

(** [setlocale] of the environment's locale, and whether it accepts a name. *)
Record locales : Type := Locales { system_locale : option bytes; accepts_locale : bytes → bool }.

Definition initLocale (l : locales) (settings : config) : outcome (bool * config) :=
  let! t := cstr (locale settings) in
  if decide (length t = 0) then
    match system_locale l with
    | None => Done (false, settings)
    | Some name =>
      if negb (contains name (lit "UTF-8")) then Done (false, settings)
      else let! a := memcpy (locale settings) (name ++ [NUL]) (length name + 1) in
           Done (true, with_locale a settings)
    end
  else if negb (contains t (lit "UTF-8")) then Done (false, settings)
  else Done (accepts_locale l t, settings).

(** ** Operating system objects *)

(** Shared memory objects and PID files, by name. *)
Record world : Type := World { shm : gmap bytes bytes; pidfiles : gmap bytes bytes }.

Definition set_shm (m : gmap bytes bytes) : cmd world unit := modify (λ w, World m (pidfiles w)).
Definition set_pidfiles (m : gmap bytes bytes) : cmd world unit := modify (λ w, World (shm w) m).

(** Whether the calls on a shared memory object succeed. *)
Record shm_calls : Type := ShmCalls {
  sc_open : bool; sc_truncate : bool; sc_map : bool; sc_unmap : bool; sc_close : bool
}.
Definition all_well : shm_calls := ShmCalls true true true true true.

Definition kPageSize : nat := 4096.

(** The pages of an object that was mapped: its bytes, and zeros to the end
    of the last page. *)
Definition mapped (data : bytes) : bytes :=
  data ++ replicate ((kPageSize - length data mod kPageSize) mod kPageSize) NUL.

Definition Config_save (c : shm_calls) (data : bytes) (size : nat) (path : bytes) : cmd world bool :=
  w <- get;;
  if negb (sc_open c) then ret false else
  set_shm (<[path := []]> (shm w));;;
  if negb (sc_truncate c) then ret false else
  set_shm (<[path := replicate size NUL]> (shm w));;;
  if negb (sc_map c) || bool_decide (size = 0) then ret false else
  content <- lift (memcpy (replicate size NUL) data size);;
  set_shm (<[path := content]> (shm w));;;
  ret (sc_unmap c && sc_close c).

Definition Config_load (c : shm_calls) (path : bytes) (size : nat) : cmd world (option bytes) :=
  w <- get;;
  match shm w !! path with
  | None => ret None
  | Some data =>
    if negb (sc_open c) then ret None else
    if negb (sc_map c) || bool_decide (size = 0) then ret None else
    copy <- lift (memcpy (replicate size NUL) (mapped data) size);;
    ret (if sc_unmap c && sc_close c then Some copy else None)
  end.

Definition Config_clean (path : bytes) : cmd world bool :=
  w <- get;;
  match shm w !! path with
  | None => ret false
  | Some _ => set_shm (delete path (shm w));;; ret true
  end.

Definition initSharedMemPath (uid : Z) : outcome bytes :=
  let! buffer := (if (uid =? 0)%Z
                  then vsnprintf (replicate 16 NUL) 16 (lit "/%s") [AStr APPNAME]
                  else vsnprintf (replicate 16 NUL) 16 (lit "/%s-%d") [AStr APPNAME; AInt uid]) in
  cstr buffer.

(** ** Processes *)

Inductive kill_answer : Type := Killed | NoSuchProcess | NotPermitted.

Definition PID_exists (kill : Z → Z → kill_answer) (pid : Z) : Z :=
  match kill pid 0%Z with Killed => 1 | NoSuchProcess => 0 | NotPermitted => -1 end.

(** [PID_init]: [None] when it ends the process. *)
Definition PID_init (dir_ok fopen_ok : bool) (getpid : Z) (path : bytes) : cmd world (option Z) :=
  w <- get;;
  match pidfiles w !! path with
  | Some _ => ret None
  | None =>
    if negb dir_ok then ret None else
    if negb fopen_ok then ret None else
    set_pidfiles (<[path := decimal getpid]> (pidfiles w));;;
    ret (Some getpid)
  end.

(** [PID_check]: [None] when it ends the process. *)
Definition PID_check (path : bytes) : cmd world (option unit) :=
  w <- get;; ret (match pidfiles w !! path with Some _ => Some tt | None => None end).

(** What [fgets(buffer, S num, file)] stores before the terminator. *)
Fixpoint fgets (num : nat) (stream : bytes) : bytes :=
  match num, stream with
  | S num, c :: stream => c :: (if bool_decide (c = newline) then [] else fgets num stream)
  | _, _ => []
  end.

(** [PID_load]: [None] when it ends the process. *)
Definition PID_load (fopen_ok : bool) (path : bytes) : cmd world (option Z) :=
  w <- get;;
  match pidfiles w !! path with
  | None => ret None
  | Some content =>
    if negb fopen_ok then ret None else
    text <- lift (cstr (fgets 99 content ++ [NUL]));;
    pid <- lift (atoi text);;
    ret (Some pid)
  end.

(** [remove(path)] *)
Definition remove (path : bytes) : cmd world unit :=
  w <- get;; set_pidfiles (delete path (pidfiles w)).

(** ** Encryption *)

Definition hex_digit (n : nat) : ascii := Ascii.ascii_of_nat (if decide (n < 10) then 48 + n else 87 + n).
Definition hex_byte (b : ascii) : bytes :=
  let n := Ascii.nat_of_ascii b in [hex_digit (n / 16); hex_digit (n mod 16)].

Definition EncryptedSizeOffset : nat := 8.

Section Commands.
(** The digest and the cipher of the TLS library; what the cipher writes on
    failure is not looked at. *)
Context (digest : bytes → option bytes) (encrypt decrypt : bytes → bytes → bytes → option bytes).

(** The passphrase, which the build generates. *)
Context (kEncryptionSeed : bytes).

(** The process and the memory of a settings structure: its image, and what
    is read from an image. *)
Context (image : Z → config → bytes) (image_pid : bytes → Z) (image_pidFilePath : bytes → bytes).

(** [SHA256Sum] into a buffer of 65 characters: stops when it is full. *)
Definition SHA256Sum (data : bytes) : option bytes :=
  (λ md, take 64 (md ≫= hex_byte)) <$> digest data.

(** The key and the initial vector. *)
Definition AES_keyFromString (passphrase : bytes) : option (bytes * bytes) :=
  text ← SHA256Sum passphrase;
  if decide (48 ≤ length text) then Some (take 32 text, take 16 (drop 32 text)) else None.

Definition AES_encrypt (key : bytes * bytes) (data : bytes) : option bytes := encrypt key.1 key.2 data.
Definition AES_decrypt (key : bytes * bytes) (data : bytes) : option bytes := decrypt key.1 key.2 data.

(** ** start *)

(** What the system answers while the server starts. *)
Record start_env : Type := StartEnv {
  se_locales : locales;
  se_uid : Z;
  se_getpid : Z;
  se_fork1 : Z;
  se_fork2 : Z;
  se_workdir : bool;
  se_chdir : bool;
  se_setsid : bool;
  se_logdir : bool;
  se_log : bool;
  se_server : bool;
  se_piddir : bool;
  se_pidopen : bool;
  se_shm : shm_calls
}.

(** How a process of [start] ends: it returns a code, it is ended by a fatal
    error, or it serves with the given settings.  [armed] says whether the
    clean-up at exit removes the PID file and the shared memory. *)
Inductive start_result : Type :=
  | Returned (code : Z) (armed : bool)
  | Ended (armed : bool)
  | Serving (pid : Z) (settings : config).


(** From the PID file on. *)
Definition start_server (e : start_env) (path : bytes) (settings : config) : cmd world start_result :=
  if negb (se_log e) then ret (Ended false) else
  if negb (se_server e) then ret (Ended false) else
  pidpath <- lift (cstr (pidFilePath settings));;
  pid <- PID_init (se_piddir e) (se_pidopen e) (se_getpid e) pidpath;;
  match pid with
  | None => ret (Ended false)
  | Some pid =>
    match AES_keyFromString kEncryptionSeed with
    | None => ret (Returned EXIT_FAILURE true)
    | Some key =>
      match AES_encrypt key (image pid settings) with
      | None => ret (Returned EXIT_FAILURE true)
      | Some c =>
        let payload := le_bytes EncryptedSizeOffset (N.of_nat (length c)) ++ c in
        ok <- Config_save (se_shm e) payload (length c + EncryptedSizeOffset) path;;
        ret (if ok then Serving pid settings else Returned EXIT_FAILURE true)
      end
    end
  end.

Definition CMD_runStart (e : start_env) (settings : config) : cmd world start_result :=
  r <- lift (initLocale (se_locales e) settings);;
  if negb r.1 then ret (Returned EXIT_FAILURE false) else
  let settings := r.2 in
  cert <- lift (cstr (sslCertFilePath settings));;
  if decide (length cert = 0) then ret (Returned EXIT_FAILURE false) else
  key <- lift (cstr (sslKeyFilePath settings));;
  if decide (length key = 0) then ret (Returned EXIT_FAILURE false) else
  path <- lift (initSharedMemPath (se_uid e));;
  if foreground settings then
    wd <- lift (cstr (workingDirPath settings));;
    if decide (length wd = 0) then ret (Returned EXIT_FAILURE false)
    else start_server e path settings
  else
    if (0 <? se_fork1 e)%Z then ret (Returned EXIT_SUCCESS false) else
    if (se_fork1 e <? 0)%Z then ret (Returned EXIT_FAILURE false) else
    if (se_fork2 e <? 0)%Z then ret (Returned EXIT_FAILURE false) else
    if (0 <? se_fork2 e)%Z then ret (Returned EXIT_SUCCESS false) else
    if negb (se_workdir e) then ret (Returned EXIT_FAILURE false) else
    if negb (se_chdir e) then ret (Returned EXIT_FAILURE false) else
    if negb (se_setsid e) then ret (Returned EXIT_FAILURE false) else
    if negb (se_logdir e) then ret (Ended false) else
    start_server e path settings.

(** [clean], which runs at exit. *)
Definition clean (armed : bool) (pidpath path : bytes) : cmd world unit :=
  if armed then remove pidpath;;; Config_clean path;;; ret tt else ret tt.

(** ** stop and status *)

(** [cleanup] *)
Definition cleanup (pidpath path : bytes) : cmd world unit :=
  remove pidpath;;; Config_clean path;;; ret tt.

(** What [stop] and [status] do first: the settings of the running server. *)
Definition load_settings (uid : Z) (c : shm_calls) : cmd world (option bytes * bytes) :=
  path <- lift (initSharedMemPath uid);;
  size <- Config_load c path EncryptedSizeOffset;;
  match size with
  | None => ret (None, path)
  | Some size =>
    let n := N.to_nat (le_value size) in
    payload <- Config_load c path (n + EncryptedSizeOffset);;
    match payload with
    | None => ret (None, path)
    | Some payload =>
      match AES_keyFromString kEncryptionSeed with
      | None => ret (None, path)
      | Some key => ret (AES_decrypt key (take n (drop EncryptedSizeOffset payload)), path)
      end
    end
  end.

Definition SIGTERM : Z := 15.

(** The exit code and the process that was sent the signal. *)
Definition CMD_runStop (uid : Z) (c : shm_calls) (kill : Z → Z → kill_answer) : cmd world (Z * option Z) :=
  r <- load_settings uid c;;
  match r.1 with
  | None => ret (EXIT_FAILURE, None)
  | Some settings =>
    let pid := image_pid settings in
    let status := PID_exists kill pid in
    if (0 <? status)%Z then
      match kill pid SIGTERM with
      | Killed => ret (EXIT_SUCCESS, Some pid)
      | _ => ret (EXIT_FAILURE, None)
      end
    else if (status =? 0)%Z then cleanup (image_pidFilePath settings) r.2;;; ret (EXIT_FAILURE, None)
    else ret (EXIT_FAILURE, None)
  end.

(** The exit code and the settings that are shown. *)
Definition CMD_runStatus (uid : Z) (c : shm_calls) (kill : Z → Z → kill_answer) : cmd world (Z * option bytes) :=
  r <- load_settings uid c;;
  match r.1 with
  | None => ret (EXIT_FAILURE, None)
  | Some settings =>
    let status := PID_exists kill (image_pid settings) in
    if (status =? 1)%Z then ret (EXIT_SUCCESS, Some settings)
    else if (status =? 0)%Z then cleanup (image_pidFilePath settings) r.2;;; ret (EXIT_FAILURE, None)
    else ret (EXIT_FAILURE, None)
  end.

(** ** The entry point *)

(** What [main] does: the usage is shown, or a command runs. *)
Inductive main_result : Type :=
  | Usage
  | Started (r : start_result)
  | Exited (code : Z).

(** The system a process of the server runs in: the environment of the
    options, the parser's line buffer, what the calls of each command
    answer. *)
Record process : Type := Process {
  p_environ : environ;
  p_line : bytes;
  p_start : start_env;
  p_uid : Z;
  p_shm : shm_calls;
  p_kill : Z → Z → kill_answer
}.

Definition main (p : process) (argc : Z) (arg : bytes) (os : list option_found) : cmd world main_result :=
  if (argc <? 2)%Z then ret Usage else
  match parseCommand argc arg with
  | kCommandStart =>
    o <- lift (parseOptions (p_environ p) (p_line p) os default_settings);;
    if o.1 then r <- CMD_runStart (p_start p) o.2;; ret (Started r) else ret Usage
  | kCommandStatus => r <- CMD_runStatus (p_uid p) (p_shm p) (p_kill p);; ret (Exited r.1)
  | kCommandStop => r <- CMD_runStop (p_uid p) (p_shm p) (p_kill p);; ret (Exited r.1)
  | kCommandUnknown => ret Usage
  end.
End Commands.

(** ** The usage that is shown is not accepted whole *)

(** "c2hat start --ssl-cert=... --ssl-key=... --foreground -h host -p port
    -m max" has eleven words; [start] takes nine. *)
Lemma full_usage_refused : parseCommand 11 (lit "start") = kCommandUnknown.
Proof. reflexivity. Qed.

Lemma parseCommand_start argc arg :
  parseCommand argc arg = kCommandStart ↔
  tolower <$> take kMaxCommandSize arg = lit "start" ∧ (argc ≤ 9)%Z.
Proof.
  unfold parseCommand. split.
  - destruct (bool_decide (_ = lit "status") && _); [done|].
    destruct (bool_decide (_ = lit "stop") && _); [done|].
    destruct (bool_decide (_ = lit "start")) eqn:E; [|done]. destruct (argc <=? 9)%Z eqn:L; [|done].
    intros _. split; [by apply bool_decide_eq_true in E|lia].
  - intros [-> H]. rewrite !bool_decide_false, bool_decide_true by done. cbn [andb].
    by rewrite (proj2 (Z.leb_le _ _) H).
Qed.

(** ** PID files *)

Lemma fgets_all num s : newline ∉ s → length s ≤ num → fgets num s = s.
Proof.
  revert num. induction s as [|c s IH]; intros num Hn Hl; [by destruct num|].
  destruct num as [|num]; [cbn in Hl; lia|]. apply not_elem_of_cons in Hn as [H1 H2]. cbn.
  rewrite bool_decide_false by congruence. rewrite IH; [done|done|cbn in Hl; lia].
Qed.

Lemma digits_length fuel n : length (digits fuel n) ≤ fuel.
Proof.
  revert n. induction fuel as [|fuel IH]; intros n; [done|]. cbn [digits]. case_decide; [cbn; lia|].
  rewrite length_app. specialize (IH (n / 10)). cbn [length]. lia.
Qed.

(** What [PID_init] wrote, [PID_load] reads back. *)
Lemma PID_load_init getpid path w w' pid : (0 ≤ getpid ≤ INT_MAX)%Z →
  PID_init true true getpid path w = Done (Some pid, w') →
  pid = getpid ∧ PID_load true path w' = Done (Some getpid, w').
Proof.
  intros Hp. unfold PID_init, set_pidfiles. rewrite bind_get. destruct (pidfiles w !! path); [done|].
  cbn [negb]. rewrite bind_modify. intros [= <- <-]. split; [done|].
  unfold PID_load. rewrite bind_get. cbn [pidfiles]. rewrite lookup_insert_eq. cbn [negb].
  destruct Hp as [Hp Hp']. pose proof (decimal_plain [] getpid Hp (Forall_nil_2 _)) as Hd. rewrite fgets_all.
  2:{ by eapply plain_newline. }
  2:{ unfold decimal. rewrite (proj2 (Z.ltb_ge _ _)) by done. etrans; [apply digits_length|lia]. }
  unfold lift at 1. erewrite bind_Done by (rewrite cstr_app by (by eapply plain_nul); reflexivity).
  unfold lift. by erewrite bind_Done by (rewrite atoi_decimal by done; reflexivity).
Qed.

(** ** Shared memory *)

Lemma Config_save_run data path w : data ≠ [] →
  Config_save all_well data (length data) path w
  = Done (true, World (<[path := data]> (shm w)) (pidfiles w)).
Proof.
  intros Hd. unfold Config_save, bind, get, set_shm, modify, lift, ret.
  cbn -[memcpy replicate length]. rewrite bool_decide_false by (by destruct data).
  rewrite memcpy_take, take_ge by (rewrite ?length_replicate; done).
  done.
Qed.

Lemma mapped_length data : length data ≤ length (mapped data).
Proof. unfold mapped. rewrite length_app. lia. Qed.

Lemma Config_load_run data path n w : shm w !! path = Some data → n ≠ 0 → n ≤ length data →
  Config_load all_well path n w = Done (Some (take n data), w).
Proof.
  intros Hs Hn Hl. unfold Config_load. rewrite bind_get, Hs. cbn -[memcpy replicate mapped].
  rewrite bool_decide_false by done. unfold lift, bind.
  rewrite memcpy_take by (rewrite ?length_replicate; pose proof (mapped_length data); lia).
  cbn. unfold mapped. by rewrite take_app_le by lia.
Qed.

Lemma Config_load_missing path n c w : shm w !! path = None → Config_load c path n w = Done (None, w).
Proof. intros H. unfold Config_load. by rewrite bind_get, H. Qed.

Lemma Config_save_true k data size path w w' :
  Config_save k data size path w = Done (true, w') → size = length data →
  w' = World (<[path := data]> (shm w)) (pidfiles w).
Proof.
  unfold Config_save, set_shm. rewrite bind_get. destruct (sc_open k); [|done]. cbn [negb].
  rewrite bind_modify. destruct (sc_truncate k); [|done]. cbn [negb]. rewrite bind_modify.
  destruct (negb (sc_map k) || _); [done|]. intros H ->.
  apply bind_inv in H as (content & t & Hc & H). apply lift_inv in Hc as [Hc ->].
  rewrite memcpy_take, take_ge in Hc by (rewrite ?length_replicate; done). injection Hc as <-.
  rewrite bind_modify in H. by injection H as _ <-.
Qed.

Lemma Config_save_frame k data size path w ok w' :
  Config_save k data size path w = Done (ok, w') →
  pidfiles w' = pidfiles w ∧ ∀ q, q ≠ path → shm w' !! q = shm w !! q.
Proof.
  unfold Config_save, set_shm. rewrite bind_get. destruct (sc_open k); [|by intros [= _ <-]]. cbn [negb].
  rewrite bind_modify. destruct (sc_truncate k); cbn [negb].
  2:{ intros [= _ <-]. split; [done|]. intros q Hq. cbn. by rewrite lookup_insert_ne. }
  rewrite bind_modify. destruct (negb (sc_map k) || _).
  { intros [= _ <-]. split; [done|]. intros q Hq. cbn. by rewrite lookup_insert_ne. }
  intros H. apply bind_inv in H as (content & t & Hc & H). apply lift_inv in Hc as [_ ->].
  rewrite bind_modify in H. injection H as _ <-. split; [done|].
  intros q Hq. cbn. by rewrite lookup_insert_ne.
Qed.

Lemma initLocale_frame l settings r : initLocale l settings = Done r →
  pidFilePath r.2 = pidFilePath settings.
Proof.
  unfold initLocale. destruct (cstr _) as [t|]; [|done]. cbn [outcome_bind].
  destruct (decide _); [|by destruct (negb _); intros [= <-]].
  destruct (system_locale l) as [name|]; [|by intros [= <-]].
  destruct (negb _); [by intros [= <-]|]. destruct (memcpy _ _ _); [|done].
  by intros [= <-].
Qed.

(** ** What [status] and [stop] read is what [start] saved *)

Section CommandsSpec.
Context (digest : bytes → option bytes) (encrypt decrypt : bytes → bytes → bytes → option bytes).
Context (kEncryptionSeed : bytes).
Context (image : Z → config → bytes) (image_pid : bytes → Z) (image_pidFilePath : bytes → bytes).
(** The cipher is inverted with the same key, and a length fits [size_t]. *)
Context (Hcipher : ∀ k iv d c, encrypt k iv d = Some c → decrypt k iv c = Some d).
Context (Hsize : ∀ k iv d c, encrypt k iv d = Some c → (N.of_nat (length c) < 256 ^ 8)%N).

(** The shared memory of a running server. *)
Definition saved (pid : Z) (settings : config) (path : bytes) (w : world) : Prop :=
  ∃ key c, AES_keyFromString digest kEncryptionSeed = Some key ∧ encrypt key.1 key.2 (image pid settings) = Some c
    ∧ shm w !! path = Some (le_bytes EncryptedSizeOffset (N.of_nat (length c)) ++ c).

Lemma load_saved uid path pid settings w : initSharedMemPath uid = Done path → saved pid settings path w →
  load_settings digest decrypt kEncryptionSeed uid all_well w = Done ((Some (image pid settings), path), w).
Proof.
  intros Hp (key & c & Hk & He & Hs). unfold load_settings, lift. erewrite bind_Done by (rewrite Hp; reflexivity).
  pose proof (le_bytes_length EncryptedSizeOffset (N.of_nat (length c))) as Hle.
  erewrite bind_Done.
  2:{ eapply Config_load_run; [exact Hs|done|]. rewrite length_app, Hle. lia. }
  cbv beta iota. rewrite take_app_length', le_bytes_value by (done || by eapply Hsize). rewrite Nat2N.id.
  erewrite bind_Done.
  2:{ eapply Config_load_run; [exact Hs|unfold EncryptedSizeOffset; lia|]. rewrite length_app, Hle. lia. }
  cbv beta iota. rewrite Hk, (take_ge (le_bytes _ _ ++ c)) by (rewrite length_app, Hle; lia).
  rewrite drop_app_length' by done. rewrite take_ge by done. unfold AES_decrypt. by rewrite (Hcipher _ _ _ _ He).
Qed.

(** [start] either returns before it changes anything, or runs
    [start_server] on the settings with their locale. *)
Lemma CMD_runStart_inv e settings w r w' :
  CMD_runStart digest encrypt kEncryptionSeed image e settings w = Done (r, w') →
  (w' = w ∧ ((∃ code, r = Returned code false) ∨ r = Ended false)) ∨
  ∃ path c, initSharedMemPath (se_uid e) = Done path ∧ pidFilePath c = pidFilePath settings
    ∧ start_server digest encrypt kEncryptionSeed image e path c w = Done (r, w').
Proof using digest encrypt image kEncryptionSeed.
  unfold CMD_runStart. intros H.
  assert (stop : ∀ (x : start_result) t, (∃ code, x = Returned code false) ∨ x = Ended false →
    ret x t = Done (r, w') → w' = t ∧ ((∃ code, r = Returned code false) ∨ r = Ended false)).
  { intros x t Hx [= <- <-]. done. }
  apply bind_inv in H as (l & t & Hl & H). apply lift_inv in Hl as [Hl ->].
  apply initLocale_frame in Hl.
  destruct (negb l.1); [left; eapply stop, H; eauto|].
  apply bind_inv in H as (cert & t & Ht & H). apply lift_inv in Ht as [_ ->].
  destruct (decide _); [left; eapply stop, H; eauto|].
  apply bind_inv in H as (key & t & Ht & H). apply lift_inv in Ht as [_ ->].
  destruct (decide _); [left; eapply stop, H; eauto|].
  apply bind_inv in H as (path & t & Hp & H). apply lift_inv in Hp as [Hp ->].
  destruct (foreground l.2).
  - apply bind_inv in H as (wd & t & Ht & H). apply lift_inv in Ht as [_ ->].
    destruct (decide _); [left; eapply stop, H; eauto|]. right. exists path, l.2. done.
  - repeat match type of H with (if ?b then _ else _) _ = _ =>
      destruct b; [left; eapply stop, H; eauto|] end.
    right. exists path, l.2. done.
Qed.

Lemma start_server_serving e path settings w pid c w' :
  start_server digest encrypt kEncryptionSeed image e path settings w = Done (Serving pid c, w') →
  c = settings ∧ pid = se_getpid e ∧ saved pid settings path w' ∧
  (∃ pidpath, cstr (pidFilePath settings) = Done pidpath ∧ pidfiles w' = <[pidpath := decimal pid]> (pidfiles w)
     ∧ pidfiles w !! pidpath = None).
Proof.
  unfold start_server, PID_init, set_pidfiles. destruct (se_log e); [|done]. destruct (se_server e); [|done]. cbn [negb]. intros H.
  apply bind_inv in H as (pidpath & t & Hp & H). apply lift_inv in Hp as [Hp ->].
  rewrite bind_bind, bind_get in H. destruct (pidfiles w !! pidpath) eqn:Hn; [done|].
  destruct (se_piddir e); [|done]. destruct (se_pidopen e); [|done]. cbn [negb] in H.
  rewrite bind_bind, bind_modify, bind_ret in H.
  destruct (AES_keyFromString digest kEncryptionSeed) as [key|] eqn:Hk; [|done].
  destruct (AES_encrypt _ _ _) as [cipher|] eqn:He; [|done].
  apply bind_inv in H as (ok & t & Hs & H). destruct ok; [|done]. injection H as <- <- <-.
  apply Config_save_true in Hs; [|rewrite length_app, le_bytes_length; lia]. subst t.
  split; [done|]. split; [done|]. split.
  - exists key, cipher. split; [done|]. split; [exact He|]. cbn. by rewrite lookup_insert_eq.
  - exists pidpath. done.
Qed.

Lemma start_server_failed e path settings w r w' :
  start_server digest encrypt kEncryptionSeed image e path settings w = Done (r, w') →
  (∀ pid c, r ≠ Serving pid c) →
  (w' = w ∧ r = Ended false) ∨
  (∃ pidpath, cstr (pidFilePath settings) = Done pidpath ∧ r = Returned EXIT_FAILURE true
     ∧ pidfiles w !! pidpath = None ∧ pidfiles w' = <[pidpath := decimal (se_getpid e)]> (pidfiles w)
     ∧ ∀ q, q ≠ path → shm w' !! q = shm w !! q).
Proof using digest encrypt image kEncryptionSeed.
  intros H Hr. unfold start_server, PID_init, set_pidfiles in H.
  destruct (se_log e); [|injection H as <- <-; by left]. destruct (se_server e); [|injection H as <- <-; by left].
  cbn [negb] in H. apply bind_inv in H as (pidpath & t & Hp & H). apply lift_inv in Hp as [Hp ->].
  rewrite bind_bind, bind_get in H. destruct (pidfiles w !! pidpath) eqn:Hn; [injection H as <- <-; by left|].
  destruct (se_piddir e); [|injection H as <- <-; by left]. destruct (se_pidopen e); [|injection H as <- <-; by left].
  cbn [negb] in H. rewrite bind_bind, bind_modify, bind_ret in H. right. exists pidpath. split; [done|].
  destruct (AES_keyFromString digest kEncryptionSeed) as [key|]; [|by injection H as <- <-].
  destruct (AES_encrypt _ _ _) as [cipher|]; [|by injection H as <- <-].
  apply bind_inv in H as (ok & t & Hs & H). apply Config_save_frame in Hs as [Hs1 Hs2].
  destruct ok; injection H as <- <-; [by destruct (Hr (se_getpid e) settings)|].
  split; [done|]. split; [done|]. split; [by rewrite Hs1|exact Hs2].
Qed.

(** C30. Once [start] serves, [status] by the same user finds the shared
    memory it left, deciphers it, shows exactly the settings that were saved
    and changes nothing; [stop] sends SIGTERM to the process that serves.
    The PID file holds that process's number. *)
Theorem status_reads_start e settings w pid c w' kill :
  CMD_runStart digest encrypt kEncryptionSeed image e settings w = Done (Serving pid c, w') →
  image_pid (image pid c) = pid → kill pid 0%Z = Killed → kill pid SIGTERM = Killed →
  pid = se_getpid e
  ∧ (∃ pidpath, cstr (pidFilePath c) = Done pidpath ∧ pidfiles w' !! pidpath = Some (decimal pid))
  ∧ CMD_runStatus digest decrypt kEncryptionSeed image_pid image_pidFilePath (se_uid e) all_well kill w'
    = Done ((EXIT_SUCCESS, Some (image pid c)), w')
  ∧ CMD_runStop digest decrypt kEncryptionSeed image_pid image_pidFilePath (se_uid e) all_well kill w'
    = Done ((EXIT_SUCCESS, Some pid), w').
Proof.
  intros H Hi Hk Ht. apply CMD_runStart_inv in H as [[_ [[? ?]|?]]|(path & c' & Hp & _ & H)]; [done..|].
  apply start_server_serving in H as (<- & Hpid & Hs & (pidpath & Hpp & Hw & _)).
  pose proof (load_saved _ _ _ _ _ Hp Hs) as Hl. split; [done|]. split.
  { exists pidpath. split; [done|]. by rewrite Hw, lookup_insert_eq. }
  unfold CMD_runStatus, CMD_runStop, PID_exists. by rewrite !(bind_Done _ _ _ _ _ Hl); cbn; rewrite Hi, Hk, ?Ht.
Qed.

(** C31. A [start] that fails leaves nothing behind: after the clean-up at
    exit the PID files are those there were before, and so are the shared
    memory objects, the server's own apart. *)
Theorem failed_start_cleans e settings w r w' armed pidpath path :
  CMD_runStart digest encrypt kEncryptionSeed image e settings w = Done (r, w') →
  ((∃ code, r = Returned code armed) ∨ r = Ended armed) →
  cstr (pidFilePath settings) = Done pidpath → initSharedMemPath (se_uid e) = Done path →
  ∃ w'', clean armed pidpath path w' = Done (tt, w'') ∧ pidfiles w'' = pidfiles w
    ∧ (∀ q, q ≠ path → shm w'' !! q = shm w !! q)
    ∧ (armed = true → shm w'' !! path = None).
Proof using digest encrypt image kEncryptionSeed.
  clear image_pid image_pidFilePath.
  intros H Hr Hpp Hp. apply CMD_runStart_inv in H as [[-> Hr']|(path' & c & Hp' & Hc & H)].
  { assert (armed = false) as -> by naive_solver. exists w. done. }
  rewrite Hp in Hp'. injection Hp' as <-.
  apply start_server_failed in H as [[-> ->]|(q & Hq & -> & Hn & Hw & Hs)]; [| |naive_solver].
  { assert (armed = false) as -> by naive_solver. exists w. done. }
  assert (armed = true) as -> by naive_solver. rewrite Hc, Hpp in Hq. injection Hq as <-.
  unfold clean, remove, Config_clean, set_pidfiles, set_shm. rewrite bind_bind, bind_get, bind_modify, bind_bind, bind_get. cbn [shm pidfiles].
  assert (Hd : delete pidpath (pidfiles w') = pidfiles w) by (rewrite Hw; by apply delete_insert_id).
  destruct (shm w' !! path) eqn:Hl.
  - rewrite bind_bind, bind_modify, bind_ret. eexists. split; [reflexivity|]. cbn. split; [done|]. split.
    + intros q Hq. rewrite lookup_delete_ne by done. by apply Hs.
    + intros _. by rewrite lookup_delete_eq.
  - rewrite bind_ret. eexists. split; [reflexivity|]. done.
Qed.
End CommandsSpec.

(** ** A concrete run *)

Module Sample.
(** The identity as cipher, on data of bounded size; a constant digest; an
    image of the process number and the start of the PID file's path. *)
Definition digest (_ : bytes) : option bytes := Some (replicate 32 "a"%char).
Definition encrypt (_ _ d : bytes) : option bytes := if (N.of_nat (length d) <=? 65536)%N then Some d else None.
Definition decrypt (_ _ d : bytes) : option bytes := Some d.
Definition image (pid : Z) (c : config) : bytes := le_bytes 4 (Z.to_N pid) ++ take 16 (pidFilePath c).
Definition image_pid (i : bytes) : Z := Z.of_N (le_value (take 4 i)).
Definition image_pidFilePath (i : bytes) : bytes := drop 4 i.

Lemma decrypt_encrypt k iv d c : encrypt k iv d = Some c → decrypt k iv c = Some d.
Proof. unfold encrypt, decrypt. destruct (_ <=? _)%N; congruence. Qed.

Lemma encrypt_size k iv d c : encrypt k iv d = Some c → (N.of_nat (length c) < 256 ^ 8)%N.
Proof.
  unfold encrypt. destruct (N.leb_spec (N.of_nat (length d)) 65536); [|done]. intros [= ->].
  eapply N.le_lt_trans; [eassumption|]. by vm_compute.
Qed.

Definition path (s : string) : bytes := lit s ++ replicate (kMaxPath - String.length s) NUL.
Definition settings : config :=
  with_pidFilePath (path "/tmp/c2hat.pid") (with_sslCertFilePath (path "cert.pem") (with_sslKeyFilePath (path "key.pem")
    (with_workingDirPath (path "/tmp") (with_foreground true default_settings)))).
Definition system (s : shm_calls) : start_env :=
  StartEnv (Locales (Some (lit "en_GB.UTF-8")) (λ _, true)) 1000 42 0 0 true true true true true true true true s.
End Sample.

Lemma status_reads_start_witness : ∃ c w',
  CMD_runStart Sample.digest Sample.encrypt [] Sample.image (Sample.system all_well) Sample.settings (World ∅ ∅)
  = Done (Serving 42 c, w')
  ∧ CMD_runStop Sample.digest Sample.decrypt [] Sample.image_pid Sample.image_pidFilePath 1000 all_well (λ _ _, Killed) w'
  = Done ((EXIT_SUCCESS, Some 42%Z), w').
Proof.
  assert (E : ∃ c w', CMD_runStart Sample.digest Sample.encrypt [] Sample.image (Sample.system all_well) Sample.settings
    (World ∅ ∅) = Done (Serving 42 c, w') ∧ Sample.image_pid (Sample.image 42 c) = 42%Z).
  { do 2 eexists. split; vm_compute; reflexivity. }
  destruct E as (c & w' & E & Ei). exists c, w'. split; [exact E|].
  apply (status_reads_start Sample.digest Sample.encrypt Sample.decrypt [] Sample.image Sample.image_pid Sample.image_pidFilePath
    Sample.decrypt_encrypt Sample.encrypt_size (Sample.system all_well) Sample.settings (World ∅ ∅) 42 c w' (λ _ _, Killed) E Ei
    eq_refl eq_refl).
Defined.

(** A start whose shared memory cannot be mapped. *)
Lemma failed_start_cleans_witness : ∃ w' w'',
  CMD_runStart Sample.digest Sample.encrypt [] Sample.image (Sample.system (ShmCalls true true false true true))
    Sample.settings (World ∅ ∅) = Done (Returned EXIT_FAILURE true, w')
  ∧ clean true (lit "/tmp/c2hat.pid") (lit "/c2hat-1000") w' = Done (tt, w'') ∧ pidfiles w'' = ∅.
Proof.
  assert (E : ∃ w', CMD_runStart Sample.digest Sample.encrypt [] Sample.image (Sample.system (ShmCalls true true false true true))
    Sample.settings (World ∅ ∅) = Done (Returned EXIT_FAILURE true, w')) by (eexists; vm_compute; reflexivity).
  destruct E as [w' E]. exists w'.
  destruct (failed_start_cleans Sample.digest Sample.encrypt [] Sample.image
    (Sample.system (ShmCalls true true false true true)) Sample.settings (World ∅ ∅) _ w' true
    (lit "/tmp/c2hat.pid") (lit "/c2hat-1000") E) as (w'' & H1 & H2 & _).
  - left. by exists EXIT_FAILURE.
  - vm_compute. reflexivity.
  - vm_compute. reflexivity.
  - exists w''. done.
Defined.
