(* ===== verification/ClientSettings.v ===== *)
(** * The options of the client (src/client/settings.c)

    [parseOptions] on the options [getopt_long] finds.  The texts of the help
    and of the version are not modelled. *)

From S2P Require Import Prelude.
From S2P Require Import CStr.
From S2P Require Import MessageLib.
From S2P Require Import Logger.
From S2P Require Import MessageSpec.
From S2P Require Import ServerSettings.
From S2P Require Import FsUtil.

Definition kMaxHostnameSize : nat := 128.
Definition kMaxPortSize : nat := 6.
Definition kDefaultCACertFilePath : bytes := lit ".local/share/c2hat/ssl/cacert.pem".
Definition kDefaultCACertDirPath : bytes := lit ".local/share/c2hat/ssl".

Record ClientOptions : Type := MkOptions {
  o_user : bytes;
  o_host : bytes;
  o_port : bytes;
  caCertFilePath : bytes;
  caCertDirPath : bytes;
  logDirPath : bytes;
  o_logLevel : Z
}.

Definition with_user v o := MkOptions v (o_host o) (o_port o) (caCertFilePath o) (caCertDirPath o) (logDirPath o) (o_logLevel o).
Definition with_address h p o := MkOptions (o_user o) h p (caCertFilePath o) (caCertDirPath o) (logDirPath o) (o_logLevel o).
Definition with_caCertFilePath v o := MkOptions (o_user o) (o_host o) (o_port o) v (caCertDirPath o) (logDirPath o) (o_logLevel o).
Definition with_caCertDirPath v o := MkOptions (o_user o) (o_host o) (o_port o) (caCertFilePath o) v (logDirPath o) (o_logLevel o).
Definition with_logDirPath v o := MkOptions (o_user o) (o_host o) (o_port o) (caCertFilePath o) (caCertDirPath o) v (o_logLevel o).
Definition with_debug o := MkOptions (o_user o) (o_host o) (o_port o) (caCertFilePath o) (caCertDirPath o) (logDirPath o) LOG_DEBUG.

(** What [getopt_long] reports, with the text of the argument. *)
Inductive client_option : Type :=
  | COptUser (s : bytes)
  | COptCACert (s : bytes)
  | COptCAPath (s : bytes)
  | COptHelp
  | COptVersion
  | COptDebug
  | COptUnknown.

(** The process ends, or the options are set. *)
Inductive parsed : Type :=
  | Exit (failure : bool)
  | Parsed (o : ClientOptions).

(** [strncpy(field, s, sizeof(field) - 1)] *)
Definition copy_option (field s : bytes) : outcome bytes := strncpy field (s ++ [NUL]) (length field - 1).

(** The switch in the loop. *)
Definition client_one_option (f : client_option) (o : ClientOptions) : outcome parsed :=
  match f with
  | COptHelp | COptVersion => Done (Exit false)
  | COptUser s => let! v := copy_option (o_user o) s in Done (Parsed (with_user v o))
  | COptCACert s => let! v := copy_option (caCertFilePath o) s in Done (Parsed (with_caCertFilePath v o))
  | COptCAPath s => let! v := copy_option (caCertDirPath o) s in Done (Parsed (with_caCertDirPath v o))
  | COptDebug => Done (Parsed (with_debug o))
  | COptUnknown => Done (Parsed o)
  end.

Fixpoint client_options (fs : list client_option) (o : ClientOptions) : outcome parsed :=
  match fs with
  | [] => Done (Parsed o)
  | f :: fs =>
    let! r := client_one_option f o in
    match r with Exit b => Done (Exit b) | Parsed o => client_options fs o end
  end.

(** [snprintf(field, size, "%s/%s", getenv("HOME"), t)] *)
Definition home_path (env : environ) (field : bytes) (size : nat) (t : bytes) : outcome bytes :=
  vsnprintf field size (lit "%s/%s") [AStr (home env); AStr t].

(** [argc] arguments in all, of which [found] are options and [rest] are
    left; [fs] are the paths that exist. *)
Definition parseOptions (mkdir : paths → bytes → bool) (env : environ) (argc : nat) (found : list client_option)
    (rest : list bytes) (o : ClientOptions) (fs : paths) : outcome (parsed * paths) :=
  if decide (argc < 2) then Done (Exit true, fs) else
  let! ca := home_path env (caCertFilePath o) (kMaxPath - 1) kDefaultCACertFilePath in
  let! dir := home_path env (caCertDirPath o) (kMaxPath - 1) kDefaultCACertDirPath in
  let! lg := vsnprintf (logDirPath o) (length (logDirPath o)) (lit "%s/.local/state/%s") [AStr (home env); AStr APPNAME] in
  let o := with_logDirPath lg (with_caCertDirPath dir (with_caCertFilePath ca o)) in
  let! path := cstr lg in
  let! touched := TouchDir mkdir path fs in
  if negb touched.1 then Done (Exit true, touched.2) else
  let! r := client_options found o in
  match r with
  | Exit b => Done (Exit b, touched.2)
  | Parsed o =>
    match rest with
    | host :: port :: _ =>
      let! h := strncpy (o_host o) (host ++ [NUL]) (kMaxHostnameSize - 1) in
      let! p := strncpy (o_port o) (port ++ [NUL]) (kMaxPortSize - 1) in
      Done (Parsed (with_address h p o), touched.2)
    | _ => Done (Exit true, touched.2)
    end
  end.

(** The options [main] starts from. *)
Definition no_options : ClientOptions :=
  MkOptions (replicate kMaxNicknameSize NUL) (replicate kMaxHostnameSize NUL) (replicate kMaxPortSize NUL)
    (replicate kMaxPath NUL) (replicate kMaxPath NUL) (replicate kMaxPath NUL) LOG_INFO.

(** ** Fields *)

(** An array of [n] bytes whose last one is a terminator. *)
Definition terminated (n : nat) (f : bytes) : Prop := length f = n ∧ f !! (n - 1) = Some NUL.

(** The type of the options. *)
Record well_typed (o : ClientOptions) : Prop := {
  t_user : terminated kMaxNicknameSize (o_user o);
  t_host : terminated kMaxHostnameSize (o_host o);
  t_port : terminated kMaxPortSize (o_port o);
  t_file : terminated kMaxPath (caCertFilePath o);
  t_dir : terminated kMaxPath (caCertDirPath o);
  t_log : terminated kMaxPath (logDirPath o);
  t_level : o_logLevel o = LOG_INFO ∨ o_logLevel o = LOG_DEBUG
}.

Lemma str_prefix_text k s rest : NUL ∉ s → str_prefix k (s ++ NUL :: rest) = Done (take k s).
Proof.
  revert s. induction k as [|k IH]; intros [|c s] Hn; cbn in *; [done..|].
  apply not_elem_of_cons in Hn as [Hc Hn]. rewrite decide_False by done. by rewrite IH.
Qed.

Lemma take_nul k (s : bytes) : NUL ∉ s → NUL ∉ take k s.
Proof. intros Hs Hin. apply Hs. rewrite <- (take_drop k s). apply elem_of_app. by left. Qed.

Lemma copy_terminated n f s : NUL ∉ s → terminated (S n) f →
  strncpy f (s ++ [NUL]) n = Done (array (S n) (take n s)) ∧ terminated (S n) (array (S n) (take n s)).
Proof.
  intros Hs [Hl Hz]. assert (Ht : length (take n s) ≤ n) by (rewrite length_take; lia).
  assert (Ha : array (S n) (take n s) = (take n s ++ replicate (n - length (take n s)) NUL) ++ [NUL]).
  { unfold array. replace (S n - length (take n s)) with ((n - length (take n s)) + 1) by lia.
    by rewrite replicate_add, app_assoc. }
  split.
  - unfold strncpy. rewrite str_prefix_text by done. cbn [outcome_bind]. unfold memcpy.
    rewrite decide_True by (rewrite length_app, length_replicate; lia). rewrite Ha. f_equal. f_equal.
    + apply take_ge. rewrite length_app, length_replicate. lia.
    + replace (S n - 1) with n in Hz by lia. rewrite <- (take_drop_middle f n NUL Hz), drop_app_ge by (rewrite length_take; lia).
      rewrite length_take, Hl. replace (n - n `min` S n) with 0 by lia. cbn. f_equal. apply drop_ge. lia.
  - split; [apply array_length; lia|]. rewrite Ha. replace (S n - 1) with n by lia.
    apply list_lookup_middle. rewrite length_app, length_replicate. lia.
Qed.

Lemma sn_write_terminated n f size t f' : 0 < size ≤ n → terminated n f → sn_write f size t = Done f' → terminated n f'.
Proof.
  intros Hsz [Hl Hz]. destruct size as [|r]; [lia|]. cbn. case_decide as E; [|done]. intros [= <-].
  set (w := take r t) in *. split.
  - rewrite length_app. cbn. rewrite length_drop. lia.
  - destruct (decide (length w = n - 1)) as [Hw|Hw].
    + apply list_lookup_middle. lia.
    + rewrite lookup_app_r by lia. replace (n - 1 - length w) with (S (n - 1 - (length w + 1))) by lia.
      rewrite lookup_cons, lookup_drop. by replace (length w + 1 + (n - 1 - (length w + 1))) with (n - 1) by lia.
Qed.

(** Paths under the home directory are cut off, not rejected. *)
Lemma home_write f size t n : NUL ∉ t → 0 < size ≤ n → terminated n f →
  ∃ f', sn_write f size t = Done f' ∧ terminated n f' ∧ cstr f' = Done (take (size - 1) t).
Proof.
  intros Ht Hs Hf. destruct (sn_write_bounds f size t) as (w & rest & Hw & -> & _ & _ & Hn); [lia|by rewrite (proj1 Hf); lia|done|].
  exists ((take (size - 1) t) ++ NUL :: rest). split; [done|]. split; [by eapply sn_write_terminated|by apply cstr_app].
Qed.

(** ** The options are parsed *)

Definition option_text (f : client_option) : bytes :=
  match f with COptUser s | COptCACert s | COptCAPath s => s | _ => [] end.

(** The nickname: the last one given, cut off. *)
Fixpoint user_of (found : list client_option) (u : bytes) : bytes :=
  match found with
  | [] => u
  | COptUser s :: found => user_of found (array kMaxNicknameSize (take (kMaxNicknameSize - 1) s))
  | _ :: found => user_of found u
  end.

Definition ends_early (f : client_option) : bool := match f with COptHelp | COptVersion => true | _ => false end.

Lemma copy_option_typed n f s : NUL ∉ s → terminated (S n) f →
  copy_option f s = Done (array (S n) (take n s)) ∧ terminated (S n) (array (S n) (take n s)).
Proof.
  intros Hs Hf. unfold copy_option. rewrite (proj1 Hf). cbn [Nat.sub]. rewrite Nat.sub_0_r. by apply copy_terminated.
Qed.

Lemma client_options_typed found : ∀ o, Forall (λ f, NUL ∉ option_text f) found → well_typed o →
  if existsb ends_early found then client_options found o = Done (Exit false)
  else ∃ o', client_options found o = Done (Parsed o') ∧ well_typed o' ∧ o_user o' = user_of found (o_user o)
    ∧ o_logLevel o' = (if existsb (λ f, match f with COptDebug => true | _ => false end) found then LOG_DEBUG else o_logLevel o).
Proof.
  induction found as [|f found IH]; intros o Hf Ho; [by exists o|]. inversion Hf as [|? ? Hs Hf']; subst.
  cbn [existsb client_options]. destruct f as [s|s|s| | | |]; cbn [option_text ends_early orb client_one_option user_of] in *.
  - destruct (copy_option_typed 59 (o_user o) s Hs (t_user o Ho)) as [-> Ht]. cbn [outcome_bind].
    apply (IH (with_user _ o) Hf'). destruct Ho. by split.
  - destruct (copy_option_typed 4095 (caCertFilePath o) s Hs (t_file o Ho)) as [-> Ht]. cbn [outcome_bind].
    apply (IH (with_caCertFilePath _ o) Hf'). destruct Ho. by split.
  - destruct (copy_option_typed 4095 (caCertDirPath o) s Hs (t_dir o Ho)) as [-> Ht]. cbn [outcome_bind].
    apply (IH (with_caCertDirPath _ o) Hf'). destruct Ho. by split.
  - done.
  - done.
  - cbn [outcome_bind]. specialize (IH (with_debug o) Hf'). destruct (existsb ends_early found).
    + apply IH. destruct Ho. split; try done. by right.
    + destruct IH as (o' & Hr & Ht & Hu & Hl); [destruct Ho; split; try done; by right|].
      exists o'. split_and!; try done. rewrite Hl. by destruct (existsb _ found).
  - cbn [outcome_bind]. by apply IH.
Qed.

Lemma TouchDir_returns mkdir path fs : NUL ∉ path → path ≠ [] → is_Done (TouchDir mkdir path fs).
Proof.
  intros Hn Hne. unfold TouchDir, vsnprintf. rewrite printf_s. cbn [outcome_bind].
  destruct (sn_write_bounds (replicate kTouchBuffer NUL) kTouchBuffer path) as (w & rest & -> & Hw & _ & _ & Hwn);
    [unfold kTouchBuffer; lia|by rewrite length_replicate|done|].
  cbn [outcome_bind]. rewrite cstr_app by done. cbn [outcome_bind]. unfold drop_slash.
  destruct (last w) as [c|] eqn:El.
  - cbn [outcome_bind]. destruct (decide (_ ∈ fs)); [by eexists|]. destruct (if decide (c = slash) then _ else _); [by eexists|].
    destruct (touch_parents _ _ _ _) as [[] ?]; by eexists.
  - apply last_None in El. subst w. destruct path; [done|]. discriminate El.
Qed.

Lemma home_printf env t : printf (lit "%s/%s") [AStr (home env); AStr t] = Done (home env ++ lit "/" ++ t).
Proof. rewrite <- (app_nil_r t) at 2. reflexivity. Qed.

Lemma state_printf env : printf (lit "%s/.local/state/%s") [AStr (home env); AStr APPNAME]
  = Done (home env ++ lit "/.local/state/c2hat").
Proof. reflexivity. Qed.

Lemma parseOptions_run mkdir env argc found rest o fs : well_typed o →
  NUL ∉ home env → Forall (λ f, NUL ∉ option_text f) found → Forall (λ a, NUL ∉ a) rest →
  ∃ r fs', parseOptions mkdir env argc found rest o fs = Done (r, fs') ∧
    match r with
    | Exit _ => True
    | Parsed o' => well_typed o' ∧ 2 ≤ argc
        ∧ o_user o' = user_of found (o_user o)
        ∧ ∃ h p more, rest = h :: p :: more
          ∧ cstr (o_host o') = Done (take (kMaxHostnameSize - 1) h) ∧ cstr (o_port o') = Done (take (kMaxPortSize - 1) p)
    end.
Proof.
  intros Ho Hh Hf Hr. unfold parseOptions. case_decide as Hargc; [by eexists _, _|].
  assert (Hpath : ∀ t, NUL ∉ t → NUL ∉ home env ++ lit "/" ++ t).
  { intros t Ht. rewrite !not_elem_of_app. split_and!; [done|not_in|done]. }
  unfold home_path, vsnprintf. rewrite !home_printf, state_printf. cbn [outcome_bind].
  destruct (home_write (caCertFilePath o) (kMaxPath - 1) (home env ++ lit "/" ++ kDefaultCACertFilePath) kMaxPath)
    as (ca & -> & Hca & _); [apply Hpath; not_in|unfold kMaxPath; lia|apply Ho|].
  destruct (home_write (caCertDirPath o) (kMaxPath - 1) (home env ++ lit "/" ++ kDefaultCACertDirPath) kMaxPath)
    as (dir & -> & Hdir & _); [apply Hpath; not_in|unfold kMaxPath; lia|apply Ho|].
  rewrite (proj1 (t_log o Ho)).
  destruct (home_write (logDirPath o) kMaxPath (home env ++ lit "/.local/state/c2hat") kMaxPath)
    as (lg & -> & Hlg & Ht); [rewrite not_elem_of_app; split; [done|not_in]|unfold kMaxPath; lia|apply Ho|].
  cbn [outcome_bind]. rewrite Ht. cbn [outcome_bind].
  assert (Hn : NUL ∉ home env ++ lit "/.local/state/c2hat") by (rewrite not_elem_of_app; split; [done|not_in]).
  destruct (TouchDir_returns mkdir (take (kMaxPath - 1) (home env ++ lit "/.local/state/c2hat")) fs) as ([ok fs'] & ->).
  { by apply take_nul. }
  { intros E. apply (f_equal length) in E. rewrite length_take, length_app in E. cbn [length lit] in E. vm_compute (length (lit _)) in E. unfold kMaxPath in E. lia. }
  cbn [outcome_bind fst snd]. destruct ok; cbn [negb]; [|by eexists _, _].
  set (o1 := with_logDirPath _ _). assert (Ho1 : well_typed o1) by (destruct Ho; by split).
  pose proof (client_options_typed found o1 Hf Ho1) as Hp. destruct (existsb ends_early found).
  { rewrite Hp. cbn [outcome_bind]. by eexists _, _. }
  destruct Hp as (o2 & -> & Ho2 & Hu & _). cbn [outcome_bind].
  destruct rest as [|h [|p more]]; [by eexists _, _..|]. inversion Hr as [|? ? Hh1 Hr1]; subst. inversion Hr1 as [|? ? Hp1 _]; subst.
  destruct (copy_terminated (kMaxHostnameSize - 1) (o_host o2) h Hh1 (t_host o2 Ho2)) as [-> Th].
  destruct (copy_terminated (kMaxPortSize - 1) (o_port o2) p Hp1 (t_port o2 Ho2)) as [-> Tp]. cbn [outcome_bind].
  eexists _, _. split; [reflexivity|]. split; [destruct Ho2; by split|]. split; [lia|]. split; [done|].
  exists h, p, more. split; [done|]. split.
  - apply array_text; [by apply take_nul|rewrite length_take; lia].
  - apply array_text; [by apply take_nul|rewrite length_take; lia].
Qed.

(** C23. The options are well typed: on any command line [parseOptions]
    returns without a fault, and when it does not end the process every field
    of the options is a terminated string within its array; the host and the
    port are the first two arguments, and the nickname the last one given,
    each cut off to its array. *)
Theorem parsed_options_typed mkdir env argc found rest o fs : well_typed o →
  NUL ∉ home env → Forall (λ f, NUL ∉ option_text f) found → Forall (λ a, NUL ∉ a) rest →
  ∃ r fs', parseOptions mkdir env argc found rest o fs = Done (r, fs') ∧
    match r with
    | Exit _ => True
    | Parsed o' => well_typed o' ∧ 2 ≤ argc
        ∧ o_user o' = user_of found (o_user o)
        ∧ ∃ h p more, rest = h :: p :: more
          ∧ cstr (o_host o') = Done (take (kMaxHostnameSize - 1) h) ∧ cstr (o_port o') = Done (take (kMaxPortSize - 1) p)
    end.
Proof. apply parseOptions_run. Qed.

Definition some_env : environ := Environ 1000 (lit "/home/ann") (λ _, false) (λ _, None) (lit "/").

Lemma parsed_options_typed_witness : ∃ o' fs',
  parseOptions (λ _ _, true) some_env 7 [COptUser (lit "ann"); COptDebug; COptUser (lit "bob")]
    [lit "chat.example.com"; lit "100000"] no_options ∅ = Done (Parsed o', fs')
  ∧ well_typed o' ∧ cstr (o_port o') = Done (lit "10000").
Proof.
  destruct (parsed_options_typed (λ _ _, true) some_env 7 [COptUser (lit "ann"); COptDebug; COptUser (lit "bob")]
    [lit "chat.example.com"; lit "100000"] no_options ∅) as (r & fs' & Hr & Hp).
  - split; try (split; reflexivity). by left.
  - not_in.
  - repeat (apply Forall_cons; split); [not_in..|by constructor].
  - repeat (apply Forall_cons; split); [not_in..|by constructor].
  - destruct r as [b|o'].
    + exfalso. assert (E : match parseOptions (λ _ _, true) some_env 7 [COptUser (lit "ann"); COptDebug; COptUser (lit "bob")]
        [lit "chat.example.com"; lit "100000"] no_options ∅ with Done (Parsed _, _) => true | _ => false end = true)
        by (vm_compute; reflexivity). rewrite Hr in E. discriminate E.
    + exists o', fs'. split; [exact Hr|]. destruct Hp as (H1 & _ & _ & h & p & more & [= <- <- <-] & _ & H2).
      split; [exact H1|]. exact H2.
Defined.
