(* ===== verification/ClientStores.v ===== *)
(** * What the client's chat window needs of its containers

    [uichat.c] keeps the chat log in a [List] and the colours of the users in
    a [Hash].  Its theorems are proved against these two interfaces, which
    the heap implementations of list.c and hash.c keep. *)

From S2P Require Import Prelude.
(** A growing sequence of blocks, where [n] is the number of additions and
    deletions there is memory for. *)
Class Sequence (L : Type) : Type := {
  seq_append : bytes → cmd L bool;
  seq_delete : Z → cmd L bool;
  seq_item : Z → cmd L (option bytes);
  seq_length : L → Z;
  seq_holds : nat → L → list bytes → Prop;
  seq_append_ok n l xs v : seq_holds (S n) l xs →
    ∃ l', seq_append v l = Done (true, l') ∧ seq_holds n l' (xs ++ [v]);
  seq_delete_ok n l x xs : seq_holds (S n) l (x :: xs) →
    ∃ l', seq_delete 0 l = Done (true, l') ∧ seq_holds n l' xs;
  seq_item_ok n l xs i x : seq_holds n l xs → xs !! i = Some x →
    seq_item (Z.of_nat i) l = Done (Some x, l);
  seq_length_ok n l xs : seq_holds n l xs → seq_length l = Z.of_nat (length xs);
  seq_holds_less n l xs : seq_holds (S n) l xs → seq_holds n l xs
}.

(** A table from C strings to blocks. *)
Definition table_key (k : bytes) : Prop := (NUL ∉ k) ∧ length k ≤ 1000.

Class Table (T : Type) : Type := {
  tab_set : bytes → bytes → cmd T bool;
  tab_get : bytes → cmd T (option bytes);
  tab_delete : bytes → cmd T bool;
  tab_holds : nat → T → gmap bytes bytes → Prop;
  tab_set_ok n t m k v : table_key k → tab_holds (S n) t m →
    ∃ t', tab_set k v t = Done (true, t') ∧ tab_holds n t' (<[k := v]> m);
  tab_get_ok n t m k : table_key k → tab_holds n t m →
    ∃ t', tab_get k t = Done (m !! k, t') ∧ tab_holds n t' m;
  tab_delete_ok n t m k : table_key k → tab_holds n t m →
    ∃ t', tab_delete k t = Done (bool_decide (is_Some (m !! k)), t') ∧ tab_holds n t' (delete k m);
  tab_holds_less n t m : tab_holds (S n) t m → tab_holds n t m
}.

(** ** list.c *)

From S2P Require Import Heap.
From S2P Require Import ListLib.
From S2P Require Import ListOps.
From S2P Require Import ListAccess.
From S2P Require Import ListSpec.

(** The item, read through the pointer [List_item] returns. *)
Definition item_value (pos : Z) : cmd lst (option bytes) :=
  p <- List_item pos;;
  match p with None => ret None | Some _ => d <- load_data p;; ret (Some d) end.

Definition list_holds (n : nat) (s : lst) (xs : list bytes) : Prop :=
  2 * n ≤ budget (lm s) ∧ (Z.of_nat (len xs + n) < INT_MAX)%Z ∧ ∃ c, refines s (ASeq xs c).

#[export] Instance RBool_inj : Inj (=) (=) RBool.
Proof. by intros ?? [= ->]. Qed.

#[export, refine] Instance list_sequence : Sequence lst := {
  seq_append v := List_append v (len v);
  seq_delete := List_delete;
  seq_item := item_value;
  seq_length s := length (this s);
  seq_holds := list_holds
}.
Proof.
  - intros n s xs v (Hb & Hi & c & R).
    pose proof (op_refines (OAppend v) s (ASeq xs c) R ltac:(lia) ltac:(cbn; lia)) as H.
    cbn [spec_op] in H. unfold spec_insert in H. cbn [items] in H.
    rewrite (proj2 (Z.leb_le 0 _)), Z.leb_refl in H by lia. cbn [andb fst snd items] in H.
    destruct H as (s' & Hrun & R' & Hb' & Hl).
    apply (bind_ret_inv _ RBool) in Hrun; [|apply _]. exists s'. split; [exact Hrun|].
    rewrite Nat2Z.id, firstn_all, drop_all in R'. split_and!; [lia|rewrite length_app; cbn; lia|by eexists].
  - intros n s x xs (Hb & Hi & c & R).
    pose proof (delete_refines s (ASeq (x :: xs) c) 0 R) as H. cbn in H.
    destruct H as (s' & Hrun & R' & Hb' & Hl).
    apply (bind_ret_inv _ RBool) in Hrun; [|apply _]. exists s'. split; [exact Hrun|].
    cbn in Hi. split_and!; [lia|lia|by eexists].
  - intros n s xs i x (Hb & Hi & c & es & R & Hit & _) Hx. cbn in Hit. subst xs. unfold item_value.
    run (List_item_run _ _ R (Z.of_nat i)). rewrite (proj2 (Z.leb_le 0 _)), Nat2Z.id by lia.
    pose proof (deref_here s es i R) as H. rewrite Hx in H. unfold deref in H.
    destruct (dl <$> es !! i); [|done]. apply bind_inv in H as (d & t & Hd & H).
    unfold ret in H. injection H as <- <-. by run Hd.
  - intros n s xs (Hb & Hi & c & es & R & Hit & _). cbn in Hit. subst xs.
    by rewrite (rep_length _ _ R), length_vals.
  - intros n s xs (Hb & Hi & Hr). split_and!; [lia..|done].
Defined.

(** ** hash.c *)

From S2P Require Import HashLib.
From S2P Require Import HashSpec.

(** The value, read through the pointer [Hash_getValue] returns. *)
Definition hash_value (k : bytes) : cmd hst (option bytes) :=
  p <- Hash_getValue k;;
  match p with None => ret None | Some _ => bs <- load_hbytes p;; ret (Some bs) end.

Definition hash_holds (n : nat) (s : hst) (m : gmap bytes bytes) : Prop :=
  3 * n ≤ budget (hm s) ∧ (Z.of_nat (size m + n) < INT_MAX)%Z ∧ ∃ out, hrefines s m out.

Lemma table_key_short k : table_key k → short_key k.
Proof. intros [_ H]. unfold short_key, INT_MAX. lia. Qed.

#[export, refine] Instance hash_table : Table hst := {
  tab_set k v := Hash_set k v (len v);
  tab_get := hash_value;
  tab_delete := Hash_delete;
  tab_holds := hash_holds
}.
Proof.
  - intros n s m k v Hk (Hb & Hi & out & R).
    destruct (op_refines_hash (HSet k v) s m out R) as (r & m' & s' & Hrun & [-> ->] & R' & Hb' & Hs').
    { split; [by apply table_key_short|apply Hk]. } { lia. } { lia. }
    cbn [run_hop] in Hrun. apply (bind_ret_inv _ HBool) in Hrun; [|by intros ?? [= ->]].
    exists s'. split; [exact Hrun|]. split_and!; [lia|lia|by eexists].
  - intros n s m k Hk (Hb & Hi & out & rows & R & ->).
    destruct (Hash_getValue_run _ _ _ R k (table_key_short k Hk)) as (p & Hrun & Hp).
    exists s. split; [|split_and!; [done|done|by exists out, rows]]. unfold hash_value. run Hrun.
    destruct (emap (concat rows) !! k) as [v|]; [|by subst p].
    destruct Hp as (l & -> & Hl). by run (load_hbytes_Done _ _ _ Hl).
  - intros n s m k Hk (Hb & Hi & out & rows & R & ->).
    destruct (Hash_delete_run _ _ _ R k (table_key_short k Hk)) as (s' & rows' & Hrun & R' & Hm & Hl & Hb').
    exists s'. split; [exact Hrun|]. split_and!; [lia| |exists out, rows'; by rewrite <- Hm].
    assert (size (delete k (emap (concat rows))) ≤ size (emap (concat rows))); [|lia].
    apply map_subseteq_size, delete_subseteq.
  - intros n s m (Hb & Hi & Hr). split_and!; [lia..|done].
Defined.
