(* ===== verification/ChatLog.v ===== *)
(** * The chat window of the client (src/client/uichat.c, uilog.c)

    The cached log, the colours of the users, the browse mode and what is
    printed in the window.  The containers are those of ClientStores.v.
    [window] is what was handed to [wprintw] since the window was last
    cleared, with the colour pairs; [view] is what of it can be seen in a
    window of [lines] rows and [cols] columns that scrolls when its last row is
    left; how ncurses breaks a text into rows is a parameter.  Drawing the
    frame and the title is not modelled. *)

From S2P Require Import Prelude.
From S2P Require Import CStr.
From S2P Require Import MessageLib.
From S2P Require Import ClientStores.

Definition eol : ascii := Ascii.ascii_of_nat 10.

(** ** Log entries *)

Definition kTimestampSize : nat := 15.

Record ChatLogEntry : Type := MkEntry {
  timestamp : bytes;
  etype : C2HMessageType;
  econtent : bytes;
  elength : nat;
  username : bytes
}.

(** [clock] is the time as [strftime] prints it; a text that does not fit is
    not stored. *)
Definition ChatLogEntry_create (calloc_ok : bool) (clock : bytes) (buffer : C2HMessage)
    : outcome (option ChatLogEntry) :=
  if negb calloc_ok then Done None else
  let! t := (if decide (length clock < kTimestampSize)
             then memcpy (replicate kTimestampSize NUL) (clock ++ [NUL]) (length clock + 1)
             else Done (replicate kTimestampSize NUL)) in
  let! c := strncpy (replicate kBroadcastBufferSize NUL) (content buffer) (kBroadcastBufferSize - 1) in
  let! n := strlen NUL c in
  if decide (n = 0) then Done None else
  let! u := strncpy (replicate (kMaxNicknameSize + 1) NUL) (user buffer) kMaxNicknameSize in
  Done (Some (MkEntry t (mtype buffer) c n u)).

(** ** State *)

Inductive UIChatWinMode : Type := kChatWinModeLive | kChatWinModeBrowse.

#[export] Instance UIChatWinMode_eq_dec : EqDecision UIChatWinMode.
Proof. solve_decision. Defined.

Definition kColorPairDefault : Z := 0.
Definition kColorPairRedOnDefault : Z := 3.
Definition kColorPairWhiteOnRed : Z := 8.
Definition kMaxCachedLines : Z := 100.

(** [size_t] arithmetic, and an [int] in memory. *)
Definition to_size (z : Z) : Z := (z mod SIZE_MOD)%Z.
Definition int_bytes (z : Z) : bytes := le_bytes 4 (Z.to_N (z mod UINT_MOD)).
Definition int_value (bs : bytes) : Z := wrap_int (Z.of_N (le_value bs)).

Record chatwin (L T : Type) : Type := ChatWin {
  chatlog : L;
  users : T;
  colors : Z;
  extendedColors : bool;
  nextColor : Z;
  drawn : nat;
  mode : UIChatWinMode;
  currentLine : Z;
  lines : Z;
  cols : Z;
  pageSize : Z;
  window : list (Z * bytes)
}.
Arguments ChatWin {L T}.
Arguments chatlog {L T}.
Arguments users {L T}.
Arguments colors {L T}.
Arguments extendedColors {L T}.
Arguments nextColor {L T}.
Arguments drawn {L T}.
Arguments mode {L T}.
Arguments currentLine {L T}.
Arguments lines {L T}.
Arguments cols {L T}.
Arguments pageSize {L T}.
Arguments window {L T}.

(** ** The screen

    Each text ends with a newline, so each starts on a row of its own.
    [typeset width text] are the rows ncurses makes of a text in a window of
    so many columns.  A newline in the last row makes the window scroll: what
    can be seen are the last rows, the empty one with the cursor included. *)
Section Screen.
Context (typeset : nat → bytes → list bytes).

Definition screen_rows (height width : nat) (ts : list bytes) : list bytes :=
  let rows := (ts ≫= typeset width) ++ [[]] in
  drop (length rows - height) rows.

Definition view {L T} (s : chatwin L T) : list bytes :=
  screen_rows (Z.to_nat (lines s)) (Z.to_nat (cols s)) (window s).*2.
End Screen.

Section Chat.
Context {L T : Type} `{Sequence L} `{Table T}.

(** The [n]th value of [rand()], and the memory of a log entry. *)
Context (rand : nat → Z) (image : ChatLogEntry → bytes) (entry : bytes → ChatLogEntry).

Definition set_chatlog (l : L) (s : chatwin L T) : chatwin L T := ChatWin l (users s) (colors s) (extendedColors s) (nextColor s) (drawn s) (mode s) (currentLine s) (lines s) (cols s) (pageSize s) (window s).
Definition set_users (t : T) (s : chatwin L T) : chatwin L T := ChatWin (chatlog s) t (colors s) (extendedColors s) (nextColor s) (drawn s) (mode s) (currentLine s) (lines s) (cols s) (pageSize s) (window s).
Definition set_nextColor (z : Z) (s : chatwin L T) : chatwin L T := ChatWin (chatlog s) (users s) (colors s) (extendedColors s) z (drawn s) (mode s) (currentLine s) (lines s) (cols s) (pageSize s) (window s).
Definition draw (z : Z) (s : chatwin L T) : chatwin L T := ChatWin (chatlog s) (users s) (colors s) (extendedColors s) z (S (drawn s)) (mode s) (currentLine s) (lines s) (cols s) (pageSize s) (window s).
Definition set_mode (m : UIChatWinMode) (s : chatwin L T) : chatwin L T := ChatWin (chatlog s) (users s) (colors s) (extendedColors s) (nextColor s) (drawn s) m (currentLine s) (lines s) (cols s) (pageSize s) (window s).
Definition set_currentLine (z : Z) (s : chatwin L T) : chatwin L T := ChatWin (chatlog s) (users s) (colors s) (extendedColors s) (nextColor s) (drawn s) (mode s) z (lines s) (cols s) (pageSize s) (window s).
Definition set_size (n w p : Z) (s : chatwin L T) : chatwin L T := ChatWin (chatlog s) (users s) (colors s) (extendedColors s) (nextColor s) (drawn s) (mode s) (currentLine s) n w p (window s).
Definition set_window (w : list (Z * bytes)) (s : chatwin L T) : chatwin L T := ChatWin (chatlog s) (users s) (colors s) (extendedColors s) (nextColor s) (drawn s) (mode s) (currentLine s) (lines s) (cols s) (pageSize s) w.

Definition on_chatlog {A} (m : cmd L A) : cmd (chatwin L T) A :=
  λ s, match m (chatlog s) with Done (a, l) => Done (a, set_chatlog l s) | Stuck w => Stuck w end.
Definition on_users {A} (m : cmd T A) : cmd (chatwin L T) A :=
  λ s, match m (users s) with Done (a, t) => Done (a, set_users t s) | Stuck w => Stuck w end.

Definition print (color : Z) (t : bytes) : cmd (chatwin L T) unit :=
  modify (λ s, set_window (window s ++ [(color, t)]) s).

(** [UIChatWin_init], with what [List_new] and [Hash_new] return and the
    number of colour pairs. *)
Definition UIChatWin_init (newUsers : option T) (newLog : option L) (pairCount : Z) : option (chatwin L T) :=
  match newUsers with
  | None => None
  | Some t =>
    match newLog with
    | None => None
    | Some l =>
      Some (ChatWin l t pairCount (kColorPairWhiteOnRed + 1 <? pairCount)%Z (-1) 0 kChatWinModeLive 0 0 0 0 [])
    end
  end.

(** ** Colours *)

Definition GetUserColor (userName : bytes) : cmd (chatwin L T) Z :=
  s <- get;;
  (if (nextColor s <? 0)%Z then
     let c := Z.rem (rand (drawn s)) (colors s) in
     modify (draw (if extendedColors s then c + kColorPairWhiteOnRed else c)%Z)
   else ret tt);;;
  color <- on_users (tab_get userName);;
  match color with
  | Some c => ret (int_value c)
  | None =>
    s <- get;;
    let userColor := nextColor s in
    n <- lift (int_add (nextColor s) 1);;
    modify (set_nextColor (if (colors s <? n)%Z then -1 else n));;;
    ok <- on_users (tab_set userName (int_bytes userColor));;
    ret (if ok then userColor else 0%Z)
  end.

(** ** Printing an entry *)

(** The last case is ["%zu"] of the length and ["%.*s"] of that many
    characters of the content. *)
Definition UIChatWin_write (e : ChatLogEntry) : cmd (chatwin L T) unit :=
  if decide (elength e = 0) then ret tt else
  ts <- lift (cstr (timestamp e));;
  match etype e with
  | kMessageTypeErr =>
    c <- lift (cstr (econtent e));;
    t <- lift (printf (lit "[%s] [ERROR] %s" ++ [eol]) [AStr ts; AStr c]);;
    print kColorPairWhiteOnRed t
  | kMessageTypeOk =>
    c <- lift (cstr (econtent e));;
    t <- lift (printf (lit "[%s] [SERVER] %s" ++ [eol]) [AStr ts; AStr c]);;
    print kColorPairRedOnDefault t
  | kMessageTypeLog =>
    u <- lift (cstr (username e));; c <- lift (cstr (econtent e));;
    t <- lift (printf (lit "[%s] [SERVER] [%s] %s" ++ [eol]) [AStr ts; AStr u; AStr c]);;
    print kColorPairRedOnDefault t
  | kMessageTypeMsg =>
    u <- lift (cstr (username e));; c <- lift (cstr (econtent e));;
    color <- (if decide (0 < length u) then GetUserColor u else ret kColorPairDefault);;
    t <- lift (printf (lit "[%s] [%s] %s" ++ [eol]) [AStr ts; AStr u; AStr c]);;
    print color t
  | _ =>
    t <- lift (printf (lit "[%s] Received (%d bytes): %s" ++ [eol])
                 [AStr ts; AInt (Z.of_nat (elength e)); AStr (take (elength e) (econtent e))]);;
    print kColorPairDefault t
  end.

(** ** Showing the log *)

(** The entries [line], [line + 1], ... *)
Fixpoint write_lines (count : nat) (line : Z) : cmd (chatwin L T) unit :=
  match count with
  | O => ret tt
  | S count =>
    r <- on_chatlog (seq_item line);;
    (match r with None => ret tt | Some b => UIChatWin_write (entry b) end);;;
    write_lines count (line + 1)
  end.

Definition UIChatWin_updateContent : cmd (chatwin L T) unit :=
  s <- get;;
  let length := seq_length (chatlog s) in
  if (length =? 0)%Z then ret tt else
  modify (set_window []);;;
  match mode s with
  | kChatWinModeLive =>
    let start := wrap_int (to_size (length - pageSize s)) in
    let start := if (start <? 0)%Z then 0%Z else start in
    write_lines (Z.to_nat (length - start)) start
  | kChatWinModeBrowse =>
    let start := currentLine s in
    let fin := wrap_int (to_size (start + pageSize s)) in
    let fin := if (length <=? fin)%Z then length else fin in
    write_lines (Z.to_nat (fin - start)) start
  end.

(** A window of [height] lines and [width] columns, the frame included. *)
Definition UIChatWin_render (height width : Z) : cmd (chatwin L T) unit :=
  let n := (height - 1)%Z in
  modify (set_window []);;;
  modify (set_size n (width - 2) (to_size (n - 1)));;;
  UIChatWin_updateContent.

(** ** Operations *)

Definition UIChatWin_logMessage (calloc_ok : bool) (clock : bytes) (buffer : C2HMessage) : cmd (chatwin L T) unit :=
  if decide (mtype buffer = kMessageTypeQuit) then ret tt else
  e <- lift (ChatLogEntry_create calloc_ok clock buffer);;
  match e with
  | None => ret tt
  | Some e =>
    on_chatlog (seq_append (image e));;;
    s <- get;;
    (if (kMaxCachedLines <? seq_length (chatlog s))%Z then on_chatlog (seq_delete 0);;; ret tt else ret tt);;;
    u <- lift (cstr (username e));;
    c <- lift (cstr (econtent e));;
    (if bool_decide (etype e = kMessageTypeLog) && negb (bool_decide (u = [])) && contains c (lit "left the chat")
     then on_users (tab_delete u);;; ret tt else ret tt);;;
    s <- get;;
    if decide (mode s = kChatWinModeLive) then UIChatWin_write e else ret tt
  end.

Definition UIChatWin_getMode (s : chatwin L T) : UIChatWinMode := mode s.

Definition UIChatWin_setMode (m : UIChatWinMode) : cmd (chatwin L T) unit :=
  s <- get;;
  if decide (mode s = m) then ret tt else
  let length := seq_length (chatlog s) in
  modify (set_mode m);;;
  (match m with
   | kChatWinModeBrowse =>
     if (lines s <? length)%Z then modify (set_currentLine (length - lines s)) else ret tt
   | kChatWinModeLive =>
     if (0 <? length)%Z then modify (set_currentLine (length - 1)) else ret tt
   end);;;
  UIChatWin_updateContent.

Definition UIChatWin_previousPage : cmd (chatwin L T) unit :=
  s <- get;;
  let line := wrap_int (to_size (currentLine s - pageSize s)) in
  modify (set_currentLine (if (line <? 0)%Z then 0%Z else line));;;
  UIChatWin_updateContent.

Definition UIChatWin_nextPage : cmd (chatwin L T) unit :=
  s <- get;;
  let length := seq_length (chatlog s) in
  if (currentLine s <? wrap_int (to_size (length - pageSize s)))%Z then
    let line := wrap_int (to_size (currentLine s + pageSize s)) in
    modify (set_currentLine (if (length <? line)%Z then line - (length - 1) else line)%Z);;;
    UIChatWin_updateContent
  else ret tt.
End Chat.
