(* ===== verification/ChatSpec.v ===== *)
(** * Properties of the chat window

    Against the interfaces of ClientStores.v: what is cached and shown after
    any sequence of messages, page keys and resizes, and the colours. *)

From S2P Require Import Prelude.
From S2P Require Import CStr.
From S2P Require Import MessageLib.
From S2P Require Import MessageSpec.
From S2P Require Import ClientStores.
From S2P Require Import ChatLog.

(** ** The end of a list *)

Definition lastn {A} (n : nat) (l : list A) : list A := drop (length l - n) l.

Section Lastn.
Context {A : Type}.
Implicit Types (l k : list A).

Lemma lastn_all n l : length l ≤ n → lastn n l = l.
Proof. intros H. unfold lastn. by replace (length l - n) with 0 by lia. Qed.

Lemma length_lastn n l : length (lastn n l) = n `min` length l.
Proof. unfold lastn. rewrite length_drop. lia. Qed.

Lemma lastn_app n l k : lastn n (lastn n l ++ k) = lastn n (l ++ k).
Proof.
  unfold lastn. rewrite !length_app, length_drop.
  rewrite !drop_app. rewrite drop_drop, length_drop. f_equal; f_equal; lia.
Qed.

Lemma lastn_snoc_agree n l l' x : lastn n l = lastn n l' → lastn n (l ++ [x]) = lastn n (l' ++ [x]).
Proof. intros H. by rewrite <- lastn_app, H, lastn_app. Qed.

Lemma lastn_lastn n m l : n ≤ m → lastn n (lastn m l) = lastn n l.
Proof.
  intros H. unfold lastn. rewrite length_drop, drop_drop. f_equal. lia.
Qed.

Lemma lastn_fmap {B} (f : A → B) n l : lastn n (f <$> l) = f <$> lastn n l.
Proof. unfold lastn. by rewrite length_fmap, fmap_drop. Qed.
End Lastn.

(** ** Machine arithmetic *)

Lemma wrap_int_to_size z : (INT_MIN ≤ z ≤ INT_MAX)%Z → wrap_int (to_size z) = z.
Proof.
  intros H. rewrite <- (wrap_int_id z H) at 2. unfold wrap_int, to_size, SIZE_MOD. f_equal.
  rewrite (Z.mod_eq z 18446744073709551616) by lia.
  replace (z - 18446744073709551616 * (z / 18446744073709551616) + 2147483648)%Z
    with (z + 2147483648 + (- (4294967296 * (z / 18446744073709551616))) * 4294967296)%Z by lia.
  apply Z_mod_plus_full.
Qed.

Lemma int_value_bytes z : (0 ≤ z ≤ INT_MAX)%Z → int_value (int_bytes z) = z.
Proof.
  intros H. unfold int_value, int_bytes, UINT_MOD, INT_MAX in *. rewrite Z.mod_small by lia.
  rewrite le_bytes_value.
  - rewrite Z2N.id by lia. apply wrap_int_id. unfold INT_MIN, INT_MAX. lia.
  - change (256 ^ N.of_nat 4)%N with 4294967296%N. lia.
Qed.

(** ** Lines of the log *)

Record cline : Type := CLine { l_time : bytes; l_type : C2HMessageType; l_text : bytes; l_user : bytes }.

Definition good_line (l : cline) : Prop :=
  (NUL ∉ l_time l) ∧ length (l_time l) < kTimestampSize
  ∧ (NUL ∉ l_text l) ∧ l_text l ≠ [] ∧ length (l_text l) < kBroadcastBufferSize
  ∧ (NUL ∉ l_user l) ∧ length (l_user l) ≤ kMaxNicknameSize.

Definition entry_of (l : cline) : ChatLogEntry :=
  MkEntry (array kTimestampSize (l_time l)) (l_type l) (array kBroadcastBufferSize (l_text l))
    (length (l_text l)) (array (kMaxNicknameSize + 1) (l_user l)).

(** What is printed for a line. *)
Definition line_text (l : cline) : bytes :=
  lit "[" ++ l_time l ++ lit "] " ++
  match l_type l with
  | kMessageTypeErr => lit "[ERROR] " ++ l_text l
  | kMessageTypeOk => lit "[SERVER] " ++ l_text l
  | kMessageTypeLog => lit "[SERVER] [" ++ l_user l ++ lit "] " ++ l_text l
  | kMessageTypeMsg => lit "[" ++ l_user l ++ lit "] " ++ l_text l
  | _ => lit "Received (" ++ decimal (Z.of_nat (length (l_text l))) ++ lit " bytes): " ++ l_text l
  end ++ [eol].

(** The text of an array that holds a string. *)
Definition ctext (a : bytes) : bytes := match cstr a with Done t => t | Stuck _ => [] end.

Definition terminated_message (b : C2HMessage) : Prop :=
  ∃ c u, cstr (content b) = Done c ∧ length c < kBroadcastBufferSize
    ∧ cstr (user b) = Done u ∧ length u ≤ kMaxNicknameSize.

Definition good_clock (clock : bytes) : Prop := (NUL ∉ clock) ∧ length clock < kTimestampSize.

Lemma strncpy_array n src s : cstr src = Done s → length s ≤ n →
  strncpy (replicate (n + 1) NUL) src n = Done (array (n + 1) s).
Proof.
  intros Hs Hl. destruct (text_inv _ _ _ Hs) as (rest & -> & Hn).
  rewrite strncpy_run by (rewrite ?length_replicate; (done || lia)).
  rewrite drop_replicate. unfold array. f_equal. rewrite <- replicate_add. f_equal. f_equal. lia.
Qed.

Lemma ChatLogEntry_create_run clock b : good_clock clock → terminated_message b →
  ChatLogEntry_create true clock b =
    Done (if decide (ctext (content b) = []) then None
          else Some (entry_of (CLine clock (mtype b) (ctext (content b)) (ctext (user b)))))
  ∧ (ctext (content b) ≠ [] → good_line (CLine clock (mtype b) (ctext (content b)) (ctext (user b)))).
Proof.
  intros [Ht Htl] (c & u & Hc & Hcl & Hu & Hul). unfold ctext. rewrite Hc, Hu.
  destruct (text_inv _ _ _ Hc) as (rc & _ & Hcn). destruct (text_inv _ _ _ Hu) as (ru & _ & Hun).
  split; [|intros Hne; unfold good_line; cbn [l_time l_text l_user]; by split_and!].
  unfold ChatLogEntry_create. cbn [negb]. rewrite decide_True by done.
  rewrite memcpy_array by done. cbn [outcome_bind].
  change kBroadcastBufferSize with ((kBroadcastBufferSize - 1) + 1) at 1.
  rewrite (strncpy_array _ _ c) by (done || lia). cbn [outcome_bind].
  change (kBroadcastBufferSize - 1 + 1) with kBroadcastBufferSize.
  unfold strlen. change (text NUL) with cstr. rewrite array_text by done. cbn [outcome_bind].
  destruct (decide (c = [])) as [->|Hne]; [by rewrite decide_True|].
  rewrite decide_False by (by destruct c). rewrite (strncpy_array _ _ u) by done. done.
Qed.

(** ** The window over its containers *)

Section ChatSpec.
Context {L T : Type} `{Sequence L} `{Table T}.
Context (rand : nat → Z) (image : ChatLogEntry → bytes) (entry : bytes → ChatLogEntry).
(** [rand()] is not negative; a copied entry is read back as it was. *)
Context (Hrand : ∀ n, (0 ≤ rand n)%Z) (Hentry : ∀ e, entry (image e) = e).
Implicit Types (s : chatwin L T) (es : list cline) (m : gmap bytes bytes).

Lemma tab_holds_le n k t m : n ≤ k → tab_holds k t m → tab_holds n t m.
Proof. induction 1 as [|k Hk IH]; [done|]. intros Hh. by apply IH, tab_holds_less. Qed.

Lemma seq_holds_le n k l xs : n ≤ k → seq_holds k l xs → seq_holds n l xs.
Proof. induction 1 as [|k Hk IH]; [done|]. intros Hh. by apply IH, seq_holds_less. Qed.

(** The part of the state that printing leaves alone. *)
Definition frame s s' : Prop :=
  chatlog s' = chatlog s ∧ colors s' = colors s ∧ extendedColors s' = extendedColors s ∧ mode s' = mode s
  ∧ currentLine s' = currentLine s ∧ lines s' = lines s ∧ pageSize s' = pageSize s ∧ cols s' = cols s.

Definition colors_ok s : Prop := (0 < colors s ≤ 1000000 ∧ nextColor s ≤ colors s + 8)%Z.

(** [s'] is [s] after the texts [ts] were printed; users may have got a
    colour, [k] more may get one. *)
Definition printed (k : nat) (ts : list bytes) s s' m m' : Prop :=
  frame s s' ∧ colors_ok s' ∧ tab_holds k (users s') m' ∧ m ⊆ m'
  ∧ (window s').*2 = (window s).*2 ++ ts.

Lemma printed_trans k k' ts ts' s1 s2 s3 m1 m2 m3 :
  printed k ts s1 s2 m1 m2 → printed k' ts' s2 s3 m2 m3 → printed k' (ts ++ ts') s1 s3 m1 m3.
Proof.
  intros ((?&?&?&?&?&?&?&?) & _ & _ & ? & Hw) ((?&?&?&?&?&?&?&?) & ? & ? & ? & Hw').
  split; [repeat split; congruence|]. split_and!; [done|done|by etrans|].
  by rewrite Hw', Hw, <- app_assoc.
Qed.

Lemma on_users_run {A} (c : cmd T A) s a t : c (users s) = Done (a, t) → on_users c s = Done (a, set_users t s).
Proof. unfold on_users. by intros ->. Qed.

Lemma on_chatlog_run {A} (c : cmd L A) s a l : c (chatlog s) = Done (a, l) → on_chatlog c s = Done (a, set_chatlog l s).
Proof. unfold on_chatlog. by intros ->. Qed.

Lemma set_chatlog_id s : set_chatlog (chatlog s) s = s.
Proof. by destruct s. Qed.

(** The colour of a user: the one it has, or a new one that is kept. *)
Lemma GetUserColor_run u k s m : table_key u → colors_ok s → tab_holds (S k) (users s) m →
  ∃ c s' m', GetUserColor rand u s = Done (c, s') ∧ frame s s' ∧ window s' = window s ∧ colors_ok s'
    ∧ tab_holds k (users s') m' ∧ m ⊆ m' ∧ (∃ v, m' !! u = Some v ∧ int_value v = c)
    ∧ (m !! u = None → (0 ≤ c ≤ colors s + 8)%Z)
    ∧ (is_Some (m !! u) → m' = m).
Proof.
  intros Hu Hc Hh. unfold GetUserColor. rewrite bind_get.
  set (d := if (nextColor s <? 0)%Z then _ else _).
  assert (E : ∃ s1, d s = Done (tt, s1) ∧ frame s s1 ∧ window s1 = window s ∧ users s1 = users s
    ∧ colors_ok s1 ∧ (0 ≤ nextColor s1)%Z).
  { unfold d, colors_ok in *. destruct (Z.ltb_spec (nextColor s) 0).
    - eexists. split; [reflexivity|]. cbn. pose proof (Z.rem_bound_pos (rand (drawn s)) (colors s) (Hrand _)).
      split_and!; try done; unfold kColorPairWhiteOnRed; destruct (extendedColors s); lia.
    - exists s. split_and!; try done; lia. }
  destruct E as (s1 & E & F & W & U & C & P). run E. clear E d.
  destruct (tab_get_ok (S k) (users s1) m u Hu) as (t & Hg & Hh'); [by rewrite U|].
  run (on_users_run _ _ _ _ Hg). destruct (m !! u) as [v|] eqn:Hv.
  - exists (int_value v), (set_users t s1), m. split_and!; try done; [by apply tab_holds_less|by exists v].
  - rewrite bind_get. cbn [nextColor set_users]. unfold colors_ok in C.
    unfold lift at 1. erewrite bind_Done by (rewrite int_add_Done by (unfold INT_MIN, INT_MAX; lia); reflexivity).
    rewrite bind_modify. cbn [colors set_users].
    destruct (tab_set_ok k t m u (int_bytes (nextColor s1)) Hu Hh') as (t' & Hs & Hh2).
    erewrite bind_Done by (apply on_users_run; cbn; exact Hs).
    eexists _, _, _. split; [reflexivity|]. destruct F as (?&?&?&?&?&?&?&?).
    split; [by repeat split|]. split; [done|]. split; [|split; [exact Hh2|split; [by apply insert_subseteq|split]]].
    + destruct (Z.ltb_spec (colors s1) (nextColor s1 + 1)); unfold colors_ok; cbn; lia.
    + exists (int_bytes (nextColor s1)). rewrite lookup_insert_eq. split; [done|].
      apply int_value_bytes. unfold INT_MAX. lia.
    + split; [|by intros [? ?]]. intros _. replace (colors s) with (colors s1) by done. lia.
Qed.

Lemma good_line_key l : good_line l → table_key (l_user l).
Proof. intros (_&_&_&_&_&?&?). split; [done|unfold kMaxNicknameSize in *; lia]. Qed.

Lemma printf_S u f args r : printf f args = Done r → printf (lit "%s" ++ f) (AStr u :: args) = Done (u ++ r).
Proof. intros E. cbn. by rewrite E. Qed.

Lemma print_run c t s : print c t s = Done (tt, set_window (window s ++ [(c, t)]) s).
Proof. done. Qed.

(** Printing one line. *)
Lemma write_run l k s m : good_line l → colors_ok s → tab_holds (S k) (users s) m →
  ∃ s' m', UIChatWin_write rand (entry_of l) s = Done (tt, s') ∧ printed k [line_text l] s s' m m'.
Proof.
  intros G C Hh. pose proof G as (T1 & T2 & C1 & C0 & C2 & U1 & U2).
  remember (line_text l) as x eqn:Ex.
  assert (step : ∀ c s1 m1, frame s s1 → window s1 = window s → colors_ok s1 → tab_holds k (users s1) m1 → m ⊆ m1 →
    printed k [x] s (set_window (window s1 ++ [(c, x)]) s1) m m1).
  { intros c s1 m1 F W C' H1 H2. split; [exact F|]. split_and!; try done. cbn. by rewrite fmap_app, W. }
  unfold UIChatWin_write. cbn [elength entry_of etype timestamp econtent username].
  rewrite decide_False by (by destruct (l_text l)).
  assert (Et : cstr (array kTimestampSize (l_time l)) = Done (l_time l)) by (by apply array_text).
  assert (Ec : cstr (array kBroadcastBufferSize (l_text l)) = Done (l_text l)) by (by apply array_text).
  assert (Eu : cstr (array (kMaxNicknameSize + 1) (l_user l)) = Done (l_user l)) by (apply array_text; (done || lia)).
  assert (Ea : take (length (l_text l)) (array kBroadcastBufferSize (l_text l)) = l_text l) by (unfold array; apply take_app_length).
  rewrite Et, Ec, Eu, Ea. unfold lift at 1. cbn [bind].
  pose proof (tab_holds_less _ _ _ Hh) as Hl.
  assert (same : ∀ c t, t = x → ∃ s' m', print c t s = Done (tt, s') ∧ printed k [x] s s' m m').
  { intros c t ->. exists (set_window (window s ++ [(c, x)]) s), m. split; [done|]. by apply step. }
  unfold line_text in Ex.
  destruct (l_type l); try (apply same; rewrite Ex; cbn; by rewrite <- ?app_assoc).
  assert (Em : printf (lit "[%s] [%s] %s" ++ [eol]) [AStr (l_time l); AStr (l_user l); AStr (l_text l)] = Done x)
    by (rewrite Ex; cbn; by rewrite <- ?app_assoc).
  unfold lift at 1 2. cbn [bind]. rewrite Em. case_decide as Hz.
  - destruct (GetUserColor_run (l_user l) k s m (good_line_key l G) C Hh)
      as (c & s1 & m1 & Hr & F & W & C' & H1 & H2 & _).
    exists (set_window (window s1 ++ [(c, x)]) s1), m1. split; [|by apply step].
    unfold bind. by rewrite Hr.
  - by apply same.
Qed.

(** *** Showing a page *)

Definition log_of es : list bytes := (λ l, image (entry_of l)) <$> es.

Lemma write_lines_run n es c : ∀ i s m k, i + c ≤ length es → seq_holds n (chatlog s) (log_of es) →
  Forall good_line es → colors_ok s → tab_holds (c + k) (users s) m →
  ∃ s' m', write_lines rand entry c (Z.of_nat i) s = Done (tt, s')
    ∧ printed k (line_text <$> take c (drop i es)) s s' m m'.
Proof.
  induction c as [|c IH]; intros i s m k Hi Hq G C Hh.
  - exists s, m. split; [done|]. split; [by repeat split|]. split_and!; [done..|]. by rewrite app_nil_r.
  - destruct (lookup_lt_is_Some_2 es i) as [l Hl]; [lia|]. cbn [write_lines].
    assert (Hit : log_of es !! i = Some (image (entry_of l))) by (unfold log_of; by rewrite list_lookup_fmap, Hl).
    run (on_chatlog_run _ _ _ _ (seq_item_ok _ _ _ _ _ Hq Hit)). rewrite set_chatlog_id, Hentry.
    assert (Gl : good_line l) by (eapply Forall_lookup_1; eassumption).
    destruct (write_run l (c + k) s m Gl C Hh) as (s1 & m1 & Hr & P1). run Hr.
    replace (Z.of_nat i + 1)%Z with (Z.of_nat (S i)) by lia.
    pose proof P1 as ((Hc&_) & C1 & H1 & _).
    destruct (IH (S i) s1 m1 k) as (s2 & m2 & Hr2 & P2); [lia|by rewrite Hc|done..|].
    exists s2, m2. split; [done|]. rewrite (drop_S _ _ _ Hl). cbn [take fmap list_fmap].
    exact (printed_trans _ _ [line_text l] _ _ _ _ _ _ _ P1 P2).
Qed.

(** The state of the window, but for what is printed: the lines that are
    cached, and the colours of the users. *)
Record base (n k : nat) s es m : Prop := {
  b_log : seq_holds n (chatlog s) (log_of es);
  b_len : length es ≤ 100;
  b_good : Forall good_line es;
  b_users : tab_holds k (users s) m;
  b_colors : colors_ok s;
  b_current : (0 ≤ currentLine s ≤ Z.of_nat (length es))%Z;
  b_lines : (2 ≤ lines s ≤ 1000000)%Z;
  b_page : pageSize s = (lines s - 1)%Z
}.

Lemma base_printed n k k' ts s s' es m m' : base n k s es m → printed k' ts s s' m m' → base n k' s' es m'.
Proof.
  intros [] ((E1&E2&E3&E4&E5&E6&E7&_) & ? & ? & _). split; rewrite ?E1, ?E5, ?E6, ?E7; done.
Qed.

Lemma base_window n k s es m w : base n k s es m → base n k (set_window w s) es m.
Proof. by intros []. Qed.

(** The lines a page shows. *)
Definition shown s es : list cline :=
  match mode s with
  | kChatWinModeLive => lastn (Z.to_nat (pageSize s)) es
  | kChatWinModeBrowse => take (Z.to_nat (pageSize s)) (drop (Z.to_nat (currentLine s)) es)
  end.

Lemma updateContent_run n k s es m : base n (100 + k) s es m →
  ∃ s' m', UIChatWin_updateContent rand entry s = Done (tt, s') ∧ base n k s' es m' ∧ m ⊆ m' ∧ frame s s'
    ∧ (es = [] → s' = s) ∧ (es ≠ [] → (window s').*2 = line_text <$> shown s es).
Proof.
  intros B. pose proof B as [Bl Bn Bg Bu Bc B0 B1 B2]. unfold UIChatWin_updateContent. rewrite bind_get.
  rewrite (seq_length_ok _ _ _ Bl). unfold log_of at 1. rewrite length_fmap.
  destruct (decide (es = [])) as [->|Hne].
  { exists s, m. split; [done|]. split; [split; try done; eapply tab_holds_le, Bu; lia|].
    split; [done|]. split; [by repeat split|done]. }
  rewrite (proj2 (Z.eqb_neq _ 0)) by (destruct es; [done|cbn; lia]). rewrite bind_modify.
  pose proof (base_window _ _ _ _ _ [] B) as Bw. unfold log_of. rewrite length_fmap.
  set (N := Z.of_nat (length es)).
  assert (page : ∀ c i z, z = Z.of_nat i → i + c ≤ length es → take c (drop i es) = shown s es →
    ∃ s' m', write_lines rand entry c z (set_window [] s) = Done (tt, s') ∧ base n k s' es m' ∧ m ⊆ m'
      ∧ frame s s' ∧ (es = [] → s' = s) ∧ (es ≠ [] → (window s').*2 = line_text <$> shown s es)).
  { intros c i z -> Hi Hs. destruct (write_lines_run n es c i (set_window [] s) m k) as (s' & m' & Hr & P);
      [done|exact Bl|done|exact Bc|eapply tab_holds_le, Bu; lia|].
    exists s', m'. split; [done|]. split; [by eapply base_printed|]. pose proof P as (F & _ & _ & Hm & W).
    split; [done|]. split; [exact F|]. split; [done|]. intros _. by rewrite W, Hs. }
  destruct (mode s) eqn:Em.
  - set (st := wrap_int _). assert (Est : st = (N - pageSize s)%Z).
    { apply wrap_int_to_size. unfold INT_MIN, INT_MAX, N in *. lia. }
    rewrite Est. destruct (Z.ltb_spec (N - pageSize s) 0).
    + replace (Z.to_nat (N - 0)) with (length es) by lia. apply page with 0; [done|lia|].
      unfold shown. rewrite Em, drop_0, take_ge by done. symmetry. apply lastn_all. lia.
    + apply page with (Z.to_nat (N - pageSize s)); [lia|lia|].
      unfold shown, lastn. rewrite Em, take_ge by (rewrite length_drop; lia). f_equal. lia.
  - set (f := wrap_int _). assert (Ef : f = (currentLine s + pageSize s)%Z).
    { apply wrap_int_to_size. unfold INT_MIN, INT_MAX, N in *. lia. }
    rewrite Ef.
    destruct (Z.leb_spec N (currentLine s + pageSize s)); (apply page with (Z.to_nat (currentLine s)); [lia|lia|]).
    + unfold shown. rewrite Em, !take_ge by (rewrite length_drop; lia). done.
    + unfold shown. rewrite Em. f_equal. lia.
Qed.

(** *** Events *)

(** What happens to the window: messages that arrive, with whether the
    entry's memory is there and the time; the mode; page keys; a resize. *)
Inductive chat_event : Type :=
  | ELog (calloc_ok : bool) (clock : bytes) (buffer : C2HMessage)
  | EMode (mode : UIChatWinMode)
  | EPageUp
  | EPageDown
  | ERender (height width : Z).

Definition run_event (e : chat_event) : cmd (chatwin L T) unit :=
  match e with
  | ELog ok clock b => UIChatWin_logMessage rand image ok clock b
  | EMode m => UIChatWin_setMode rand entry m
  | EPageUp => UIChatWin_previousPage rand entry
  | EPageDown => UIChatWin_nextPage rand entry
  | ERender h w => UIChatWin_render rand entry h w
  end.

Fixpoint run_events (evs : list chat_event) : cmd (chatwin L T) unit :=
  match evs with [] => ret tt | e :: evs => run_event e;;; run_events evs end.

Definition good_event (e : chat_event) : Prop :=
  match e with
  | ELog _ clock b => good_clock clock ∧ terminated_message b
  | ERender h _ => (3 ≤ h ≤ 1000001)%Z
  | _ => True
  end.

(** The line a message adds to the log. *)
Definition accepted (e : chat_event) : list cline :=
  match e with
  | ELog true clock b =>
    if decide (mtype b = kMessageTypeQuit ∨ ctext (content b) = []) then []
    else [CLine clock (mtype b) (ctext (content b)) (ctext (user b))]
  | _ => []
  end.

(** A message that says that [u] has left. *)
Definition departs (e : chat_event) (u : bytes) : Prop :=
  ∃ l, l ∈ accepted e ∧ l_type l = kMessageTypeLog ∧ l_user l = u ∧ contains (l_text l) (lit "left the chat") = true.

Definition keeps (e : chat_event) m m' : Prop := ∀ u v, m !! u = Some v → ¬ departs e u → m' !! u = Some v.

(** What is on display while the newest lines are followed. *)
Definition visible s : nat := Z.to_nat (pageSize s) `min` 100.
Definition live s es : Prop :=
  (es = [] → window s = []) ∧
  (mode s = kChatWinModeLive → lastn (visible s) (window s).*2 = lastn (visible s) (line_text <$> es)).

Definition chat_ok (n k : nat) s es m : Prop := base n k s es m ∧ live s es.

Lemma base_le n n' k k' s es m : n ≤ n' → k ≤ k' → base n' k' s es m → base n k s es m.
Proof. intros Hn Hk []. split; try done; [by eapply seq_holds_le|by eapply tab_holds_le]. Qed.

Lemma keeps_subseteq e m m' : m ⊆ m' → keeps e m m'.
Proof. intros Hm u v Hu _. by eapply lookup_weaken. Qed.

(** Any change of mode, line or size, followed by an update. *)
Lemma update_ok n k s es m e : base n (100 + k) s es m → (es = [] → window s = []) →
  ∃ s' m', UIChatWin_updateContent rand entry s = Done (tt, s') ∧ chat_ok n k s' es m' ∧ keeps e m m' ∧ frame s s'
    ∧ (es ≠ [] → (window s').*2 = line_text <$> shown s es).
Proof.
  intros B W. destruct (updateContent_run n k s es m B) as (s' & m' & Hr & B' & Hm & F & H1 & H2).
  exists s', m'. split; [done|]. split; [|split; [by apply keeps_subseteq|split; [exact F|done]]].
  split; [exact B'|]. destruct (decide (es = [])) as [->|Hne].
  - rewrite H1 by done. split; [done|]. intros _. by rewrite W.
  - split; [done|]. intros Hm'. rewrite H2 by done. unfold shown, visible.
    destruct F as (_&_&_&Em&_&_&Ep&_). rewrite <- Em, Hm', lastn_fmap, <- lastn_fmap, Ep.
    rewrite <- !lastn_fmap. apply lastn_lastn. lia.
Qed.

Lemma page_base n k s es m line : base n k s es m → (0 ≤ line ≤ Z.of_nat (length es))%Z →
  base n k (set_currentLine line s) es m.
Proof. by intros []. Qed.

Lemma mode_base n k s es m mode : base n k s es m → base n k (set_mode mode s) es m.
Proof. by intros []. Qed.

Lemma log_length n k s es m : base n k s es m → seq_length (chatlog s) = Z.of_nat (length es).
Proof. intros []. erewrite seq_length_ok by done. unfold log_of. by rewrite length_fmap. Qed.

Lemma small n k s es m z : base n k s es m → (-1000000 ≤ z ≤ 1000000)%Z → wrap_int (to_size z) = z.
Proof. intros _ Hz. apply wrap_int_to_size. unfold INT_MIN, INT_MAX. lia. Qed.

(** [event_ok e]: the event runs and keeps the state. *)
Definition event_ok (e : chat_event) : Prop := ∀ n k s es m, chat_ok (2 + n) (100 + k) s es m →
  ∃ s' m', run_event e s = Done (tt, s')
    ∧ chat_ok n k s' (lastn 100 (es ++ accepted e)) m' ∧ keeps e m m'.

Lemma no_lines s es m n k : base n k s es m → lastn 100 (es ++ []) = es.
Proof. intros B. rewrite app_nil_r. apply lastn_all, B. Qed.

Lemma nothing n k s es m e : chat_ok (2 + n) (100 + k) s es m →
  chat_ok n k s (lastn 100 (es ++ [])) m ∧ keeps e m m.
Proof.
  intros [B V]. rewrite (no_lines _ _ _ _ _ B). split; [|by apply keeps_subseteq].
  split; [|exact V]. eapply base_le, B; lia.
Qed.

Lemma setMode_ok mode : event_ok (EMode mode).
Proof.
  intros n k s es m [B V]. cbn [run_event accepted]. unfold UIChatWin_setMode. rewrite bind_get.
  destruct (decide _); [exists s, m; split; [done|]; by apply nothing|].
  rewrite bind_modify, (log_length _ _ _ _ _ B), (no_lines _ _ _ _ _ B). pose proof B as [].
  apply (base_le n (2 + n) (100 + k) (100 + k)) in B; [|lia..]. apply (mode_base _ _ _ _ _ mode) in B.
  assert (upd : ∀ s1, base n (100 + k) s1 es m → window s1 = window s →
    ∃ s' m', UIChatWin_updateContent rand entry s1 = Done (tt, s') ∧ chat_ok n k s' es m' ∧ keeps (EMode mode) m m').
  { intros s1 B1 W. destruct (update_ok n k s1 es m (EMode mode) B1) as (s' & m' & ? & ? & ? & _).
    - rewrite W. apply V.
    - by exists s', m'. }
  destruct mode; case_match; rewrite ?bind_modify; (apply upd; [|done]); try done; apply page_base; try done; lia.
Qed.

Lemma previousPage_run n k s es m : base n (100 + k) s es m → (es = [] → window s = []) →
  ∃ s' m', UIChatWin_previousPage rand entry s = Done (tt, s') ∧ chat_ok n k s' es m' ∧ keeps EPageUp m m'
    ∧ frame (set_currentLine (0 `max` (currentLine s - pageSize s)) s) s'
    ∧ (es ≠ [] → (window s').*2 = line_text <$> shown s' es).
Proof.
  intros B W. unfold UIChatWin_previousPage. rewrite bind_get, bind_modify. pose proof B as [].
  rewrite (small _ _ _ _ _ _ B) by lia.
  replace (if (currentLine s - pageSize s <? 0)%Z then 0%Z else _) with (0 `max` (currentLine s - pageSize s))%Z
    by (destruct (Z.ltb_spec (currentLine s - pageSize s) 0); lia).
  destruct (update_ok n k (set_currentLine (0 `max` (currentLine s - pageSize s)) s) es m EPageUp)
    as (s' & m' & Hr & Hok & Hk & F & Hw); [apply page_base; [done|lia]|exact W|].
  exists s', m'. split_and!; try done. unfold shown in *. destruct F as (_&_&_&Em&Ec&_&Ep&_).
  by rewrite Em, Ec, Ep.
Qed.

Lemma nextPage_run n k s es m : base n (100 + k) s es m → (es = [] → window s = []) →
  (currentLine s + pageSize s < Z.of_nat (length es))%Z →
  ∃ s' m', UIChatWin_nextPage rand entry s = Done (tt, s') ∧ chat_ok n k s' es m' ∧ keeps EPageDown m m'
    ∧ frame (set_currentLine (currentLine s + pageSize s) s) s'
    ∧ (es ≠ [] → (window s').*2 = line_text <$> shown s' es).
Proof.
  intros B W Hlt. unfold UIChatWin_nextPage. rewrite bind_get, (log_length _ _ _ _ _ B). pose proof B as [].
  rewrite !(small _ _ _ _ _ _ B) by lia. rewrite (proj2 (Z.ltb_lt _ _)) by lia. rewrite bind_modify.
  rewrite (proj2 (Z.ltb_ge _ _)) by lia.
  destruct (update_ok n k (set_currentLine (currentLine s + pageSize s) s) es m EPageDown)
    as (s' & m' & Hr & Hok & Hk & F & Hw); [apply page_base; [done|lia]|exact W|].
  exists s', m'. split_and!; try done. unfold shown in *. destruct F as (_&_&_&Em&Ec&_&Ep&_).
  by rewrite Em, Ec, Ep.
Qed.

Lemma pages_ok : event_ok EPageUp ∧ event_ok EPageDown.
Proof.
  split; intros n k s es m [B V]; pose proof (base_le n (2 + n) (100 + k) (100 + k) _ _ _ ltac:(lia) ltac:(lia) B) as B';
    cbn [accepted run_event].
  - rewrite (no_lines _ _ _ _ _ B).
    destruct (previousPage_run n k s es m B' (proj1 V)) as (s' & m' & ? & ? & ? & _). by exists s', m'.
  - destruct (Z.ltb_spec (currentLine s + pageSize s) (Z.of_nat (length es))).
    + rewrite (no_lines _ _ _ _ _ B).
      destruct (nextPage_run n k s es m B' (proj1 V)) as (s' & m' & ? & ? & ? & _); [done|]. by exists s', m'.
    + exists s, m. split; [|by apply nothing]. unfold UIChatWin_nextPage.
      rewrite bind_get, (log_length _ _ _ _ _ B). pose proof B as [].
      rewrite (small _ _ _ _ _ _ B) by lia. by rewrite (proj2 (Z.ltb_ge _ _)) by lia.
Qed.

Lemma render_ok h w : (3 ≤ h ≤ 1000001)%Z → event_ok (ERender h w).
Proof.
  intros Hh n k s es m [B V]. cbn [run_event accepted]. rewrite (no_lines _ _ _ _ _ B).
  unfold UIChatWin_render. rewrite !bind_modify.
  assert (Ep : to_size (h - 1 - 1) = (h - 1 - 1)%Z) by (unfold to_size, SIZE_MOD; rewrite Z.mod_small; lia).
  rewrite Ep. edestruct (update_ok n k (set_size (h - 1) (w - 2) (h - 1 - 1) (set_window [] s)) es m (ERender h w))
    as (s' & m' & ? & ? & ? & _).
  - destruct B. split; cbn; try done; [by eapply seq_holds_le; [|done]; lia|lia].
  - done.
  - by exists s', m'.
Qed.

(** *** A message *)

(** Appending an entry, and dropping the oldest one when there are too many. *)
Lemma append_run n k s es m l : base (2 + n) k s es m → good_line l →
  ∃ q, base n k (set_chatlog q s) (lastn 100 (es ++ [l])) m ∧
    ∀ A (K : cmd (chatwin L T) A),
      (on_chatlog (seq_append (image (entry_of l)));;;
       s <- get;;
       (if (kMaxCachedLines <? seq_length (chatlog s))%Z then on_chatlog (seq_delete 0);;; ret tt else ret tt);;;
       K) s = K (set_chatlog q s).
Proof.
  intros B G. pose proof B as [Bl Bn Bg Bu Bc B0 B1 B2].
  destruct (seq_append_ok _ _ _ (image (entry_of l)) Bl) as (q & Hq & Hh).
  change [image (entry_of l)] with (log_of [l]) in Hh. unfold log_of in Hh. rewrite <- fmap_app in Hh.
  assert (Gs : Forall good_line (es ++ [l])) by (apply Forall_app; split; [done|by constructor]).
  assert (mk : ∀ q' es', seq_holds n q' (log_of es') → es' = lastn 100 (es ++ [l]) → Forall good_line es' →
    length es ≤ length es' → base n k (set_chatlog q' s) es' m).
  { intros q' es' Hs -> Gs' Hl. split; try done; [|cbn; lia]. rewrite length_lastn. lia. }
  pose proof (seq_length_ok _ _ _ Hh) as Hlen. rewrite length_fmap, length_app in Hlen. cbn [length] in Hlen.
  unfold kMaxCachedLines. destruct (Z.ltb_spec 100 (seq_length q)) as [Hlt|Hle].
  - destruct es as [|x es]; [cbn in Hlen; lia|]. cbn in Hlen, Bn.
    destruct (seq_delete_ok _ _ _ _ Hh) as (q' & Hd & Hh').
    exists q'. split.
    + assert (E : es ++ [l] = lastn 100 ((x :: es) ++ [l])).
      { unfold lastn. rewrite length_app. cbn [length app]. replace (S (length es) + 1 - 100) with 1 by lia. done. }
      rewrite <- E. apply mk; [exact Hh'|done| |rewrite length_app; cbn; lia]. by inversion Gs.
    + intros A K. run (on_chatlog_run _ _ _ _ Hq). rewrite bind_get. cbn [chatlog set_chatlog].
      rewrite (proj2 (Z.ltb_lt _ _)) by done. rewrite bind_bind.
      by run (on_chatlog_run _ (set_chatlog q s) _ _ Hd).
  - exists q. split.
    + rewrite lastn_all by (rewrite length_app; cbn; lia).
      apply mk; [eapply seq_holds_le, Hh; lia| |done|rewrite length_app; lia].
      symmetry. apply lastn_all. rewrite length_app. cbn. lia.
    + intros A K. run (on_chatlog_run _ _ _ _ Hq). rewrite bind_get. cbn [chatlog set_chatlog].
      by rewrite (proj2 (Z.ltb_ge _ _)) by done.
Qed.

(** A user that leaves loses its colour. *)
Lemma leave_run n k s es m l e : base n (100 + k) s es m → good_line l → accepted e = [l] →
  ∃ t m', (if bool_decide (l_type l = kMessageTypeLog) && negb (bool_decide (l_user l = []))
              && contains (l_text l) (lit "left the chat")
           then on_users (tab_delete (l_user l));;; ret tt else ret tt) s = Done (tt, set_users t s)
    ∧ base n (100 + k) (set_users t s) es m' ∧ keeps e m m'.
Proof.
  intros B G He. pose proof B as [Bl Bn Bg Bu Bc B0 B1 B2]. destruct (_ && contains _ _) eqn:E.
  - apply andb_prop in E as [[E1%bool_decide_eq_true _]%andb_prop E3].
    destruct (tab_delete_ok _ _ _ _ (good_line_key l G) Bu) as (t & Ht & Hh).
    exists t, (delete (l_user l) m). run (on_users_run _ _ _ _ Ht). split; [done|]. split; [by split|].
    intros u v Hu Hd. rewrite lookup_delete_ne; [done|]. intros <-. apply Hd. exists l. rewrite He.
    split; [by left|done].
  - exists (users s), m. split; [by destruct s|]. split; [by split|by apply keeps_subseteq].
Qed.

Lemma logMessage_ok ok clock b : good_clock clock → terminated_message b → event_ok (ELog ok clock b).
Proof.
  intros Gt Gb n k s es m [B V]. destruct (ChatLogEntry_create_run clock b Gt Gb) as [Hc Hg].
  assert (skip : accepted (ELog ok clock b) = [] → run_event (ELog ok clock b) s = Done (tt, s) →
    ∃ s' m', run_event (ELog ok clock b) s = Done (tt, s')
      ∧ chat_ok n k s' (lastn 100 (es ++ accepted (ELog ok clock b))) m' ∧ keeps (ELog ok clock b) m m').
  { intros -> Hr. exists s, m. split; [done|]. apply nothing. by split. }
  cbn [run_event] in *. unfold UIChatWin_logMessage in *. cbn [accepted] in *.
  destruct (decide (mtype b = kMessageTypeQuit)) as [Eq|Eq].
  { apply skip; [|done]. destruct ok; [|done]. by rewrite decide_True by (by left). }
  destruct ok; [|by apply skip]. rewrite Hc in *. destruct (decide (ctext (content b) = [])) as [Ec|Ec].
  { apply skip; [|done]. by rewrite decide_True by (by right). }
  clear skip. assert (Ea : accepted (ELog true clock b) = [CLine clock (mtype b) (ctext (content b)) (ctext (user b))]).
  { cbn [accepted]. rewrite decide_False; [done|]. by intros [?|?]. }
  rewrite decide_False by (by intros [?|?]). specialize (Hg Ec). revert Ea Hg.
  generalize (CLine clock (mtype b) (ctext (content b)) (ctext (user b))). intros l Ea Hg.
  unfold lift at 1. cbn [bind].
  destruct (append_run n (100 + k) s es m l B Hg) as (q & B1 & Hr). rewrite Hr. clear Hr.
  pose proof Hg as (T1 & T2 & C1 & C0 & C2 & U1 & U2). cbn [econtent username entry_of etype].
  rewrite !array_text by (done || lia). unfold lift at 1 2. cbn [bind].
  destruct (leave_run n k _ _ m l _ B1 Hg Ea) as (t & m1 & Hl & B2 & K1).
  erewrite bind_Done by exact Hl. rewrite bind_get. cbn [mode set_users set_chatlog].
  set (s1 := set_users t (set_chatlog q s)) in *.
  assert (Hne : lastn 100 (es ++ [l]) ≠ []).
  { intros E%(f_equal length). rewrite length_lastn, length_app in E. cbn [length] in E. lia. }
  destruct (decide (mode s = kChatWinModeLive)) as [El|El].
  - assert (P : ∃ s' m', UIChatWin_write rand (entry_of l) s1 = Done (tt, s') ∧ printed k [line_text l] s1 s' m1 m').
    { apply write_run; [done|apply B2|]. eapply tab_holds_le, B2. lia. }
    destruct P as (s' & m' & Hw & P). exists s', m'. split; [exact Hw|]. pose proof P as (F & _ & _ & Hm & W).
    split; [split; [by eapply base_printed|]|intros u v Hu Hd; by eapply lookup_weaken, Hm; apply K1].
    split; [done|]. intros _. destruct F as (_&_&_&_&_&_&Ep&_). unfold visible. rewrite Ep, W. cbn [pageSize window s1 set_users set_chatlog].
    rewrite <- (lastn_fmap line_text 100), lastn_lastn, fmap_app by lia.
    apply lastn_snoc_agree. by apply V.
  - exists s1, m1. split; [done|]. split; [|done]. split; [eapply base_le, B2; lia|]. by split.
Qed.

(** *** Theorems *)

Lemma every_event e : good_event e → event_ok e.
Proof.
  destruct e as [ok clock b|m| | |h w]; cbn.
  - intros [? ?]. by apply logMessage_ok.
  - intros _. apply setMode_ok.
  - intros _. apply pages_ok.
  - intros _. apply pages_ok.
  - apply render_ok.
Qed.

Definition all_accepted (evs : list chat_event) : list cline := evs ≫= accepted.

Lemma run_events_ok evs : ∀ n k s es m, Forall good_event evs →
  chat_ok (2 * length evs + n) (100 * length evs + k) s es m →
  ∃ s' m', run_events evs s = Done (tt, s') ∧ chat_ok n k s' (lastn 100 (es ++ all_accepted evs)) m'
    ∧ ∀ u v, m !! u = Some v → Forall (λ e, ¬ departs e u) evs → m' !! u = Some v.
Proof.
  induction evs as [|e evs IH]; intros n k s es m G C.
  - exists s, m. split; [done|]. split; [|done]. cbn in C |- *.
    rewrite app_nil_r, lastn_all; [exact C|]. apply C.
  - inversion G as [|? ? Ge Gs]; subst.
    destruct (every_event e Ge (2 * length evs + n) (100 * length evs + k) s es m) as (s1 & m1 & Hr & C1 & K1).
    { replace (2 + (2 * length evs + n)) with (2 * length (e :: evs) + n) by (cbn; lia).
      by replace (100 + (100 * length evs + k)) with (100 * length (e :: evs) + k) by (cbn; lia). }
    destruct (IH n k s1 _ m1 Gs C1) as (s2 & m2 & Hr2 & C2 & K2). exists s2, m2. split; [cbn; by run Hr|].
    split.
    + unfold all_accepted in *. cbn [mbind list_bind] in *. by rewrite lastn_app, <- app_assoc in C2.
    + intros u v Hu Hd. inversion Hd; subst. apply K2; [|done]. by apply K1.
Qed.

(** C17. Whatever arrives and whatever keys are pressed, the chat window
    never gets stuck and caches the last hundred messages with a text, in the
    order of their arrival; while it follows the chat its last lines are
    those of the newest messages; and the line a page starts at stays
    inside the log. *)
Theorem chat_log_kept evs s es m : Forall good_event evs →
  chat_ok (2 * length evs) (100 * length evs) s es m →
  ∃ s', run_events evs s = Done (tt, s')
    ∧ seq_holds 0 (chatlog s') (log_of (lastn 100 (es ++ all_accepted evs)))
    ∧ (0 ≤ currentLine s' ≤ Z.of_nat (length (lastn 100 (es ++ all_accepted evs))))%Z
    ∧ (mode s' = kChatWinModeLive →
       lastn (visible s') (window s').*2 = lastn (visible s') (line_text <$> lastn 100 (es ++ all_accepted evs))).
Proof.
  intros G C. destruct (run_events_ok evs 0 0 s es m G) as (s' & m' & Hr & [[] V] & _); [by rewrite !Nat.add_0_r|].
  exists s'. split_and!; try done; try lia. apply V.
Qed.

(** A user keeps the colour it is given, whatever happens in the window,
    until a message says that it has left. *)
Theorem user_color_kept evs u s es m : table_key u → Forall good_event evs →
  Forall (λ e, ¬ departs e u) evs → chat_ok (2 * length evs) (100 * length evs + 2) s es m →
  ∃ c s1 s2 s3, GetUserColor rand u s = Done (c, s1) ∧ run_events evs s1 = Done (tt, s2)
    ∧ GetUserColor rand u s2 = Done (c, s3).
Proof.
  intros Hu G Hd [B V]. replace (100 * length evs + 2) with (S (100 * length evs + 1)) in B by lia.
  destruct (GetUserColor_run u (100 * length evs + 1) s m Hu (b_colors _ _ _ _ _ B) (b_users _ _ _ _ _ B))
    as (c & s1 & m1 & Hr & F & W & C1 & H1 & Hm & (v & Hv & Ev) & _).
  destruct (run_events_ok evs 0 1 s1 es m1 G) as (s2 & m2 & Hr2 & [B2 _] & K2).
  { rewrite Nat.add_0_r. destruct F as (F1&F2&F3&F4&F5&F6&F7&_). split.
    - destruct B. split; rewrite ?F1, ?F2, ?F5, ?F6, ?F7; done.
    - unfold live, visible. by rewrite F4, F7, W. }
  destruct (GetUserColor_run u 0 s2 m2 Hu (b_colors _ _ _ _ _ B2) (b_users _ _ _ _ _ B2))
    as (c' & s3 & m3 & Hr3 & _ & _ & _ & _ & Hm3 & (v' & Hv' & Ev') & _).
  exists c, s1, s2, s3. split_and!; [done|done|]. rewrite Hr3. do 2 f_equal.
  pose proof (lookup_weaken _ _ _ _ (K2 u v Hv Hd) Hm3) as E. congruence.
Qed.

(** *** Paging *)

Lemma run_events_app evs evs' s s' : run_events evs s = Done (tt, s') →
  run_events (evs ++ evs') s = run_events evs' s'.
Proof.
  revert s. induction evs as [|e evs IH]; intros s Hr; cbn [app run_events] in *; [by injection Hr as ->|].
  apply bind_inv in Hr as ([] & t & He & Hr). run He. by apply IH.
Qed.

(** The size of the window. *)
Definition size_of s : Z * Z * Z := (pageSize s, lines s, cols s).

(** A page is on display: the state after at least one page key. *)
Definition browsing (k : nat) (line : Z) s es m : Prop :=
  base 0 k s es m ∧ mode s = kChatWinModeBrowse ∧ currentLine s = line ∧ (window s).*2 = line_text <$> shown s es.

Lemma up_run k s es m : es ≠ [] → base 0 (100 + k) s es m → mode s = kChatWinModeBrowse →
  ∃ s' m', run_event EPageUp s = Done (tt, s') ∧ browsing k (0 `max` (currentLine s - pageSize s)) s' es m'
    ∧ size_of s' = size_of s.
Proof.
  intros Hne B Hm. destruct (previousPage_run 0 k s es m B ltac:(done)) as (s' & m' & Hr & [B' _] & _ & F & W).
  destruct F as (_&_&_&Em&Ec&El&Ep&Eo). cbn in El, Ep, Eo. exists s', m'. split; [done|]. split; [|unfold size_of; congruence].
  split; [done|]. split; [by rewrite Em|]. split; [done|]. by apply W.
Qed.

Lemma ups_run a : ∀ k s es m, es ≠ [] → base 0 (100 * S a + k) s es m → mode s = kChatWinModeBrowse →
  ∃ s' m', run_events (replicate (S a) EPageUp) s = Done (tt, s')
    ∧ browsing k (0 `max` (currentLine s - Z.of_nat (S a) * pageSize s)) s' es m' ∧ size_of s' = size_of s.
Proof.
  induction a as [|a IH]; intros k s es m Hne B Hm.
  - destruct (up_run k s es m Hne) as (s' & m' & Hr & B' & Ep); [by replace (100 + k) with (100 * 1 + k) by lia|done|].
    exists s', m'. split; [cbn [replicate run_events]; by run Hr|].
    by replace (currentLine s - Z.of_nat 1 * pageSize s)%Z with (currentLine s - pageSize s)%Z by lia.
  - destruct (up_run (100 * S a + k) s es m Hne) as (s1 & m1 & Hr & (B1 & M1 & C1 & _) & Ep);
      [by replace (100 + (100 * S a + k)) with (100 * S (S a) + k) by lia|done|].
    destruct (IH k s1 es m1 Hne B1 M1) as (s2 & m2 & Hr2 & B2 & Ep2). exists s2, m2.
    split; [change (replicate (S (S a)) EPageUp) with (EPageUp :: replicate (S a) EPageUp); cbn [run_events]; by run Hr|].
    split; [|congruence]. injection Ep as Ep El Eo. rewrite C1, Ep in B2. pose proof (b_page _ _ _ _ _ B). pose proof (b_lines _ _ _ _ _ B).
    assert (0 ≤ Z.of_nat (S a) * pageSize s)%Z by (apply Z.mul_nonneg_nonneg; lia). rewrite (Nat2Z.inj_succ (S a)), Z.mul_succ_l.
    by replace (0 `max` (currentLine s - (Z.of_nat (S a) * pageSize s + pageSize s)))%Z
      with (0 `max` (0 `max` (currentLine s - pageSize s) - Z.of_nat (S a) * pageSize s))%Z by lia.
Qed.

Lemma downs_run b : ∀ k s es m line, browsing (100 * b + k) line s es m →
  (line + Z.of_nat b * pageSize s < Z.of_nat (length es))%Z →
  ∃ s' m', run_events (replicate b EPageDown) s = Done (tt, s')
    ∧ browsing k (line + Z.of_nat b * pageSize s) s' es m' ∧ size_of s' = size_of s.
Proof.
  induction b as [|b IH]; intros k s es m line B Hlt.
  - exists s, m. split; [done|]. by rewrite Z.add_0_r.
  - destruct B as (B & M & C & W). pose proof (b_page _ _ _ _ _ B). pose proof (b_lines _ _ _ _ _ B).
    assert (0 ≤ Z.of_nat b * pageSize s)%Z by (apply Z.mul_nonneg_nonneg; lia).
    assert (Hne : es ≠ []) by (intros ->; pose proof (b_current _ _ _ _ _ B); cbn in *; lia).
    destruct (nextPage_run 0 (100 * b + k) s es m) as (s1 & m1 & Hr & [B1 _] & _ & F & W1);
      [by replace (100 + (100 * b + k)) with (100 * S b + k) by lia|done|lia|].
    destruct F as (_&_&_&Em&Ec&El&Ep&Eo). cbn in Em, Ec, El, Ep, Eo.
    destruct (IH k s1 es m1 (line + pageSize s)%Z) as (s2 & m2 & Hr2 & B2 & Ep2).
    + split; [done|]. split; [by rewrite Em|]. split; [by rewrite Ec, C|by apply W1].
    + rewrite Ep. lia.
    + exists s2, m2. split; [cbn [replicate run_events run_event]; by run Hr|]. split; [|rewrite Ep2; unfold size_of; congruence].
      rewrite Ep in B2. by replace (line + Z.of_nat (S b) * pageSize s)%Z with (line + pageSize s + Z.of_nat b * pageSize s)%Z by lia.
Qed.

(** *** What can be seen *)

Section Screen.
Context (typeset : nat → bytes → list bytes).

(** The rows of a line in a window of [w] columns. *)
Definition line_rows (w : nat) (l : cline) : list bytes := typeset w (line_text l).

(** All the rows of a line are on the screen, together. *)
Definition in_view (l : cline) s : Prop := ∃ up down, view typeset s = up ++ line_rows (Z.to_nat (cols s)) l ++ down.

(** The lines [ls] leave the last row of a window of [h] rows free. *)
Definition fits (h w : nat) (ls : list cline) : Prop := length (ls ≫= line_rows w) < h.

Lemma lines_rows w ls : (line_text <$> ls) ≫= typeset w = ls ≫= line_rows w.
Proof. induction ls as [|l ls IH]; [done|]. cbn. by rewrite <- IH. Qed.

(** A line is seen when it and those after it leave the last row free. *)
Lemma line_in_view s ls1 l ls2 : (window s).*2 = line_text <$> ls1 ++ l :: ls2 →
  fits (Z.to_nat (lines s)) (Z.to_nat (cols s)) (l :: ls2) → in_view l s.
Proof.
  intros W F. unfold in_view, view, screen_rows. rewrite W, lines_rows, bind_app.
  set (w := Z.to_nat (cols s)) in *. unfold fits in F. cbn [mbind list_bind] in F |- *.
  set (A := ls1 ≫= line_rows w). set (B := (ls2 ≫= line_rows w) ++ [[]]).
  replace ((A ++ line_rows w l ++ (ls2 ≫= line_rows w)) ++ [[]]) with (A ++ line_rows w l ++ B) by (unfold B; by rewrite !app_assoc).
  exists (drop (length (A ++ line_rows w l ++ B) - Z.to_nat (lines s)) A), B. apply drop_app_le.
  rewrite !length_app in *. unfold B. rewrite length_app. cbn [length] in *. lia.
Qed.

(** Lines of one row each, of which a page never has too many. *)
Lemma single_rows_fit h w ls : Forall (λ l, length (line_rows w l) = 1) ls → length ls < h → fits h w ls.
Proof.
  intros F. unfold fits. assert (E : length (ls ≫= line_rows w) = length ls); [|by rewrite E].
  induction F as [|l ls Hl _ IH]; [done|]. change ((l :: ls) ≫= line_rows w) with (line_rows w l ++ (ls ≫= line_rows w)).
  by rewrite length_app, Hl, IH.
Qed.

(** C32. In browse mode every cached line can be brought to the screen with the
    page keys, as long as the lines after it on its page leave room: a number
    of page-ups that the position gives leads to the oldest page, and from
    there as many page-downs as there are pages before it show all the rows of
    the line, when it and the rest of its page take fewer rows than the window
    has.  That is so whenever they are shorter than a row
    ([single_rows_fit], [Printing.short_row]); with lines that wrap it may
    fail, and then no page key shows the line ([wrapped_line_hidden]).  How
    ncurses breaks a text into rows is a parameter. *)
Theorem every_line_reachable s es m (i : nat) l :
  mode s = kChatWinModeBrowse → es !! i = Some l →
  let up := S (Z.to_nat (currentLine s / pageSize s)) in
  let down := i / Z.to_nat (pageSize s) in
  let page := take (Z.to_nat (pageSize s)) (drop (down * Z.to_nat (pageSize s)) es) in
  fits (Z.to_nat (lines s)) (Z.to_nat (cols s)) (drop (i mod Z.to_nat (pageSize s)) page) →
  chat_ok 0 (100 * up + 100 * down) s es m →
  ∃ s', run_events (replicate up EPageUp ++ replicate down EPageDown) s = Done (tt, s')
    ∧ mode s' = kChatWinModeBrowse ∧ (window s').*2 = line_text <$> page ∧ in_view l s'.
Proof.
  intros M Hl up down page F [B _]. assert (Hne : es ≠ []) by (by intros ->).
  pose proof (lookup_lt_Some _ _ _ Hl) as Hi. pose proof (b_page _ _ _ _ _ B). pose proof (b_lines _ _ _ _ _ B).
  pose proof (b_current _ _ _ _ _ B) as Hc.
  destruct (ups_run (Z.to_nat (currentLine s / pageSize s)) (100 * down) s es m Hne B M) as (s1 & m1 & Hr1 & B1 & Z1).
  injection Z1 as Ep1 El1 Ec1. fold up in Hr1, B1.
  assert (Hup : (0 `max` (currentLine s - Z.of_nat up * pageSize s) = 0)%Z).
  { pose proof (Z.div_pos (currentLine s) (pageSize s)). pose proof (Z.mod_pos_bound (currentLine s) (pageSize s)).
    pose proof (Z.div_mod (currentLine s) (pageSize s)). unfold up. nia. }
  rewrite Hup in B1. set (P := Z.to_nat (pageSize s)) in *. assert (HP : pageSize s = Z.of_nat P) by lia.
  pose proof (Nat.div_mod_eq i P). pose proof (Nat.mod_upper_bound i P).
  destruct (downs_run down 0 s1 es m1 0) as (s2 & m2 & Hr2 & (B2 & M2 & C2 & W2) & Z2).
  { by rewrite Nat.add_0_r. } { rewrite Ep1, HP. unfold down. nia. }
  injection Z2 as Ep2 El2 Ec2.
  assert (W : (window s2).*2 = line_text <$> page).
  { rewrite W2. unfold shown. rewrite M2, C2, Ep2, Ep1, HP, Nat2Z.id. unfold page. do 3 f_equal. lia. }
  exists s2. split; [by rewrite (run_events_app _ _ _ _ Hr1)|]. split_and!; [done|done|].
  assert (Hp : page !! (i mod P) = Some l).
  { unfold page. rewrite lookup_take, lookup_drop, decide_True by lia. unfold down. by replace (i / P * P + i mod P) with i by lia. }
  apply (line_in_view s2 (take (i mod P) page) l (drop (S (i mod P)) page)).
  - rewrite W. by rewrite take_drop_middle.
  - by rewrite El2, Ec2, El1, Ec1, <- (drop_S _ _ _ Hp).
Qed.
End Screen.

(** Whatever page keys are pressed, a page of the log is on display. *)
Lemma page_keys_show evs : Forall (λ e, e = EPageUp ∨ e = EPageDown) evs → ∀ k s es m line,
  browsing (100 * length evs + k) line s es m → es ≠ [] →
  ∃ s' m' line', run_events evs s = Done (tt, s') ∧ browsing k line' s' es m' ∧ size_of s' = size_of s.
Proof.
  intros F. induction F as [|e evs He _ IH]; intros k s es m line Br Hne; [by exists s, m, line|].
  assert (E : ∃ s1 m1 line1, run_event e s = Done (tt, s1) ∧ browsing (100 * length evs + k) line1 s1 es m1 ∧ size_of s1 = size_of s).
  { pose proof Br as (B & M & C & W). replace (100 * length (e :: evs) + k) with (100 + (100 * length evs + k)) in B by (cbn; lia).
    destruct He as [-> | ->].
    - destruct (up_run (100 * length evs + k) s es m Hne B M) as (s1 & m1 & ? & ? & ?). by exists s1, m1, (0 `max` (currentLine s - pageSize s))%Z.
    - destruct (Z.ltb_spec (currentLine s + pageSize s) (Z.of_nat (length es))).
      + destruct (downs_run 1 (100 * length evs + k) s es m line) as (s1 & m1 & R & ? & ?);
          [by replace (100 * 1 + (100 * length evs + k)) with (100 * length (EPageDown :: evs) + k) by (cbn; lia)|lia|].
        cbn [replicate run_events] in R. apply bind_inv in R as ([] & s1' & R & [= <-]). by exists s1', m1, (line + Z.of_nat 1 * pageSize s)%Z.
      + exists s, m, line. split; [|split; [|done]].
        * cbn [run_event]. unfold UIChatWin_nextPage. rewrite bind_get, (log_length _ _ _ _ _ B).
          pose proof B as []. rewrite (small _ _ _ _ _ _ B) by lia. by rewrite (proj2 (Z.ltb_ge _ _)) by lia.
        * split; [|done]. eapply base_le, B; lia. }
  destruct E as (s1 & m1 & line1 & R1 & B1 & Z1). destruct (IH k s1 es m1 line1 B1 Hne) as (s2 & m2 & line2 & R2 & B2 & Z2).
  exists s2, m2, line2. split; [cbn [run_events]; by run R1|]. split; [done|congruence].
Qed.
End ChatSpec.

(** ** Printing, character by character

    A [typeset] for characters of one byte and one column, as the manual of
    ncurses describes [waddch]: a newline, or a character in the last column,
    takes the cursor to the start of the next row. *)

Module Printing.
(** What was printed: the rows above that of the cursor, and that row. *)
Record pane : Type := Pane { above : list bytes; row : bytes }.

Definition blank_pane : pane := Pane [] [].
Definition next_row (p : pane) : pane := Pane (above p ++ [row p]) [].

Definition waddch (width : nat) (p : pane) (c : ascii) : pane :=
  if decide (c = eol) then next_row p else
  let p := Pane (above p) (row p ++ [c]) in
  if decide (width <= length (row p)) then next_row p else p.

Definition waddstr (width : nat) (p : pane) (t : bytes) : pane := foldl (waddch width) p t.

Definition typeset (width : nat) (t : bytes) : list bytes := above (waddstr width blank_pane t).

Lemma waddch_above w R cur c :
  waddch w (Pane R cur) c = Pane (R ++ above (waddch w (Pane [] cur) c)) (row (waddch w (Pane [] cur) c)).
Proof. unfold waddch, next_row. repeat case_decide; cbn; by rewrite ?app_nil_r. Qed.

Lemma waddstr_above w t : ∀ R cur,
  waddstr w (Pane R cur) t = Pane (R ++ above (waddstr w (Pane [] cur) t)) (row (waddstr w (Pane [] cur) t)).
Proof.
  induction t as [|c t IH]; intros R cur; cbn [waddstr foldl above row]; [by rewrite app_nil_r|].
  rewrite waddch_above. destruct (waddch w (Pane [] cur) c) as [R' cur']. cbn [above row].
  fold (waddstr w (Pane (R ++ R') cur') t) (waddstr w (Pane R' cur') t).
  rewrite (IH (R ++ R')), (IH R'). cbn [above row]. by rewrite app_assoc.
Qed.

Lemma waddstr_eol w p t : row (waddstr w p (t ++ [eol])) = [].
Proof. unfold waddstr. rewrite foldl_app. cbn. unfold waddch. by rewrite decide_True. Qed.

Lemma line_ends l : ∃ t, line_text l = t ++ [eol].
Proof. unfold line_text. rewrite !app_assoc. by eexists. Qed.

(** Printing line after line gives the rows of [screen_rows]. *)
Lemma printing_typesets w ls :
  foldl (waddstr w) blank_pane (line_text <$> ls) = Pane ((line_text <$> ls) ≫= typeset w) [].
Proof.
  induction ls as [|l ls IH] using rev_ind; [done|]. rewrite fmap_app, foldl_app, IH, bind_app. cbn [fmap list_fmap foldl mbind list_bind].
  rewrite waddstr_above, app_nil_r. f_equal. destruct (line_ends l) as [t ->]. apply waddstr_eol.
Qed.

(** A text without line breaks that is shorter than a row takes one. *)
Lemma short_text w t : ∀ cur, eol ∉ t → length cur + length t < w → waddstr w (Pane [] cur) t = Pane [] (cur ++ t).
Proof.
  induction t as [|c t IH]; intros cur Hn Hl; [by rewrite app_nil_r|]. cbn [waddstr foldl length] in *.
  apply not_elem_of_cons in Hn as [Hc Hn]. unfold waddch at 2. rewrite decide_False by congruence. cbn [above row].
  rewrite decide_False by (rewrite length_app; cbn; lia). change (cur ++ c :: t) with (cur ++ [c] ++ t). rewrite app_assoc.
  apply IH; [done|]. rewrite length_app. cbn. lia.
Qed.

Lemma short_row w l t : line_text l = t ++ [eol] → eol ∉ t → length t < w → line_rows typeset w l = [t].
Proof.
  intros E Hn Hl. unfold line_rows, typeset, waddstr. rewrite E, foldl_app. fold (waddstr w blank_pane t).
  unfold blank_pane. rewrite short_text by done. cbn. unfold waddch. by rewrite decide_True.
Qed.
End Printing.

(** ** A concrete window, over list.c and hash.c *)

From S2P Require ListSpec.
From S2P Require HashSpec.

Module ChatSample.
(** Entries as bytes: the binary digits of a code. *)
Definition type_code (t : C2HMessageType) : nat :=
  match t with
  | kMessageTypeNull => 0 | kMessageTypeNick => 1 | kMessageTypeAuth => 2 | kMessageTypeHelp => 3
  | kMessageTypeMsg => 4 | kMessageTypeList => 5 | kMessageTypeQuit => 6 | kMessageTypeOk => 7
  | kMessageTypeErr => 8 | kMessageTypeLog => 9 | kMessageTypeAdmin => 10
  end.

Definition code_type (n : nat) : C2HMessageType :=
  match n with
  | 0 => kMessageTypeNull | 1 => kMessageTypeNick | 2 => kMessageTypeAuth | 3 => kMessageTypeHelp
  | 4 => kMessageTypeMsg | 5 => kMessageTypeList | 6 => kMessageTypeQuit | 7 => kMessageTypeOk
  | 8 => kMessageTypeErr | 9 => kMessageTypeLog | _ => kMessageTypeAdmin
  end.

Fixpoint pos_bytes (p : positive) : bytes :=
  match p with xH => [] | xO p => "0"%char :: pos_bytes p | xI p => "1"%char :: pos_bytes p end.
Fixpoint bytes_pos (bs : bytes) : positive :=
  match bs with [] => xH | b :: bs => if decide (b = "1"%char) then xI (bytes_pos bs) else xO (bytes_pos bs) end.

Lemma bytes_pos_bytes p : bytes_pos (pos_bytes p) = p.
Proof. induction p as [p IH|p IH|]; cbn; by rewrite ?IH. Qed.

Definition fields (e : ChatLogEntry) : bytes * nat * bytes * nat * bytes :=
  (timestamp e, type_code (etype e), econtent e, elength e, username e).
Definition image (e : ChatLogEntry) : bytes := pos_bytes (encode (fields e)).
Definition entry (bs : bytes) : ChatLogEntry :=
  match decode (bytes_pos bs) with
  | Some (t, y, c, n, u) => MkEntry t (code_type y) c n u
  | None => MkEntry [] kMessageTypeNull [] 0 []
  end.

Lemma entry_image e : entry (image e) = e.
Proof.
  unfold entry, image. rewrite bytes_pos_bytes, decode_encode. destruct e as [t y c n u].
  cbn. f_equal. by destruct y.
Qed.

(** A new window of five lines and 78 columns. *)
Definition fresh (n k : nat) : chatwin ListLib.lst HashLib.hst :=
  ChatWin (ListSpec.fresh_list (2 * n)) (HashSpec.fresh_hash (3 * k)) 9 false (-1) 0 kChatWinModeLive 0 5 78 4 [].

Lemma fresh_ok n k : (Z.of_nat n < INT_MAX)%Z → (Z.of_nat k < INT_MAX)%Z → chat_ok image n k (fresh n k) [] ∅.
Proof.
  intros Hn Hk. split; [|by split]. split.
  - change (list_holds n (ListSpec.fresh_list (2 * n)) []). unfold list_holds. cbn.
    split_and!; [lia|lia|]. exists (Some 0). apply ListSpec.fresh_refines.
  - apply Nat.le_0_l.
  - apply Forall_nil_2.
  - change (hash_holds k (HashSpec.fresh_hash (3 * k)) ∅). unfold hash_holds. rewrite map_size_empty. cbn.
    split_and!; [lia|lia|]. exists ∅, HashSpec.no_rows. split; [apply HashSpec.fresh_hash_rep|reflexivity].
  - unfold colors_ok. cbn. lia.
  - cbn. lia.
  - cbn. lia.
  - reflexivity.
Qed.

Definition say (u t : string) : chat_event := ELog true (lit "12:00:00") (message_of kMessageTypeMsg (lit u) (lit t)).
Definition left (u : string) : chat_event :=
  ELog true (lit "12:00:01") (message_of kMessageTypeLog (lit u) (lit "bob left the chat")).
Definition demo : list chat_event := [say "bob" "hello"; say "ann" "hi"; EMode kChatWinModeBrowse; EPageUp; left "bob"; EMode kChatWinModeLive].

Ltac good_say := split; [split; [not_in|unfold kTimestampSize; cbn; lia]|];
  do 2 eexists; split_and!; [vm_compute; reflexivity|vm_compute; lia|vm_compute; reflexivity|vm_compute; lia].

Lemma demo_good : Forall good_event demo.
Proof. repeat (apply Forall_cons; split); try apply Forall_nil; try exact I; good_say. Qed.
End ChatSample.

Lemma chat_log_kept_witness : ∃ s',
  run_events (λ _, 3%Z) ChatSample.image ChatSample.entry ChatSample.demo (ChatSample.fresh 12 600) = Done (tt, s')
  ∧ seq_holds 0 (chatlog s') (log_of ChatSample.image (all_accepted ChatSample.demo)).
Proof.
  destruct (chat_log_kept (λ _, 3%Z) ChatSample.image ChatSample.entry (λ _, ltac:(lia)) ChatSample.entry_image
    ChatSample.demo (ChatSample.fresh 12 600) [] ∅ ChatSample.demo_good) as (s' & H1 & H2 & _).
  - apply (ChatSample.fresh_ok 12 600); unfold INT_MAX; lia.
  - exists s'. split; [exact H1|]. exact H2.
Defined.

Lemma user_color_kept_witness : ∃ c s1 s2 s3,
  GetUserColor (λ _, 3%Z) (lit "eve") (ChatSample.fresh 12 602) = Done (c, s1)
  ∧ run_events (λ _, 3%Z) ChatSample.image ChatSample.entry ChatSample.demo s1 = Done (tt, s2)
  ∧ GetUserColor (λ _, 3%Z) (lit "eve") s2 = Done (c, s3).
Proof.
  apply (user_color_kept (λ _, 3%Z) ChatSample.image ChatSample.entry (λ _, ltac:(lia)) ChatSample.entry_image
    ChatSample.demo (lit "eve") (ChatSample.fresh 12 602) [] ∅).
  - split; [not_in|cbn; lia].
  - exact ChatSample.demo_good.
  - repeat constructor; intros (l & Hl & Ht & Hu & _); vm_compute in Hl;
      repeat (apply elem_of_cons in Hl as [->|Hl]; [vm_compute in Ht, Hu; discriminate|]); by apply not_elem_of_nil in Hl.
  - apply (ChatSample.fresh_ok 12 602); unfold INT_MAX; lia.
Defined.

(** The size and the mode after some events, by computation. *)
Definition size_after (evs : list chat_event) (s : chatwin ListLib.lst HashLib.hst) : option (Z * Z * Z * UIChatWinMode) :=
  match run_events (λ _, 3%Z) ChatSample.image ChatSample.entry evs s with Done (_, s') => Some (size_of s', mode s') | Stuck _ => None end.

Lemma size_after_run evs s s' z m : size_after evs s = Some (z, m) →
  run_events (λ _, 3%Z) ChatSample.image ChatSample.entry evs s = Done (tt, s') → size_of s' = z ∧ mode s' = m.
Proof. unfold size_after. intros H Hr. rewrite Hr in H. by injection H as <- <-. Qed.

Lemma every_line_reachable_witness : ∃ s s' up,
  mode s = kChatWinModeBrowse
  ∧ run_events (λ _, 3%Z) ChatSample.image ChatSample.entry (replicate up EPageUp ++ []) s = Done (tt, s')
  ∧ in_view Printing.typeset (CLine (lit "12:00:00") kMessageTypeMsg (lit "hello") (lit "bob")) s'.
Proof.
  destruct (run_events_ok (λ _, 3%Z) ChatSample.image ChatSample.entry (λ _, ltac:(lia)) ChatSample.entry_image
    (take 2 ChatSample.demo) 0 300 (ChatSample.fresh 4 500) [] ∅) as (s1 & m1 & Hs1 & [B _] & _).
  - apply Forall_take, ChatSample.demo_good.
  - apply (ChatSample.fresh_ok 4 500); unfold INT_MAX; lia.
  - destruct (size_after_run (take 2 ChatSample.demo) (ChatSample.fresh 4 500) s1 (4, 5, 78)%Z kChatWinModeLive) as [Z1 _];
      [vm_compute; reflexivity|exact Hs1|].
    injection Z1 as Ep El Ec. pose proof (b_current _ _ _ _ _ _ B) as Hc.
    set (es := lastn 100 ([] ++ all_accepted (take 2 ChatSample.demo))) in *.
    assert (Hl : es !! 0 = Some (CLine (lit "12:00:00") kMessageTypeMsg (lit "hello") (lit "bob"))) by (vm_compute; reflexivity).
    assert (Hn : length es = 2) by (vm_compute; reflexivity).
    destruct (every_line_reachable (λ _, 3%Z) ChatSample.image ChatSample.entry (λ _, ltac:(lia)) ChatSample.entry_image
      Printing.typeset (set_mode kChatWinModeBrowse s1) es m1 0 _ eq_refl Hl) as (s' & Hr & _ & _ & Hi).
    + cbn [pageSize lines cols set_mode]. rewrite Ep, El, Ec. apply Nat.ltb_lt. vm_compute. reflexivity.
    + split; [|by split; [intros E; rewrite E in Hn|]]. apply mode_base. eapply base_le, B; [lia|].
      cbn [currentLine pageSize set_mode]. rewrite Nat.Div0.div_0_l, Ep.
      pose proof (Z.div_le_upper_bound (currentLine s1) 4 2). lia.
    + rewrite Nat.Div0.div_0_l in Hr. eexists _, s', _. split; [|split; [exact Hr|exact Hi]]. reflexivity.
Defined.

(** Lines that wrap.  Six messages of two hundred characters come to a window
    of five rows, whose pages have four of them.  When browsing has begun, no
    sequence of page keys shows the first row of the first message: on the
    only page with it, the messages below it scroll it away. *)
Definition long_text (c : string) : bytes := concat (replicate 200 (lit c)).
Definition long_messages : list chat_event :=
  (λ c, ELog true (lit "12:00:00") (message_of kMessageTypeMsg (lit "bob") (long_text c))) <$> ["a"; "b"; "c"; "d"; "e"; "f"]%string.
Definition first_long : cline := CLine (lit "12:00:00") kMessageTypeMsg (long_text "a") (lit "bob").

Lemma long_good : Forall good_event (long_messages ++ [EMode kChatWinModeBrowse]).
Proof. repeat (apply Forall_cons; split); try apply Forall_nil; try exact I; ChatSample.good_say. Qed.

(** On no page. *)
Lemma first_row_away line : line ≤ 6 →
  head (line_rows Printing.typeset 78 first_long) = Some (take 78 (line_text first_long))
  ∧ take 78 (line_text first_long) ∉ screen_rows Printing.typeset 5 78 (line_text <$> take 4 (drop line (all_accepted long_messages))).
Proof.
  intros Hl. split; [vm_compute; reflexivity|].
  assert (F : Forall (λ i, bool_decide (take 78 (line_text first_long)
    ∈ screen_rows Printing.typeset 5 78 (line_text <$> take 4 (drop i (all_accepted long_messages)))) = false) (seq 0 7))
    by (repeat constructor; vm_compute; reflexivity).
  rewrite Forall_forall in F. specialize (F line). rewrite bool_decide_eq_false in F. apply F, elem_of_seq. lia.
Qed.

Lemma hidden (s : chatwin ListLib.lst HashLib.hst) es : (window s).*2 = line_text <$> shown s es → es = all_accepted long_messages → mode s = kChatWinModeBrowse →
  size_of s = (4, 5, 78)%Z → (0 ≤ currentLine s ≤ 6)%Z → ¬ in_view Printing.typeset first_long s.
Proof.
  intros W -> M Z Hc (up & down & V). injection Z as Ep El Ec.
  destruct (first_row_away (Z.to_nat (currentLine s))) as [Hh Hno]; [lia|]. apply Hno.
  unfold view in V. rewrite W, El, Ec in V. unfold shown in V. rewrite M, Ep in V.
  change (Z.to_nat 5) with 5 in V. change (Z.to_nat 78) with 78 in V. change (Z.to_nat 4) with 4 in V. rewrite V.
  destruct (line_rows Printing.typeset 78 first_long) as [|r rs]; [done|]. injection Hh as ->. rewrite !elem_of_app. right. left. by left.
Qed.

Lemma wrapped_line_hidden evs : (Z.of_nat (length evs) < 1000000)%Z → Forall (λ e, e = EPageUp ∨ e = EPageDown) evs → ∃ s',
  run_events (λ _, 3%Z) ChatSample.image ChatSample.entry (long_messages ++ EMode kChatWinModeBrowse :: EPageUp :: evs)
    (ChatSample.fresh 14 (800 + 100 * length evs)) = Done (tt, s')
  ∧ seq_holds 0 (chatlog s') (log_of ChatSample.image (all_accepted long_messages))
  ∧ all_accepted long_messages !! 0 = Some first_long ∧ ¬ in_view Printing.typeset first_long s'.
Proof.
  intros Hn F. set (s0 := ChatSample.fresh 14 (800 + 100 * length evs)).
  set (first := long_messages ++ [EMode kChatWinModeBrowse]).
  assert (C0 : chat_ok ChatSample.image (2 * length first + 0) (100 * length first + (100 + 100 * length evs)) s0 [] ∅).
  { change (length first) with 7. replace (100 * 7 + (100 + 100 * length evs)) with (800 + 100 * length evs) by lia.
    apply ChatSample.fresh_ok; unfold INT_MAX; lia. }
  destruct (run_events_ok (λ _, 3%Z) ChatSample.image ChatSample.entry (λ _, ltac:(lia)) ChatSample.entry_image
    first 0 (100 + 100 * length evs) s0 [] ∅ long_good C0) as (s1 & m1 & H1 & [B1 _] & _).
  destruct (size_after_run first s0 s1 (4, 5, 78)%Z kChatWinModeBrowse) as [Z1 M1]; [vm_compute; reflexivity|exact H1|].
  assert (E0 : lastn 100 ([] ++ all_accepted first) = all_accepted long_messages) by (vm_compute; reflexivity). rewrite E0 in B1.
  assert (E1 : all_accepted long_messages !! 0 = Some first_long) by (vm_compute; reflexivity).
  assert (E2 : length (all_accepted long_messages) = 6) by (vm_compute; reflexivity).
  remember (all_accepted long_messages) as es eqn:Ees. assert (Hne : es ≠ []) by (by intros ->).
  change (long_messages ++ EMode kChatWinModeBrowse :: EPageUp :: evs) with (first ++ EPageUp :: evs). clearbody s0 first.
  destruct (up_run (λ _, 3%Z) ChatSample.image ChatSample.entry (λ _, ltac:(lia)) ChatSample.entry_image
    (100 * length evs) s1 es m1 Hne B1 M1) as (s2 & m2 & H2 & B2 & Z2).
  rewrite <- (Nat.add_0_r (100 * length evs)) in B2.
  destruct (page_keys_show (λ _, 3%Z) ChatSample.image ChatSample.entry (λ _, ltac:(lia)) ChatSample.entry_image
    evs F 0 s2 es m2 _ B2 Hne) as (s3 & m3 & line & H3 & (B3 & M3 & _ & W3) & Z3).
  exists s3. split; [|split; [exact (b_log _ _ _ _ _ _ B3)|split; [done|]]].
  - rewrite (run_events_app _ _ _ _ _ _ _ H1). cbn [run_events]. by run H2.
  - apply (hidden s3 _ W3 Ees M3); [congruence|]. pose proof (b_current _ _ _ _ _ _ B3). lia.
Qed.

(** ** Two oddities *)

(** The page that browsing starts with leaves out the newest line. *)
Lemma browse_starts_short {L T} `{Sequence L} `{Table T} rand image entry (s : chatwin L T) es m n k
    (Hrand : ∀ i, (0 ≤ rand i)%Z) (Hentry : ∀ e, entry (image e) = e) :
  chat_ok image n (100 + k) s es m → mode s = kChatWinModeLive → (lines s < Z.of_nat (length es))%Z →
  ∃ s', UIChatWin_setMode rand entry kChatWinModeBrowse s = Done (tt, s')
    ∧ (window s').*2 = line_text <$> take (Z.to_nat (pageSize s)) (drop (length es - S (Z.to_nat (pageSize s))) es).
Proof.
  intros [B V] M Hl. pose proof (b_lines _ _ _ _ _ _ B). pose proof (b_page _ _ _ _ _ _ B).
  unfold UIChatWin_setMode. rewrite bind_get, decide_False by (by rewrite M).
  rewrite bind_modify, (log_length image _ _ _ _ _ B). rewrite (proj2 (Z.ltb_lt _ _)) by done. rewrite bind_modify.
  destruct (update_ok rand image entry Hrand Hentry n k
    (set_currentLine (Z.of_nat (length es) - lines s) (set_mode kChatWinModeBrowse s)) es m EPageUp)
    as (s' & m' & Hr & _ & _ & _ & W).
  - apply page_base; [by apply mode_base|lia].
  - apply V.
  - exists s'. split; [done|]. rewrite W by (intros ->; cbn in *; lia). unfold shown. cbn. do 3 f_equal. lia.
Qed.

(** With the nine pairs of a plain terminal a user can be given pair 9,
    which is not one of them. *)
Lemma color_beyond_pairs :
  let s := ChatSample.fresh 10 10 in
  match (GetUserColor (λ _, 8%Z) (lit "ann");;; GetUserColor (λ _, 8%Z) (lit "bob")) s with
  | Done (c, _) => c = colors s
  | Stuck _ => False
  end.
Proof. vm_compute. reflexivity. Qed.
