(* ===== verification/InputWindow.v ===== *)
(** * The input window of the client (src/client/uiinput.c)

    The counters and the buffer of the message that is being typed, over a
    window of the screen library.  The window is an interface: what the
    library documents of the calls for characters one column wide. *)

From S2P Require Import Prelude.

(** ** Windows of ncurses *)

Definition space : Z := 32.

(** Rows of cells and a cursor; a call answers whether it succeeded. *)
Class Window (W : Type) : Type := {
  getyx : W → Z * Z;
  getmaxyx : W → Z * Z;
  rows : W → list (list Z);
  wmove : Z → Z → W → bool * W;
  waddwstr : Z → W → bool * W;
  wins_wstr : Z → W → bool * W;
  mvwdelch : Z → Z → W → bool * W;
  mvwinnwstr : Z → Z → Z → W → option (list Z) * W;
  wclear : W → W;
  (** A character of one column. *)
  narrow : Z → Prop;
  rows_size w : length (rows w) = Z.to_nat (getmaxyx w).1
    ∧ Forall (λ r, length r = Z.to_nat (getmaxyx w).2) (rows w);
  wmove_in w y x : (0 ≤ y < (getmaxyx w).1)%Z → (0 ≤ x < (getmaxyx w).2)%Z →
    ∃ w', wmove y x w = (true, w') ∧ getyx w' = (y, x) ∧ getmaxyx w' = getmaxyx w ∧ rows w' = rows w;
  wmove_out w y x : ¬ ((0 ≤ y < (getmaxyx w).1)%Z ∧ (0 ≤ x < (getmaxyx w).2)%Z) → wmove y x w = (false, w);
  waddwstr_in w c y x r : narrow c → getyx w = (y, x) → (0 ≤ y)%Z → (0 ≤ x)%Z → (x + 1 < (getmaxyx w).2)%Z →
    rows w !! Z.to_nat y = Some r →
    ∃ w', waddwstr c w = (true, w') ∧ getyx w' = (y, x + 1)%Z ∧ getmaxyx w' = getmaxyx w
      ∧ rows w' = <[Z.to_nat y := <[Z.to_nat x := c]> r]> (rows w);
  wins_wstr_in w c y x r : narrow c → getyx w = (y, x) → (0 ≤ y)%Z → (0 ≤ x < (getmaxyx w).2)%Z →
    rows w !! Z.to_nat y = Some r →
    ∃ w', wins_wstr c w = (true, w') ∧ getyx w' = (y, x) ∧ getmaxyx w' = getmaxyx w
      ∧ rows w' = <[Z.to_nat y := take (length r) (take (Z.to_nat x) r ++ c :: drop (Z.to_nat x) r)]> (rows w);
  mvwdelch_in w y x r : (0 ≤ y)%Z → (0 ≤ x < (getmaxyx w).2)%Z → rows w !! Z.to_nat y = Some r →
    ∃ w', mvwdelch y x w = (true, w') ∧ getyx w' = (y, x) ∧ getmaxyx w' = getmaxyx w
      ∧ rows w' = <[Z.to_nat y := take (Z.to_nat x) r ++ drop (S (Z.to_nat x)) r ++ [space]]> (rows w);
  mvwinnwstr_in w y n r : (0 ≤ y)%Z → (0 ≤ n)%Z → (0 < (getmaxyx w).2)%Z → rows w !! Z.to_nat y = Some r →
    ∃ w', mvwinnwstr y 0 n w = (Some (take (Z.to_nat n) r), w') ∧ getmaxyx w' = getmaxyx w ∧ rows w' = rows w;
  wclear_ok w : getyx (wclear w) = (0, 0)%Z ∧ getmaxyx (wclear w) = getmaxyx w
    ∧ rows (wclear w) = replicate (Z.to_nat (getmaxyx w).1) (replicate (Z.to_nat (getmaxyx w).2) space)
}.

(** ** State *)

Record UIInputWin (W : Type) : Type := MkInput {
  handle : W;
  ilines : Z;
  icols : Z;
  iy : Z;
  ix : Z;
  cursor : Z;
  eom : Z;
  eob : Z;
  buffer : option (list Z)
}.
Arguments MkInput {W}.
Arguments handle {W}.
Arguments ilines {W}.
Arguments icols {W}.
Arguments iy {W}.
Arguments ix {W}.
Arguments cursor {W}.
Arguments eom {W}.
Arguments eob {W}.
Arguments buffer {W}.

Section Input.
Context {W : Type} `{Window W}.

(** Control characters and the columns of a character, in the locale. *)
Context (iswcntrl : Z → bool) (wcwidth : Z → Z).

Definition with_handle (w : W) (s : UIInputWin W) : UIInputWin W := MkInput w (ilines s) (icols s) (iy s) (ix s) (cursor s) (eom s) (eob s) (buffer s).
Definition with_position (n m y x : Z) (s : UIInputWin W) : UIInputWin W := MkInput (handle s) n m y x (cursor s) (eom s) (eob s) (buffer s).
Definition with_counters (c e : Z) (s : UIInputWin W) : UIInputWin W := MkInput (handle s) (ilines s) (icols s) (iy s) (ix s) c e (eob s) (buffer s).
Definition with_limit (b : Z) (s : UIInputWin W) : UIInputWin W := MkInput (handle s) (ilines s) (icols s) (iy s) (ix s) (cursor s) (eom s) b (buffer s).
Definition with_buffer (b : option (list Z)) (s : UIInputWin W) : UIInputWin W := MkInput (handle s) (ilines s) (icols s) (iy s) (ix s) (cursor s) (eom s) (eob s) b.

Definition call {A} (f : W → A * W) : cmd (UIInputWin W) A :=
  λ s, let '(a, w) := f (handle s) in Done (a, with_handle w s).

(** Both counters move by [d]. *)
Definition advance (d : Z) : cmd (UIInputWin W) unit :=
  s <- get;;
  c <- lift (int_add (cursor s) d);; e <- lift (int_add (eom s) d);;
  modify (with_counters c e).

(** [UIInputWin_locate] *)
Definition UIInputWin_locate : cmd (UIInputWin W) unit :=
  modify (λ s, with_position (getmaxyx (handle s)).1 (getmaxyx (handle s)).2
                 (getyx (handle s)).1 (getyx (handle s)).2 s).

(** The new windows of a resize. *)
Definition UIInputWin_render (w : W) : cmd (UIInputWin W) unit :=
  modify (with_handle w);;; UIInputWin_locate.

(** ** Editing *)

Definition UIInputWin_delete : cmd (UIInputWin W) unit :=
  UIInputWin_locate;;;
  s <- get;;
  if (0 <? cursor s)%Z then
    let '(newY, newX) := (if (ix s =? 0)%Z then (iy s - 1, icols s - 1) else (iy s, ix s - 1))%Z in
    ok <- call (mvwdelch newY newX);;
    if ok then advance (-1) else ret tt
  else ret tt.

Definition UIInputWin_addChar (ch : Z) : cmd (UIInputWin W) unit :=
  UIInputWin_locate;;;
  s <- get;;
  if (cursor s <? eob s)%Z && negb (iswcntrl ch) then
    let wccols := wcwidth ch in
    (if (cursor s =? eom s)%Z then
       ok <- call (waddwstr ch);; if ok then advance wccols else ret tt
     else ret tt);;;
    s <- get;;
    if (cursor s <? eom s)%Z then
      ok <- call (wins_wstr ch);;
      if ok then
        moved <- (if (ix s <? icols s)%Z then call (wmove (iy s) (ix s + wccols)) else ret false);;
        if moved then advance wccols else
        down <- call (wmove (iy s + 1) 0);;
        if down then advance wccols else ret tt
      else ret tt
    else ret tt
  else ret tt.

(** ** Reading the message *)

(** What the library stores at an index of the buffer: the characters it read
    and a terminator. *)
Definition store (at_ : nat) (cs : list Z) (b : list Z) : outcome (list Z) :=
  if decide (at_ + length cs < length b)
  then Done (take at_ b ++ cs ++ 0%Z :: drop (S (at_ + length cs)) b) else Stuck OutOfBounds.

(** The loop over the lines; [cur] is [cur - this.buffer]. *)
Fixpoint read_lines (count : nat) (i : Z) (cur : nat) (b : list Z) : cmd (UIInputWin W) (list Z) :=
  match count with
  | O => ret b
  | S count =>
    s <- get;;
    r <- call (mvwinnwstr i 0 (eob s - Z.of_nat cur));;
    match r with
    | None => read_lines count (i + 1) cur b
    | Some cs => b <- lift (store cur cs b);; read_lines count (i + 1) (cur + length cs) b
    end
  end.

Definition clear : cmd (UIInputWin W) unit :=
  _ <- call (wmove 0 0);; modify (λ s, with_handle (wclear (handle s)) s).

Definition UIInputWin_commit : cmd (UIInputWin W) Z :=
  s <- get;;
  match buffer s with
  | None => ret 0%Z
  | Some b =>
    if (eom s =? 0)%Z then ret 0%Z else
    b <- read_lines (Z.to_nat (ilines s)) 0 0 b;;
    modify (with_buffer (Some b));;;
    let total := eom s in
    clear;;;
    s <- get;;
    modify (with_counters (cursor s) 0);;;
    ret (if (0 <? total)%Z then total + 1 else 0)%Z
  end.

Definition UIInputWin_reset : cmd (UIInputWin W) unit :=
  clear;;;
  modify (with_counters 0 0);;;
  modify (λ s, with_buffer ((λ b, replicate (length b) 0%Z) <$> buffer s) s).

(** The limit is computed with the size found by the last [locate]. *)
Definition UIInputWin_init (b : list Z) : cmd (UIInputWin W) unit :=
  s <- get;;
  modify (with_counters 0 (eom s));;;
  let limit := (Z.of_nat (length b) - 1)%Z in
  b <- (if decide (b = []) then stuck OutOfBounds else ret (<[length b - 1 := 0%Z]> b));;
  modify (with_buffer (Some b));;;
  clear;;;
  s <- get;;
  modify (with_position (ilines s) (icols s) (getyx (handle s)).1 (getyx (handle s)).2);;;
  modify (with_limit (if (icols s * ilines s <? limit)%Z then icols s * ilines s else limit)%Z).

Definition UIInputWin_getCount (s : UIInputWin W) : Z * Z := (eom s, eob s).

(** ** Moving *)

Definition MoveLeft : cmd (UIInputWin W) unit :=
  s <- get;;
  let back := (s <- get;; if (0 <? cursor s)%Z then modify (with_counters (cursor s - 1) (eom s)) else ret tt) in
  if (0 <? iy s)%Z && (ix s =? 0)%Z then
    ok <- call (wmove (iy s - 1) (icols s - 1));; if ok then back else ret tt
  else if (0 <? ix s)%Z then
    ok <- call (wmove (iy s) (ix s - 1));; if ok then back else ret tt
  else ret tt.

Definition MoveRight : cmd (UIInputWin W) unit :=
  s <- get;;
  if (iy s * icols s + ix s <? eom s)%Z then
    ok <- call (wmove (iy s) (ix s + 1));;
    if ok then
      c <- lift (int_add (cursor s) 1);;
      modify (with_counters (if (eom s <? c)%Z then eom s else c) (eom s))
    else ret tt
  else ret tt.

Definition MoveUp : cmd (UIInputWin W) unit :=
  s <- get;;
  if (0 <? iy s)%Z then
    ok <- call (wmove (iy s - 1) (ix s));;
    if ok then modify (with_counters (cursor s - icols s) (eom s)) else ret tt
  else ret tt.

Definition MoveDown : cmd (UIInputWin W) unit :=
  s <- get;;
  if (iy s <? ilines s - 1)%Z && (icols s + ix s <=? eom s)%Z then
    ok <- call (wmove (iy s + 1) (ix s));;
    if ok then modify (with_counters (cursor s + icols s) (eom s)) else ret tt
  else ret tt.

Inductive arrow : Type := KEY_LEFT | KEY_RIGHT | KEY_UP | KEY_DOWN.

Definition UIInputWin_moveCursor (ch : arrow) : cmd (UIInputWin W) unit :=
  UIInputWin_locate;;;
  match ch with
  | KEY_LEFT => MoveLeft
  | KEY_RIGHT => MoveRight
  | KEY_UP => MoveUp
  | KEY_DOWN => MoveDown
  end.
End Input.
