(* ===== verification/InputSpec.v ===== *)
(** * Properties of the input window

    On its first line the window is a line editor: the text before and after
    the cursor.  What it holds is what is read when the message is sent. *)

From S2P Require Import Prelude.
From S2P Require Import InputWindow.

Section InputSpec.
Context {W : Type} `{Window W} (iswcntrl : Z → bool) (wcwidth : Z → Z).
Context (Hnarrow : ∀ c, narrow c → iswcntrl c = false ∧ wcwidth c = 1%Z).
Implicit Types (s : UIInputWin W) (l r t : list Z).

(** ** Keys *)

Inductive key : Type :=
  | KChar (c : Z)
  | KDelete
  | KArrow (a : arrow).

Definition run_key (k : key) : cmd (UIInputWin W) unit :=
  match k with
  | KChar c => UIInputWin_addChar iswcntrl wcwidth c
  | KDelete => UIInputWin_delete
  | KArrow a => UIInputWin_moveCursor a
  end.

Fixpoint run_keys (ks : list key) : cmd (UIInputWin W) unit :=
  match ks with [] => ret tt | k :: ks => run_key k;;; run_keys ks end.

(** The line editor: the text before the cursor and after it. *)
Definition edit (k : key) (e : list Z * list Z) : list Z * list Z :=
  let '(l, r) := e in
  match k with
  | KChar c => (l ++ [c], r)
  | KDelete => (removelast l, r)
  | KArrow KEY_LEFT => match last l with Some c => (removelast l, c :: r) | None => (l, r) end
  | KArrow KEY_RIGHT => match r with c :: r => (l ++ [c], r) | [] => (l, r) end
  | KArrow _ => (l, r)
  end.

Fixpoint edits (ks : list key) (e : list Z * list Z) : list Z * list Z :=
  match ks with [] => e | k :: ks => edits ks (edit k e) end.

Definition good_key (k : key) : Prop := match k with KChar c => narrow c | _ => True end.

(** The characters a key adds at most. *)
Definition adds (k : key) : nat := match k with KChar _ => 1 | _ => 0 end.

Lemma call_run {A} (f : W → A * W) s a w : f (handle s) = (a, w) → call f s = Done (a, with_handle w s).
Proof. unfold call. by intros ->. Qed.

Lemma advance_run d s : (-200000 ≤ cursor s + d ≤ 200000)%Z → (-200000 ≤ eom s + d ≤ 200000)%Z →
  advance d s = Done (tt, with_counters (cursor s + d) (eom s + d) s).
Proof.
  intros H1 H2. unfold advance. rewrite bind_get. unfold lift.
  rewrite !int_add_Done by (unfold INT_MIN, INT_MAX; lia). done.
Qed.

(** ** The window shows a text on its first line *)

Section Size.
(** A window of [n] lines of [m] columns, with room for [room] characters. *)
Context (n m : nat) (room : nat).
Context (Hn : 1 ≤ n) (Hm : (Z.of_nat m ≤ 100000)%Z) (Hroom : room < m).

Definition padded t : list Z := t ++ replicate (m - length t) space.
Definition page t : list (list Z) := padded t :: replicate (n - 1) (replicate m space).

Record shows (b : option (list Z)) (limit : Z) l r s : Prop := {
  sh_size : getmaxyx (handle s) = (Z.of_nat n, Z.of_nat m);
  sh_yx : getyx (handle s) = (0, Z.of_nat (length l))%Z;
  sh_rows : rows (handle s) = page (l ++ r);
  sh_cursor : cursor s = Z.of_nat (length l);
  sh_eom : eom s = Z.of_nat (length l + length r);
  sh_fits : length l + length r ≤ room;
  sh_limit : eob s = limit;
  sh_buffer : buffer s = b;
  sh_lines : ilines s = Z.of_nat n
}.

Definition located s : Prop :=
  ilines s = (getmaxyx (handle s)).1 ∧ icols s = (getmaxyx (handle s)).2
  ∧ iy s = (getyx (handle s)).1 ∧ ix s = (getyx (handle s)).2.

Lemma locate_run s : ∃ s', UIInputWin_locate s = Done (tt, s') ∧ located s' ∧ handle s' = handle s
  ∧ cursor s' = cursor s ∧ eom s' = eom s ∧ eob s' = eob s ∧ buffer s' = buffer s.
Proof. eexists. split; [reflexivity|]. by split. Qed.

Lemma locate_shows b limit l r s : shows b limit l r s →
  ∃ s', UIInputWin_locate s = Done (tt, s') ∧ shows b limit l r s' ∧ ilines s' = Z.of_nat n
    ∧ icols s' = Z.of_nat m ∧ iy s' = 0%Z ∧ ix s' = Z.of_nat (length l).
Proof.
  intros S. destruct (locate_run s) as (s' & Hr & (E1&E2&E3&E4) & Eh & Ec & Ee & Eb & Ebf). destruct S as [Ss Sy Sr].
  exists s'. split; [done|]. rewrite E1, E2, E3, E4, Eh, Ss, Sy. split_and!; try done.
  split; rewrite ?E1, ?Eh, ?Ec, ?Ee, ?Eb, ?Ebf, ?Ss; done.
Qed.

Lemma page_row t : page t !! 0 = Some (padded t).
Proof. done. Qed.

Lemma page_insert t t' : <[0 := padded t']> (page t) = page t'.
Proof. done. Qed.

Lemma padded_length t : length t ≤ m → length (padded t) = m.
Proof. intros Ht. unfold padded. rewrite length_app, length_replicate. lia. Qed.

(** The three ways the first row changes. *)
Lemma padded_append t c : length t < m → <[length t := c]> (padded t) = padded (t ++ [c]).
Proof.
  clear Hn Hroom. intros Ht. unfold padded. rewrite length_app. cbn [length].
  replace (m - length t) with (S (m - (length t + 1))) by lia. cbn [replicate].
  rewrite insert_app_r_alt by lia. rewrite Nat.sub_diag. cbn. by rewrite <- app_assoc.
Qed.

Lemma padded_insert l r c : length l + length r < m →
  take (length (padded (l ++ r))) (take (length l) (padded (l ++ r)) ++ c :: drop (length l) (padded (l ++ r)))
  = padded ((l ++ [c]) ++ r).
Proof.
  intros Ht. rewrite padded_length by (rewrite length_app; lia). unfold padded.
  rewrite <- (app_assoc l r), take_app_length, drop_app_length.
  rewrite take_app_ge by lia. rewrite <- !app_assoc. f_equal. cbn.
  destruct (m - length l) as [|k] eqn:Ek; [lia|]. cbn. f_equal.
  rewrite take_app_ge by lia. f_equal. rewrite take_replicate. f_equal. rewrite !length_app. cbn. rewrite ?length_app. lia.
Qed.

Lemma padded_delete l r c : length l + length r < m →
  take (length l) (padded ((l ++ [c]) ++ r)) ++ drop (S (length l)) (padded ((l ++ [c]) ++ r)) ++ [space]
  = padded (l ++ r).
Proof.
  intros Ht. unfold padded. rewrite <- !app_assoc, take_app_length. f_equal.
  rewrite drop_app_ge by lia. replace (S (length l) - length l) with 1 by lia. cbn [app drop].
  rewrite drop_0, <- app_assoc. f_equal. rewrite <- replicate_S_end. f_equal.
  rewrite !length_app. cbn. lia.
Qed.

(** ** Every key *)

Context (limit : Z) (b : option (list Z)).
Context (Hlimit : (Z.of_nat room ≤ limit)%Z).

Definition key_ok (k : key) : Prop := ∀ l r s, shows b limit l r s → length l + length r + adds k ≤ room →
  ∃ s', run_key k s = Done (tt, s') ∧ shows b limit (edit k (l, r)).1 (edit k (l, r)).2 s'.

Lemma char_ok c : narrow c → key_ok (KChar c).
Proof.
  intros Nc l r s S Hfit. cbn [adds edit fst snd] in *. destruct (Hnarrow c Nc) as [Hc Hw].
  cbn [run_key]. unfold UIInputWin_addChar.
  destruct (locate_shows _ _ _ _ _ S) as (s1 & Hl & S1 & El & Em & Ey & Ex). run Hl. clear S Hl.
  destruct S1 as [Ss Sy Sr Sc Se Sf Sb Sbf Sn]. rewrite bind_get, Hc, Sc, Sb.
  rewrite (proj2 (Z.ltb_lt _ _)) by lia. cbn [andb negb]. rewrite Se, Hw.
  assert (Hrow : rows (handle s1) !! Z.to_nat 0 = Some (padded (l ++ r))) by (by rewrite Sr).
  destruct r as [|d r].
  - rewrite Nat.add_0_r, Z.eqb_refl.
    destruct (waddwstr_in (handle s1) c 0 (Z.of_nat (length l)) (padded (l ++ [])) Nc Sy) as (w & Hw1 & Wy & Ws & Wr); [lia|lia|rewrite Ss; cbn; lia|exact Hrow|].
    rewrite bind_bind. erewrite bind_Done by (by apply call_run).
    cbv beta iota. erewrite bind_Done by (apply advance_run; cbn in *; lia). rewrite bind_get.
    cbn [cursor eom with_counters with_handle]. rewrite Sc, Se, Nat.add_0_r, Z.ltb_irrefl.
    eexists. split; [reflexivity|]. split; cbn [handle cursor eom eob buffer with_counters with_handle]; try done.
    + by rewrite Ws.
    + rewrite Wy, length_app. cbn. f_equal. lia.
    + rewrite Wr, Sr, Nat2Z.id, !app_nil_r. change (Z.to_nat 0) with 0. rewrite padded_append by lia. apply page_insert.
    + rewrite ?Sc, length_app. cbn. lia.
    + rewrite ?Se, length_app. cbn. lia.
    + rewrite length_app. cbn in *. lia.
  - rewrite (proj2 (Z.eqb_neq _ _)) by (cbn; lia). rewrite bind_ret, bind_get, Sc, Se.
    rewrite (proj2 (Z.ltb_lt _ _)) by (cbn; lia).
    destruct (wins_wstr_in (handle s1) c 0 (Z.of_nat (length l)) (padded (l ++ d :: r)) Nc Sy) as (w & Hw1 & Wy & Ws & Wr); [lia|rewrite Ss; cbn in *; lia|exact Hrow|].
    erewrite bind_Done by (by apply call_run). cbv beta iota. cbn [ix iy icols with_handle].
    rewrite Ex, Em, Ey. rewrite (proj2 (Z.ltb_lt _ _)) by (cbn in *; lia).
    destruct (wmove_in w 0 (Z.of_nat (length l) + 1)) as (w2 & Hw2 & Wy2 & Ws2 & Wr2);
      [rewrite Ws, Ss; cbn in *; lia|rewrite Ws, Ss; cbn in *; lia|].
    erewrite bind_Done by (apply call_run; exact Hw2). cbv beta iota.
    erewrite advance_run by (cbn in *; lia).
    eexists. split; [reflexivity|]. split; cbn [handle cursor eom eob buffer with_counters with_handle]; try done.
    + by rewrite Ws2, Ws.
    + rewrite Wy2, length_app. cbn. f_equal. lia.
    + rewrite Wr2, Wr, Sr, Nat2Z.id. change (Z.to_nat 0) with 0. rewrite padded_insert by (cbn in *; lia). apply page_insert.
    + rewrite ?Sc, length_app. cbn. lia.
    + rewrite ?Se, length_app. cbn. lia.
    + rewrite length_app. cbn in *. lia.
Qed.

Lemma delete_ok : key_ok KDelete.
Proof.
  intros l r s S Hfit. cbn [edit fst snd run_key] in *. unfold UIInputWin_delete.
  destruct (locate_shows _ _ _ _ _ S) as (s1 & Hl & S1 & El & Em & Ey & Ex). run Hl. clear S Hl.
  pose proof S1 as [Ss Sy Sr Sc Se Sf Sb Sbf Sn]. rewrite bind_get, Sc.
  destruct l as [|c l] using rev_ind; [by exists s1|clear IHl]. rewrite removelast_last.
  rewrite length_app in *. cbn [length] in *.
  rewrite (proj2 (Z.ltb_lt _ _)) by lia. rewrite Ex, Ey, (proj2 (Z.eqb_neq _ _)) by lia.
  replace (Z.of_nat (length l + 1) - 1)%Z with (Z.of_nat (length l)) by lia.
  destruct (mvwdelch_in (handle s1) 0 (Z.of_nat (length l)) (padded ((l ++ [c]) ++ r))) as (w & Hw & Wy & Ws & Wr);
    [lia|rewrite Ss; cbn; lia|by rewrite Sr|].
  erewrite bind_Done by (apply call_run; exact Hw). cbv beta iota. erewrite advance_run by (cbn; lia).
  eexists. split; [reflexivity|]. split; cbn [handle cursor eom eob buffer with_counters with_handle]; try done; try lia.
  - by rewrite Ws.
  - rewrite Wr, Sr, Nat2Z.id. change (Z.to_nat 0) with 0. rewrite padded_delete by lia. apply page_insert.
Qed.

(** The cursor moves inside the text. *)
Lemma moved l r l' r' s w : shows b limit l r s → l' ++ r' = l ++ r →
  getmaxyx w = getmaxyx (handle s) → getyx w = (0, Z.of_nat (length l'))%Z → rows w = rows (handle s) →
  shows b limit l' r' (with_counters (Z.of_nat (length l')) (eom s) (with_handle w s)).
Proof.
  intros [] E Ws Wy Wr. assert (length l' + length r' = length l + length r) by (rewrite <- !length_app; congruence).
  split; cbn [handle cursor eom eob buffer with_counters with_handle]; try done; try congruence; lia.
Qed.

Lemma arrow_ok a : key_ok (KArrow a).
Proof.
  intros l r s S Hfit. cbn [run_key]. unfold UIInputWin_moveCursor.
  destruct (locate_shows _ _ _ _ _ S) as (s1 & Hl & S1 & El & Em & Ey & Ex). run Hl. clear S Hl.
  pose proof S1 as [Ss Sy Sr Sc Se Sf Sb Sbf Sn]. destruct a; cbn [edit]; unfold MoveLeft, MoveRight, MoveUp, MoveDown.
  - rewrite bind_get, Ey, Ex. cbn [Z.ltb Z.compare andb].
    destruct l as [|c l] using rev_ind; [by exists s1|clear IHl]. rewrite last_snoc, removelast_last.
    rewrite length_app in *. cbn [length] in *. rewrite (proj2 (Z.ltb_lt _ _)) by lia.
    replace (Z.of_nat (length l + 1) - 1)%Z with (Z.of_nat (length l)) by lia.
    destruct (wmove_in (handle s1) 0 (Z.of_nat (length l))) as (w & Hw & Wy & Ws & Wr); [rewrite Ss; cbn; lia..|].
    erewrite bind_Done by (apply call_run; exact Hw). cbv beta iota. rewrite bind_get. cbn [cursor with_handle eom].
    rewrite Sc, (proj2 (Z.ltb_lt _ _)) by lia. eexists. split; [reflexivity|].
    replace (Z.of_nat (length l + 1) - 1)%Z with (Z.of_nat (length l)) by lia.
    eapply (moved (l ++ [c]) r); try done. by rewrite <- app_assoc.
  - rewrite bind_get, Ey, Ex, Se, Z.mul_0_l, Z.add_0_l. destruct r as [|d r].
    + rewrite (proj2 (Z.ltb_ge _ _)) by (cbn; lia). by exists s1.
    + cbn [length] in *. rewrite (proj2 (Z.ltb_lt _ _)) by lia.
      destruct (wmove_in (handle s1) 0 (Z.of_nat (length l) + 1)) as (w & Hw & Wy & Ws & Wr); [rewrite Ss; cbn; lia..|].
      erewrite bind_Done by (apply call_run; exact Hw). cbv beta iota. cbn [cursor with_handle].
      rewrite Sc. unfold lift. unfold bind at 1. rewrite int_add_Done by (unfold INT_MIN, INT_MAX; lia).
      rewrite (proj2 (Z.ltb_ge _ _)) by lia. rewrite <- Se. eexists. split; [reflexivity|]. cbn [fst snd].
      replace (Z.of_nat (length l) + 1)%Z with (Z.of_nat (length (l ++ [d]))) by (rewrite length_app; cbn; lia).
      eapply (moved l (d :: r)); try done; [by rewrite <- app_assoc|].
      rewrite Wy, length_app. cbn. f_equal. lia.
  - rewrite bind_get, Ey. by exists s1.
  - rewrite bind_get, Ey, Ex, El, Em, Se. rewrite (proj2 (Z.leb_gt _ _)) by lia. rewrite andb_false_r. by exists s1.
Qed.

Lemma every_key k : good_key k → key_ok k.
Proof. destruct k; [apply char_ok|intros _; apply delete_ok|intros _; apply arrow_ok]. Qed.

Lemma edit_length k l r : length (edit k (l, r)).1 + length (edit k (l, r)).2 ≤ length l + length r + adds k.
Proof.
  destruct k as [c| |[]]; cbn; rewrite ?length_app; cbn; try lia.
  - destruct l as [|c l] using rev_ind; [cbn; lia|]. rewrite removelast_last, length_app. lia.
  - destruct l as [|c l] using rev_ind; [cbn; lia|]. rewrite last_snoc, removelast_last. cbn. rewrite length_app. cbn. lia.
  - destruct r; cbn; rewrite ?length_app; cbn; lia.
Qed.

Lemma keys_run ks : ∀ l r s, Forall good_key ks → shows b limit l r s →
  length l + length r + sum_list (adds <$> ks) ≤ room →
  ∃ s', run_keys ks s = Done (tt, s') ∧ shows b limit (edits ks (l, r)).1 (edits ks (l, r)).2 s'.
Proof.
  induction ks as [|k ks IH]; intros l r s G S Hfit; [by exists s|]. inversion G as [|? ? Gk Gs]; subst. cbn in Hfit.
  destruct (every_key k Gk l r s S) as (s1 & Hr & S1); [lia|]. pose proof (edit_length k l r).
  cbn [run_keys edits]. destruct (edit k (l, r)) as [l1 r1]. cbn [fst snd] in *.
  destruct (IH l1 r1 s1 Gs S1) as (s2 & Hr2 & S2); [lia|]. exists s2. by run Hr.
Qed.
End Size.

(** ** From a new message to its text *)

Section Message.
Context (n m : nat).
Context (Hn : 1 ≤ n) (Hm : 1 ≤ m) (Hmax : (Z.of_nat m ≤ 100000)%Z).

Definition sized s : Prop :=
  getmaxyx (handle s) = (Z.of_nat n, Z.of_nat m) ∧ ilines s = Z.of_nat n ∧ icols s = Z.of_nat m.

Lemma clear_run s : getmaxyx (handle s) = (Z.of_nat n, Z.of_nat m) →
  ∃ w, clear s = Done (tt, with_handle w s) ∧ getmaxyx w = (Z.of_nat n, Z.of_nat m) ∧ getyx w = (0, 0)%Z
    ∧ rows w = page n m [].
Proof.
  intros Hs. unfold clear. destruct (wmove_in (handle s) 0 0) as (w & Hw & _ & Ws & _); [rewrite Hs; cbn; lia..|].
  erewrite bind_Done by (apply call_run; exact Hw). destruct (wclear_ok w) as (Cy & Cs & Cr).
  eexists. split; [reflexivity|]. cbn [handle with_handle]. rewrite Cs, Cy, Ws, Hs. split_and!; try done.
  rewrite Cr, Ws, Hs. cbn [fst snd]. rewrite !Nat2Z.id. unfold page, padded. cbn [app length].
  rewrite Nat.sub_0_r. by destruct n as [|k]; [lia|]; cbn; rewrite Nat.sub_0_r.
Qed.

(** The size of the message: the buffer but one, or the window. *)
Definition limit_of (b : list Z) : nat := (length b - 1) `min` (n * m).

Lemma init_run s (b : list Z) : sized s → eom s = 0%Z → b ≠ [] →
  ∃ s', UIInputWin_init b s = Done (tt, s')
    ∧ shows n m 0 (Some (<[length b - 1 := 0%Z]> b)) (Z.of_nat (limit_of b)) [] [] s'
    ∧ ilines s' = Z.of_nat n ∧ icols s' = Z.of_nat m.
Proof.
  intros (Hs & Hl & Hc) He Hb. unfold UIInputWin_init. rewrite bind_get, bind_modify, decide_False by done.
  rewrite bind_ret, bind_modify.
  destruct (clear_run (with_buffer (Some (<[length b - 1:=0%Z]> b)) (with_counters 0 (eom s) s)) Hs)
    as (w & Hw & Ws & Wy & Wr). run Hw. rewrite bind_get, bind_modify.
  eexists. split; [reflexivity|]. cbn [ilines icols with_position with_limit with_handle with_buffer with_counters].
  split; [|done]. split; cbn [handle cursor eom eob buffer with_position with_limit with_handle with_buffer with_counters];
    try done.
  rewrite Hl, Hc. unfold limit_of.
  assert (length b ≠ 0) by (by destruct b). destruct (Z.ltb_spec (Z.of_nat m * Z.of_nat n) (Z.of_nat (length b) - 1)); lia.
Qed.

(** *** Reading the lines *)

Lemma read_lines_run (R : list (list Z)) : ∀ i cur (b : list Z) s E, getmaxyx (handle s) = (Z.of_nat n, Z.of_nat m) →
  drop i (rows (handle s)) = R → eob s = Z.of_nat E → cur ≤ E → E < length b → R ≠ [] →
  ∃ w b', read_lines (length R) (Z.of_nat i) cur b s = Done (b', with_handle w s)
    ∧ getmaxyx w = (Z.of_nat n, Z.of_nat m)
    ∧ let x := take (E - cur) (concat R) in
      length b' = length b ∧ take (cur + length x) b' = take cur b ++ x ∧ b' !! (cur + length x) = Some 0%Z.
Proof.
  induction R as [|r R IH]; intros i cur b s E Hs HR He Hc Hb HR'; [done|]. cbn [length read_lines].
  assert (Hrow : rows (handle s) !! Z.to_nat (Z.of_nat i) = Some r).
  { rewrite Nat2Z.id. pose proof (lookup_drop (rows (handle s)) i 0) as L. rewrite HR, Nat.add_0_r in L. by rewrite <- L. }
  destruct (mvwinnwstr_in (handle s) (Z.of_nat i) (eob s - Z.of_nat cur) r) as (w & Hw & Ws & Wr);
    [lia|lia|rewrite Hs; cbn; lia|done|].
  rewrite bind_get. erewrite bind_Done by (apply call_run; exact Hw). cbv beta iota.
  replace (Z.to_nat (eob s - Z.of_nat cur)) with (E - cur) by lia.
  set (cs := take (E - cur) r). assert (Hcs : length cs ≤ E - cur) by (unfold cs; rewrite length_take; lia).
  set (b1 := take cur b ++ cs ++ 0%Z :: drop (S (cur + length cs)) b).
  assert (Hst : store cur cs b = Done b1) by (unfold store; by rewrite decide_True by lia).
  assert (H1 : length b1 = length b).
  { unfold b1. rewrite !length_app. cbn. rewrite length_take, length_drop. lia. }
  assert (H2 : take (cur + length cs) b1 = take cur b ++ cs).
  { unfold b1. rewrite app_assoc. rewrite take_app_le by (rewrite length_app, length_take; lia).
    rewrite take_ge; [done|]. rewrite length_app, length_take. lia. }
  assert (H3 : b1 !! (cur + length cs) = Some 0%Z).
  { unfold b1. rewrite app_assoc, lookup_app_r by (rewrite length_app, length_take; lia).
    rewrite length_app, length_take. by replace (cur + length cs - (cur `min` length b + length cs)) with 0 by lia. }
  unfold lift. erewrite bind_Done by (rewrite Hst; reflexivity).
  replace (Z.of_nat i + 1)%Z with (Z.of_nat (S i)) by lia.
  assert (Hdr : drop (S i) (rows w) = R).
  { rewrite Wr. change R with (drop 1 (r :: R)). rewrite <- HR, drop_drop. f_equal. lia. }
  destruct (decide (R = [])) as [->|HR2].
  - cbn [length read_lines concat]. exists w, b1. rewrite app_nil_r. fold cs.
    split_and!; [done|by rewrite Ws|done..].
  - destruct (IH (S i) (cur + length cs) b1 (with_handle w s) E) as (w' & b' & Hr & Ws' & L1 & L2 & L3);
      [by cbn; rewrite Ws|done|done|lia|lia|done|].
    exists w', b'. cbn [concat]. rewrite take_app. fold cs.
    assert (Ecs : E - (cur + length cs) = E - cur - length r).
    { unfold cs. rewrite length_take. lia. }
    rewrite Ecs in *. rewrite length_app, Nat.add_assoc.
    split; [exact Hr|]. split; [done|]. split; [congruence|]. split; [|done].
    by rewrite L2, H2, app_assoc.
Qed.

Lemma concat_page t : length t ≤ m → concat (page n m t) = t ++ replicate (n * m - length t) space.
Proof.
  intros Ht. unfold page, padded. cbn [concat].
  assert (E : ∀ k, concat (replicate k (replicate m space)) = replicate (k * m) space).
  { induction k as [|k IH]; [done|]. cbn [replicate concat Nat.mul]. by rewrite IH, replicate_add. }
  rewrite E, <- app_assoc, <- replicate_add. f_equal. f_equal. destruct n as [|k]; [lia|]. cbn. lia.
Qed.

Lemma commit_run s (b : list Z) (E room : nat) l r : room < m → E < length b → E ≤ n * m → length (l ++ r) ≤ E →
  l ++ r ≠ [] → shows n m room (Some b) (Z.of_nat E) l r s →
  ∃ s' b', UIInputWin_commit s = Done (Z.of_nat (length (l ++ r)) + 1, s')%Z
    ∧ buffer s' = Some b' ∧ eom s' = 0%Z
    ∧ take E b' = (l ++ r) ++ replicate (E - length (l ++ r)) space ∧ b' !! E = Some 0%Z.
Proof.
  intros Hroom Hb HE Hlen Hne [Ss Sy Sr Sc Se Sf Sb Sbf Sn]. unfold UIInputWin_commit. rewrite bind_get, Sbf.
  rewrite length_app in Hlen.
  assert (length l + length r ≠ 0).
  { intros E0. apply Hne. apply length_zero_iff_nil. rewrite length_app. lia. }
  rewrite Se, (proj2 (Z.eqb_neq _ _)) by lia. rewrite Sn, Nat2Z.id.
  destruct (read_lines_run (page n m (l ++ r)) 0 0 b s E) as (w & b' & Hr & Ws & L1 & L2 & L3);
    [done|by rewrite Sr, drop_0|done|lia|done|done|].
  assert (Hp : length (page n m (l ++ r)) = n) by (cbn; rewrite length_replicate; lia).
  rewrite Hp in Hr. run Hr. rewrite bind_modify. cbn [eom with_buffer with_handle].
  destruct (clear_run (with_buffer (Some b') (with_handle w s)) Ws) as (w2 & Hc & _). run Hc.
  rewrite bind_get, bind_modify. rewrite ?Se, (proj2 (Z.ltb_lt _ _)) by lia.
  rewrite Nat.sub_0_r, Nat.add_0_l in *. change (take 0 b) with (@nil Z) in L2. cbn [app] in L2.
  rewrite concat_page in L2, L3 by (rewrite length_app; lia).
  assert (HL : length (take E ((l ++ r) ++ replicate (n * m - length (l ++ r)) space)) = E).
  { rewrite length_take, length_app, length_replicate, length_app. lia. }
  rewrite HL in L2, L3. eexists _, b'. split; [rewrite length_app; reflexivity|]. split; [done|]. split; [done|].
  split; [|done]. rewrite L2, take_app_ge by (rewrite length_app; lia). f_equal.
  rewrite take_replicate. f_equal. rewrite length_app. lia.
Qed.

(** The keys of a message that fits on a line edit it like a line editor
    with a cursor, inserting and deleting at the cursor; sending it then
    reads back exactly that text, padded with spaces to the size of the
    message, and returns its length and one. *)
Theorem typed_message_is_read s (b : list Z) (ks : list key) : sized s → eom s = 0%Z → Forall good_key ks →
  sum_list (adds <$> ks) < m → sum_list (adds <$> ks) < length b →
  let t := (edits ks ([], [])).1 ++ (edits ks ([], [])).2 in
  t ≠ [] →
  ∃ s' b', (UIInputWin_init b;;; run_keys ks;;; UIInputWin_commit) s = Done (Z.of_nat (length t) + 1, s')%Z
    ∧ buffer s' = Some b' ∧ eom s' = 0%Z
    ∧ take (limit_of b) b' = t ++ replicate (limit_of b - length t) space
    ∧ b' !! limit_of b = Some 0%Z.
Proof.
  intros Hs He G Hroom Hb t Ht.
  destruct (init_run s b Hs He) as (s1 & Hr1 & S1 & _); [by intros ->; cbn in Hb; lia|]. run Hr1.
  set (room := sum_list (adds <$> ks)) in *.
  assert (S1' : shows n m room (Some (<[length b - 1:=0%Z]> b)) (Z.of_nat (limit_of b)) [] [] s1).
  { destruct S1. split; try done. cbn. lia. }
  assert (Hlim : room ≤ limit_of b) by (unfold limit_of; nia).
  destruct (keys_run n m room Hn Hmax Hroom (Z.of_nat (limit_of b)) _ ltac:(lia) ks [] [] s1 G S1') as (s2 & Hr2 & S2);
    [done|]. run Hr2. pose proof (sh_fits _ _ _ _ _ _ _ _ S2).
  eapply commit_run; try done.
  - rewrite length_insert. unfold limit_of. lia.
  - unfold limit_of. lia.
  - rewrite length_app. lia.
Qed.
End Message.

(** ** Leaving the text *)

(** With the cursor at the end of a text that ends on the second line,
    the down key moves it a line below, where there is no text: the index is
    beyond the end of the message, and what is typed from there is dropped. *)
Theorem move_down_leaves_text s (n m x : Z) (c : Z) : getmaxyx (handle s) = (n, m) → getyx (handle s) = (1, x)%Z →
  (3 ≤ n)%Z → (0 ≤ x < m)%Z → cursor s = (m + x)%Z → eom s = (m + x)%Z →
  ∃ s' s'', UIInputWin_moveCursor KEY_DOWN s = Done (tt, s')
    ∧ cursor s' = (eom s' + m)%Z ∧ getyx (handle s') = (2, x)%Z
    ∧ UIInputWin_addChar iswcntrl wcwidth c s' = Done (tt, s'')
    ∧ handle s'' = handle s' ∧ cursor s'' = cursor s' ∧ eom s'' = eom s'.
Proof.
  intros Hs Hy Hn Hx Hc He. unfold UIInputWin_moveCursor, UIInputWin_locate, MoveDown.
  rewrite bind_modify, bind_get. cbn [iy ix ilines icols eom handle with_position]. rewrite Hs, Hy. cbn [fst snd].
  rewrite (proj2 (Z.ltb_lt _ _)), (proj2 (Z.leb_le _ _)) by lia. cbn [andb].
  destruct (wmove_in (handle s) (1 + 1) x) as (w & Hw & Wy & Ws & Wr); [rewrite Hs; cbn; lia..|].
  erewrite bind_Done by (apply call_run; exact Hw). cbv beta iota. cbn [cursor with_handle with_position].
  rewrite Hc, He. eexists _, _. split; [reflexivity|]. cbn [cursor eom handle with_counters with_handle with_position].
  split; [lia|]. split; [exact Wy|].
  unfold UIInputWin_addChar, UIInputWin_locate. rewrite bind_modify, bind_get. cbn [cursor eom eob handle with_counters with_handle with_position].
  destruct ((m + x + m <? eob s)%Z && negb (iswcntrl c)); [|split; [reflexivity|done]].
  rewrite (proj2 (Z.eqb_neq _ _)) by lia. rewrite bind_ret, bind_get. cbn [cursor eom with_counters with_handle with_position].
  rewrite (proj2 (Z.ltb_ge _ _)) by lia. split; [reflexivity|done].
Qed.

(** A character without a width takes one from both counters. *)
Lemma unprintable_moves_back s c w : iswcntrl c = false → wcwidth c = (-1)%Z →
  waddwstr c (handle s) = (true, w) → cursor s = 0%Z → eom s = 0%Z → (0 < eob s)%Z →
  ∃ s', UIInputWin_addChar iswcntrl wcwidth c s = Done (tt, s') ∧ cursor s' = (-1)%Z ∧ eom s' = (-1)%Z.
Proof.
  intros Hc Hw Ha C E B. unfold UIInputWin_addChar, UIInputWin_locate. rewrite bind_modify, bind_get.
  cbn [cursor eom eob with_position]. rewrite C, E, Hc, Hw, (proj2 (Z.ltb_lt _ _)) by done. cbn [andb negb].
  rewrite Z.eqb_refl, bind_bind. erewrite bind_Done by (apply call_run; exact Ha). cbv beta iota.
  erewrite bind_Done by (apply advance_run; cbn; lia). rewrite bind_get. cbn [cursor eom with_counters with_handle with_position].
  rewrite C, E, Z.ltb_irrefl. eexists. split; [reflexivity|]. cbn. by rewrite ?C, ?E.
Qed.
End InputSpec.

(** ** A window *)

Module InputSample.
(** Cells by line and column, and the cursor. *)
Record screen : Type := Screen { height : nat; width : nat; cell : nat → nat → Z; at_y : Z; at_x : Z }.

Definition row_of (w : screen) (y : nat) : list Z := cell w y <$> seq 0 (width w).
Definition rows_of (w : screen) : list (list Z) := row_of w <$> seq 0 (height w).
Definition size_of (w : screen) : Z * Z := (Z.of_nat (height w), Z.of_nat (width w)).
Definition at_pos (y x : Z) (w : screen) : screen := Screen (height w) (width w) (cell w) y x.
Definition set_line (y : nat) (r : list Z) (w : screen) : screen :=
  Screen (height w) (width w) (λ y' x, if decide (y' = y) then default space (r !! x) else cell w y' x) (at_y w) (at_x w).

Definition inside (y x : Z) (w : screen) : bool :=
  bool_decide (0 ≤ y < Z.of_nat (height w))%Z && bool_decide (0 ≤ x < Z.of_nat (width w))%Z.
Definition move (y x : Z) (w : screen) : bool * screen := if inside y x w then (true, at_pos y x w) else (false, w).
Definition add (c : Z) (w : screen) : bool * screen :=
  let y := Z.to_nat (at_y w) in
  let w' := set_line y (<[Z.to_nat (at_x w) := c]> (row_of w y)) w in
  if (at_x w + 1 <? Z.of_nat (width w))%Z then (true, at_pos (at_y w) (at_x w + 1) w')
  else if (at_y w + 1 <? Z.of_nat (height w))%Z then (true, at_pos (at_y w + 1) 0 w') else (false, w').
Definition ins (c : Z) (w : screen) : bool * screen :=
  let y := Z.to_nat (at_y w) in
  let r := row_of w y in
  (true, set_line y (take (length r) (take (Z.to_nat (at_x w)) r ++ c :: drop (Z.to_nat (at_x w)) r)) w).
Definition del (y x : Z) (w : screen) : bool * screen :=
  if inside y x w then
    let r := row_of w (Z.to_nat y) in
    (true, at_pos y x (set_line (Z.to_nat y) (take (Z.to_nat x) r ++ drop (S (Z.to_nat x)) r ++ [space]) w))
  else (false, w).
Definition read (y x n : Z) (w : screen) : option (list Z) * screen :=
  if inside y x w then (Some (take (Z.to_nat n) (drop (Z.to_nat x) (row_of w (Z.to_nat y)))), at_pos y x w) else (None, w).
Definition blank (w : screen) : screen := Screen (height w) (width w) (λ _ _, space) 0 0.

Lemma row_length w y : length (row_of w y) = width w.
Proof. unfold row_of. by rewrite length_fmap, length_seq. Qed.

Lemma rows_lookup w y r : rows_of w !! y = Some r → r = row_of w y ∧ y < height w.
Proof.
  unfold rows_of. rewrite list_lookup_fmap. intros (y' & Hy & ->)%fmap_Some.
  apply lookup_seq in Hy as [-> Hy]. by rewrite Nat.add_0_l.
Qed.

Lemma row_of_set_line w y r : length r = width w → row_of (set_line y r w) y = r.
Proof.
  intros Hr. apply list_eq. intros x. unfold row_of. cbn. rewrite list_lookup_fmap.
  destruct (decide (x < width w)) as [Hx|Hx].
  - rewrite lookup_seq_lt by done. cbn. rewrite decide_True by done.
    destruct (lookup_lt_is_Some_2 r x) as [c ->]; [by rewrite Hr|done].
  - rewrite lookup_seq_ge, lookup_ge_None_2 by lia. done.
Qed.

Lemma rows_set_line w y r : length r = width w → y < height w → rows_of (set_line y r w) = <[y := r]> (rows_of w).
Proof.
  intros Hr Hy. apply list_eq. intros j. unfold rows_of. cbn [height set_line].
  destruct (decide (j < height w)) as [Hj|Hj].
  - destruct (decide (j = y)) as [->|Hne].
    + rewrite list_lookup_insert_eq by (by rewrite length_fmap, length_seq).
      rewrite list_lookup_fmap, lookup_seq_lt by done. cbn [fmap option_fmap option_map]. rewrite Nat.add_0_l. by rewrite row_of_set_line.
    + rewrite list_lookup_insert_ne, !list_lookup_fmap, lookup_seq_lt by done. cbn. f_equal.
      unfold row_of. cbn. apply list_fmap_ext. intros i x _. by rewrite decide_False.
  - rewrite !lookup_ge_None_2; [done|..]; rewrite ?length_insert, length_fmap, length_seq; lia.
Qed.

#[global, refine] Instance screen_window : Window screen := {
  getyx w := (at_y w, at_x w);
  getmaxyx := size_of;
  rows := rows_of;
  wmove := move;
  waddwstr := add;
  wins_wstr := ins;
  mvwdelch := del;
  mvwinnwstr := read;
  wclear := blank;
  narrow c := (32 ≤ c < 127)%Z
}.
Proof.
  - intros w. cbn. rewrite !Nat2Z.id. unfold rows_of. rewrite length_fmap, length_seq. split; [done|].
    apply Forall_fmap, Forall_forall. intros y _. apply row_length.
  - intros w y x Hy Hx. cbn in *. unfold move, inside. rewrite !bool_decide_true by done. by eexists.
  - intros w y x Hn. cbn in *. unfold move, inside.
    destruct (bool_decide_reflect (0 ≤ y < Z.of_nat (height w))%Z), (bool_decide_reflect (0 ≤ x < Z.of_nat (width w))%Z); try done.
    by destruct Hn.
  - intros w c y x r _ [= <- <-] Hy Hx Hlt Hr. cbn in *. apply rows_lookup in Hr as [-> Hr]. unfold add.
    rewrite (proj2 (Z.ltb_lt _ _)) by done. eexists. split; [reflexivity|]. split; [done|]. split; [done|].
    apply (rows_set_line w); [|done]. by rewrite length_insert, row_length.
  - intros w c y x r _ [= <- <-] Hy Hx Hr. cbn in *. apply rows_lookup in Hr as [-> Hr]. unfold ins.
    eexists. split; [reflexivity|]. split; [done|]. split; [done|].
    apply (rows_set_line w); [|done]. rewrite length_take, length_app. cbn. rewrite length_take, length_drop, row_length. lia.
  - intros w y x r Hy Hx Hr. cbn in *. apply rows_lookup in Hr as [-> Hr]. unfold del, inside.
    rewrite !bool_decide_true by lia. eexists. split; [reflexivity|]. split; [done|]. split; [done|].
    apply (rows_set_line w); [|done]. rewrite !length_app, length_take, length_drop, row_length. cbn. lia.
  - intros w y n r Hy Hn Hm Hr. cbn in *. apply rows_lookup in Hr as [-> Hr]. unfold read, inside.
    rewrite !bool_decide_true by lia. eexists. split; [by rewrite drop_0|]. done.
  - intros w. cbn. rewrite !Nat2Z.id. split; [done|]. split; [done|]. unfold rows_of, row_of. cbn.
    apply list_eq. intros j. rewrite list_lookup_fmap. destruct (decide (j < height w)) as [Hj|Hj].
    + rewrite lookup_seq_lt, lookup_replicate_2 by done. cbn. f_equal. apply list_eq. intros i.
      rewrite list_lookup_fmap. destruct (decide (i < width w)) as [Hi|Hi].
      * by rewrite lookup_seq_lt, lookup_replicate_2 by done.
      * rewrite !lookup_ge_None_2; [done|..]; rewrite ?length_replicate, ?length_seq; lia.
    + rewrite !lookup_ge_None_2; [done|..]; rewrite ?length_replicate, ?length_fmap, ?length_seq; lia.
Defined.
End InputSample.

Module InputDemo.
Definition new_window (n m : nat) : InputSample.screen := InputSample.Screen n m (λ _ _, 46%Z) 0 0.
Definition start (n m : nat) : UIInputWin InputSample.screen :=
  MkInput (new_window n m) (Z.of_nat n) (Z.of_nat m) 0 0 0 0 0 None.
Definition iswcntrl (c : Z) : bool := (c <? 32)%Z.
Definition wcwidth (_ : Z) : Z := 1.

Lemma narrow_ok (c : Z) : narrow (W := InputSample.screen) c → iswcntrl c = false ∧ wcwidth c = 1%Z.
Proof. cbn. intros H. split; [|done]. unfold iswcntrl. lia. Qed.

(** "helo", back, the missing "l", and "!" at the end. *)
Definition keys : list key :=
  [KChar 104; KChar 101; KChar 108; KChar 111; KArrow KEY_LEFT; KChar 120; KDelete; KChar 108;
   KArrow KEY_DOWN; KArrow KEY_RIGHT; KChar 33]%Z.
End InputDemo.

Lemma typed_message_is_read_witness : ∃ s' b',
  (UIInputWin_init (replicate 13 7%Z);;; run_keys InputDemo.iswcntrl InputDemo.wcwidth InputDemo.keys;;; UIInputWin_commit)
    (InputDemo.start 3 12) = Done (7%Z, s')
  ∧ buffer s' = Some b' ∧ take 12 b' = [104; 101; 108; 108; 111; 33; 32; 32; 32; 32; 32; 32]%Z.
Proof.
  destruct (typed_message_is_read InputDemo.iswcntrl InputDemo.wcwidth InputDemo.narrow_ok 3 12
    ltac:(lia) ltac:(lia) ltac:(lia) (InputDemo.start 3 12) (replicate 13 7%Z) InputDemo.keys)
    as (s' & b' & H1 & H2 & _ & H3 & _).
  - by split.
  - reflexivity.
  - repeat constructor; cbn; lia.
  - vm_compute. lia.
  - vm_compute. lia.
  - vm_compute. discriminate.
  - exists s', b'. split; [exact H1|]. split; [exact H2|exact H3].
Defined.

(** Fifteen characters in a window of ten columns. *)
Lemma move_down_leaves_text_witness : ∃ s',
  let s := MkInput (InputSample.at_pos 1 5 (InputDemo.new_window 3 10)) 3 10 1 5 15 15 30 None in
  UIInputWin_moveCursor KEY_DOWN s = Done (tt, s') ∧ cursor s' = 25%Z ∧ eom s' = 15%Z.
Proof.
  destruct (move_down_leaves_text InputDemo.iswcntrl InputDemo.wcwidth
    (MkInput (InputSample.at_pos 1 5 (InputDemo.new_window 3 10)) 3 10 1 5 15 15 30 None) 3 10 5 65)
    as (s' & s'' & H1 & H2 & _ & _ & _ & _ & _); [reflexivity|reflexivity|lia|lia|reflexivity|reflexivity|].
  exists s'. split; [exact H1|]. vm_compute in H1. injection H1 as <-. split; reflexivity.
Defined.
