(* ===== verification/InputLines.v ===== *)
(** * Text on several lines of the input window

    A message is longer than a line of the window on every terminal.  The cells
    of the window are taken as one sequence, line after line: the text fills it
    from its first cell, the cursor is between two of its characters, and every
    key moves or edits it as [edit_at] says, wherever [legal] holds: what the
    keys insert and delete before other text stays on one line. *)

From S2P Require Import Prelude.
From S2P Require Import InputWindow.
From S2P Require Import InputSpec.

(** What the library documents of a character in the last column: the cursor
    wraps to the next line, when there is one. *)
Class Wrapping (W : Type) `{Window W} : Prop :=
  waddwstr_wraps w c y x r : narrow c → getyx w = (y, x) → (0 ≤ y)%Z → (y + 1 < (getmaxyx w).1)%Z →
    (0 ≤ x)%Z → (x + 1 = (getmaxyx w).2)%Z → rows w !! Z.to_nat y = Some r →
    ∃ w', waddwstr c w = (true, w') ∧ getyx w' = (y + 1, 0)%Z ∧ getmaxyx w' = getmaxyx w
      ∧ rows w' = <[Z.to_nat y := <[Z.to_nat x := c]> r]> (rows w).

(** ** Rows of one length as one sequence *)

Section Rows.
Context (m : nat).
Implicit Types (R : list (list Z)) (r C : list Z).

Definition uniform R : Prop := Forall (λ r, length r = m) R.

Lemma uniform_length R : uniform R → length (concat R) = length R * m.
Proof. induction 1 as [|r R Hr _ IH]; [done|]. cbn. rewrite length_app, Hr, IH. lia. Qed.

Lemma row_at R y r : uniform R → R !! y = Some r → take m (drop (y * m) (concat R)) = r.
Proof.
  intros U. revert y. induction U as [|r0 R Hr _ IH]; intros y Hy; [done|]. destruct y as [|y]; cbn in *.
  - injection Hy as ->. rewrite drop_0. by rewrite take_app_length'.
  - rewrite <- drop_drop, drop_app_length' by done. by apply IH.
Qed.

Lemma replace_row R y r r' : uniform R → R !! y = Some r → length r' = m →
  concat (<[y := r']> R) = take (y * m) (concat R) ++ r' ++ drop (y * m + m) (concat R).
Proof.
  intros U. revert y. induction U as [|r0 R Hr _ IH]; intros y Hy Hr'; [done|]. destruct y as [|y]; cbn in *.
  - rewrite take_0, drop_app_length' by done. done.
  - rewrite IH by done. rewrite take_app_ge, drop_app_ge by lia. rewrite <- app_assoc, Hr. do 4 f_equal; f_equal; lia.
Qed.

(** A cell of a row is a cell of the sequence. *)
Lemma replace_cell R y r x (c : Z) : uniform R → R !! y = Some r → x < m →
  concat (<[y := <[x := c]> r]> R) = <[y * m + x := c]> (concat R).
Proof.
  intros U Hy Hx. rewrite (replace_row _ _ _ _ U Hy) by (rewrite length_insert; by apply (Forall_lookup_1 _ _ _ _ U Hy)).
  rewrite <- (row_at _ _ _ U Hy). assert (Hl : y * m + m ≤ length (concat R)).
  { rewrite uniform_length by done. apply lookup_lt_Some in Hy. nia. }
  set (C := concat R) in *. rewrite <- (take_drop (y * m) C) at 4. rewrite <- (take_drop m (drop (y * m) C)) at 2.
  rewrite drop_drop. rewrite insert_app_r_alt by (rewrite length_take; lia).
  rewrite length_take, Nat.min_l by lia. replace (y * m + x - y * m) with x by lia.
  by rewrite insert_app_l by (rewrite length_take, length_drop; lia).
Qed.

(** The row of the cursor, in a text that ends on it. *)
Lemma cursor_row k y (l r : list Z) : y * m ≤ length l → length l + length r ≤ y * m + m → y * m + m ≤ k →
  ∃ A B, l = A ++ B ∧ length A = y * m
    ∧ take (y * m) (padded k (l ++ r)) = A
    ∧ take m (drop (y * m) (padded k (l ++ r))) = B ++ r ++ replicate (m - length B - length r) space
    ∧ drop (y * m + m) (padded k (l ++ r)) = replicate (k - (y * m + m)) space.
Proof.
  intros Hl Hr Hk. exists (take (y * m) l), (drop (y * m) l). rewrite take_drop.
  assert (LA : length (take (y * m) l) = y * m) by (rewrite length_take; lia).
  assert (LB : length (drop (y * m) l) = length l - y * m) by apply length_drop.
  split; [done|]. split; [done|]. unfold padded. set (A := take (y * m) l) in *. set (B := drop (y * m) l) in *.
  assert (E : (l ++ r) ++ replicate (k - length (l ++ r)) space
              = A ++ (B ++ r ++ replicate (m - length B - length r) space) ++ replicate (k - (y * m + m)) space).
  { rewrite <- (take_drop (y * m) l) at 1. fold A B. rewrite <- !app_assoc. do 3 f_equal.
    rewrite <- replicate_add. f_equal. rewrite length_app. lia. }
  assert (LR : length (B ++ r ++ replicate (m - length B - length r) space) = m).
  { rewrite !length_app, length_replicate. lia. }
  rewrite E. split; [by apply take_app_length'|]. split.
  - rewrite drop_app_length' by done. by apply take_app_length'.
  - rewrite app_assoc. apply drop_app_length'. rewrite length_app. lia.
Qed.

(** A character is inserted into that row, or deleted from it. *)
Lemma row_insert k y (l r : list Z) (c : Z) : y * m ≤ length l → length l + length r < y * m + m → y * m + m ≤ k →
  let C := padded k (l ++ r) in
  let row := take m (drop (y * m) C) in
  let x := length l - y * m in
  take (y * m) C ++ take m (take x row ++ c :: drop x row) ++ drop (y * m + m) C = padded k ((l ++ [c]) ++ r).
Proof.
  intros Hl Hr Hk C row x. destruct (cursor_row k y l r) as (A & B & -> & LA & E1 & E2 & E3); [lia..|].
  unfold row, C. rewrite E1, E2, E3. rewrite !length_app in *. assert (Ex : x = length B) by (unfold x; rewrite length_app; lia). rewrite Ex.
  rewrite take_app_length, drop_app_length. destruct (m - length B - length r) as [|j] eqn:Ej; [lia|].
  rewrite replicate_S_end. replace (B ++ c :: r ++ replicate j space ++ [space]) with ((B ++ c :: r ++ replicate j space) ++ [space])
    by (rewrite <- !app_assoc; cbn; by rewrite <- app_assoc).
  rewrite take_app_length' by (rewrite length_app; cbn; rewrite length_app, length_replicate; lia).
  unfold padded. rewrite <- !app_assoc. cbn. rewrite <- !app_assoc. do 4 f_equal. rewrite <- replicate_add. f_equal.
  rewrite !length_app. cbn. lia.
Qed.

Lemma row_delete k y (l r : list Z) (d : Z) : y * m ≤ length l → length l + S (length r) ≤ y * m + m → y * m + m ≤ k →
  let C := padded k ((l ++ [d]) ++ r) in
  let row := take m (drop (y * m) C) in
  let x := length l - y * m in
  take (y * m) C ++ (take x row ++ drop (S x) row ++ [space]) ++ drop (y * m + m) C = padded k (l ++ r).
Proof.
  intros Hl Hr Hk C row x. unfold row, C. rewrite <- app_assoc. change ([d] ++ r) with (d :: r).
  destruct (cursor_row k y l (d :: r)) as (A & B & -> & LA & E1 & E2 & E3); [cbn; lia..|].
  rewrite E1, E2, E3. rewrite !length_app in *. cbn [length] in *. assert (Ex : x = length B) by (unfold x; rewrite length_app; lia). rewrite Ex.
  rewrite take_app_length, drop_app_ge by lia. replace (S (length B) - length B) with 1 by lia. cbn [Datatypes.app drop].
  rewrite drop_0. unfold padded. rewrite <- !app_assoc. do 3 f_equal. change ([space] ++ ?t) with (replicate 1 space ++ t).
  rewrite <- !replicate_add. f_equal. rewrite !length_app. lia.
Qed.
End Rows.

(** ** The line editor on several lines *)

(** A cursor does not go on to the next line with the key right; up and down
    move it by a line. *)
Definition edit_at (n m : nat) (k : key) (e : list Z * list Z) : list Z * list Z :=
  let '(l, r) := e in
  let p := length l in
  match k with
  | KArrow KEY_RIGHT => if decide (p mod m + 1 = m) then (l, r) else edit k e
  | KArrow KEY_UP => if decide (p < m) then (l, r) else (take (p - m) l, drop (p - m) l ++ r)
  | KArrow KEY_DOWN => if decide (p / m + 1 < n ∧ m + p mod m ≤ p + length r) then (l ++ take m r, drop m r) else (l, r)
  | _ => edit k e
  end.

(** Where a key does what is meant: the text after a character that is inserted
    or deleted ends on its line, and a line below is reached inside the text. *)
Definition legal (n m : nat) (k : key) (e : list Z * list Z) : Prop :=
  let '(l, r) := e in
  let p := length l in
  match k with
  | KChar _ => (p + length r) / m = p / m
  | KDelete => p = 0 ∨ (p + length r - 1) / m = (p - 1) / m
  | KArrow KEY_DOWN => p / m + 1 < n → m + p mod m ≤ p + length r → m ≤ length r
  | KArrow _ => True
  end.

(** ** The window shows a text over its lines *)

Section Lines.
Context {W : Type} `{Wr : Wrapping W} (iswcntrl : Z → bool) (wcwidth : Z → Z).
Context (Hnarrow : ∀ c, narrow c → iswcntrl c = false ∧ wcwidth c = 1%Z).
Context (n m : nat) (Hn : 1 ≤ n) (Hm : 1 ≤ m) (Hmax : (Z.of_nat (n * m) ≤ 100000)%Z).
Implicit Types (s : UIInputWin W) (l r t : list Z).

Definition size_is (w : W) : Prop := getmaxyx w = (Z.of_nat n, Z.of_nat m).

(** The position of a cell. *)
Definition cell_at (i : nat) : Z * Z := (Z.of_nat (i / m), Z.of_nat (i mod m)).

(** The text [l ++ r], with the cursor after [l]. *)
Record spread (b : option (list Z)) (limit : nat) l r s : Prop := {
  sp_size : size_is (handle s);
  sp_yx : getyx (handle s) = cell_at (length l);
  sp_cells : concat (rows (handle s)) = padded (n * m) (l ++ r);
  sp_cursor : cursor s = Z.of_nat (length l);
  sp_eom : eom s = Z.of_nat (length l + length r);
  sp_room : length l + length r < n * m;
  sp_limit : eob s = Z.of_nat limit;
  sp_buffer : buffer s = b;
  sp_lines : ilines s = Z.of_nat n;
  sp_cols : icols s = Z.of_nat m
}.

Lemma rows_uniform (w : W) : size_is w → uniform m (rows w) ∧ length (rows w) = n.
Proof. intros E. destruct (rows_size w) as [Hl Hf]. rewrite E in *. cbn in *. by rewrite !Nat2Z.id in *. Qed.

Lemma cell_in i : i < n * m → i / m < n ∧ i mod m < m ∧ i / m * m + i mod m = i.
Proof.
  intros Hi. split_and!; [apply Nat.Div0.div_lt_upper_bound; lia|apply Nat.mod_upper_bound; lia|].
  pose proof (Nat.div_mod_eq i m). lia.
Qed.

Lemma row_of_cell (w : W) i : size_is w → i < n * m → ∃ r, rows w !! (i / m) = Some r.
Proof. intros Hs Hi. apply lookup_lt_is_Some_2. destruct (rows_uniform w Hs) as [_ ->]. by apply cell_in. Qed.

(** The cell after a cell: on the same line, or the first of the next. *)
Lemma cell_next i : i < n * m →
  (i mod m + 1 < m ∧ cell_at (S i) = (Z.of_nat (i / m), Z.of_nat (i mod m) + 1)%Z)
  ∨ (i mod m + 1 = m ∧ cell_at (S i) = (Z.of_nat (i / m) + 1, 0)%Z).
Proof.
  intros Hi. destruct (cell_in i Hi) as (_ & Hx & E). unfold cell_at.
  destruct (decide (i mod m + 1 < m)) as [Hlt|Hge]; [left|right]; (split; [lia|]).
  - rewrite <- (Nat.div_unique (S i) m (i / m) (i mod m + 1)) by lia.
    rewrite <- (Nat.mod_unique (S i) m (i / m) (i mod m + 1)) by lia. f_equal. lia.
  - rewrite <- (Nat.div_unique (S i) m (i / m + 1) 0) by lia.
    rewrite <- (Nat.mod_unique (S i) m (i / m + 1) 0) by lia. f_equal. lia.
Qed.

(** A character is written at the end of the text. *)
Lemma write_cell (w : W) t c : narrow c → size_is w → S (length t) < n * m → getyx w = cell_at (length t) →
  concat (rows w) = padded (n * m) t →
  ∃ w', waddwstr c w = (true, w') ∧ size_is w' ∧ getyx w' = cell_at (S (length t))
    ∧ concat (rows w') = padded (n * m) (t ++ [c]).
Proof.
  intros Nc Hs Hlt Hy Hc. destruct (row_of_cell w (length t) Hs) as [r Hr]; [lia|].
  destruct (cell_in (length t)) as (Hyn & Hx & E); [lia|]. destruct (rows_uniform w Hs) as [U _].
  assert (Hins : concat (<[length t / m := <[length t mod m := c]> r]> (rows w)) = padded (n * m) (t ++ [c])).
  { rewrite (replace_cell m) by done. rewrite E, Hc. apply padded_append. lia. }
  destruct (cell_next (length t)) as [[Hd ->]|[Hd ->]]; [lia| |].
  - destruct (waddwstr_in w c _ _ r Nc Hy) as (w' & Hw & Wy & Ws & Wr'); [lia|lia|rewrite Hs; cbn; lia|by rewrite Nat2Z.id|].
    exists w'. unfold size_is. rewrite Ws, Wr', !Nat2Z.id. by split_and!.
  - assert (length t / m + 1 < n) by nia.
    destruct (waddwstr_wraps w c _ _ r Nc Hy) as (w' & Hw & Wy & Ws & Wr');
      [lia|rewrite Hs; cbn; lia|lia|rewrite Hs; cbn; lia|by rewrite Nat2Z.id|].
    exists w'. unfold size_is. rewrite Ws, Wr', !Nat2Z.id. by split_and!.
Qed.

(** A row is replaced, in the sequence of cells. *)
Lemma replaced_row (w : W) y r r' : size_is w → rows w !! y = Some r → length r' = m →
  r = take m (drop (y * m) (concat (rows w)))
  ∧ concat (<[y := r']> (rows w)) = take (y * m) (concat (rows w)) ++ r' ++ drop (y * m + m) (concat (rows w)).
Proof.
  intros Hs Hr Hl. destruct (rows_uniform w Hs) as [U _]. split; [by rewrite (row_at m _ _ _ U Hr)|by apply (replace_row m _ _ r)].
Qed.

Lemma row_width (w : W) y r : size_is w → rows w !! y = Some r → length r = m.
Proof. intros Hs Hr. destruct (rows_uniform w Hs) as [U _]. by apply (Forall_lookup_1 _ _ _ _ U Hr). Qed.

Lemma cell_before_next i : i / m * m ≤ i < i / m * m + m.
Proof. pose proof (Nat.div_mod_eq i m). pose proof (Nat.mod_upper_bound i m). lia. Qed.

Lemma cell_line i : i < n * m → i / m * m + m ≤ n * m.
Proof. intros Hi. destruct (cell_in i Hi) as (Hrow & _). nia. Qed.

(** A character is inserted before text that ends on the line of the cursor. *)
Lemma insert_cell (w : W) l r c : narrow c → size_is w → S (length l + length r) < n * m → r ≠ [] →
  (length l + length r) / m = length l / m → getyx w = cell_at (length l) → concat (rows w) = padded (n * m) (l ++ r) →
  length l mod m + 1 < m ∧
  ∃ w', wins_wstr c w = (true, w') ∧ size_is w' ∧ getyx w' = cell_at (length l)
    ∧ concat (rows w') = padded (n * m) ((l ++ [c]) ++ r).
Proof.
  intros Nc Hs Hlt Hne Hlegal Hy Hc. destruct (row_of_cell w (length l) Hs) as [row Hr]; [lia|].
  destruct (cell_in (length l)) as (Hyn & Hx & E); [lia|]. pose proof (cell_line (length l) ltac:(lia)) as Hline.
  pose proof (cell_before_next (length l + length r)) as Hend. rewrite Hlegal in Hend.
  assert (1 ≤ length r) by (destruct r; [done|cbn; lia]). split; [lia|].
  destruct (wins_wstr_in w c _ _ row Nc Hy) as (w' & Hw & Wy & Ws & Wr'); [lia|rewrite Hs; cbn; lia|by rewrite Nat2Z.id|].
  exists w'. unfold size_is. rewrite Ws, Wr', !Nat2Z.id. split_and!; [done|done|by rewrite Wy|].
  pose proof (row_width w _ _ Hs Hr) as Hlr. rewrite Hlr.
  edestruct (replaced_row w (length l / m) row) as [Erow ->]; [done|done| |].
  { rewrite length_take, length_app, length_take. cbn. rewrite length_drop. lia. }
  rewrite Erow, Hc. replace (length l mod m) with (length l - length l / m * m) by lia. apply row_insert; lia.
Qed.

(** The character before the cursor is deleted. *)
Lemma erase_cell (w : W) l r d : size_is w → S (length l + length r) < n * m →
  (length l + length r) / m = length l / m → concat (rows w) = padded (n * m) ((l ++ [d]) ++ r) →
  ∃ w', mvwdelch (cell_at (length l)).1 (cell_at (length l)).2 w = (true, w') ∧ size_is w'
    ∧ getyx w' = cell_at (length l) ∧ concat (rows w') = padded (n * m) (l ++ r).
Proof.
  intros Hs Hlt Hlegal Hc. destruct (row_of_cell w (length l) Hs) as [row Hr]; [lia|].
  destruct (cell_in (length l)) as (Hyn & Hx & E); [lia|]. pose proof (cell_line (length l) ltac:(lia)) as Hline.
  pose proof (cell_before_next (length l + length r)) as Hend. rewrite Hlegal in Hend. cbn [cell_at fst snd].
  destruct (mvwdelch_in w (Z.of_nat (length l / m)) (Z.of_nat (length l mod m)) row) as (w' & Hw & Wy & Ws & Wr');
    [lia|rewrite Hs; cbn; lia|by rewrite Nat2Z.id|].
  exists w'. unfold size_is. rewrite Ws, Wr', !Nat2Z.id. split_and!; [done|done|done|].
  pose proof (row_width w _ _ Hs Hr) as Hlr.
  edestruct (replaced_row w (length l / m) row) as [Erow ->]; [done|done| |].
  { rewrite !length_app, length_take, length_drop. cbn. lia. }
  rewrite Erow, Hc. replace (length l mod m) with (length l - length l / m * m) by lia. apply row_delete; lia.
Qed.

(** ** Keys *)

Lemma locate_spread b limit l r s : spread b limit l r s →
  ∃ s', UIInputWin_locate s = Done (tt, s') ∧ spread b limit l r s' ∧ icols s' = Z.of_nat m
    ∧ iy s' = Z.of_nat (length l / m) ∧ ix s' = Z.of_nat (length l mod m) ∧ handle s' = handle s.
Proof.
  intros [Fs Fy Fc F1 F2 F3 F4 F5 F6 F7].
  eexists. split; [reflexivity|]. cbn [icols iy ix with_position]. rewrite Fs, Fy. cbn [fst snd cell_at].
  split; [|done]. by split.
Qed.

Definition key_works (b : option (list Z)) (limit : nat) (k : key) : Prop := ∀ l r s,
  spread b limit l r s → legal n m k (l, r) → length l + length r + adds k ≤ limit → length l + length r + adds k < n * m →
  ∃ s', run_key iswcntrl wcwidth k s = Done (tt, s') ∧ spread b limit (edit_at n m k (l, r)).1 (edit_at n m k (l, r)).2 s'.

Lemma char_works b limit c : narrow c → key_works b limit (KChar c).
Proof.
  intros Nc l r s F Hlegal Hlim Hroom. destruct (Hnarrow c Nc) as [Hc Hw]. cbn [run_key adds edit_at edit fst snd legal] in *.
  unfold UIInputWin_addChar. destruct (locate_spread _ _ _ _ _ F) as (s1 & Hl & Sp & El & Ey & Ex & _). run Hl. clear F Hl.
  destruct Sp as [Fs Fy Fc F1 F2 F3 F4 F5 F6 F7].
  rewrite bind_get, Hc, Hw, F1, F2, F4, (proj2 (Z.ltb_lt _ _)) by lia. cbn [andb negb].
  destruct r as [|d r].
  - rewrite app_nil_r in *. cbn [length] in *. rewrite !Nat.add_0_r in *. rewrite Z.eqb_refl.
    destruct (write_cell (handle s1) l c Nc Fs) as (w & Ha & Ws & Wy & Wc); [lia|done|done|].
    rewrite bind_bind. erewrite bind_Done by (by apply call_run). cbv beta iota.
    erewrite bind_Done by (apply advance_run; cbn; lia). rewrite bind_get.
    cbn [cursor eom with_counters with_handle]. rewrite F1, F2, Z.ltb_irrefl. eexists. split; [reflexivity|].
    split; cbn [handle cursor eom eob buffer ilines icols with_counters with_handle]; rewrite ?length_app, ?app_nil_r; cbn [length]; try done; try lia.
    by rewrite Nat.add_1_r.
  - rewrite (proj2 (Z.eqb_neq _ _)) by (cbn; lia). rewrite bind_ret, bind_get, F1, F2, (proj2 (Z.ltb_lt _ _)) by (cbn; lia).
    destruct (insert_cell (handle s1) l (d :: r) c Nc Fs) as (Hx & w & Hi & Ws & Wy & Wc); [lia|done|done|done|done|].
    erewrite bind_Done by (apply call_run; exact Hi). cbv beta iota. cbn [ix iy icols with_handle].
    rewrite Ex, Ey, El. rewrite (proj2 (Z.ltb_lt _ _)) by lia.
    destruct (cell_next (length l)) as [[_ En]|[Hd _]]; [lia| |lia]. destruct (cell_in (length l)) as (Hyn & _); [lia|].
    destruct (wmove_in w (Z.of_nat (length l / m)) (Z.of_nat (length l mod m) + 1)) as (w2 & Hm2 & Wy2 & Ws2 & Wc2);
      [rewrite Ws; cbn; lia..|].
    erewrite bind_Done by (apply call_run; exact Hm2). cbv beta iota. erewrite advance_run by (cbn in *; lia).
    eexists. split; [reflexivity|].
    split; cbn [handle cursor eom eob buffer ilines icols with_counters with_handle]; rewrite ?length_app; cbn [length] in *; try done; try lia.
    + unfold size_is. by rewrite Ws2.
    + by rewrite Wy2, Nat.add_1_r.
    + by rewrite Wc2.
Qed.

Lemma delete_works b limit : key_works b limit KDelete.
Proof.
  intros l r s F Hlegal _ _. cbn [run_key edit_at edit fst snd legal] in *. unfold UIInputWin_delete.
  destruct (locate_spread _ _ _ _ _ F) as (s1 & Hl & Sp & El & Ey & Ex & _). run Hl. clear F Hl.
  pose proof Sp as [Fs Fy Fc F1 F2 F3 F4 F5 F6 F7]. rewrite bind_get, F1.
  destruct l as [|c l] using rev_ind; [by exists s1|clear IHl]. rewrite removelast_last. rewrite length_app in *. cbn [length] in *.
  rewrite (proj2 (Z.ltb_lt _ _)) by lia.
  destruct (erase_cell (handle s1) l r c Fs) as (w & Hw & Ws & Wy & Wc); [lia| |done|].
  { destruct Hlegal as [?|Hlegal]; [lia|]. rewrite Nat.add_sub in Hlegal. rewrite <- Hlegal. f_equal. lia. }
  assert (Epos : (if (ix s1 =? 0)%Z then (iy s1 - 1, icols s1 - 1) else (iy s1, ix s1 - 1))%Z = cell_at (length l)).
  { rewrite Ex, Ey, El. rewrite Nat.add_1_r in *.
    destruct (cell_next (length l)) as [[Hd E]|[Hd E]]; [lia| |]; unfold cell_at in E; injection E as E1 E2; rewrite E1, E2; unfold cell_at.
    - rewrite (proj2 (Z.eqb_neq _ _)) by (clear; lia). f_equal. clear. lia.
    - rewrite Z.eqb_refl. revert Hd. clear. generalize (length l mod m) (length l / m). intros x y Hd. f_equal; lia. }
  rewrite Epos. unfold cell_at in *. cbn [fst snd] in *. erewrite bind_Done by (apply call_run; exact Hw). cbv beta iota.
  erewrite advance_run by (cbn; lia). eexists. split; [reflexivity|].
  split; cbn [handle cursor eom eob buffer ilines icols with_counters with_handle]; try done; lia.
Qed.

(** The cursor moves inside the text. *)
Lemma moved_spread b limit l r l' r' s w : spread b limit l r s → l' ++ r' = l ++ r →
  getmaxyx w = getmaxyx (handle s) → getyx w = cell_at (length l') → rows w = rows (handle s) →
  spread b limit l' r' (with_counters (Z.of_nat (length l')) (eom s) (with_handle w s)).
Proof.
  intros [] E Ws Wy Wr'. assert (length l' + length r' = length l + length r) by (rewrite <- !length_app; congruence).
  split; cbn [handle cursor eom eob buffer ilines icols with_counters with_handle]; unfold size_is; rewrite ?Ws; try done; try congruence; lia.
Qed.

Lemma move_to (w : W) i y x : size_is w → i < n * m → cell_at i = (y, x) →
  ∃ w', wmove y x w = (true, w') ∧ getyx w' = cell_at i ∧ getmaxyx w' = getmaxyx w ∧ rows w' = rows w.
Proof.
  intros Hs Hi Hc. destruct (cell_in i Hi) as (Hy & Hx & _). unfold cell_at in *. injection Hc as <- <-.
  apply wmove_in; rewrite Hs; cbn; lia.
Qed.

Lemma cell_below i : cell_at (i + m) = (Z.of_nat (i / m) + 1, Z.of_nat (i mod m))%Z.
Proof.
  unfold cell_at. replace (i + m) with (i + 1 * m) by lia. rewrite Nat.div_add, Nat.Div0.mod_add by lia. f_equal. lia.
Qed.

Lemma left_works b limit : key_works b limit (KArrow KEY_LEFT).
Proof.
  intros l r s F _ _ _. cbn [run_key edit_at edit]. unfold UIInputWin_moveCursor, MoveLeft.
  destruct (locate_spread _ _ _ _ _ F) as (s1 & Hl & Sp & El & Ey & Ex & _). run Hl. clear F Hl.
  pose proof Sp as [Fs Fy Fc F1 F2 F3 F4 F5 F6 F7]. rewrite bind_get, Ey, Ex, El.
  destruct l as [|c l] using rev_ind; [|clear IHl].
  { cbn [length last fst snd]. rewrite Nat.Div0.div_0_l, Nat.Div0.mod_0_l. by exists s1. }
  rewrite last_snoc, removelast_last. rewrite length_app in *. cbn [length fst snd] in *. rewrite Nat.add_1_r in *.
  assert (Hback : ∀ w, cursor s1 = Z.of_nat (S (length l)) →
    (s <- get;; if (0 <? cursor s)%Z then modify (with_counters (cursor s - 1) (eom s)) else ret tt) (with_handle w s1)
    = Done (tt, with_counters (Z.of_nat (length l)) (eom s1) (with_handle w s1))).
  { intros w E. rewrite bind_get. cbn [cursor eom with_handle]. rewrite E, (proj2 (Z.ltb_lt _ _)) by lia.
    unfold modify. do 3 f_equal. lia. }
  destruct (cell_next (length l)) as [[Hd E]|[Hd E]]; [lia| |]; unfold cell_at in E; injection E as E1 E2; rewrite E1, E2.
  - rewrite (proj2 (Z.eqb_neq _ 0)), andb_false_r, (proj2 (Z.ltb_lt _ _)) by lia.
    destruct (move_to (handle s1) (length l) (Z.of_nat (length l / m)) (Z.of_nat (length l mod m) + 1 - 1)) as (w & Hw & Wy & Ws & Wc);
      [done|lia|unfold cell_at; f_equal; lia|].
    erewrite bind_Done by (apply call_run; exact Hw). cbv beta iota. rewrite Hback by done. eexists. split; [reflexivity|].
    apply (moved_spread b limit (l ++ [c]) r); try done. by rewrite <- app_assoc.
  - rewrite Z.eqb_refl, (proj2 (Z.ltb_lt _ _)) by lia. cbn [andb].
    destruct (move_to (handle s1) (length l) (Z.of_nat (length l / m) + 1 - 1) (Z.of_nat m - 1)) as (w & Hw & Wy & Ws & Wc);
      [done|lia|unfold cell_at; f_equal; lia|].
    erewrite bind_Done by (apply call_run; exact Hw). cbv beta iota. rewrite Hback by done. eexists. split; [reflexivity|].
    apply (moved_spread b limit (l ++ [c]) r); try done. by rewrite <- app_assoc.
Qed.

Lemma right_works b limit : key_works b limit (KArrow KEY_RIGHT).
Proof.
  intros l r s F _ _ _. cbn [run_key edit_at edit]. unfold UIInputWin_moveCursor, MoveRight.
  destruct (locate_spread _ _ _ _ _ F) as (s1 & Hl & Sp & El & Ey & Ex & _). run Hl. clear F Hl.
  pose proof Sp as [Fs Fy Fc F1 F2 F3 F4 F5 F6 F7]. rewrite bind_get, Ey, Ex, El, F2.
  destruct (cell_in (length l)) as (Hyn & Hx & E); [lia|].
  replace (Z.of_nat (length l / m) * Z.of_nat m + Z.of_nat (length l mod m))%Z with (Z.of_nat (length l)) by lia.
  destruct r as [|d r].
  { rewrite (proj2 (Z.ltb_ge _ _)) by (cbn; lia). exists s1. split; [done|]. by case_decide. }
  cbn [length] in *. rewrite (proj2 (Z.ltb_lt _ _)) by lia. case_decide as Hlast.
  - erewrite bind_Done by (apply call_run, wmove_out; rewrite Fs; cbn; lia). cbv beta iota. cbn [fst snd].
    eexists. split; [reflexivity|]. by destruct s1.
  - destruct (cell_next (length l)) as [[_ En]|[Hd _]]; [lia| |lia].
    destruct (move_to (handle s1) (S (length l)) (Z.of_nat (length l / m)) (Z.of_nat (length l mod m) + 1)) as (w & Hw & Wy & Ws & Wc);
      [done|lia|done|].
    erewrite bind_Done by (apply call_run; exact Hw). cbv beta iota. cbn [cursor with_handle].
    rewrite F1. unfold lift. unfold bind at 1. rewrite int_add_Done by (unfold INT_MIN, INT_MAX; lia).
    rewrite (proj2 (Z.ltb_ge _ _)) by lia. rewrite <- F2. eexists. split; [reflexivity|]. cbn [fst snd].
    replace (Z.of_nat (length l) + 1)%Z with (Z.of_nat (length (l ++ [d]))) by (rewrite length_app; cbn; lia).
    eapply (moved_spread b limit l (d :: r)); try done; [by rewrite <- app_assoc|]. by rewrite length_app, Nat.add_1_r.
Qed.

Lemma up_works b limit : key_works b limit (KArrow KEY_UP).
Proof.
  intros l r s F _ _ _. cbn [run_key edit_at]. unfold UIInputWin_moveCursor, MoveUp.
  destruct (locate_spread _ _ _ _ _ F) as (s1 & Hl & Sp & El & Ey & Ex & _). run Hl. clear F Hl.
  pose proof Sp as [Fs Fy Fc F1 F2 F3 F4 F5 F6 F7]. rewrite bind_get, Ey, Ex. case_decide as Hp.
  { rewrite Nat.div_small by done. by exists s1. }
  assert (H1 : 1 ≤ length l / m) by (apply Nat.div_le_lower_bound; lia). rewrite (proj2 (Z.ltb_lt _ _)) by lia.
  pose proof (cell_below (length l - m)) as E. replace (length l - m + m) with (length l) in E by lia.
  unfold cell_at in E at 1. injection E as E1 E2. cbn [fst snd].
  destruct (move_to (handle s1) (length l - m) (Z.of_nat (length l / m) - 1) (Z.of_nat (length l mod m))) as (w & Hw & Wy & Ws & Wc);
    [done|lia|unfold cell_at; f_equal; lia|].
  erewrite bind_Done by (apply call_run; exact Hw). cbv beta iota. cbn [cursor icols eom with_handle].
  assert (Hlen : length (take (length l - m) l) = length l - m) by (rewrite length_take; lia).
  eexists. split; [reflexivity|]. cbn [cursor icols eom with_handle fst snd]. rewrite El, F1.
  replace (Z.of_nat (length l) - Z.of_nat m)%Z with (Z.of_nat (length (take (length l - m) l))) by lia.
  apply (moved_spread b limit l r); try done; [by rewrite app_assoc, take_drop|by rewrite Hlen].
Qed.

Lemma down_works b limit : key_works b limit (KArrow KEY_DOWN).
Proof.
  intros l r s F Hlegal _ _. cbn [run_key edit_at legal] in *. unfold UIInputWin_moveCursor, MoveDown.
  destruct (locate_spread _ _ _ _ _ F) as (s1 & Hl & Sp & El & Ey & Ex & _). run Hl. clear F Hl.
  pose proof Sp as [Fs Fy Fc F1 F2 F3 F4 F5 F6 F7]. rewrite bind_get, Ey, Ex, El, F6, F2. case_decide as Hp.
  - destruct Hp as [Hp1 Hp2]. specialize (Hlegal Hp1 Hp2).
    rewrite (proj2 (Z.ltb_lt _ _)), (proj2 (Z.leb_le _ _)) by lia. cbn [andb fst snd].
    destruct (move_to (handle s1) (length l + m) (Z.of_nat (length l / m) + 1) (Z.of_nat (length l mod m))) as (w & Hw & Wy & Ws & Wc);
      [done|lia|apply cell_below|].
    erewrite bind_Done by (apply call_run; exact Hw). cbv beta iota.
    assert (Hlen : length (l ++ take m r) = length l + m) by (rewrite length_app, length_take; lia).
    eexists. split; [reflexivity|]. cbn [cursor icols eom with_handle fst snd]. rewrite F1, <- F2.
    replace (Z.of_nat (length l) + Z.of_nat m)%Z with (Z.of_nat (length (l ++ take m r))) by lia.
    apply (moved_spread b limit l r); try done; [by rewrite <- app_assoc, take_drop|by rewrite Hlen].
  - exists s1. split; [|done].
    destruct (Z.ltb_spec (Z.of_nat (length l / m)) (Z.of_nat n - 1)); [|done].
    destruct (Z.leb_spec (Z.of_nat m + Z.of_nat (length l mod m)) (Z.of_nat (length l + length r))); [|done].
    destruct Hp. split; lia.
Qed.

Lemma key_at b limit k : good_key k → key_works b limit k.
Proof. destruct k as [c| |[]]; [apply char_works|intros _ ..]; auto using delete_works, left_works, right_works, up_works, down_works. Qed.
End Lines.
