(* ===== verification/InputEdit.v ===== *)
(** * Messages of several lines

    Whatever is typed, moved over and deleted where [legal] allows it, what is
    read when the message is sent is the text of the line editor; on one line,
    and at the end of the text, everything is legal.  What happens elsewhere
    is also stated. *)

From S2P Require Import Prelude.
From S2P Require Import InputWindow.
From S2P Require Import InputSpec.
From S2P Require Import InputLines.

(** ** Sequences of keys *)

Section Keys.
Context (n m : nat).
Implicit Types (k : key) (ks : list key) (e : list Z * list Z) (l r : list Z).

Fixpoint edits_at ks e : list Z * list Z :=
  match ks with [] => e | k :: ks => edits_at ks (edit_at n m k e) end.

Fixpoint legal_along ks e : Prop :=
  match ks with [] => True | k :: ks => legal n m k e ∧ legal_along ks (edit_at n m k e) end.

#[export] Instance legal_dec k e : Decision (legal n m k e).
Proof. destruct e as [l r], k as [c| |[]]; cbn; apply _. Defined.

#[export] Instance legal_along_dec ks : ∀ e, Decision (legal_along ks e).
Proof. induction ks as [|k ks IH]; intros e; cbn; apply _. Defined.

Lemma edit_at_length k e :
  length (edit_at n m k e).1 + length (edit_at n m k e).2 ≤ length e.1 + length e.2 + adds k.
Proof.
  destruct e as [l r]. cbn [fst snd]. pose proof (edit_length 1 (S m) 0 ltac:(lia) ltac:(lia) k l r) as Hk.
  destruct k as [c| |[]]; cbn [edit_at adds] in *; try done; case_decide; cbn [fst snd]; try done;
    rewrite ?length_app, ?length_take, ?length_drop; lia.
Qed.

Lemma sum_adds k ks : sum_list (adds <$> k :: ks) = adds k + sum_list (adds <$> ks).
Proof. done. Qed.

Lemma edits_at_length ks : ∀ e,
  length (edits_at ks e).1 + length (edits_at ks e).2 ≤ length e.1 + length e.2 + sum_list (adds <$> ks).
Proof.
  induction ks as [|k ks IH]; intros e; [cbn; lia|]. pose proof (edit_at_length k e). specialize (IH (edit_at n m k e)).
  cbn [edits_at]. rewrite sum_adds. lia.
Qed.

(** On one line. *)
Lemma one_line_key k l r : 1 ≤ m → length l + length r + adds k < m →
  legal n m k (l, r) ∧ edit_at n m k (l, r) = edit k (l, r).
Proof.
  intros Hm Hlt. destruct k as [c| |[]]; cbn [legal edit_at adds] in *.
  - split; [|done]. by rewrite !Nat.div_small by lia.
  - split; [right|done]. by rewrite !Nat.div_small by lia.
  - done.
  - split; [done|]. rewrite Nat.mod_small by lia. case_decide as E; [|done]. cbn. destruct r; [done|]. cbn in *. lia.
  - split; [done|]. by rewrite decide_True by lia.
  - split; [lia|]. by rewrite decide_False by lia.
Qed.

Lemma one_line ks : ∀ l r, 1 ≤ m → length l + length r + sum_list (adds <$> ks) < m →
  legal_along ks (l, r) ∧ edits_at ks (l, r) = edits ks (l, r).
Proof.
  induction ks as [|k ks IH]; intros l r Hm Hlt; [done|]. rewrite sum_adds in Hlt.
  destruct (one_line_key k l r Hm) as [Hl He]; [lia|]. pose proof (edit_at_length k (l, r)) as Hk.
  cbn [legal_along edits_at edits fst snd] in *. rewrite He in *. destruct (edit k (l, r)) as [l' r'].
  destruct (IH l' r' Hm) as [Hl' He']; [cbn in *; lia|]. by split_and!.
Qed.

(** At the end of the text. *)
Definition writing k : Prop := match k with KArrow _ => False | _ => True end.

Lemma at_the_end ks : ∀ l, Forall writing ks →
  legal_along ks (l, []) ∧ edits_at ks (l, []) = edits ks (l, []) ∧ (edits ks (l, [])).2 = [].
Proof.
  induction ks as [|k ks IH]; intros l G; [done|]. inversion G as [|? ? Gk Gs]; subst.
  destruct k as [c| |]; [| |done]; cbn [legal_along edits_at edits edit_at edit legal].
  - destruct (IH (l ++ [c]) Gs) as (H1 & H2 & H3). split_and!; try done. by rewrite Nat.add_0_r.
  - destruct (IH (removelast l) Gs) as (H1 & H2 & H3). split_and!; try done. right. by rewrite Nat.add_0_r.
Qed.
End Keys.

Section Edit.
Context {W : Type} `{Wr : Wrapping W} (iswcntrl : Z → bool) (wcwidth : Z → Z).
Context (Hnarrow : ∀ c, narrow c → iswcntrl c = false ∧ wcwidth c = 1%Z).
Context (n m : nat) (Hn : 1 ≤ n) (Hm : 1 ≤ m) (Hmax : (Z.of_nat (n * m) ≤ 100000)%Z).
Implicit Types (s : UIInputWin W) (l r t : list Z).

Abbreviation spread := (spread n m).
Abbreviation filled b limit t := (InputLines.spread n m b limit t []).

Lemma edits_run ks : ∀ b limit l r s, Forall good_key ks → legal_along n m ks (l, r) → spread b limit l r s →
  length l + length r + sum_list (adds <$> ks) ≤ limit → length l + length r + sum_list (adds <$> ks) < n * m →
  ∃ s', run_keys iswcntrl wcwidth ks s = Done (tt, s')
    ∧ spread b limit (edits_at n m ks (l, r)).1 (edits_at n m ks (l, r)).2 s'.
Proof.
  induction ks as [|k ks IH]; intros b limit l r s G Hlegal F Hl Hr; [by exists s|]. inversion G as [|? ? Gk Gs]; subst.
  destruct Hlegal as [Hk Hks]. rewrite sum_adds in *. pose proof (edit_at_length n m k (l, r)) as Hlen.
  destruct (key_at iswcntrl wcwidth Hnarrow n m Hn Hm Hmax b limit k Gk l r s F Hk) as (s1 & H1 & F1); [lia|lia|].
  cbn [run_keys edits_at]. run H1. destruct (edit_at n m k (l, r)) as [l' r']. cbn [fst snd] in *. apply IH; done || lia.
Qed.

(** ** From a new message to its text *)

Lemma init_spread s (b : list Z) : sized n m s → eom s = 0%Z → b ≠ [] →
  ∃ s', UIInputWin_init b s = Done (tt, s') ∧ spread (Some (<[length b - 1 := 0%Z]> b)) (limit_of n m b) [] [] s'.
Proof.
  intros Hs He Hb. destruct (init_run n m Hn Hm s b Hs He Hb) as (s' & Hr & [] & _ & Hcols). exists s'. split; [done|].
  assert (Hpos : 0 < n * m) by nia. split; try done.
  - unfold cell_at. rewrite Nat.Div0.div_0_l, Nat.Div0.mod_0_l. done.
  - rewrite sh_rows, concat_page by (cbn; lia). done.
Qed.

Lemma commit_spread s (b : list Z) (E : nat) l r : E < length b → E ≤ n * m → length (l ++ r) ≤ E → l ++ r ≠ [] →
  spread (Some b) E l r s →
  let t := l ++ r in
  ∃ s' b', UIInputWin_commit s = Done (Z.of_nat (length t) + 1, s')%Z
    ∧ buffer s' = Some b' ∧ eom s' = 0%Z ∧ sized n m s'
    ∧ take E b' = t ++ replicate (E - length t) space ∧ b' !! E = Some 0%Z.
Proof.
  intros Hb HE Hlen Hne [Fs Fy Fc F1 F2 F3 F4 F5 F6 F7]. intros t. fold t in Hlen, Hne, Fc. rewrite <- length_app in F2. fold t in F2.
  unfold UIInputWin_commit. rewrite bind_get, F5.
  assert (length t ≠ 0) by (by destruct t). rewrite F2, (proj2 (Z.eqb_neq _ _)) by lia. rewrite F6, Nat2Z.id.
  destruct (rows_uniform n m (handle s) Fs) as [_ Hrows].
  destruct (read_lines_run n m Hn Hm (rows (handle s)) 0 0 b s E Fs) as (w & b' & Hr & Ws & L1 & L2 & L3);
    [apply drop_0|done|lia|done|by intros Er; rewrite Er in Hrows; cbn in Hrows; lia|].
  rewrite Hrows in Hr. run Hr. rewrite bind_modify. cbn [eom with_buffer with_handle].
  destruct (clear_run n m Hn Hm (with_buffer (Some b') (with_handle w s)) Ws) as (w2 & Hc & Ws2 & _). run Hc.
  rewrite bind_get, bind_modify. rewrite ?F2, (proj2 (Z.ltb_lt _ _)) by lia.
  rewrite Nat.sub_0_r, Nat.add_0_l, Fc in *. change (take 0 b) with (@nil Z) in L2. cbn [Datatypes.app] in L2.
  assert (HL : length (take E (padded (n * m) t)) = E).
  { unfold padded. rewrite length_take, length_app, length_replicate. lia. }
  rewrite HL in L2, L3. eexists _, b'. split; [reflexivity|]. do 2 (split; [done|]). split; [by split_and!|]. split; [|done].
  rewrite L2. unfold padded. rewrite take_app_ge, take_replicate by lia. do 2 f_equal. lia.
Qed.

Lemma reset_spread s (b : list Z) limit l r : spread (Some b) limit l r s →
  ∃ s', UIInputWin_reset s = Done (tt, s') ∧ spread (Some (replicate (length b) 0%Z)) limit [] [] s'.
Proof.
  intros [Fs Fy Fc F1 F2 F3 F4 F5 F6 F7]. destruct (clear_run n m Hn Hm s Fs) as (w & Hw & Ws & Wy & Wr').
  unfold UIInputWin_reset. run Hw. eexists. split; [reflexivity|]. cbn.
  split; cbn [handle with_buffer with_counters with_handle cursor eom eob buffer ilines icols]; try done.
  - rewrite Wy. unfold cell_at. by rewrite Nat.Div0.div_0_l, Nat.Div0.mod_0_l.
  - rewrite Wr', concat_page by (cbn; lia). done.
  - cbn. lia.
  - cbn. by rewrite F5.
Qed.

(** A message that is typed into an empty window. *)
Lemma message_run s (b : list Z) ks : sized n m s → eom s = 0%Z → Forall good_key ks → legal_along n m ks ([], []) →
  sum_list (adds <$> ks) < n * m → sum_list (adds <$> ks) < length b →
  let e := edits_at n m ks ([], []) in
  let t := e.1 ++ e.2 in
  t ≠ [] →
  ∃ s' b', (UIInputWin_init b;;; run_keys iswcntrl wcwidth ks;;; UIInputWin_commit) s = Done (Z.of_nat (length t) + 1, s')%Z
    ∧ buffer s' = Some b' ∧ eom s' = 0%Z
    ∧ take (limit_of n m b) b' = t ++ replicate (limit_of n m b - length t) space
    ∧ b' !! limit_of n m b = Some 0%Z.
Proof.
  intros Hs He G Hlegal Hroom Hb e t Ht. destruct (init_spread s b Hs He) as (s1 & H1 & F1); [by intros ->; cbn in Hb; lia|]. run H1.
  destruct (edits_run ks _ _ [] [] s1 G Hlegal F1) as (s2 & H2 & F2); [unfold limit_of; cbn; lia|cbn; lia|]. run H2.
  fold e in F2. assert (Hlen : length t ≤ sum_list (adds <$> ks)).
  { unfold t, e. rewrite length_app. pose proof (edits_at_length n m ks ([], [])) as Hk. cbn in *. lia. }
  destruct (commit_spread s2 (<[length b - 1:=0%Z]> b) (limit_of n m b) e.1 e.2) as (s3 & b' & H3 & Hb' & He' & _ & Hrest); fold t;
    [unfold limit_of; rewrite ?length_insert; lia..|done|done|].
  by exists s3, b'.
Qed.

(** ** Editing above the last line *)

(** A row into which a character is inserted, in the sequence of cells. *)
Lemma insert_in_row t y x (c : Z) : x < m → y * m + m ≤ length t →
  take (y * m) (padded (n * m) t)
    ++ take m (take x (take m (drop (y * m) (padded (n * m) t))) ++ c :: drop x (take m (drop (y * m) (padded (n * m) t))))
    ++ drop (y * m + m) (padded (n * m) t)
  = padded (n * m) (take (y * m + x) t ++ c :: drop (y * m + x) (take (y * m + m - 1) t) ++ drop (y * m + m) t).
Proof.
  clear Hn Hm Hmax. intros Hx Hy.
  assert (Ht : t = take (y * m) t ++ take x (drop (y * m) t) ++ take (m - x - 1) (drop (y * m + x) t)
                    ++ take 1 (drop (y * m + m - 1) t) ++ drop (y * m + m) t).
  { rewrite <- (take_drop (y * m) t) at 1. f_equal. rewrite <- (take_drop x (drop (y * m) t)) at 1. f_equal.
    rewrite drop_drop. rewrite <- (take_drop (m - x - 1) (drop (y * m + x) t)) at 1. f_equal. rewrite drop_drop.
    replace (y * m + x + (m - x - 1)) with (y * m + m - 1) by lia.
    rewrite <- (take_drop 1 (drop (y * m + m - 1) t)) at 1. f_equal. rewrite drop_drop. f_equal. lia. }
  remember (take (y * m) t) as A eqn:EA. remember (take x (drop (y * m) t)) as B eqn:EB.
  remember (take (m - x - 1) (drop (y * m + x) t)) as D eqn:ED.
  remember (take 1 (drop (y * m + m - 1) t)) as F eqn:EF. remember (drop (y * m + m) t) as G eqn:EG.
  assert (LA : length A = y * m) by (subst A; rewrite length_take; lia).
  assert (LB : length B = x) by (subst B; rewrite length_take, length_drop; lia).
  assert (LD : length D = m - x - 1) by (subst D; rewrite length_take, length_drop; lia).
  assert (LF : length F = 1) by (subst F; rewrite length_take, length_drop; lia).
  clear EA EB ED EF EG. subst t. clear Hy. unfold padded. set (sp := replicate _ space) at 1 2 3 4.
  rewrite <- !app_assoc. set (tail := G ++ sp).
  rewrite (take_app_length' A) by done. rewrite (drop_app_length' A) by done.
  assert (ER : take m (B ++ D ++ F ++ tail) = B ++ D ++ F).
  { rewrite !app_assoc. apply take_app_length'. rewrite !length_app. lia. }
  rewrite ER. rewrite (take_app_length' B), (drop_app_length' B) by done.
  assert (E1 : take m (B ++ c :: D ++ F) = B ++ c :: D).
  { replace (B ++ c :: D ++ F) with ((B ++ c :: D) ++ F) by (by rewrite <- app_assoc).
    apply take_app_length'. rewrite length_app. cbn. lia. }
  assert (E2 : drop (y * m + m) (A ++ B ++ D ++ F ++ tail) = tail).
  { rewrite !app_assoc. apply drop_app_length'. rewrite !length_app. lia. }
  assert (E3 : take (y * m + x) (A ++ B ++ D ++ F ++ G) = A ++ B).
  { rewrite app_assoc. apply take_app_length'. rewrite length_app. lia. }
  assert (E4 : drop (y * m + x) (take (y * m + m - 1) (A ++ B ++ D ++ F ++ G)) = D).
  { assert (E5 : take (y * m + m - 1) (((A ++ B) ++ D) ++ F ++ G) = (A ++ B) ++ D).
    { apply take_app_length'. rewrite !length_app. lia. }
    rewrite <- !app_assoc in E5. rewrite E5, app_assoc. apply drop_app_length'. rewrite length_app. lia. }
  rewrite E1, E2, E3, E4. unfold tail, sp. rewrite <- !app_assoc. do 2 f_equal. cbn. f_equal. rewrite <- app_assoc. do 3 f_equal.
  rewrite !length_app. cbn. rewrite !length_app. lia.
Qed.

(** A character is inserted before the end of the text. *)
Lemma insert_run c s y x r : narrow c → size_is n m (handle s) → getyx (handle s) = (Z.of_nat y, Z.of_nat x) →
  rows (handle s) !! y = Some r → x + 1 < m → (0 ≤ cursor s < eom s)%Z → (cursor s < eob s)%Z → (eom s ≤ 100000)%Z →
  ∃ s', run_key iswcntrl wcwidth (KChar c) s = Done (tt, s') ∧ eom s' = (eom s + 1)%Z
    ∧ rows (handle s') = <[y := take (length r) (take x r ++ c :: drop x r)]> (rows (handle s)).
Proof.
  intros Nc Fs Wy Hr Hx Hc1 Hc2 He. destruct (Hnarrow c Nc) as [Hc Hw].
  assert (Hy : y < n) by (destruct (rows_uniform n m _ Fs) as [_ <-]; by apply lookup_lt_Some in Hr).
  cbn [run_key]. unfold UIInputWin_addChar, UIInputWin_locate. rewrite bind_modify, bind_get.
  cbn [cursor eom eob with_position]. rewrite Hc, Hw, (proj2 (Z.ltb_lt _ _)), (proj2 (Z.eqb_neq _ _)) by lia. cbn [andb negb].
  rewrite bind_ret, bind_get. cbn [cursor eom with_position]. rewrite (proj2 (Z.ltb_lt _ _)) by lia.
  destruct (wins_wstr_in (handle s) c (Z.of_nat y) (Z.of_nat x) r Nc Wy) as (w2 & Hi & Wy2 & Ws2 & Wc2);
    [lia|rewrite Fs; cbn; lia|by rewrite Nat2Z.id|].
  erewrite bind_Done by (apply call_run; exact Hi). cbv beta iota.
  cbn [ix iy icols with_handle with_position]. rewrite Wy, Fs. cbn [fst snd]. rewrite (proj2 (Z.ltb_lt _ _)) by lia.
  destruct (wmove_in w2 (Z.of_nat y) (Z.of_nat x + 1)) as (w3 & Hm3 & Wy3 & Ws3 & Wc3); [rewrite Ws2, Fs; cbn; lia..|].
  erewrite bind_Done by (apply call_run; exact Hm3). cbv beta iota. erewrite advance_run by (cbn; lia).
  eexists. split; [reflexivity|]. cbn [eom handle with_counters with_handle with_position]. split; [done|].
  by rewrite Wc3, Wc2, !Nat2Z.id.
Qed.

(** Going up a line and typing there pushes the last character of that line
    out of the window, while the counters say that the text is one longer:
    what is sent lacks a character. *)
Lemma insert_above_loses b limit t c s : narrow c → filled b limit t s → m ≤ length t → length t < limit →
  let p := length t - m in
  let k := length t / m * m in
  p mod m + 1 < m →
  ∃ s', run_keys iswcntrl wcwidth [KArrow KEY_UP; KChar c] s = Done (tt, s')
    ∧ eom s' = Z.of_nat (length t + 1)
    ∧ concat (rows (handle s')) = padded (n * m) (take p t ++ c :: drop p (take (k - 1) t) ++ drop k t).
Proof.
  intros Nc F Hl Hlim p k Hp.
  destruct (up_works iswcntrl wcwidth n m Hn Hm Hmax b limit t [] s F I) as (s1 & H1 & F1); cbn [adds length];
    [lia|pose proof (sp_room _ _ _ _ _ _ _ F) as Hr; cbn in Hr; lia|].
  cbn [run_keys]. run H1. cbn [edit_at] in F1. rewrite decide_False in F1 by lia. cbn [fst snd] in F1. rewrite app_nil_r in F1. fold p in F1.
  destruct F1 as [Ss Sy Sr S1 S2 Hroom S3 _ _ _]. rewrite take_drop in Sr. rewrite <- length_app, take_drop in S2, Hroom.
  assert (Hlp : length (take p t) = p) by (rewrite length_take; lia). rewrite Hlp in Sy, S1.
  destruct (cell_in n m Hn Hm Hmax (length t) Hroom) as (Hy & Hx & E).
  assert (Hy1 : 1 ≤ length t / m) by (apply Nat.div_le_lower_bound; lia).
  unfold k. clear k. set (y := length t / m) in *. set (x := length t mod m) in *. clearbody y x.
  assert (Epx : p = (y - 1) * m + x) by (unfold p; nia).
  assert (Ex : p mod m = x)
    by (symmetry; apply (Nat.mod_unique p m (y - 1) x); [done|rewrite Epx; apply Nat.add_cancel_r, Nat.mul_comm]).
  assert (Ey : p / m = y - 1)
    by (symmetry; apply (Nat.div_unique p m (y - 1) x); [done|rewrite Epx; apply Nat.add_cancel_r, Nat.mul_comm]).
  unfold cell_at in Sy. rewrite Ex in Hp, Sy. rewrite Ey in Sy. destruct (rows_uniform n m _ Ss) as [U Hn'].
  destruct (lookup_lt_is_Some_2 (rows (handle s1)) (y - 1)) as [r Hr]; [lia|].
  destruct (insert_run c s1 (y - 1) x r Nc Ss Sy Hr Hp) as (s2 & H2 & E2 & R2); [lia|lia|lia|]. run H2.
  eexists. split; [reflexivity|]. split; [lia|]. rewrite R2.
  assert (Hlr : length r = m) by by apply (Forall_lookup_1 _ _ _ _ U Hr).
  rewrite (replace_row m _ _ r) by (done || (rewrite length_take, length_app, length_take; cbn; rewrite length_drop; lia)).
  rewrite Hlr. rewrite <- (row_at m _ _ _ U Hr) at 1 2. rewrite Sr, insert_in_row by nia.
  rewrite Epx. replace ((y - 1) * m + m) with (y * m) by nia. done.
Qed.
End Edit.

(** C9. A message of any length up to the limit, on any number of lines.
    Typing, deleting and moving the cursor, in any order in which what is
    inserted or deleted before other text stays on one line, and then sending
    the message reads back exactly the text that results, as it wrapped over
    the lines, and returns its length and one. *)
Theorem edited_message_is_read {W : Type} `{Wrapping W} (iswcntrl : Z → bool) (wcwidth : Z → Z)
    (Hnarrow : ∀ c, narrow c → iswcntrl c = false ∧ wcwidth c = 1%Z)
    (n m : nat) (Hn : 1 ≤ n) (Hm : 1 ≤ m) (Hmax : (Z.of_nat (n * m) ≤ 100000)%Z)
    (s : UIInputWin W) (b : list Z) (ks : list key)
    (Hs : sized n m s) (He : eom s = 0%Z) (Hks : Forall good_key ks) (Hlegal : legal_along n m ks ([], []))
    (Hroom : sum_list (adds <$> ks) < n * m) (Hb : sum_list (adds <$> ks) < length b) :
  let e := edits_at n m ks ([], []) in
  let t := e.1 ++ e.2 in
  t ≠ [] →
  ∃ s' b', (UIInputWin_init b;;; run_keys iswcntrl wcwidth ks;;; UIInputWin_commit) s = Done (Z.of_nat (length t) + 1, s')%Z
    ∧ buffer s' = Some b' ∧ eom s' = 0%Z
    ∧ take (limit_of n m b) b' = t ++ replicate (limit_of n m b - length t) space
    ∧ b' !! limit_of n m b = Some 0%Z.
Proof. by apply message_run. Qed.

(** Without the arrows everything is legal. *)
Theorem long_message_is_read {W : Type} `{Wrapping W} (iswcntrl : Z → bool) (wcwidth : Z → Z)
    (Hnarrow : ∀ c, narrow c → iswcntrl c = false ∧ wcwidth c = 1%Z)
    (n m : nat) (Hn : 1 ≤ n) (Hm : 1 ≤ m) (Hmax : (Z.of_nat (n * m) ≤ 100000)%Z)
    (s : UIInputWin W) (b : list Z) (ks : list key)
    (Hs : sized n m s) (He : eom s = 0%Z) (Hks : Forall good_key ks) (Hw : Forall writing ks)
    (Hroom : sum_list (adds <$> ks) < n * m) (Hb : sum_list (adds <$> ks) < length b) :
  let t := (edits ks ([], [])).1 in
  t ≠ [] →
  ∃ s' b', (UIInputWin_init b;;; run_keys iswcntrl wcwidth ks;;; UIInputWin_commit) s = Done (Z.of_nat (length t) + 1, s')%Z
    ∧ buffer s' = Some b' ∧ eom s' = 0%Z
    ∧ take (limit_of n m b) b' = t ++ replicate (limit_of n m b - length t) space
    ∧ b' !! limit_of n m b = Some 0%Z.
Proof.
  intros t Ht. destruct (at_the_end n m ks [] Hw) as (Hlegal & Ee & Er).
  pose proof (message_run iswcntrl wcwidth Hnarrow n m Hn Hm Hmax s b ks Hs He Hks Hlegal Hroom Hb) as M.
  cbn zeta in M. rewrite Ee, Er, app_nil_r in M. exact (M Ht).
Qed.

#[export] Instance screen_wraps : Wrapping InputSample.screen.
Proof.
  intros w c y x r _ [= <- <-] Hy Hy' Hx Hx' Hr. cbn in *. apply InputSample.rows_lookup in Hr as [-> Hr].
  unfold InputSample.add. rewrite (proj2 (Z.ltb_ge _ _)), (proj2 (Z.ltb_lt _ _)) by lia.
  eexists. split; [reflexivity|]. split; [done|]. split; [done|].
  apply (InputSample.rows_set_line w); [|done]. by rewrite length_insert, InputSample.row_length.
Qed.

(** Eleven characters on lines of four columns; the last three corrected, the
    cursor taken up and down again, and a character inserted on the last line. *)
Definition three_lines : list key :=
  ((KChar <$> [97; 98; 99; 100; 101; 102; 103; 104; 105; 106; 107]) ++ [KDelete; KDelete; KArrow KEY_UP; KArrow KEY_LEFT; KArrow KEY_RIGHT]
   ++ [KArrow KEY_UP; KArrow KEY_DOWN; KArrow KEY_DOWN; KArrow KEY_LEFT; KChar 33; KArrow KEY_RIGHT; KChar 63])%Z.

Lemma edited_message_is_read_witness : ∃ s' b',
  (UIInputWin_init (replicate 15 7%Z);;;
   run_keys InputDemo.iswcntrl InputDemo.wcwidth three_lines;;; UIInputWin_commit) (InputDemo.start 4 4) = Done (12%Z, s')
  ∧ buffer s' = Some b' ∧ take 14 b' = [97; 98; 99; 100; 101; 102; 103; 104; 33; 105; 63; 32; 32; 32]%Z.
Proof.
  destruct (edited_message_is_read InputDemo.iswcntrl InputDemo.wcwidth InputDemo.narrow_ok 4 4
    ltac:(lia) ltac:(lia) ltac:(lia) (InputDemo.start 4 4) (replicate 15 7%Z) three_lines) as (s' & b' & H1 & H2 & _ & H3 & _).
  - by split.
  - reflexivity.
  - repeat constructor; cbn; lia.
  - apply (bool_decide_eq_true_1 _). vm_compute. reflexivity.
  - vm_compute. lia.
  - vm_compute. lia.
  - vm_compute. discriminate.
  - exists s', b'. split; [exact H1|]. split; [exact H2|exact H3].
Defined.
