(* ===== verification/ClientLib.v ===== *)
(** * The connection of the client (src/client/client.c)

    Creating, connecting, authenticating and closing.  What the network and
    the TLS library answer are arguments; sending and receiving are those of
    Transport.v.  Messages for the user are not modelled. *)

From S2P Require Import Prelude.
From S2P Require Import CStr.
From S2P Require Import MessageLib.
From S2P Require Import Transport.
From S2P Require Import Tls.
From S2P Require Import ServerSettings.
From S2P Require Import ClientSettings.

(** ** State *)

(** [C2HatClient]: the TLS context is an address (see Tls.v), the TLS handle is
    [NULL] or not; [verified] is the host
    name the certificate is checked for, [sent] what was handed to the
    connection, [closed] whether the socket was closed. *)
Record C2HatClient : Type := MkClient {
  sslContext : option nat;
  server : Z;
  closed : bool;
  ssl : bool;
  verified : option bytes;
  cbuffer : MessageBuffer;
  logFilePath : bytes;
  clogLevel : Z;
  sent : bytes;
  room : nat
}.

Definition set_server (z : Z) (c : C2HatClient) := MkClient (sslContext c) z (closed c) (ssl c) (verified c) (cbuffer c) (logFilePath c) (clogLevel c) (sent c) (room c).
Definition set_closed (b : bool) (c : C2HatClient) := MkClient (sslContext c) (server c) b (ssl c) (verified c) (cbuffer c) (logFilePath c) (clogLevel c) (sent c) (room c).
Definition set_ssl (b : bool) (c : C2HatClient) := MkClient (sslContext c) (server c) (closed c) b (verified c) (cbuffer c) (logFilePath c) (clogLevel c) (sent c) (room c).
Definition set_verified (h : option bytes) (c : C2HatClient) := MkClient (sslContext c) (server c) (closed c) (ssl c) h (cbuffer c) (logFilePath c) (clogLevel c) (sent c) (room c).
Definition set_cbuffer (b : MessageBuffer) (c : C2HatClient) := MkClient (sslContext c) (server c) (closed c) (ssl c) (verified c) b (logFilePath c) (clogLevel c) (sent c) (room c).
Definition set_sent (o : bytes) (c : C2HatClient) := MkClient (sslContext c) (server c) (closed c) (ssl c) (verified c) (cbuffer c) (logFilePath c) (clogLevel c) o (room c).
Definition set_room (n : nat) (c : C2HatClient) := MkClient (sslContext c) (server c) (closed c) (ssl c) (verified c) (cbuffer c) (logFilePath c) (clogLevel c) (sent c) n.

(** ** Creating *)

(** [strncat(dest, src, n)]: the string is extended where it ends. *)
Definition strncat (dest src : bytes) (n : nat) : outcome bytes :=
  let! d := cstr dest in
  let! t := str_prefix n src in
  if decide (length d + length t < length dest)
  then Done (d ++ t ++ NUL :: drop (length d + length t + 1) dest) else Stuck OutOfBounds.

Definition kLogFileName : bytes := lit "/client.log".

(** [access(path, R_OK) != -1], and the path. *)
Definition readable_path (readable : bytes → bool) (path : bytes) : outcome (option bytes) :=
  let! t := cstr path in Done (if readable t then Some t else None).

(** The context, or [NULL] and the reason. *)
Definition Client_ssl_init (lib : tls_library) (readable : bytes → bool) (caCert caPath error : bytes) (length : nat)
    : cmd contexts (option nat * bytes) :=
  let fails why := error <- lift (strncpy error (lit why ++ [NUL]) length);; ret (None, error) in
  context <- SSL_CTX_new lib;;
  match context with
  | None => fails "SSL_CTX_new() failed."%string
  | Some _ =>
    ok <- ctx_do lib context (SetMinProto TLS1_2_VERSION);;
    if negb ok then fails "Cannot set minimum TLS protocol version."%string else
    ctx_do lib context SetOptions;;;
    ctx_do lib context SetMode;;;
    ctx_do lib context (SetCipherList kCiphers);;;
    caCertFile <- lift (readable_path readable caCert);;
    caCertDir <- lift (readable_path readable caPath);;
    ok <- ctx_do lib context (LoadLocations caCertFile caCertDir);;
    if negb ok then fails "Unable to load CA locations"%string else
    ctx_do lib context SetVerifyPeer;;;
    ret (context, error)
  end.

(** [Client_create]: [calloc] and the TLS context may fail. *)
Definition Client_create (lib : tls_library) (readable : bytes → bool) (calloc_ok : bool) (options : ClientOptions)
    (allocs : nat) : cmd contexts (option C2HatClient) :=
  if negb calloc_ok then ret None else
  p <- lift (strncpy (replicate kMaxPath NUL) (logDirPath options) kMaxPath);;
  p <- lift (strncat p (kLogFileName ++ [NUL]) kMaxPath);;
  r <- Client_ssl_init lib readable (caCertFilePath options) (caCertDirPath options) (replicate 100 NUL) 100;;
  match r.1 with
  | None => ret None
  | Some ctx =>
    ret (Some (MkClient (Some ctx) 0 false false None (MkBuffer (replicate kMessageBufferSize NUL) None) p
                 (o_logLevel options) [] allocs))
  end.

(** ** Using the connection *)

Definition receive (reads : list read_answer) : cmd C2HatClient Z :=
  c <- get;;
  r <- lift (Client_receive (cbuffer c) reads);;
  modify (set_cbuffer r.2);;;
  ret r.1.

(** [C2HMessage_get] on the client's buffer. *)
Definition get_message : cmd C2HatClient (option C2HMessage) := λ c,
  match C2HMessage_get (cbuffer c) (room c) with
  | Done ((m, b), n) => Done (m, set_cbuffer b (set_room n c))
  | Stuck w => Stuck w
  end.

Definition create_message (type : C2HMessageType) (format : bytes) (args : list arg)
    : cmd C2HatClient (option C2HMessage) := λ c,
  match C2HMessage_create type format args (room c) with
  | Done (m, n) => Done (m, set_room n c)
  | Stuck w => Stuck w
  end.

Definition send (m : C2HMessage) (writes : list Z) : cmd C2HatClient Z :=
  c <- get;;
  r <- lift (Client_send (Some tt) (Some m) writes);;
  modify (set_sent (sent c ++ r.2));;;
  ret r.1.

(** ** Closing *)

Definition Client_disconnect : cmd C2HatClient unit :=
  c <- get;;
  if ssl c then
    modify (λ c, set_ssl false (if SOCKET_isValid (server c) then set_closed true c else c))
  else ret tt.

(** [Client_destroy] leaves a [NULL] pointer; the peer's chain is never set. *)
Definition Client_destroy (client : option C2HatClient) : cmd contexts (option C2HatClient) :=
  match client with
  | None => ret None
  | Some c =>
    lift (Client_disconnect c);;;
    SSL_CTX_free (sslContext c);;;
    ret None
  end.

Definition Client_getSocket (this : option C2HatClient) : Z :=
  match this with Some c => server c | None => 0 end.
Definition Client_getBuffer (this : option C2HatClient) : option MessageBuffer := cbuffer <$> this.

(** ** Connecting *)

(** What [SSL_connect] and [SSL_get_error] say. *)
Inductive handshake : Type := Connected | HandshakeAgain | HandshakeFailed.

Inductive select_answer : Type := Readable | TimedOut | Interrupted | SelectFailed.

Record network : Type := Network {
  n_getaddrinfo : bool;
  n_getnameinfo : bool;
  n_address : bytes;
  n_socket : Z;
  n_connect : bool;
  n_ssl_new : bool;
  n_set_host : bool;
  n_handshakes : list handshake;
  n_certificate : bool;
  n_select : select_answer;
  n_reads : list read_answer;
  n_log : bool
}.

Definition IsLocalhost (address : bytes) : bool :=
  bool_decide (address = lit "127.0.0.1") || bool_decide (address = lit "::1").

(** The loop around [SSL_connect]. *)
Fixpoint ssl_connect (hs : list handshake) : outcome bool :=
  match hs with
  | [] => Stuck OutOfFuel
  | Connected :: _ => Done true
  | HandshakeAgain :: hs => ssl_connect hs
  | HandshakeFailed :: _ => Done false
  end.

(** Waiting for the server's welcome. *)
Definition await_welcome (net : network) : cmd C2HatClient bool :=
  c <- get;;
  if negb (SOCKET_isValid (server c)) then ret false else
  match n_select net with
  | Interrupted => ret true
  | SelectFailed | TimedOut => ret false
  | Readable =>
    received <- receive (n_reads net);;
    if (received <? 0)%Z then ret false else
    response <- get_message;;
    match response with
    | None => ret false
    | Some m =>
      if decide (mtype m ≠ kMessageTypeOk) then ret false
      else if negb (n_log net) then ret false else ret true
    end
  end.

Definition Client_connect (net : network) (host : bytes) : cmd C2HatClient bool :=
  if negb (n_getaddrinfo net) then ret false else
  if negb (n_getnameinfo net) then ret false else
  modify (set_server (n_socket net));;;
  if negb (SOCKET_isValid (n_socket net)) then ret false else
  if negb (n_connect net) then ret false else
  if negb (n_ssl_new net) then ret false else
  modify (set_ssl true);;;
  checked <- (if negb (IsLocalhost (n_address net)) then
                if negb (n_set_host net) then ret false
                else modify (set_verified (Some host));;; ret true
              else ret true);;
  if negb checked then ret false else
  connected <- lift (ssl_connect (n_handshakes net));;
  if negb connected then ret false else
  if negb (n_certificate net) then ret false else
  await_welcome net.

(** ** Authenticating *)

(** [reads1] and [reads2] are the answers to the two calls of
    [Client_receive], [writes] those to the writes in between. *)
Definition Client_authenticate (username : bytes) (reads1 : list read_answer) (writes : list Z)
    (reads2 : list read_answer) : cmd C2HatClient bool :=
  u <- lift (cstr username);;
  if decide (length u < 2) then Client_disconnect;;; ret false else
  received <- receive reads1;;
  if (received <? 0)%Z then Client_disconnect;;; ret false else
  response <- get_message;;
  match response with
  | None => ret false
  | Some m =>
    if decide (mtype m ≠ kMessageTypeNick) then Client_disconnect;;; ret false else
    message <- create_message kMessageTypeNick (lit "%s") [AStr u];;
    match message with
    | None => Client_disconnect;;; ret false
    | Some m =>
      n <- send m writes;;
      if (n <? 0)%Z then Client_disconnect;;; ret false else
      received <- receive reads2;;
      if (received <? 0)%Z then Client_disconnect;;; ret false else
      response <- get_message;;
      match response with
      | None => ret false
      | Some m =>
        if decide (mtype m ≠ kMessageTypeOk) then Client_disconnect;;; ret false else ret true
      end
    end
  end.
