(* ===== verification/ClientSpec.v ===== *)
(** * Properties of the client's connection

    The dialogue of the authentication, what a connection that succeeds has
    checked, and how a client is created. *)

From S2P Require Import Prelude.
From S2P Require Import CStr.
From S2P Require Import MessageLib.
From S2P Require Import MessageSpec.
From S2P Require Import Transport.
From S2P Require Import Tls.
From S2P Require Import ServerSettings.
From S2P Require Import ClientSettings.
From S2P Require Import ClientLib.
Implicit Types (c : C2HatClient) (k : packet).

(** ** One message in the buffer *)

(** A buffer that holds one message and can be used for the next read. *)
Lemma get_packet k z r : good_packet k → 0 < z →
  let b := MkBuffer (packet_wire k ++ NUL :: replicate z NUL) (Some 0) in
  ∃ b', C2HMessage_get b (S (S r)) = Done ((Some (packet_message k), b'), r)
    ∧ length (bdata b') = length (bdata b) ∧ reusable b'.
Proof.
  intros G Hz b. destruct (wire_slash k G) as (w & Hw & Hn).
  assert (Hd : bdata b = [] ++ ("/"%char :: w) ++ NUL :: replicate z NUL) by (cbn; by rewrite Hw).
  pose proof (Message_get_run [] w _ b (S r) Hd eq_refl Hn) as Hm.
  rewrite decide_False in Hm by (by destruct z; [lia|]).
  change ("/"%char :: w ++ [NUL]) with (("/"%char :: w) ++ [NUL]) in Hm. rewrite <- Hw in Hm.
  pose proof (get_wire _ _ _ _ (proj1 G) b _ _ _ Hm) as Hg. eexists. split; [exact Hg|]. split; [done|].
  exists NUL. cbn [bdata b]. split; [|by left]. rewrite length_app. cbn. rewrite length_replicate.
  rewrite lookup_app_r by lia. replace (length (packet_wire k) + S z - 1 - length (packet_wire k)) with z by lia.
  apply (lookup_replicate_2 (S z)). lia.
Qed.

(** Receiving a message, however often the read is tried again, and taking it
    out of the buffer. *)
Definition delivers (k : packet) (reads : list read_answer) : Prop :=
  ∃ again rest, reads = replicate again ReadAgain ++ ReadData (packet_wire k ++ [NUL]) :: rest.

Lemma receive_get k reads c r : good_packet k → delivers k reads → reusable (cbuffer c) →
  length (packet_wire k) + 1 < length (bdata (cbuffer c)) → room c = S (S r) →
  ∃ n c1 b', receive reads c = Done (n, c1) ∧ (0 < n)%Z
    ∧ get_message c1 = Done (Some (packet_message k), set_cbuffer b' (set_room r c))
    ∧ length (bdata b') = length (bdata (cbuffer c)) ∧ reusable b'.
Proof.
  intros G (again & rest & ->) Hb Hl Hr.
  set (d := packet_wire k ++ [NUL]). assert (Hd : length d = length (packet_wire k) + 1) by (unfold d; rewrite length_app; done).
  unfold receive. rewrite bind_get. unfold Client_receive. rewrite receive_data by (done || (fold d; lia)).
  unfold lift. unfold bind at 1. rewrite bind_modify. fold d.
  remember (length (bdata (cbuffer c))) as N eqn:EN.
  destruct (get_packet k (N - length d) r G) as (b' & Hg & Hlen & Hre); [lia|].
  assert (E : d ++ replicate (N - length d) NUL = packet_wire k ++ NUL :: replicate (N - length d) NUL)
    by (unfold d; by rewrite <- app_assoc).
  eexists _, _, b'. split; [reflexivity|]. split; [cbn [fst]; lia|]. split.
  - unfold get_message. cbn [cbuffer set_cbuffer room fst snd]. rewrite Hr, E. by rewrite Hg.
  - split; [|done]. rewrite Hlen. cbn [bdata]. rewrite length_app. cbn. rewrite length_replicate. lia.
Qed.

(** ** Authentication *)

Lemma disconnect_run c : Client_disconnect c = Done (tt,
  if ssl c then set_ssl false (if SOCKET_isValid (server c) then set_closed true c else c) else c).
Proof. unfold Client_disconnect. rewrite bind_get. by destruct (ssl c). Qed.

(** The message with the credentials. *)
Definition credentials (u : bytes) : packet := Packet kMessageTypeNick kMessageTypePrefixNick [] u.

Lemma send_credentials u writes c r : good_packet (credentials u) → full_writes writes (length (packet_wire (credentials u)) + 1) →
  room c = S r →
  create_message kMessageTypeNick (lit "%s") [AStr u] c = Done (Some (packet_message (credentials u)), set_room r c)
  ∧ ∃ n, send (packet_message (credentials u)) writes (set_room r c)
    = Done (n, set_sent (sent c ++ packet_wire (credentials u) ++ [NUL]) (set_room r c)) ∧ (0 ≤ n)%Z.
Proof.
  intros G Hw Hr. split.
  - unfold create_message. rewrite Hr. destruct G as [Gm _].
    pose proof (good_nul _ _ _ _ Gm) as Hn. pose proof (good_len _ _ _ _ Gm) as Hl. cbn [ptext credentials] in Hn, Hl.
    rewrite (C2HMessage_create_text _ _ _ u [] false); try done.
    + apply printf_s.
    + apply not_elem_of_nil.
    + unfold kMaxNicknameSize. cbn. lia.
    + cbn. lia.
  - unfold send. rewrite bind_get, client_send_wire by done. unfold lift. cbn [bind].
    eexists. split; [reflexivity|cbn [fst]; lia].
Qed.

(** The authentication dialogue: when the server asks for the nickname
    and answers, the client has sent exactly the nick message with the user's
    name, and reports success precisely when the answer is "/ok"; after any
    other answer the connection is closed. *)
Theorem authentication_dialogue c k1 k2 (username u : bytes) (reads1 reads2 : list read_answer) (writes : list Z) (r : nat)
    (Hu : cstr username = Done u) (Hlen : 2 ≤ length u) (Gu : good_packet (credentials u))
    (G1 : good_packet k1) (H1 : ptype k1 = kMessageTypeNick) (G2 : good_packet k2)
    (D1 : delivers k1 reads1) (D2 : delivers k2 reads2)
    (Hw : full_writes writes (length (packet_wire (credentials u)) + 1))
    (Hb : reusable (cbuffer c)) (Hl1 : length (packet_wire k1) + 1 < length (bdata (cbuffer c)))
    (Hl2 : length (packet_wire k2) + 1 < length (bdata (cbuffer c))) (Hr : room c = 5 + r) :
  ∃ c', Client_authenticate username reads1 writes reads2 c = Done (bool_decide (ptype k2 = kMessageTypeOk), c')
    ∧ sent c' = sent c ++ packet_wire (credentials u) ++ [NUL]
    ∧ ssl c' = (if decide (ptype k2 = kMessageTypeOk) then ssl c else false)
    ∧ (ptype k2 ≠ kMessageTypeOk → ssl c = true → SOCKET_isValid (server c) = true → closed c' = true).
Proof.
  unfold Client_authenticate, lift. unfold bind at 1. rewrite Hu, decide_False by lia.
  destruct (receive_get k1 reads1 c (3 + r) G1 D1 Hb Hl1 Hr) as (n1 & c1 & b1 & R1 & N1 & M1 & L1 & B1).
  run R1. rewrite (proj2 (Z.ltb_ge _ _)) by lia. run M1. change (mtype (packet_message k1)) with (ptype k1).
  rewrite H1, decide_False by (intros E; by apply E).
  destruct (send_credentials u writes (set_cbuffer b1 (set_room (3 + r) c)) (2 + r) Gu Hw eq_refl) as (C1 & n & S1 & N).
  run C1. run S1. rewrite (proj2 (Z.ltb_ge _ _)) by lia.
  set (c2 := set_sent _ _). destruct (receive_get k2 reads2 c2 r G2 D2) as (n2 & c3 & b2 & R2 & N2 & M2 & _ & _);
    [exact B1|cbn; by rewrite L1|done|].
  run R2. rewrite (proj2 (Z.ltb_ge _ _)) by lia. run M2. change (mtype (packet_message k2)) with (ptype k2).
  destruct (decide (ptype k2 = kMessageTypeOk)) as [E|E].
  - rewrite decide_False by (intros H; by apply H). rewrite bool_decide_true by done.
    eexists. split; [reflexivity|]. by split_and!.
  - rewrite decide_True by done. rewrite bool_decide_false by done. run (disconnect_run (set_cbuffer b2 (set_room r c2))).
    eexists. split; [reflexivity|]. cbn [ssl server set_cbuffer set_room set_sent c2].
    destruct (ssl c) eqn:Es; cbn; [|split_and!; [done|by rewrite Es|done]].
    destruct (SOCKET_isValid (server c)); by split_and!.
Qed.

Lemma authentication_dialogue_witness : ∃ c c',
  Client_authenticate (lit "bob" ++ [NUL]) [ReadAgain; ReadData (lit "/nick Name?" ++ [NUL])] [4; 6]%Z
    [ReadData (lit "/ok Welcome" ++ [NUL])] c = Done (true, c')
  ∧ sent c' = lit "/nick bob" ++ [NUL].
Proof.
  set (c := MkClient (Some 0) 5 false true None (blank_buffer kMessageBufferSize) [] 0 [] 5).
  destruct (authentication_dialogue c (Packet kMessageTypeNick kMessageTypePrefixNick [] (lit "Name?"))
    (Packet kMessageTypeOk kMessageTypePrefixOk [] (lit "Welcome")) (lit "bob" ++ [NUL]) (lit "bob")
    [ReadAgain; ReadData (lit "/nick Name?" ++ [NUL])] [ReadData (lit "/ok Welcome" ++ [NUL])] [4; 6]%Z 0)
    as (c' & H1 & H2 & _); try reflexivity.
  - cbn. lia.
  - split; [good_concrete|apply Nat.ltb_lt; vm_compute; reflexivity].
  - split; [good_concrete|apply Nat.ltb_lt; vm_compute; reflexivity].
  - split; [good_concrete|apply Nat.ltb_lt; vm_compute; reflexivity].
  - by exists 1, [].
  - by exists 0, [].
  - vm_compute. split; [split; [reflexivity|discriminate]|]. right. split; [split; [reflexivity|discriminate]|by left].
  - exists NUL. split; [vm_compute; reflexivity|by left].
  - cbn [cbuffer c blank_buffer bdata]. rewrite length_replicate. vm_compute. lia.
  - cbn [cbuffer c blank_buffer bdata]. rewrite length_replicate. vm_compute. lia.
  - exists c, c'. split; [exact H1|exact H2].
Defined.

(** ** Connecting *)

Definition secured (c c' : C2HatClient) : Prop := ssl c' = ssl c ∧ verified c' = verified c.

Lemma receive_secured reads c n c' : receive reads c = Done (n, c') → secured c c'.
Proof.
  unfold receive. rewrite bind_get. intros (r & t & Hr & H)%bind_inv. apply lift_inv in Hr as [_ ->].
  rewrite bind_modify in H. by injection H as _ <-.
Qed.

Lemma get_message_secured c m c' : get_message c = Done (m, c') → secured c c'.
Proof. unfold get_message. destruct (C2HMessage_get _ _) as [[[? ?] ?]|]; [by intros [= _ <-]|done]. Qed.

Lemma await_welcome_true net c c' : await_welcome net c = Done (true, c') →
  secured c c' ∧ (n_select net = Interrupted
    ∨ ∃ c1 m, get_message c1 = Done (Some m, c') ∧ mtype m = kMessageTypeOk).
Proof.
  unfold await_welcome. rewrite bind_get. destruct (negb _); [done|].
  destruct (n_select net); [|done| |done].
  - intros (n & c1 & Hr & H)%bind_inv. destruct (n <? 0)%Z; [done|].
    apply bind_inv in H as (m & c2 & Hg & H). destruct m as [m|]; [|done].
    case_decide as E; [done|]. destruct (negb (n_log net)); [done|]. injection H as <-.
    apply receive_secured in Hr as [R1 R2]. pose proof (get_message_secured _ _ _ Hg) as [S1 S2].
    split; [split; congruence|]. right. exists c1, m. by split.
  - intros [= <-]. split; [done|]. by left.
Qed.

(** C25. A connection is only reported when the server has shown a
    certificate over a TLS session which, for any host but the local one, the
    library was told to check for the host's name; and unless the wait was
    interrupted the server has said "/ok". *)
Theorem connected_is_checked net host c c' : Client_connect net host c = Done (true, c') →
  ssl c' = true ∧ n_certificate net = true
  ∧ (IsLocalhost (n_address net) = false → verified c' = Some host)
  ∧ (n_select net = Interrupted ∨ ∃ c1 m, get_message c1 = Done (Some m, c') ∧ mtype m = kMessageTypeOk).
Proof.
  unfold Client_connect.
  destruct (n_getaddrinfo net); [|done]. destruct (n_getnameinfo net); [|done]. cbn [negb]. rewrite bind_modify.
  destruct (SOCKET_isValid _); [|done]. destruct (n_connect net); [|done]. destruct (n_ssl_new net); [|done].
  cbn [negb]. rewrite bind_modify. intros (ok & c1 & Hh & H)%bind_inv. destruct ok; [|done]. cbn [negb] in H.
  apply bind_inv in H as (con & c2 & Hc & H). apply lift_inv in Hc as [_ ->]. destruct con; [|done]. cbn [negb] in H.
  destruct (n_certificate net); [|done]. cbn [negb] in H. apply await_welcome_true in H as [[S1 S2] Hw].
  rewrite S1, S2. destruct (IsLocalhost (n_address net)).
  - injection Hh as <-. done.
  - cbn [negb] in Hh. destruct (n_set_host net); [|done]. cbn [negb] in Hh. rewrite bind_modify in Hh.
    injection Hh as <-. done.
Qed.

Lemma connected_is_checked_witness : ∃ net c c',
  Client_connect net (lit "chat.example.com") c = Done (true, c') ∧ verified c' = Some (lit "chat.example.com").
Proof.
  set (net := Network true true (lit "10.0.0.7") 5 true true true [HandshakeAgain; Connected] true Readable
    [ReadData (lit "/ok" ++ [NUL])] true).
  set (c := MkClient (Some 0) 0 false false None (blank_buffer 64) [] 0 [] 5).
  assert (E : ∃ c', Client_connect net (lit "chat.example.com") c = Done (true, c')) by (eexists; vm_compute; reflexivity).
  destruct E as [c' E]. exists net, c, c'. split; [exact E|].
  destruct (connected_is_checked net (lit "chat.example.com") c c' E) as (_ & _ & H & _).
  apply H. vm_compute. reflexivity.
Defined.

(** ** The path of the log file *)

Lemma array_at n (s : bytes) : length s < n → array n s = s ++ NUL :: replicate (n - length s - 1) NUL.
Proof. intros H. unfold array. destruct (n - length s) as [|k] eqn:E; [lia|]. cbn. by rewrite Nat.sub_0_r. Qed.

Lemma strncpy_whole n (s : bytes) : NUL ∉ s → length s < n → strncpy (replicate n NUL) (array n s) n = Done (array n s).
Proof.
  intros Hn Hl. pose proof (array_at n s Hl) as E. rewrite E at 1. rewrite strncpy_run by (rewrite ?length_replicate; (done || lia)).
  rewrite drop_replicate, Nat.sub_diag. cbn. by rewrite app_nil_r.
Qed.

Lemma strncat_run n (d s : bytes) (lim : nat) : NUL ∉ d → NUL ∉ s → length s ≤ lim → length d < n →
  strncat (array n d) (s ++ [NUL]) lim =
    if decide (length d + length s < n) then Done (array n (d ++ s)) else Stuck OutOfBounds.
Proof.
  intros Hd Hs Hk Hl. unfold strncat. rewrite array_text by done. cbn [outcome_bind].
  rewrite str_prefix_run, take_ge by done. cbn [outcome_bind]. rewrite array_length by lia.
  case_decide; [|done]. f_equal. rewrite (array_at n (d ++ s)), (array_at n d) by (rewrite ?length_app; lia).
  rewrite <- app_assoc. do 2 f_equal. f_equal.
  rewrite drop_app_ge by lia. replace (length d + length s + 1 - length d) with (S (length s)) by lia. cbn.
  rewrite drop_replicate, length_app. f_equal. lia.
Qed.

(** ** A new client *)

(** The calls on the context of a client. *)
Definition client_calls (file dir : option bytes) : list ctx_call :=
  [SetMinProto TLS1_2_VERSION; SetOptions; SetMode; SetCipherList kCiphers; LoadLocations file dir; SetVerifyPeer].

(** The library accepts what the client depends on. *)
Definition client_accepted (lib : tls_library) (file dir : option bytes) : bool :=
  let cs := client_calls file dir in
  ctx_new lib && accepts lib [] (SetMinProto TLS1_2_VERSION) && accepts lib (take 4 cs) (LoadLocations file dir).

Definition if_readable (readable : bytes → bool) (path : bytes) : option bytes :=
  if readable path then Some path else None.

Lemma ctx_run lib cs calls a : ctx_do lib (Some (length cs)) a (cs ++ [Some calls])
  = Done (accepts lib calls a, cs ++ [Some (calls ++ [a])]).
Proof. apply ctx_do_last. Qed.

(** One call on the context that was created last. *)
Ltac on_context := erewrite bind_Done by (apply ctx_run); cbn [app].

(** A context that is given out verifies the server; when it is refused, what
    was created is not freed. *)
Lemma Client_ssl_init_run lib readable f d cs : NUL ∉ f → NUL ∉ d → length f < kMaxPath → length d < kMaxPath →
  let file := if_readable readable f in let dir := if_readable readable d in
  ∃ error more, Client_ssl_init lib readable (array kMaxPath f) (array kMaxPath d) (replicate 100 NUL) 100 cs
    = Done (if client_accepted lib file dir then (Some (length cs), error) else (None, error), cs ++ more)
  ∧ more = (if client_accepted lib file dir then [Some (client_calls file dir)]
            else if ctx_new lib then [Some (take (if accepts lib [] (SetMinProto TLS1_2_VERSION) then 5 else 1) (client_calls file dir))]
            else []).
Proof.
  intros Hf Hd Lf Ld file dir. unfold client_accepted, Client_ssl_init, SSL_CTX_new.
  assert (Rf : readable_path readable (array kMaxPath f) = Done file)
    by (unfold readable_path; by rewrite array_text).
  assert (Rd : readable_path readable (array kMaxPath d) = Done dir)
    by (unfold readable_path; by rewrite array_text).
  assert (Hw : ∀ (s : string) (cs' : contexts), NUL ∉ lit s → length (lit s) < 100 →
    ∃ error, bind (lift (strncpy (replicate 100 NUL) (lit s ++ [NUL]) 100)) (λ error, ret (@None nat, error)) cs'
      = Done ((None, error), cs')).
  { intros s cs' Hs Hl. unfold lift, bind. rewrite strncpy_run by (rewrite ?length_replicate; done || lia). by eexists. }
  destruct (ctx_new lib) eqn:Hn; cbn [andb].
  2: { destruct (Hw "SSL_CTX_new() failed."%string cs) as [er E]; [not_in|cbn; lia|].
       exists er, []. split; [|done]. unfold bind at 1. rewrite app_nil_r. exact E. }
  unfold bind at 1. on_context.
  destruct (accepts lib [] _); cbn [negb andb].
  2: { destruct (Hw "Cannot set minimum TLS protocol version."%string (cs ++ [Some (take 1 (client_calls file dir))])) as [er E];
         [not_in|cbn; lia|]. exists er, [Some (take 1 (client_calls file dir))]. split; [exact E|done]. }
  do 3 on_context. rewrite Rf, Rd. unfold lift at 1. erewrite bind_Done by done. unfold lift at 1. erewrite bind_Done by done.
  on_context. destruct (accepts lib (take 4 _) _) eqn:Ha; cbn [take client_calls] in Ha; rewrite Ha; cbn [negb].
  - on_context. eexists _, _. split; [reflexivity|done].
  - destruct (Hw "Unable to load CA locations"%string (cs ++ [Some (take 5 (client_calls file dir))])) as [er E];
      [not_in|cbn; lia|]. exists er, [Some (take 5 (client_calls file dir))]. split; [exact E|done].
Qed.

(** The options a client is created from: well-formed paths. *)
Definition client_options (d f g : bytes) (o : ClientOptions) : Prop :=
  logDirPath o = array kMaxPath d ∧ caCertFilePath o = array kMaxPath f ∧ caCertDirPath o = array kMaxPath g
  ∧ (NUL ∉ d) ∧ (NUL ∉ f) ∧ (NUL ∉ g) ∧ length d < kMaxPath ∧ length f < kMaxPath ∧ length g < kMaxPath.

(** C26. Creating a client.  It gives a client exactly when the TLS library
    accepts the minimum version 1.2 and the locations of the certificates that
    can be read; its context then verifies the server (the last call), and it
    logs to "client.log" in the log directory.  When the library refuses, no
    client is returned, but a context that was created stays allocated.  A log
    directory too long for the name of the file, which the options can hold,
    makes [strncat] write outside the array. *)
Theorem Client_create_verifies (lib : tls_library) (readable : bytes → bool) (o : ClientOptions)
    (d f g : bytes) (allocs : nat) (cs : contexts) (H : client_options d f g o) :
  let file := if_readable readable f in
  let dir := if_readable readable g in
  if decide (length d + length kLogFileName < kMaxPath) then
    Client_create lib readable true o allocs cs
    = (if client_accepted lib file dir then
         Done (Some (MkClient (Some (length cs)) 0 false false None (MkBuffer (replicate kMessageBufferSize NUL) None)
                       (array kMaxPath (d ++ kLogFileName)) (o_logLevel o) [] allocs),
               cs ++ [Some (client_calls file dir)])
       else Done (None, cs ++ if ctx_new lib then
           [Some (take (if accepts lib [] (SetMinProto TLS1_2_VERSION) then 5 else 1) (client_calls file dir))] else []))
  else Client_create lib readable true o allocs cs = Stuck OutOfBounds.
Proof.
  destruct H as (Hd & Hf & Hg & Nd & Nf & Ng & Ld & Lf & Lg).
  cbn zeta. unfold Client_create. cbn [negb]. rewrite Hd, Hf, Hg, strncpy_whole by done.
  unfold lift at 1 3. rewrite !(bind_Done _ _ cs (array kMaxPath d) cs) by done.
  rewrite strncat_run; [|done|not_in|apply Nat.leb_le; vm_compute; reflexivity|done].
  case_decide; [|done]. unfold lift at 1. erewrite bind_Done by done.
  destruct (Client_ssl_init_run lib readable f g cs Nf Ng Lf Lg) as (er & more & E & ->).
  rewrite (bind_Done _ _ _ _ _ E). by destruct (client_accepted lib _ _).
Qed.

Definition sample_options : ClientOptions :=
  MkOptions [] [] [] (array kMaxPath (lit "ca.pem")) (array kMaxPath (lit "ssl"))
    (array kMaxPath (replicate 4080 "d"%char)) 30.

Lemma Client_create_verifies_witness :
  ∃ c, Client_create (TlsLibrary true (λ _ _, true)) (λ p, bool_decide (p = lit "ssl")) true sample_options 5 []
    = Done (Some c, [Some [SetMinProto TLS1_2_VERSION; SetOptions; SetMode; SetCipherList kCiphers;
                           LoadLocations None (Some (lit "ssl")); SetVerifyPeer]]).
Proof.
  pose proof (Client_create_verifies (TlsLibrary true (λ _ _, true)) (λ p, bool_decide (p = lit "ssl")) sample_options
    (replicate 4080 "d"%char) (lit "ca.pem") (lit "ssl") 5 []) as H.
  cbv zeta in H. rewrite decide_True in H by (apply Nat.ltb_lt; vm_compute; reflexivity).
  eexists. apply H. split_and!; first [not_in | apply Nat.ltb_lt; vm_compute; reflexivity | reflexivity].
Defined.
