(* ===== verification/NcColor.v ===== *)
(** * Colours (src/lib/nccolor)

    The conversions between the components of ncurses (0 to 999) and of RGB (0
    to 255), the luminance and the contrast, in the arithmetic of IEEE 754
    that the code uses: a double is a float of binary64, every operation
    rounds to nearest, and a decimal constant is the double nearest to it (the
    quotient of two integers that are exact, rounded once).  [pow] of libm,
    and the numbers [rand] gives after [srand], are parameters. *)

From S2P Require Import Prelude.
From Stdlib Require Import SpecFloat.

(** ** Doubles *)

Definition double : Type := spec_float.

Definition of_int (z : Z) : double := binary_normalize 53 1024 z 0 false.
Definition dadd : double → double → double := SFadd 53 1024.
Definition dmul : double → double → double := SFmul 53 1024.
Definition ddiv : double → double → double := SFdiv 53 1024.
Definition constant (num den : Z) : double := ddiv (of_int num) (of_int den).

(** [round]: to the nearest integer, halves away from zero. *)
Definition round (x : double) : double :=
  match x with
  | S754_finite s m e =>
    if (0 <=? e)%Z then x else
    let d := (2 ^ (- e))%Z in
    let q := ((2 * Z.pos m + d) / (2 * d))%Z in
    binary_normalize 53 1024 (if s then - q else q)%Z 0 s
  | _ => x
  end.

(** A conversion to an integer type discards the fraction. *)
Definition truncate (x : double) : option Z :=
  match x with
  | S754_zero _ => Some 0%Z
  | S754_finite s m e =>
    let q := (if 0 <=? e then Z.pos m * 2 ^ e else Z.pos m / 2 ^ (- e))%Z in
    Some (if s then - q else q)%Z
  | _ => None
  end.

Definition SHRT_MIN : Z := -32768.
Definition SHRT_MAX : Z := 32767.
Definition is_short (z : Z) : Prop := (SHRT_MIN ≤ z ≤ SHRT_MAX)%Z.

(** Undefined when the value does not fit. *)
Definition to_short (x : double) : outcome Z :=
  match truncate x with
  | Some z => if (SHRT_MIN <=? z)%Z && (z <=? SHRT_MAX)%Z then Done z else Stuck SignedOverflow
  | None => Stuck SignedOverflow
  end.

(** ** Conversions *)

Record NCColor : Type := NC { red : Z; green : Z; blue : Z }.
Record RGBColor : Type := RGB { rgb_red : Z; rgb_green : Z; rgb_blue : Z }.

Definition nc2rgb (val : Z) : outcome Z := to_short (round (dmul (ddiv (of_int val) (of_int 999)) (of_int 255))).
Definition rgb2nc (val : Z) : outcome Z := to_short (round (dmul (ddiv (of_int val) (of_int 255)) (of_int 999))).

Definition rgb2nc_color (rgb : RGBColor) : outcome NCColor :=
  let! r := rgb2nc (rgb_red rgb) in
  let! g := rgb2nc (rgb_green rgb) in
  let! b := rgb2nc (rgb_blue rgb) in
  Done (NC r g b).

Definition nc2rgb_color (color : NCColor) : outcome RGBColor :=
  let! r := nc2rgb (red color) in
  let! g := nc2rgb (green color) in
  let! b := nc2rgb (blue color) in
  Done (RGB r g b).

(** What the library answers for a colour; nothing when it fails. *)
Definition nc_color_content (color_content : Z → option NCColor) (color : Z) : NCColor :=
  default (NC 0 0 0) (color_content color).

(** ** Luminance and contrast *)

Section Luminance.
Context (pow : double → double → double).

(** A component of the colour, made linear. *)
Definition linear (v : Z) : double :=
  let tmp := ddiv (of_int v) (of_int 255) in
  if SFleb tmp (constant 3928 100000) then ddiv tmp (constant 1292 100)
  else pow (ddiv (dadd tmp (constant 55 1000)) (constant 1055 1000)) (constant 24 10).

Definition luminance (r g b : Z) : double :=
  dadd (dadd (dmul (linear r) (constant 2126 10000)) (dmul (linear g) (constant 7152 10000)))
       (dmul (linear b) (constant 722 10000)).
End Luminance.

Definition contrast (lum1 lum2 : double) : double :=
  if SFltb lum2 lum1
  then ddiv (dadd lum2 (constant 5 100)) (dadd lum1 (constant 5 100))
  else ddiv (dadd lum1 (constant 5 100)) (dadd lum2 (constant 5 100)).

(** ** Random colours *)

Section Random.
(** The numbers after [srand(seed)], for the components in their order. *)
Context (draw : Z → nat → N).

Definition nc_random_color (seed : Z) : NCColor :=
  let component k := Z.rem (Z.of_N (draw seed k)) (999 + 1) in
  NC (component 0) (component 1) (component 2).

Definition rgb_random_color (seed : Z) : RGBColor :=
  let component k := Z.rem (Z.of_N (draw seed k)) (255 + 1) in
  RGB (component 0) (component 1) (component 2).
End Random.

(** ** What the conversions compute *)

(** The integer nearest to a quotient. *)
Definition nearest (num den : Z) : Z := (2 * num + den) / (2 * den).

Lemma all_below n (f : Z → bool) : forallb f (Z.of_nat <$> seq 0 n) = true → ∀ z, (0 ≤ z < Z.of_nat n)%Z → f z = true.
Proof.
  intros Hf z Hz. rewrite forallb_forall in Hf. apply Hf. apply list_elem_of_In, list_elem_of_fmap.
  exists (Z.to_nat z). split; [lia|]. apply elem_of_seq. lia.
Qed.

Definition gives (r : outcome Z) (z : Z) : bool := match r with Done r => (r =? z)%Z | Stuck _ => false end.

Lemma gives_Done r z : gives r z = true → r = Done z.
Proof. destruct r as [r|]; cbn; [by intros ->%Z.eqb_eq|done]. Qed.

(** The two roundings of the doubles never show: the result is the integer
    nearest to the exact quotient. *)
Lemma rgb2nc_nearest v : (0 ≤ v < 256)%Z → rgb2nc v = Done (nearest (v * 999) 255).
Proof.
  intros Hv. apply gives_Done. revert v Hv. apply (all_below 256 (λ v, gives (rgb2nc v) (nearest (v * 999) 255))).
  vm_compute. reflexivity.
Qed.

Lemma nc2rgb_nearest c : (0 ≤ c < 1000)%Z → nc2rgb c = Done (nearest (c * 255) 999).
Proof.
  intros Hc. apply gives_Done. revert c Hc. apply (all_below 1000 (λ c, gives (nc2rgb c) (nearest (c * 255) 999))).
  vm_compute. reflexivity.
Qed.

Lemma nearest_range v a b : (0 < b)%Z → (0 ≤ v ≤ b)%Z → (0 ≤ a)%Z → (0 ≤ nearest (v * a) b ≤ a)%Z.
Proof.
  intros Hb Hv Ha. unfold nearest. split; [apply Z.div_pos; nia|].
  apply Z.lt_succ_r, Z.div_lt_upper_bound; nia.
Qed.

Lemma nearest_back v : (0 ≤ v ≤ 255)%Z → nearest (nearest (v * 999) 255 * 255) 999 = v.
Proof. unfold nearest. intros Hv. Z.to_euclidean_division_equations. lia. Qed.

Lemma nearest_near c : (0 ≤ c ≤ 999)%Z → (Z.abs (nearest (nearest (c * 255) 999 * 999) 255 - c) ≤ 2)%Z.
Proof. unfold nearest. intros Hc. Z.to_euclidean_division_equations. lia. Qed.

(** Monotone, so that brighter stays brighter. *)
Lemma nearest_le a b x y : (0 < b)%Z → (0 ≤ a)%Z → (x ≤ y)%Z → (nearest (x * a) b ≤ nearest (y * a) b)%Z.
Proof. intros Hb Ha Hxy. unfold nearest. apply Z.div_le_mono; nia. Qed.

Definition in_rgb (c : RGBColor) : Prop := (0 ≤ rgb_red c ≤ 255 ∧ 0 ≤ rgb_green c ≤ 255 ∧ 0 ≤ rgb_blue c ≤ 255)%Z.
Definition in_nc (c : NCColor) : Prop := (0 ≤ red c ≤ 999 ∧ 0 ≤ green c ≤ 999 ∧ 0 ≤ blue c ≤ 999)%Z.

Lemma rgb2nc_run v : (0 ≤ v ≤ 255)%Z → rgb2nc v = Done (nearest (v * 999) 255) ∧ (0 ≤ nearest (v * 999) 255 ≤ 999)%Z.
Proof. intros Hv. split; [apply rgb2nc_nearest; lia|apply nearest_range; lia]. Qed.

Lemma nc2rgb_run c : (0 ≤ c ≤ 999)%Z → nc2rgb c = Done (nearest (c * 255) 999) ∧ (0 ≤ nearest (c * 255) 999 ≤ 255)%Z.
Proof. intros Hc. split; [apply nc2rgb_nearest; lia|apply nearest_range; lia]. Qed.

Lemma rgb2nc_color_run rgb : in_rgb rgb → ∃ c, rgb2nc_color rgb = Done c ∧ in_nc c
  ∧ c = NC (nearest (rgb_red rgb * 999) 255) (nearest (rgb_green rgb * 999) 255) (nearest (rgb_blue rgb * 999) 255).
Proof.
  intros (Hr & Hg & Hb). destruct (rgb2nc_run _ Hr) as [Er Rr], (rgb2nc_run _ Hg) as [Eg Rg], (rgb2nc_run _ Hb) as [Eb Rb].
  unfold rgb2nc_color. rewrite Er, Eg, Eb. cbn [outcome_bind]. eexists. split; [reflexivity|].
  split; [exact (conj Rr (conj Rg Rb))|done].
Qed.

Lemma random_in_range draw seed : in_rgb (rgb_random_color draw seed) ∧ in_nc (nc_random_color draw seed).
Proof.
  assert (Hr : ∀ x max, (0 ≤ max → 0 ≤ Z.rem (Z.of_N x) (max + 1) ≤ max)%Z).
  { intros x max Hm. pose proof (Z.rem_bound_pos (Z.of_N x) (max + 1)). lia. }
  split; (split; [|split]); by apply Hr.
Qed.

(** C21. The conversions of colours, in floating point: every RGB colour is
    converted to components that ncurses accepts, each the nearest of its
    thousand steps, and back to itself; a colour of ncurses, to which the 256
    steps of RGB are too coarse, comes back with each component at most two
    steps away. *)
Theorem colours_convert :
  (∀ rgb, in_rgb rgb → ∃ c, rgb2nc_color rgb = Done c ∧ in_nc c ∧ nc2rgb_color c = Done rgb
     ∧ c = NC (nearest (rgb_red rgb * 999) 255) (nearest (rgb_green rgb * 999) 255) (nearest (rgb_blue rgb * 999) 255))
  ∧ (∀ c, in_nc c → ∃ rgb c', nc2rgb_color c = Done rgb ∧ in_rgb rgb ∧ rgb2nc_color rgb = Done c'
     ∧ (Z.abs (red c' - red c) ≤ 2 ∧ Z.abs (green c' - green c) ≤ 2 ∧ Z.abs (blue c' - blue c) ≤ 2)%Z).
Proof.
  split.
  - intros rgb H. destruct (rgb2nc_color_run rgb H) as (c & E & R & Ec). exists c. split; [done|]. split; [done|]. split; [|done].
    destruct H as (Hr & Hg & Hb), R as (Rr & Rg & Rb). unfold nc2rgb_color.
    rewrite !(λ v H, proj1 (nc2rgb_run v H)) by done. subst c. cbn [red green blue outcome_bind].
    rewrite !nearest_back by done. by destruct rgb.
  - intros c (Hr & Hg & Hb).
    destruct (nc2rgb_run _ Hr) as [Er Rr], (nc2rgb_run _ Hg) as [Eg Rg], (nc2rgb_run _ Hb) as [Eb Rb].
    eexists (RGB _ _ _). destruct (rgb2nc_color_run (RGB _ _ _) (conj Rr (conj Rg Rb))) as (c' & E' & _ & Ec').
    exists c'. unfold nc2rgb_color. rewrite Er, Eg, Eb. cbn [outcome_bind]. split; [reflexivity|]. split; [exact (conj Rr (conj Rg Rb))|].
    split; [exact E'|]. subst c'. cbn [red green blue rgb_red rgb_green rgb_blue]. split_and!; by apply nearest_near.
Qed.

Lemma colours_convert_witness :
  rgb2nc_color (RGB 12 128 255) = Done (NC 47 501 999) ∧ nc2rgb_color (NC 47 501 999) = Done (RGB 12 128 255).
Proof.
  destruct (proj1 colours_convert (RGB 12 128 255)) as (c & E & _ & B & Ec).
  - split_and!; cbn; lia.
  - assert (c = NC 47 501 999) as -> by (rewrite Ec; vm_compute; reflexivity). split; [exact E|exact B].
Defined.

(** Out of its range the conversion is undefined: the result does not fit. *)
Lemma rgb2nc_overflow : rgb2nc 8364 = Done 32767%Z ∧ rgb2nc 8365 = Stuck SignedOverflow.
Proof. vm_compute. by split. Qed.

(** ** Contrast *)

(** The contrast of a colour to black, which is 1 for black itself, and the
    colours that the client takes for its palette (client/uicolor.c). *)
Definition palette_contrast (pow : double → double → double) (c : RGBColor) : double :=
  contrast (luminance pow (rgb_red c) (rgb_green c) (rgb_blue c)) (S754_zero false).
Definition bright (pow : double → double → double) (c : RGBColor) : bool := SFltb (palette_contrast pow c) (constant 3333 10000).

Lemma linear_dark pow v : (0 ≤ v < 11)%Z → linear pow v = ddiv (ddiv (of_int v) (of_int 255)) (constant 1292 100).
Proof.
  intros Hv. unfold linear.
  assert (E : SFleb (ddiv (of_int v) (of_int 255)) (constant 3928 100000) = true).
  { revert v Hv. apply (all_below 11 (λ v, SFleb (ddiv (of_int v) (of_int 255)) (constant 3928 100000))). vm_compute. reflexivity. }
  by rewrite E.
Qed.

(** A dark colour is not taken, whatever [pow] computes. *)
Lemma dark_not_bright pow c : (0 ≤ rgb_red c < 11)%Z → (0 ≤ rgb_green c < 11)%Z → (0 ≤ rgb_blue c < 11)%Z → bright pow c = false.
Proof.
  destruct c as [r g b]. cbn [rgb_red rgb_green rgb_blue]. intros Hr Hg Hb. unfold bright, palette_contrast, luminance.
  cbn [rgb_red rgb_green rgb_blue]. rewrite !linear_dark by done.
  apply negb_true_iff.
  assert (D : let k1 := constant 2126 10000 in let k2 := constant 7152 10000 in let k3 := constant 722 10000 in
    let third := constant 3333 10000 in let below := Z.of_nat <$> seq 0 11 in
    let dark v := ddiv (ddiv (of_int v) (of_int 255)) (constant 1292 100) in
    forallb (λ r, let x := dmul (dark r) k1 in forallb (λ g, let y := dadd x (dmul (dark g) k2) in forallb (λ b,
      negb (SFltb (contrast (dadd y (dmul (dark b) k3)) (S754_zero false)) third)) below) below) below = true)
    by (vm_compute; reflexivity).
  cbv zeta in D.
  pose proof (all_below 11 _ (all_below 11 _ (all_below 11 _ D r Hr) g Hg) b Hb) as D'. exact D'.
Qed.

Lemma black_contrast pow : palette_contrast pow (RGB 0 0 0) = of_int 1.
Proof. vm_compute. reflexivity. Qed.
