(* ===== verification/StatusBar.v ===== *)
(** * The status bar and the colours (src/client/uistatus.c, uicolor.c, ui.c)

    Four areas with a fixed array each: the mode, the size of the terminal,
    the message and the input counter.  What is drawn is the list of the calls
    of [mvwprintw], with their column and text; whether a call succeeds is a
    parameter.  The colours are the pairs that are initialised and the random
    colours that are defined, which NcColor.v computes. *)

From S2P Require Import Prelude.
From S2P Require Import Control.
From S2P Require Import CStr.
From S2P Require Import MessageLib.
From S2P Require Import MessageSpec.
From S2P Require Import Logger.
From S2P Require Import NcColor.

(** ** State *)

Inductive UIStatusArea : Type :=
  | kUIStatusMode
  | kUIStatusTerminalSize
  | kUIStatusMessage
  | kUIStatusinputCounter.

#[export] Instance area_eq_dec : EqDecision UIStatusArea.
Proof. solve_decision. Defined.

Definition kMaxStatusMessageSize : nat := 512.

(** The arrays; [drawn] is what was printed on the current window. *)
Record UIStatusBar : Type := StatusBar {
  handle : bool;
  cols : Z;
  mode : bytes;
  size : bytes;
  message : bytes;
  counter : bytes;
  drawn : list (Z * bytes)
}.

Definition area_size (a : UIStatusArea) : nat :=
  match a with
  | kUIStatusMode => 4
  | kUIStatusTerminalSize => 12
  | kUIStatusMessage => kMaxStatusMessageSize
  | kUIStatusinputCounter => 10
  end.

(** The array of an area. *)
Definition area (a : UIStatusArea) (b : UIStatusBar) : bytes :=
  match a with
  | kUIStatusMode => mode b
  | kUIStatusTerminalSize => size b
  | kUIStatusMessage => message b
  | kUIStatusinputCounter => counter b
  end.

Definition store_area (a : UIStatusArea) (t : bytes) (b : UIStatusBar) : UIStatusBar :=
  match a with
  | kUIStatusMode => StatusBar (handle b) (cols b) t (size b) (message b) (counter b) (drawn b)
  | kUIStatusTerminalSize => StatusBar (handle b) (cols b) (mode b) t (message b) (counter b) (drawn b)
  | kUIStatusMessage => StatusBar (handle b) (cols b) (mode b) (size b) t (counter b) (drawn b)
  | kUIStatusinputCounter => StatusBar (handle b) (cols b) (mode b) (size b) (message b) t (drawn b)
  end.

Definition with_drawn (l : list (Z * bytes)) (b : UIStatusBar) : UIStatusBar :=
  StatusBar (handle b) (cols b) (mode b) (size b) (message b) (counter b) l.

Definition no_bar : UIStatusBar :=
  StatusBar false 0 (replicate 4 NUL) (replicate 12 NUL) (replicate kMaxStatusMessageSize NUL) (replicate 10 NUL) [].

Section Bar.
(** Whether [mvwprintw] succeeds at a column with a text. *)
Context (prints_at : Z → bytes → bool).

(** ** Drawing *)

Definition mvwprintw (x : Z) (t : bytes) : cmd UIStatusBar bool := λ b,
  Done (prints_at x t, with_drawn (drawn b ++ [(x, t)]) b).

Definition bracketed (t : bytes) : bytes := lit "[" ++ t ++ lit "]".

(** The precision of ["%.*s"]: none when it is negative. *)
Definition precise (p : Z) (t : bytes) : bytes := if (p <? 0)%Z then t else take (Z.to_nat p) t.

(** The four macros that print an area. *)
Definition update_area (a : UIStatusArea) : cmd UIStatusBar bool :=
  b <- get;;
  t <- lift (cstr (area a b));;
  match a with
  | kUIStatusMode => mvwprintw 1 (bracketed t)
  | kUIStatusTerminalSize => mvwprintw 5 (bracketed t)
  | kUIStatusMessage =>
    n <- lift (strlen NUL (counter b));;
    mvwprintw 14 (precise (wrap_int (cols b - Z.of_nat n)) t)
  | kUIStatusinputCounter =>
    mvwprintw (wrap_int (cols b - Z.of_nat (length t) - 1)) t
  end.

(** [UIStatus_set] with the text the format prints. *)
Definition UIStatus_set (a : UIStatusArea) (t : bytes) : cmd UIStatusBar bool :=
  b <- get;;
  s <- lift (sn_write (area a b) (area_size a) t);;
  modify (store_area a s);;;
  update_area a.

(** Print an area that is not empty. *)
Definition draw_area (a : UIStatusArea) : cmd UIStatusBar unit :=
  b <- get;;
  n <- lift (strlen NUL (area a b));;
  if decide (0 < n) then update_area a;;; ret tt else ret tt.

(** [UIStatusBar_render] on a screen of [scols] columns. *)
Definition UIStatusBar_render (scols : Z) : cmd UIStatusBar unit :=
  modify (λ b, StatusBar true scols (mode b) (size b) (message b) (counter b) []);;;
  draw_area kUIStatusMode;;;
  draw_area kUIStatusTerminalSize;;;
  draw_area kUIStatusMessage;;;
  draw_area kUIStatusinputCounter.

Definition UIStatusBar_destroy : cmd UIStatusBar unit := modify (λ _, no_bar).

Definition UIStatus_get (buffer : bytes) (length : nat) : cmd UIStatusBar bytes :=
  b <- get;; lift (memcpy buffer (message b) length).

(** ** The texts of ui.c *)

Definition UISetStatusMode (browse : bool) : cmd UIStatusBar bool :=
  UIStatus_set kUIStatusMode (if browse then lit "B" else lit "C").

Definition UISetStatusSize (lines columns : Z) : cmd UIStatusBar bool :=
  UIStatus_set kUIStatusTerminalSize (decimal lines ++ lit "," ++ decimal columns).

(** The format ["%4d/%d"]. *)
Definition UISetInputCounter (current max : Z) : cmd UIStatusBar bool :=
  UIStatus_set kUIStatusinputCounter (pad_left 4 (decimal current) ++ lit "/" ++ decimal max).

Definition UISetStatus (format : bytes) (args : list arg) : cmd UIStatusBar bool :=
  message <- lift (vsnprintf (replicate kMaxStatusMessageSize NUL) kMaxStatusMessageSize format args);;
  m <- lift (cstr message);;
  UIStatus_set kUIStatusMessage m.

(** ** What is shown *)

(** Writing a text into an array that held another: what is behind the new
    terminator stays. *)
Definition holds_text (n : nat) (t arr : bytes) : Prop :=
  length arr = n ∧ length t < n ∧ (NUL ∉ t) ∧ ∃ rest, arr = t ++ NUL :: rest.

Definition shows (f : UIStatusArea → bytes) (b : UIStatusBar) : Prop :=
  ∀ a, holds_text (area_size a) (f a) (area a b).

Lemma holds_cstr n t arr : holds_text n t arr → cstr arr = Done t ∧ strlen NUL arr = Done (length t).
Proof. intros (_ & _ & Hn & rest & ->). split; [by apply cstr_app|by apply strlen_app]. Qed.

Lemma area_store a a' t b : area a (store_area a' t b) = if decide (a = a') then t else area a b.
Proof. by destruct a, a'. Qed.

Lemma cols_store a t b : cols (store_area a t b) = cols b.
Proof. by destruct a. Qed.

Lemma area_drawn a l b : area a (with_drawn l b) = area a b.
Proof. by destruct a. Qed.

(** What is printed for an area, and where. *)
Definition print_of (f : UIStatusArea → bytes) (cols : Z) (a : UIStatusArea) : Z * bytes :=
  match a with
  | kUIStatusMode => (1%Z, bracketed (f a))
  | kUIStatusTerminalSize => (5%Z, bracketed (f a))
  | kUIStatusMessage => (14%Z, precise (wrap_int (cols - Z.of_nat (length (f kUIStatusinputCounter)))) (f a))
  | kUIStatusinputCounter => (wrap_int (cols - Z.of_nat (length (f a)) - 1), f a)
  end.

Lemma update_run f a b : shows f b →
  ∃ ok, update_area a b = Done (ok, with_drawn (drawn b ++ [print_of f (cols b) a]) b).
Proof.
  intros Hs. unfold update_area. rewrite bind_get. destruct (holds_cstr _ _ _ (Hs a)) as [Ht Hn].
  destruct (holds_cstr _ _ _ (Hs kUIStatusinputCounter)) as [Htc Hnc]. cbn [area] in Htc, Hnc.
  unfold lift at 1. rewrite Ht. erewrite bind_Done by done. destruct a; cbn [area] in *.
  1, 2, 4: (by eexists).
  unfold lift at 1. rewrite Hnc. erewrite bind_Done by done. by eexists.
Qed.

Lemma shows_drawn f l b : shows f b → shows f (with_drawn l b).
Proof. intros H a. rewrite area_drawn. apply H. Qed.

Lemma set_run f a t b : shows f b → NUL ∉ t →
  ∃ ok b', UIStatus_set a t b = Done (ok, b')
    ∧ shows (λ x, if decide (x = a) then take (area_size a - 1) t else f x) b'
    ∧ cols b' = cols b ∧ handle b' = handle b.
Proof.
  intros Hs Hn. unfold UIStatus_set. rewrite bind_get.
  assert (Hpos : 0 < area_size a) by (destruct a; cbn; unfold kMaxStatusMessageSize; lia).
  destruct (sn_write_bounds (area a b) (area_size a) t) as (w & rest & Hw & -> & Hl & Hlt & Hnw);
    [done|destruct (Hs a); lia|done|].
  unfold lift at 1. rewrite Hw. erewrite bind_Done by done. rewrite bind_modify.
  set (g := λ x, if decide (x = a) then take (area_size a - 1) t else f x).
  assert (Hg : shows g (store_area a (take (area_size a - 1) t ++ NUL :: rest) b)).
  { intros x. rewrite area_store. unfold g. destruct (decide (x = a)) as [->|]; [|apply Hs].
    split; [|by eauto]. rewrite Hl. apply Hs. }
  destruct (update_run g a _ Hg) as (ok & E). exists ok. eexists. split; [exact E|].
  split; [by apply shows_drawn|]. by destruct a.
Qed.

(** A sequence of updates. *)
Fixpoint run_sets (ups : list (UIStatusArea * bytes)) : cmd UIStatusBar unit :=
  match ups with
  | [] => ret tt
  | (a, t) :: ups => UIStatus_set a t;;; run_sets ups
  end.

(** The last text set for an area, as far as its array holds it; [f] are the
    texts before. *)
Fixpoint latest (f : UIStatusArea → bytes) (ups : list (UIStatusArea * bytes)) : UIStatusArea → bytes :=
  match ups with
  | [] => f
  | (a, t) :: ups => latest (λ x, if decide (x = a) then take (area_size a - 1) t else f x) ups
  end.

Lemma sets_run ups : ∀ f b, shows f b → Forall (λ u, NUL ∉ u.2) ups →
  ∃ b', run_sets ups b = Done (tt, b') ∧ shows (latest f ups) b'.
Proof.
  induction ups as [|[a t] ups IH]; intros f b Hs Hn; [by eexists|].
  apply Forall_cons in Hn as [Ht Hn]. destruct (set_run f a t b Hs Ht) as (ok & b1 & E & S & _).
  cbn [run_sets latest]. run E. by apply IH.
Qed.

Lemma draw_run f a b : shows f b →
  draw_area a b = Done (tt, with_drawn (drawn b ++ if decide (f a = []) then [] else [print_of f (cols b) a]) b).
Proof.
  intros Hs. unfold draw_area. rewrite bind_get. destruct (holds_cstr _ _ _ (Hs a)) as [_ Hn].
  unfold lift at 1. rewrite Hn. erewrite bind_Done by done. destruct (decide (f a = [])) as [E|E].
  - rewrite E, app_nil_r. cbn. by destruct b.
  - rewrite decide_True by (by destruct (f a); [|cbn; lia]). destruct (update_run f a b Hs) as (ok & Eu). by run Eu.
Qed.

Definition all_areas : list UIStatusArea := [kUIStatusMode; kUIStatusTerminalSize; kUIStatusMessage; kUIStatusinputCounter].

Lemma no_bar_shows : shows (λ _, []) no_bar.
Proof.
  intros a. split; [by destruct a|]. split; [destruct a; cbn; unfold kMaxStatusMessageSize; lia|].
  split; [apply not_elem_of_nil|]. destruct a; cbn; unfold kMaxStatusMessageSize; by eexists.
Qed.

(** Drawing everything. *)
Lemma render_run f scols b : shows f b →
  ∃ b', UIStatusBar_render scols b = Done (tt, b') ∧ shows f b'
    ∧ drawn b' = print_of f scols <$> filter (λ a, f a ≠ []) all_areas.
Proof.
  intros S. unfold UIStatusBar_render. rewrite bind_modify. set (b0 := StatusBar _ _ _ _ _ _ []).
  assert (S0 : shows f b0) by (intros a; pose proof (S a); by destruct a).
  erewrite bind_Done by by apply draw_run. erewrite bind_Done by by apply draw_run, shows_drawn.
  erewrite bind_Done by by apply draw_run, shows_drawn, shows_drawn.
  erewrite draw_run by by apply shows_drawn, shows_drawn, shows_drawn.
  eexists. split; [reflexivity|]. split; [by apply shows_drawn, shows_drawn, shows_drawn, shows_drawn|].
  cbn [drawn with_drawn cols b0 Datatypes.app]. unfold all_areas. rewrite !filter_cons, filter_nil.
  destruct (decide (f kUIStatusMode = [])), (decide (f kUIStatusTerminalSize = [])), (decide (f kUIStatusMessage = [])),
    (decide (f kUIStatusinputCounter = [])); repeat (first [rewrite decide_False by (intros Hne; by apply Hne) | rewrite decide_True by done]); done.
Qed.

Lemma UISetStatus_run f format args x b : shows f b → printf format args = Done x → NUL ∉ x →
  ∃ ok b' g, UISetStatus format args b = Done (ok, b') ∧ shows g b'.
Proof.
  intros S Hp Hx. unfold UISetStatus, vsnprintf. rewrite Hp. cbn [outcome_bind].
  destruct (sn_write_bounds (replicate kMaxStatusMessageSize NUL) kMaxStatusMessageSize x) as (w & rest & Hw & -> & _ & _ & Hn);
    [unfold kMaxStatusMessageSize; lia|by rewrite length_replicate|done|].
  unfold lift at 1. rewrite Hw. erewrite bind_Done by done. unfold lift at 1. rewrite cstr_app by done. erewrite bind_Done by done.
  destruct (set_run f kUIStatusMessage _ b S Hn) as (ok & b' & E & S' & _). by eexists _, _, _.
Qed.
End Bar.

(** C28. Whatever texts were set before, in any order, drawing the status bar
    prints, for each area that is not empty, the last text set for it as far
    as the array of the area holds it, at the column of the area; no update
    writes outside an array, also of texts that are longer. *)
Theorem status_bar_shows_last (prints_at : Z → bytes → bool) (ups : list (UIStatusArea * bytes)) (scols : Z)
    (H : Forall (λ u, NUL ∉ u.2) ups) :
  ∃ b, (run_sets prints_at ups;;; UIStatusBar_render prints_at scols) no_bar = Done (tt, b)
    ∧ drawn b = print_of (latest (λ _, []) ups) scols <$> filter (λ a, latest (λ _, []) ups a ≠ []) all_areas
    ∧ ∀ a, length (latest (λ _, []) ups a) < area_size a.
Proof.
  destruct (sets_run prints_at ups _ no_bar no_bar_shows H) as (b & E & S). run E.
  destruct (render_run prints_at _ scols b S) as (b' & R & S' & D). exists b'.
  split; [exact R|]. split; [exact D|]. intros a. apply (S' a).
Qed.

Lemma status_bar_shows_last_witness : ∃ b,
  (run_sets (λ _ _, true) [(kUIStatusMode, lit "C"); (kUIStatusTerminalSize, lit "24,100"); (kUIStatusMode, lit "B");
    (kUIStatusinputCounter, lit "   7/280"); (kUIStatusMessage, lit "Connected")];;;
   UIStatusBar_render (λ _ _, true) 100) no_bar = Done (tt, b)
  ∧ drawn b = [(1, lit "[B]"); (5, lit "[24,100]"); (14, lit "Connected"); (91, lit "   7/280")]%Z.
Proof.
  destruct (status_bar_shows_last (λ _ _, true) [(kUIStatusMode, lit "C"); (kUIStatusTerminalSize, lit "24,100");
    (kUIStatusMode, lit "B"); (kUIStatusinputCounter, lit "   7/280"); (kUIStatusMessage, lit "Connected")] 100)
    as (b & E & D & _).
  - repeat (apply Forall_cons; split; [not_in|]). by apply Forall_nil.
  - exists b. split; [exact E|]. rewrite D. vm_compute. reflexivity.
Defined.

(** The counter of the input window and the size of a terminal are shown
    whole. *)
Lemma counter_fits current max : (0 ≤ current < 1000)%Z → (0 ≤ max < 1000)%Z →
  length (pad_left 4 (decimal current) ++ lit "/" ++ decimal max) < area_size kUIStatusinputCounter.
Proof.
  intros Hc Hm. assert (D : ∀ z, (0 ≤ z < 1000)%Z → length (decimal z) ≤ 3).
  { intros z Hz. unfold decimal. rewrite (proj2 (Z.ltb_ge _ _)) by lia.
    pose proof (digits_short 20 (Z.to_nat z) 2) as Ds. cbn [Nat.pow] in Ds. lia. }
  unfold pad_left. rewrite !length_app, length_replicate. pose proof (D _ Hc). pose proof (D _ Hm). cbn [length lit String.list_ascii_of_string area_size]. lia.
Qed.

(** ** Colours *)

(** Pairs by number, with the foreground and the background; the colours the
    program defined, with their components; the number of pairs. *)
Record palette : Type := Palette { pairs : gmap Z (Z * Z); defined : list (Z * NCColor); pairCount : Z }.

Definition kColorPairWhiteOnRed : Z := 8.
Definition fresh_palette : palette := Palette ∅ [] (kColorPairWhiteOnRed + 1).

Definition init_pair (n fg bg : Z) (p : palette) : palette := Palette (<[n := (fg, bg)]> (pairs p)) (defined p) (pairCount p).

(** The default pairs: cyan, yellow, red, blue, magenta and green on the
    default background, white on blue and on red. *)
Definition default_pairs (p : palette) : palette :=
  init_pair 8 7 1 (init_pair 7 7 4 (init_pair 6 2 (-1) (init_pair 5 5 (-1) (init_pair 4 4 (-1)
    (init_pair 3 1 (-1) (init_pair 2 3 (-1) (init_pair 1 6 (-1) p))))))).

Section Colours.
Context (pow : double → double → double) (draw : Z → nat → N).

(** The body of the loop, for the colour [i]: a random colour, which is taken
    when it is [bright]. *)
Definition add_colour (i : Z) (p : palette) : outcome palette :=
  let color := rgb_random_color draw i in
  if bright pow color then
    let! col := rgb2nc_color color in
    let p := init_pair (pairCount p) i (-1) p in
    Done (Palette (pairs p) (defined p ++ [(i, col)]) (pairCount p + 1))
  else Done p.

(** The loop over the colours from [i] on. *)
Fixpoint add_colours (n : nat) (i : Z) (p : palette) : outcome palette :=
  match n with
  | O => Done p
  | S n => let! p := add_colour i p in add_colours n (i + 1) p
  end.

(** What the terminal can do. *)
Record terminal_colours : Type := TerminalColours {
  has_colors : bool;
  start_color : bool;
  can_change_color : bool;
  COLORS : Z
}.

Definition palette_log (e : moment) (s : severity) (format : bytes) (args : list arg) : proc (palette * logger) unit := λ st,
  match log s e format args st.2 with
  | Done (None, l) => Done (Go tt, (st.1, l))
  | Done (Some code, l) => Done (Exit code, (st.1, l))
  | Stuck w => Stuck w
  end.

(** [UIColor_init]; [why] is the text of [errno]. *)
Definition UIColor_init (e : moment) (why : bytes) (t : terminal_colours) : proc (palette * logger) unit :=
  (if negb (has_colors t) then palette_log e Fatal (lit "Sorry, your terminal does not support colors :/") [] else go tt) ;~
  (if negb (start_color t) then palette_log e Fatal (lit "Unable to initialise colors" ++ [newline_char] ++ lit "%s" ++ [newline_char]) [AStr why] else go tt) ;~
  _ <~ exec (modify (λ st, (default_pairs st.1, st.2)));;
  if can_change_color t && (kColorPairWhiteOnRed <? COLORS t)%Z then
    palette_log e Info (lit "This terminal can define custom colors") [] ;~
    exec (λ st, let! p := add_colours (Z.to_nat (COLORS t - 8)) 8 st.1 in Done (tt, (p, st.2)))
  else go tt.

Definition UIColor_getCount (p : palette) : Z := pairCount p.

(** The pairs are those from 1 to the number of pairs, without the last. *)
Definition contiguous (p : palette) : Prop := ∀ k, is_Some (pairs p !! k) ↔ (1 ≤ k < pairCount p)%Z.

(** The colours that the loop takes, as the integers nearest to the scaled
    components of the random colours. *)
Definition scaled (c : RGBColor) : NCColor :=
  NC (nearest (rgb_red c * 999) 255) (nearest (rgb_green c * 999) 255) (nearest (rgb_blue c * 999) 255).

Fixpoint chosen (n : nat) (i : Z) : list (Z * NCColor) :=
  match n with
  | O => []
  | S n =>
    let c := rgb_random_color draw i in
    (if bright pow c then [(i, scaled c)] else []) ++ chosen n (i + 1)
  end.

Lemma chosen_ok n : ∀ i j c, (j, c) ∈ chosen n i →
  (i ≤ j < i + Z.of_nat n)%Z ∧ in_nc c ∧ c = scaled (rgb_random_color draw j) ∧ bright pow (rgb_random_color draw j) = true.
Proof.
  induction n as [|n IH]; intros i j c; cbn [chosen]; [by intros ?%not_elem_of_nil|]. intros [Hin|Hin]%elem_of_app.
  - destruct (bright pow (rgb_random_color draw i)) eqn:E; [|by apply not_elem_of_nil in Hin].
    apply list_elem_of_singleton in Hin as [= -> ->]. split; [lia|]. split; [|done].
    destruct (rgb2nc_color_run _ (proj1 (random_in_range draw i))) as (c & _ & Hc & Ec). unfold scaled. by rewrite <- Ec.
  - destruct (IH _ _ _ Hin) as (? & ? & ?). split; [lia|done].
Qed.

Lemma chosen_length n : ∀ i, length (chosen n i) ≤ n.
Proof. induction n as [|n IH]; intros i; cbn; [done|]. rewrite length_app. specialize (IH (i + 1)%Z). case_match; cbn; lia. Qed.

(** One pair for each, in their order. *)
Lemma add_colours_run n : ∀ i p, ∃ p', add_colours n i p = Done p' ∧ defined p' = defined p ++ chosen n i
  ∧ pairCount p' = (pairCount p + Z.of_nat (length (chosen n i)))%Z
  ∧ ∀ k, pairs p' !! k = if decide (pairCount p ≤ k < pairCount p')%Z
                         then (λ c, (c.1, -1)%Z) <$> chosen n i !! Z.to_nat (k - pairCount p) else pairs p !! k.
Proof.
  induction n as [|n IH]; intros i p; cbn [add_colours chosen].
  - exists p. rewrite app_nil_r. split_and!; [done..|cbn; lia|]. intros k. by rewrite decide_False by lia.
  - unfold add_colour. destruct (bright pow (rgb_random_color draw i)) eqn:E; [|apply IH].
    destruct (rgb2nc_color_run _ (proj1 (random_in_range draw i))) as (c & Hc & _ & Ec). rewrite Hc. cbn [outcome_bind].
    assert (Esc : scaled (rgb_random_color draw i) = c) by (by rewrite Ec). rewrite Esc. clear Esc Ec.
    edestruct (IH (i + 1)%Z) as (p' & -> & Hd & Hn & Hp). exists p'. cbn [pairs defined pairCount init_pair] in *.
    split; [done|]. split; [by rewrite Hd, <- app_assoc|]. split; [rewrite Hn, length_app; cbn; lia|]. intros k. rewrite Hp.
    destruct (decide (k = pairCount p)) as [->|Hk].
    + rewrite decide_False, decide_True by lia. by rewrite lookup_insert_eq, Z.sub_diag.
    + rewrite lookup_insert_ne by done. destruct (decide (pairCount p ≤ k < pairCount p')%Z).
      * rewrite decide_True by lia. replace (Z.to_nat (k - pairCount p)) with (S (Z.to_nat (k - (pairCount p + 1)))) by lia. done.
      * by rewrite decide_False by lia.
Qed.

Lemma contiguous_after n i p p' : contiguous p → (1 ≤ pairCount p)%Z →
  pairCount p' = (pairCount p + Z.of_nat (length (chosen n i)))%Z →
  (∀ k, pairs p' !! k = if decide (pairCount p ≤ k < pairCount p')%Z
                        then (λ c, (c.1, -1)%Z) <$> chosen n i !! Z.to_nat (k - pairCount p) else pairs p !! k) →
  contiguous p'.
Proof.
  intros C H1 Hn Hp k. rewrite Hp. case_decide as Hk.
  - split; [lia|intros _]. rewrite fmap_is_Some. apply lookup_lt_is_Some_2. lia.
  - rewrite (C k). lia.
Qed.

Lemma default_contiguous : contiguous (default_pairs fresh_palette).
Proof.
  intros k. cbn [pairCount default_pairs init_pair fresh_palette]. unfold kColorPairWhiteOnRed.
  destruct (decide (1 ≤ k < 9)%Z) as [Hk|Hk].
  - split; [lia|intros _].
    assert (E : (k = 1 ∨ k = 2 ∨ k = 3 ∨ k = 4 ∨ k = 5 ∨ k = 6 ∨ k = 7 ∨ k = 8)%Z) by lia.
    repeat (destruct E as [->|E]; [vm_compute; by eexists|]). subst k. vm_compute. by eexists.
  - cbn [pairs default_pairs init_pair fresh_palette]. rewrite !lookup_insert_ne by lia. rewrite lookup_empty.
    split; [by intros []|lia].
Qed.

(** Whether the terminal gets its own colours. *)
Definition custom (t : terminal_colours) : bool := can_change_color t && (kColorPairWhiteOnRed <? COLORS t)%Z.

(** C29. When the colours are set up, the pairs that can be used are those from
    1 up to, but not including, the count that [UIColor_getCount] gives: the
    eight default ones, and after them one for each random colour that is
    bright enough, in the order of their numbers, on the default background;
    these colours are defined, with components that ncurses accepts.  The
    floating point arithmetic on the way is defined for every sequence of
    random numbers.  A terminal without colours ends the process. *)
Theorem colours_set_up e why t st : good_moment e → NUL ∉ why → st.1 = fresh_palette →
  (0 < vLogLevel st.2 ≤ LOG_FATAL)%Z →
  let cs := if custom t then chosen (Z.to_nat (COLORS t - 8)) 8 else [] in
  wp (UIColor_init e why t) st (λ r st',
    match r with
    | Exit code => code ≠ EXIT_SUCCESS ∧ (has_colors t = false ∨ start_color t = false)
    | Go _ =>
      contiguous st'.1 ∧ UIColor_getCount st'.1 = (9 + Z.of_nat (length cs))%Z ∧ defined st'.1 = cs
      ∧ (∀ k, (k < 9)%Z → pairs st'.1 !! k = pairs (default_pairs fresh_palette) !! k)
      ∧ (∀ k j c, cs !! k = Some (j, c) → pairs st'.1 !! (9 + Z.of_nat k)%Z = Some (j, -1)%Z
          ∧ (8 ≤ j < COLORS t)%Z ∧ in_nc c ∧ c = scaled (rgb_random_color draw j) ∧ bright pow (rgb_random_color draw j) = true)
    end).
Proof.
  intros He Hw Hf Hl cs.
  assert (L : ∀ s f args x st0 (Q : ctl unit → palette * logger → Prop), message_text f args x →
    (0 < vLogLevel st0.2 ≤ LOG_FATAL)%Z →
    (∀ l, if decide (s = Fatal) then Q (Exit (exit_code e)) (st0.1, l) else Q (Go tt) (st0.1, l)) →
    wp (palette_log e s f args) st0 Q).
  { intros s f args x [pa lg] Q Hm Hlv HQ.
    assert (W : wp (log s e f args) lg (λ o l, Q (match o with None => Go tt | Some code => Exit code end) (pa, l))).
    { apply (wp_log _ _ _ _ x); [done..|]. intros lines. specialize (HQ (MkLogger (vLogLevel lg) lines)).
      destruct (decide (s = Fatal)) as [->|Hs].
      - rewrite enabled_spec. rewrite !bool_decide_eq_false_2, bool_decide_eq_true_2
          by (cbn in Hlv; unfold LOG_OFF; cbn [level_of]; done || lia). exact HQ.
      - rewrite (bool_decide_eq_false_2 (s = Fatal)), andb_false_r by done. exact HQ. }
    destruct W as (o & l & E & HQ'). unfold palette_log. destruct o; eapply wp_run; (cbn [snd fst]; rewrite E; reflexivity) || exact HQ'. }
  unfold UIColor_init. steps. destruct (has_colors t); cbn [negb].
  2: { eapply L; [econstructor; [not_in|apply Nat.ltb_lt; vm_compute; reflexivity|reflexivity|by constructor]|done|].
       intros l. rewrite decide_True by done. split; [apply exit_code_fails|by left]. }
  steps. destruct (start_color t); cbn [negb].
  2: { eapply L; [econstructor; [not_in|apply Nat.ltb_lt; vm_compute; reflexivity|reflexivity|by repeat constructor]|done|].
       intros l. rewrite decide_True by done. split; [apply exit_code_fails|by right]. }
  steps. rewrite Hf. unfold UIColor_getCount. fold (custom t). unfold cs. clear cs. destruct (custom t) eqn:Hc.
  2: { steps. split_and!; [exact default_contiguous|done..]. }
  apply andb_true_iff in Hc as [_ Hc%Z.ltb_lt].
  steps. eapply L; [econstructor; [not_in|apply Nat.ltb_lt; vm_compute; reflexivity|reflexivity|by constructor]|done|].
  intros l. rewrite decide_False by done. cbn [fst].
  destruct (add_colours_run (Z.to_nat (COLORS t - 8)) 8 (default_pairs fresh_palette)) as (p' & E & Hd & Hn & Hp).
  steps. eapply wp_run; [cbn [fst snd]; rewrite E; reflexivity|]. cbn [fst snd].
  change (pairCount (default_pairs fresh_palette)) with 9%Z in *.
  split_and!; [|done|done|..].
  - eapply contiguous_after; [exact default_contiguous|done|exact Hn|exact Hp].
  - intros k Hk. rewrite Hp. by rewrite decide_False by lia.
  - intros k j c Hk. assert (k < length (chosen (Z.to_nat (COLORS t - 8)) 8)) by (by eapply lookup_lt_Some).
    destruct (chosen_ok _ _ _ _ (list_elem_of_lookup_2 _ _ _ Hk)) as (Hj & Hrest). split; [|split; [unfold kColorPairWhiteOnRed in Hc; lia|done]].
    rewrite Hp, decide_True by lia. replace (Z.to_nat (9 + Z.of_nat k - 9)) with k by lia. by rewrite Hk.
Qed.

Lemma palette_log_returns e s f args x st : good_moment e → message_text f args x →
  wp (palette_log e s f args) st (λ _ _, True).
Proof.
  intros He Hm. destruct st as [pa lg].
  destruct (wp_log s e f args x lg (λ _ _, True) He Hm) as (o & l & E & _); [done|].
  unfold palette_log. destruct o; (eapply wp_run; [cbn [snd fst]; rewrite E; reflexivity|done]).
Qed.

(** Whatever the terminal can do, [UIColor_init] returns or exits. *)
Lemma UIColor_init_returns e why t st : good_moment e → NUL ∉ why → wp (UIColor_init e why t) st (λ _ _, True).
Proof.
  intros He Hw. unfold UIColor_init.
  assert (L : ∀ (b : bool) s f args x st (Q : ctl unit → palette * logger → Prop), message_text f args x →
    (∀ r st', Q r st') → wp (if b then palette_log e s f args else go tt) st Q).
  { intros b s f args x st' Q Hm HQ. destruct b; [|by step].
    eapply wp_mono; [by eapply palette_log_returns|]. auto. }
  step. eapply L; [econstructor; [not_in|apply Nat.ltb_lt; vm_compute; reflexivity|reflexivity|by constructor]|].
  intros [[]|code] st1; [|done].
  step. eapply L; [econstructor; [not_in|apply Nat.ltb_lt; vm_compute; reflexivity|reflexivity|by repeat constructor]|].
  intros [[]|code] st2; [|done]. steps.
  destruct (can_change_color t && _); [|by steps]. step.
  eapply wp_mono; [eapply palette_log_returns; [done|econstructor; [not_in|apply Nat.ltb_lt; vm_compute; reflexivity|reflexivity|by constructor]]|].
  intros [[]|code] st3 _; [|done]. destruct (add_colours_run (Z.to_nat (COLORS t - 8)) 8 st3.1) as (p' & E & _).
  step. eapply wp_run; [rewrite E; reflexivity|]. by steps.
Qed.
End Colours.

(** Four colours, the first of which is black. *)
Definition sample_draw (seed : Z) (k : nat) : N := Z.to_N ((seed - 8) * (97 + 60 * Z.of_nat k)).

Lemma colours_set_up_witness : ∃ p l,
  UIColor_init (λ x _, x) sample_draw sample_moment (lit "Success") (TerminalColours true true true 12)
    (fresh_palette, MkLogger LOG_INFO []) = Done (Go tt, (p, l))
  ∧ UIColor_getCount p = 12%Z ∧ pairs p !! 9%Z = Some (9, -1)%Z ∧ pairs p !! 12%Z = None.
Proof.
  destruct (colours_set_up (λ x _, x) sample_draw sample_moment (lit "Success") (TerminalColours true true true 12)
    (fresh_palette, MkLogger LOG_INFO [])) as ([[]|code] & [p l] & E & R).
  - split; [not_in|vm_compute; lia].
  - not_in.
  - reflexivity.
  - cbn; unfold LOG_FATAL, LOG_INFO; lia.
  - destruct R as (C & N & D & _ & P). exists p, l. split; [exact E|]. cbn [fst] in *.
    assert (N' : UIColor_getCount p = 12%Z) by (rewrite N; vm_compute; reflexivity).
    split; [exact N'|]. split; [exact (proj1 (P 0 9%Z (NC 380 615 850) ltac:(vm_compute; reflexivity)))|].
    apply eq_None_not_Some. intros S. apply C in S. unfold UIColor_getCount in N'. lia.
  - destruct R as [_ [R|R]]; discriminate R.
Defined.
