(* ===== verification/AppLib.v ===== *)
(** * The client application (src/client/app.c, UILogMessage of ui.c)

    The listening thread, which turns what arrives into queued messages; the
    main thread, which logs them and sends what is typed.  The queue between
    them is first-in first-out (see CQueueLib.v); signals only wake the main
    thread, so its calls are steps of their own. *)

From S2P Require Import Prelude.
From S2P Require Import CStr.
From S2P Require Import TrimLib.
From S2P Require Import MessageLib.
From S2P Require Import Transport.
From S2P Require Import ClientStores.
From S2P Require Import ChatLog.
From S2P Require Import ClientLib.
From S2P Require Import ChatSpec.

(** ** Texts *)

(** The characters that fit in [n] bytes; none is stored in part. *)
Fixpoint whole_chars (n : nat) (cs : list bytes) : bytes :=
  match cs with
  | [] => []
  | b :: cs => if decide (length b ≤ n) then b ++ whole_chars (n - length b) cs else []
  end.

(** What [wcstombs(dest, src, n)] stores, where [cs] are the encodings of the
    characters of [src]: no terminator when they need [n] bytes or more. *)
Definition wcs_store (dest : bytes) (cs : list bytes) (n : nat) : outcome bytes :=
  let t := concat cs in
  if decide (length t < n) then memcpy dest (t ++ [NUL]) (length t + 1)
  else let t := whole_chars n cs in memcpy dest t (length t).

Definition kNicknameArray : nat := 64.

Section App.
Context {L T : Type} `{Sequence L} `{Table T}.
Context (rand : nat → Z) (image : ChatLogEntry → bytes) (entry : bytes → ChatLogEntry).

(** The encoding of a wide character in the locale (which must be able to
    encode what is typed). *)
Context (wcrtomb : Z → bytes).

(** A wide buffer, trimmed, and its characters encoded. *)
Definition convert (buffer : list Z) : outcome (list bytes) :=
  let! t := wtrim_string buffer in
  let! w := text 0%Z t in
  Done (wcrtomb <$> w).

(** ** Authentication *)

(** [user] is the nickname of the command line; [input] what is read from the
    terminal. *)
Definition App_authenticate (user : bytes) (input : option (list Z)) (reads1 : list read_answer)
    (writes : list Z) (reads2 : list read_answer) : cmd C2HatClient bool :=
  u <- lift (cstr user);;
  if decide (0 < length u) then
    nickname <- lift (strncpy (replicate kNicknameArray NUL) user kMaxNicknameSize);;
    Client_authenticate nickname reads1 writes reads2
  else
    match input with
    | None => ret false
    | Some w =>
      nickname <- lift (let! t := convert w in wcs_store (replicate kNicknameArray NUL) t kNicknameArray);;
      Client_authenticate nickname reads1 writes reads2
    end.

(** ** The listening thread *)

(** All messages of the buffer. *)
Fixpoint take_messages (fuel : nat) : cmd C2HatClient (list C2HMessage) :=
  match fuel with
  | O => stuck OutOfFuel
  | S fuel =>
    response <- get_message;;
    match response with
    | None => ret []
    | Some m => ms <- take_messages fuel;; ret (m :: ms)
    end
  end.

(** One turn of [App_listen] when the socket is readable; [None] when it ends
    the thread. *)
Definition App_listen_turn (reads : list read_answer) : cmd C2HatClient (option (list C2HMessage)) :=
  received <- receive reads;;
  if (received <=? 0)%Z then ret None else
  c <- get;;
  ms <- take_messages (S (length (bdata (cbuffer c))));;
  ret (Some ms).

(** What [select] answers the listening thread, or that the flag was set. *)
Inductive listen_event : Type :=
  | LReady (reads : list read_answer)
  | LIdle
  | LInterrupted
  | LFailed
  | LTerminated.

(** Its loop; the messages are those pushed to the queue. *)
Fixpoint listen (evs : list listen_event) : cmd C2HatClient (list C2HMessage) :=
  c <- get;;
  if negb (SOCKET_isValid (server c)) then ret [] else
  match evs with
  | [] => stuck OutOfFuel
  | LFailed :: _ | LTerminated :: _ => ret []
  | LIdle :: evs | LInterrupted :: evs => listen evs
  | LReady reads :: evs =>
    r <- App_listen_turn reads;;
    match r with
    | None => ret []
    | Some ms => rest <- listen evs;; ret (ms ++ rest)
    end
  end.

(** The thread closes the socket at its end; then it signals the main thread
    to end. *)
Definition App_listen (evs : list listen_event) : cmd C2HatClient (list C2HMessage) :=
  ms <- listen evs;;
  modify (set_closed true);;;
  ret ms.

(** ** The main thread *)

Definition disconnected : C2HMessage :=
  MkMessage kMessageTypeErr
    (lit "You have been disconnected" ++ replicate (kBufferSize - 26) NUL) (replicate kMaxNicknameSize NUL).

(** The result says whether the process signals itself to end. *)
Definition UILogMessage (clock : bytes) (message : C2HMessage) : cmd (chatwin L T) bool :=
  if decide (mtype message = kMessageTypeQuit) then
    UIChatWin_logMessage rand image true clock disconnected;;; ret true
  else UIChatWin_logMessage rand image true clock message;;; ret false.

(** The two threads: what the socket will answer, the messages the listening
    thread has still to push, the queue and the chat window. *)
Record app : Type := App {
  client : C2HatClient;
  arrivals : list (list read_answer);
  pending : list C2HMessage;
  messages : list C2HMessage;
  ui : chatwin L T;
  terminate : bool
}.

(** A step: the listening thread receives or pushes, the main thread pops a
    message and logs it ([App_updateHandler]) or handles a key. *)
Inductive app_action : Type :=
  | Receive
  | Push
  | Pop (clock : bytes)
  | Press (e : chat_event).

Definition app_step (a : app_action) (s : app) : option (outcome app) :=
  match a with
  | Receive =>
    match pending s, arrivals s with
    | [], reads :: rest =>
      if terminate s then None else
      Some (let! r := App_listen_turn reads (client s) in
            Done (match r.1 with
                  | None => App r.2 [] [] (messages s) (ui s) true
                  | Some ms => App r.2 rest ms (messages s) (ui s) false
                  end))
    | _, _ => None
    end
  | Push =>
    match pending s with
    | [] => None
    | m :: ms => Some (Done (App (client s) (arrivals s) ms (messages s ++ [m]) (ui s) (terminate s)))
    end
  | Pop clock =>
    match messages s with
    | [] => None
    | m :: ms =>
      Some (let! r := UILogMessage clock m (ui s) in
            Done (App (client s) (arrivals s) (pending s) ms r.2 (terminate s || r.1)))
    end
  | Press e =>
    Some (let! r := run_event rand image entry e (ui s) in
          Done (App (client s) (arrivals s) (pending s) (messages s) r.2 (terminate s)))
  end.

Fixpoint run_app (acts : list app_action) (s : app) : option (outcome app) :=
  match acts with
  | [] => Some (Done s)
  | a :: acts =>
    match app_step a s with
    | None => None
    | Some (Stuck w) => Some (Stuck w)
    | Some (Done s) => run_app acts s
    end
  end.

(** ** Sending *)

(** What [UIInputLoop] returns, and the answers to the writes that follow. *)
Inductive input : Type :=
  | Typed (buffer : list Z) (writes : list Z)
  | Terminate
  | InputError.

(** A typed buffer is sent; the result says whether the loop goes on. *)
Definition send_typed (buffer : list Z) (writes : list Z) : cmd C2HatClient bool :=
  messageBuffer <- lift (let! t := convert buffer in wcs_store (replicate kBufferSize NUL) t kBufferSize);;
  s <- lift (cstr messageBuffer);;
  if decide (0 < length s) then
    message <- (λ c, match C2HMessage_createFromString s (length s) (room c) with
                     | Done (m, n) => Done (m, set_room n c)
                     | Stuck w => Stuck w
                     end);;
    match message with
    | None => ret true
    | Some m =>
      if decide (mtype m = kMessageTypeQuit) then ret false else
      n <- send m writes;;
      ret (negb (n <? 0)%Z)
    end
  else ret true.

(** The loop of [App_run]. *)
Fixpoint input_loop (inputs : list input) : cmd C2HatClient unit :=
  match inputs with
  | [] => stuck OutOfFuel
  | Terminate :: _ | InputError :: _ => ret tt
  | Typed buffer writes :: inputs =>
    more <- send_typed buffer writes;;
    if more then input_loop inputs else ret tt
  end.

Definition App_run (inputs : list input) (last_writes : list Z) : cmd C2HatClient unit :=
  input_loop inputs;;;
  send (blank_message kMessageTypeQuit) last_writes;;;
  ret tt.
End App.
