(* ===== verification/AppSpec.v ===== *)
(** * Properties of the client application

    What the listening thread receives reaches the chat log; what is typed is
    sent; nicknames that fill their array. *)

From S2P Require Import Prelude.
From S2P Require Import CStr.
From S2P Require Import TrimLib.
From S2P Require Import MessageLib.
From S2P Require Import MessageSpec.
From S2P Require Import Transport.
From S2P Require Import ServerSettings.
From S2P Require Import ClientStores.
From S2P Require Import ChatLog.
From S2P Require Import ChatSpec.
From S2P Require Import ClientLib.
From S2P Require Import ClientSpec.
From S2P Require Import AppLib.
Implicit Types (c : C2HatClient) (ks : list packet).

(** ** The listening thread *)

Lemma take_messages_drain f : ∀ c ms b r, drain f (cbuffer c) (room c) = Done ((ms, b), r) →
  take_messages f c = Done (ms, set_cbuffer b (set_room r c)).
Proof.
  induction f as [|f IH]; intros c ms b r Hd; [done|]. cbn [drain take_messages] in *.
  apply bind_inv in Hd as ([m b1] & r1 & Hg & Hd). cbn [fst snd] in Hd.
  assert (Hm : get_message c = Done (m, set_cbuffer b1 (set_room r1 c))) by (unfold get_message; by rewrite Hg).
  run Hm. destruct m as [m|].
  - apply bind_inv in Hd as ([ms' b'] & r' & Hd & [= <- <- <-]). cbn [fst snd].
    assert (Ht : take_messages f (set_cbuffer b1 (set_room r1 c))
      = Done (ms', set_cbuffer b' (set_room r' (set_cbuffer b1 (set_room r1 c))))) by by apply IH.
    by run Ht.
  - by injection Hd as <- <- <-.
Qed.

(** A read that delivers the messages [ks] to a buffer of [N] bytes. *)
Definition batch (N : nat) (ks : list packet) (reads : list read_answer) : Prop :=
  Forall good_packet ks ∧ ks ≠ [] ∧ length (stream ks) ≤ N ∧
  ∃ again rest, reads = replicate again ReadAgain ++ ReadData (stream ks) :: rest.

(** A connection whose buffer is of [N] bytes, with memory for [r] messages. *)
Definition ready (N r : nat) (c : C2HatClient) : Prop :=
  reusable (cbuffer c) ∧ length (bdata (cbuffer c)) = N ∧ 2 * r ≤ room c ∧ 0 < N.

Lemma length_stream ks : Forall good_packet ks → length ks ≤ length (stream ks).
Proof.
  induction 1 as [|k ks G Gs IH]; [done|]. destruct (wire_slash k G) as (w & Hw & _).
  cbn [stream flat_map length]. rewrite !length_app, Hw. cbn. unfold stream in IH. lia.
Qed.

Lemma listen_turn N r ks reads c : batch N ks reads → ready N (length ks + r) c →
  ∃ c', App_listen_turn reads c = Done (Some (packet_message <$> ks), c') ∧ ready N r c'.
Proof.
  intros (G & Hne & Hl & again & rest & ->) (Hb & HN & Hr & Hpos). unfold App_listen_turn, receive.
  rewrite bind_bind, bind_get. unfold Client_receive. rewrite receive_data by (done || lia).
  pose proof (length_stream ks G) as Hks.
  assert (0 < length ks) by (destruct ks; [done|cbn; lia]).
  unfold lift. rewrite bind_bind. unfold bind at 1. rewrite bind_bind, bind_modify, bind_ret. cbn [fst snd].
  rewrite (proj2 (Z.leb_gt _ _)) by lia. rewrite bind_get.
  set (b := MkBuffer _ (Some 0)). set (c1 := set_cbuffer b c).
  assert (Hlb : length (bdata b) = N) by (cbn; rewrite length_app, length_replicate; lia).
  pose proof (drain_stream_room (N - length ks) ks [] (length (bdata (cbuffer c)) - length (stream ks)) b (room c)
    G eq_refl eq_refl ltac:(lia)) as Hd.
  replace (S (length ks + (N - length ks))) with (S (length (bdata (cbuffer c1)))) in Hd
    by (cbn [cbuffer c1 set_cbuffer]; lia).
  pose proof (take_messages_drain _ c1 _ _ _ Hd) as Ht. run Ht. eexists. split; [reflexivity|].
  rewrite Hlb. unfold ready. cbn [cbuffer room set_cbuffer set_room blank_buffer bdata]. rewrite length_replicate.
  split_and!; [|done|lia|done].
  exists NUL. unfold blank_buffer; cbn [bdata]. rewrite length_replicate. split; [apply lookup_replicate; split; [done|lia]|by left].
Qed.

(** Batches among the answers of [select]. *)
Inductive listens (N : nat) : list (list packet) → list listen_event → Prop :=
  | listens_end evs e : e = LFailed ∨ e = LTerminated ∨ e = LReady [ReadClosed] ∨ e = LReady [ReadError] →
      listens N [] (e :: evs)
  | listens_wait kss evs e : e = LIdle ∨ e = LInterrupted → listens N kss evs → listens N kss (e :: evs)
  | listens_batch ks kss evs reads : batch N ks reads → listens N kss evs → listens N (ks :: kss) (LReady reads :: evs).

Lemma listen_turn_keeps reads c r c' : App_listen_turn reads c = Done (r, c') → server c' = server c.
Proof.
  assert (K : ∀ f c ms c', take_messages f c = Done (ms, c') → server c' = server c).
  { induction f as [|f IH]; intros c1 ms c2 E; [done|]. cbn [take_messages] in E.
    apply bind_inv in E as (m & c3 & Hg & E). unfold get_message in Hg.
    destruct (C2HMessage_get _ _) as [[[? ?] ?]|]; [|done]. injection Hg as <- <-. destruct o as [m|].
    - apply bind_inv in E as (ms' & c3 & Ht & [= <- <-]). by apply IH in Ht.
    - by injection E as <- <-. }
  unfold App_listen_turn, receive. intros E. apply bind_inv in E as (n & c1 & Hr & E).
  apply bind_inv in Hr as (? & ? & [= <- <-] & Hr). apply bind_inv in Hr as (q & c2 & Hq & Hr).
  apply lift_inv in Hq as [_ ->]. rewrite bind_modify in Hr. injection Hr as <- <-.
  destruct (_ <=? 0)%Z; [by injection E as <- <-|]. rewrite bind_get in E.
  apply bind_inv in E as (ms & c3 & Ht & [= <- <-]). by apply K in Ht.
Qed.

(** The thread pushes everything that arrives before the connection ends, in
    order, and closes the socket. *)
Lemma App_listen_pushes N kss evs : listens N kss evs → ∀ c, SOCKET_isValid (server c) = true →
  ready N (length (concat kss)) c →
  ∃ c', App_listen evs c = Done (packet_message <$> concat kss, c') ∧ closed c' = true.
Proof.
  intros H c V R. assert (L : ∃ c', listen evs c = Done (packet_message <$> concat kss, c')).
  { revert c V R. induction H as [evs e He|kss evs e He _ IH|ks kss evs reads Hb _ IH]; intros c V R; cbn [listen];
      rewrite bind_get, V; cbn [negb].
    - destruct He as [-> | [-> | [-> | ->]]]; try by eexists.
      all: unfold App_listen_turn, receive; rewrite !bind_bind, bind_get; unfold Client_receive;
        rewrite prepare_reusable by apply R; by eexists.
    - destruct He as [-> | ->]; by apply IH.
    - cbn [concat] in *. rewrite length_app in R. destruct (listen_turn N _ ks reads c Hb R) as (c1 & H1 & R1). run H1.
      destruct (IH c1) as (c2 & H2); [by rewrite (listen_turn_keeps _ _ _ _ H1)|done|]. run H2.
      rewrite fmap_app. by eexists. }
  destruct L as [c' L]. unfold App_listen. run L. rewrite bind_modify. by eexists.
Qed.

(** ** From the connection to the chat log *)

Section Flow.
Context {L T : Type} `{Sequence L} `{Table T}.
Context (rand : nat → Z) (image : ChatLogEntry → bytes) (entry : bytes → ChatLogEntry).
Context (Hrand : ∀ n, (0 ≤ rand n)%Z) (Hentry : ∀ e, entry (image e) = e).
Implicit Types (s : app (L:=L) (T:=T)) (es : list cline) (m : gmap bytes bytes).

(** What the main thread makes of a message it pops. *)
Definition logged (clock : bytes) (b : C2HMessage) : chat_event :=
  ELog true clock (if decide (mtype b = kMessageTypeQuit) then disconnected else b).

Definition clocks_of (a : app_action) : list bytes := match a with Pop clock => [clock] | _ => [] end.
Definition clocks (acts : list app_action) : list bytes := acts ≫= clocks_of.

(** The lines of the chat log for the messages popped. *)
Definition lines_of (cs : list bytes) (bs : list C2HMessage) : list cline := all_accepted (zip_with logged cs bs).

Definition good_action (a : app_action) : Prop :=
  match a with
  | Pop clock => good_clock clock
  | Press (ELog _ _ _) => False
  | Press e => good_event e
  | _ => True
  end.

(** The messages not yet logged, in order; [kss] are the batches to come. *)
Definition waiting s (kss : list (list packet)) : list C2HMessage :=
  messages s ++ pending s ++ (packet_message <$> concat kss).

Definition flow (N n k : nat) s es m kss : Prop :=
  chat_ok image n k (ui s) es m ∧ Forall2 (batch N) kss (arrivals s)
  ∧ ready N (length (concat kss)) (client s) ∧ Forall terminated_message (messages s ++ pending s).

Lemma packet_terminated k : good_packet k → terminated_message (packet_message k).
Proof.
  intros [G _]. pose proof (good_len _ _ _ _ G). exists (ptext k), (puser k).
  pose proof (good_user_len _ _ _ _ G). split_and!.
  - apply array_text; [apply G|done].
  - unfold kBroadcastBufferSize. unfold kBufferSize in *. lia.
  - apply array_text; [apply G|done].
  - lia.
Qed.

Lemma disconnected_terminated : terminated_message disconnected.
Proof.
  exists (lit "You have been disconnected"), [].
  assert (E : disconnected = message_of kMessageTypeErr [] (lit "You have been disconnected")) by reflexivity.
  rewrite E. split_and!.
  - apply array_text; [not_in|apply Nat.ltb_lt; reflexivity].
  - apply Nat.ltb_lt. reflexivity.
  - apply array_text; [not_in|apply Nat.ltb_lt; reflexivity].
  - apply Nat.leb_le. reflexivity.
Qed.

Lemma UILogMessage_run clock b n k s es m : good_clock clock → terminated_message b →
  chat_ok image (2 + n) (100 + k) (ui s) es m →
  ∃ q u m', UILogMessage rand image clock b (ui s) = Done (q, u)
    ∧ chat_ok image n k u (lastn 100 (es ++ accepted (logged clock b))) m'.
Proof.
  intros Hc Hb C.
  assert (G : good_event (logged clock b)).
  { split; [done|]. case_decide; [apply disconnected_terminated|done]. }
  destruct (every_event rand image entry Hrand Hentry _ G n k (ui s) es m C) as (u & m' & Hr & C' & _).
  unfold UILogMessage, logged in *. cbn [run_event] in Hr.
  case_decide; eexists _, u, m'; (split; [by run Hr|exact C']).
Qed.

(** A step moves messages towards the chat log and keeps their order. *)
Lemma app_step_ok a N n k s es m kss r : good_action a → flow N (2 + n) (100 + k) s es m kss →
  app_step rand image entry a s = Some r →
  ∃ s' bs kss' m', r = Done s' ∧ flow N n k s' (lastn 100 (es ++ lines_of (clocks_of a) bs)) m' kss'
    ∧ bs ++ waiting s' kss' = waiting s kss ∧ length bs = length (clocks_of a).
Proof.
  intros Ga (C & HA & HR & HT) Hs.
  assert (Hes : lastn 100 (es ++ lines_of [] []) = es) by (cbn; rewrite app_nil_r; apply lastn_all; apply C).
  assert (Hless : chat_ok image n k (ui s) es m).
  { split; [|apply C]. eapply base_le; [| |apply C]; lia. }
  unfold waiting in *. destruct a as [| |clock|e]; cbn [app_step clocks_of] in *.
  - destruct (pending s) as [|? ?]; [|done]. destruct (arrivals s) as [|reads rest]; [done|].
    inversion HA as [|ks ? kss' ? Hk Hks]; subst. destruct (terminate s); [done|]. injection Hs as <-.
    cbn [concat] in HR. rewrite length_app in HR. destruct (listen_turn N _ ks reads (client s) Hk HR) as (c' & Ht & HR').
    rewrite Ht. cbn [outcome_bind fst snd]. eexists _, [], kss', m. rewrite Hes. split; [reflexivity|].
    cbn [messages pending concat]. split; [|by rewrite fmap_app].
    split_and!; [exact Hless|done|done|]. apply Forall_app. split; [by rewrite app_nil_r in HT|].
    apply Forall_fmap. eapply Forall_impl; [apply Hk|apply packet_terminated].
  - destruct (pending s) as [|b ms] eqn:Ep; [done|]. injection Hs as <-. eexists _, [], kss, m. rewrite Hes.
    split; [reflexivity|]. cbn [messages pending Datatypes.app]. split; [|by rewrite <- !app_assoc].
    split_and!; [exact Hless|done|done|]. cbn [messages pending]. by rewrite <- app_assoc.
  - destruct (messages s) as [|b ms] eqn:Em; [done|]. injection Hs as <-. inversion HT as [|? ? Hb HT']; subst.
    destruct (UILogMessage_run clock b n k s es m Ga Hb C) as (q & u & m' & -> & C'). cbn [outcome_bind fst snd].
    eexists _, [b], kss, m'. split; [reflexivity|]. split; [|done].
    unfold lines_of, all_accepted. cbn [zip_with mbind list_bind]. rewrite app_nil_r. by split_and!.
  - injection Hs as <-. assert (Ge : good_event e) by (destruct e; done).
    assert (Ha : accepted e = []) by (destruct e; done).
    destruct (every_event rand image entry Hrand Hentry e Ge n k (ui s) es m C) as (u & m' & Hr & C' & _).
    rewrite Ha, app_nil_r, lastn_all in C' by apply C. rewrite Hr. cbn [outcome_bind fst snd].
    eexists _, [], kss, m'. rewrite Hes. split; [reflexivity|]. split; [|done]. by split_and!.
Qed.

Lemma run_app_ok acts : ∀ N n k s es m kss r, Forall good_action acts →
  flow N (2 * length acts + n) (100 * length acts + k) s es m kss →
  run_app rand image entry acts s = Some r →
  ∃ s' bs kss' m', r = Done s' ∧ flow N n k s' (lastn 100 (es ++ lines_of (clocks acts) bs)) m' kss'
    ∧ bs ++ waiting s' kss' = waiting s kss ∧ length bs = length (clocks acts).
Proof.
  induction acts as [|a acts IH]; intros N n k s es m kss r G F Hr.
  - injection Hr as <-. exists s, [], kss, m. cbn. rewrite app_nil_r, lastn_all; [by split_and!|apply F].
  - inversion G as [|? ? Ga Gs]; subst. cbn [run_app] in Hr. destruct (app_step _ _ _ a s) as [q|] eqn:Hs; [|done].
    destruct (app_step_ok a N (2 * length acts + n) (100 * length acts + k) s es m kss q Ga) as
      (s1 & b1 & kss1 & m1 & -> & F1 & W1 & L1); [|done|].
    { replace (2 + (2 * length acts + n)) with (2 * length (a :: acts) + n) by (cbn; lia).
      by replace (100 + (100 * length acts + k)) with (100 * length (a :: acts) + k) by (cbn; lia). }
    destruct (IH N n k s1 _ m1 kss1 r Gs F1 Hr) as (s2 & b2 & kss2 & m2 & -> & F2 & W2 & L2).
    exists s2, (b1 ++ b2), kss2, m2. split; [done|]. unfold clocks in *. cbn [mbind list_bind].
    split; [|split; [by rewrite <- app_assoc, W2|by rewrite !length_app, L1, L2]].
    rewrite lastn_app, <- app_assoc in F2. unfold lines_of, all_accepted in *.
    by rewrite zip_with_app, bind_app by done.
Qed.

(** C7. From the connection to the chat log: whatever the interleaving of
    the two threads and of the keys pressed, no call faults, the messages
    logged are those received, in the order of the connection, none lost or
    doubled, and the log holds the last hundred of their lines; when no
    thread has a message left to move, all of them have been logged. *)
Theorem messages_reach_the_log acts N s es m kss o : Forall good_action acts →
  flow N (2 * length acts) (100 * length acts) s es m kss →
  run_app rand image entry acts s = Some o →
  ∃ s' bs kss', o = Done s' ∧ length bs = length (clocks acts)
    ∧ bs ++ waiting s' kss' = waiting s kss
    ∧ seq_holds 0 (chatlog (ui s')) (log_of image (lastn 100 (es ++ lines_of (clocks acts) bs)))
    ∧ (terminate s' = false → app_step rand image entry Receive s' = None →
       app_step rand image entry Push s' = None → app_step rand image entry (Pop []) s' = None →
       bs = waiting s kss).
Proof.
  intros G F Hr. destruct (run_app_ok acts N 0 0 s es m kss o G) as (s' & bs & kss' & m' & -> & F' & W & Hl); [|done|].
  { by rewrite !Nat.add_0_r. }
  exists s', bs, kss'. split_and!; [done|done|done|apply F'|]. intros Ht H1 H2 H3. rewrite <- W.
  destruct F' as (_ & HA & _). unfold waiting. cbn [app_step] in H1, H2, H3. rewrite Ht in H1.
  destruct (messages s'); [|done]. destruct (pending s'); [|done].
  destruct (arrivals s') as [|? ?]; [|done]. inversion HA; subst. cbn. by rewrite app_nil_r.
Qed.
End Flow.

(** ** Sending what is typed *)

(** The packet of a typed text, and of the end of the session. *)
Definition typed_packet (t : bytes) : packet := Packet kMessageTypeMsg kMessageTypePrefixMsg [] t.
Definition quit_packet : packet := Packet kMessageTypeQuit kMessageTypePrefixQuit [] [].

Lemma quit_good : good_packet quit_packet.
Proof. split; [good_concrete|apply Nat.ltb_lt; vm_compute; reflexivity]. Qed.

Lemma quit_message : blank_message kMessageTypeQuit = packet_message quit_packet.
Proof. reflexivity. Qed.

Lemma createFromString_quit r :
  C2HMessage_createFromString (lit "/quit") (length (lit "/quit")) (S (S r)) = Done (Some (packet_message quit_packet), r).
Proof. vm_compute. reflexivity. Qed.

Lemma send_packet k writes c : good_packet k → full_writes writes (length (packet_wire k) + 1) →
  ∃ n, send (packet_message k) writes c = Done (n, set_sent (sent c ++ packet_wire k ++ [NUL]) c) ∧ (0 ≤ n)%Z.
Proof.
  intros G Hw. unfold send. rewrite bind_get, client_send_wire by done. unfold lift. cbn [bind].
  eexists. split; [reflexivity|cbn [fst]; lia].
Qed.

Section Typing.
Context (wcrtomb : Z → bytes).

(** The text [t] stands in a wide buffer, between spaces. *)
Definition reads_as (buffer : list Z) (t : bytes) : Prop :=
  ∃ w rest, buffer = w ++ 0%Z :: rest ∧ (0%Z ∉ w) ∧ concat (wcrtomb <$> strip wide_seps w) = t.

Lemma strip_nul (w : list Z) : 0%Z ∉ w → 0%Z ∉ strip wide_seps w.
Proof.
  intros Hw Hin. apply Hw. unfold strip in Hin.
  destruct (lstrip_split wide_seps (reverse (lstrip wide_seps (reverse w)))) as (a & Ha & _).
  destruct (lstrip_split wide_seps (reverse w)) as (b & Hb & _).
  apply elem_of_reverse. rewrite Hb. apply elem_of_app. right. apply elem_of_reverse. rewrite Ha.
  apply elem_of_app. by right.
Qed.

Lemma convert_run w rest : 0%Z ∉ w → convert wcrtomb (w ++ 0%Z :: rest) = Done (wcrtomb <$> strip wide_seps w).
Proof.
  intros Hw. unfold convert, wtrim_string.
  destruct (trim_run 0%Z wide_seps w rest) as (rest' & -> & _); [not_in|done|]. cbn [outcome_bind].
  by rewrite text_app by by apply strip_nul.
Qed.

Lemma wcs_store_array cs n : length (concat cs) < n → wcs_store (replicate n NUL) cs n = Done (array n (concat cs)).
Proof. intros Hl. unfold wcs_store. rewrite decide_True by done. by apply memcpy_array. Qed.

(** The text of the line, as [App_run] gets it. *)
Lemma typed_run buffer t : reads_as buffer t → NUL ∉ t → length t < kBufferSize →
  ∃ cs, convert wcrtomb buffer = Done cs ∧ wcs_store (replicate kBufferSize NUL) cs kBufferSize = Done (array kBufferSize t)
    ∧ cstr (array kBufferSize t) = Done t.
Proof.
  intros (w & rest & -> & Hw & Ht) Hn Hl. eexists. split; [by apply convert_run|]. rewrite <- Ht in *. split; [by apply wcs_store_array|by apply array_text].
Qed.

(** A line of text, which is not a command. *)
Definition chat_line (i : input) (t : bytes) : Prop :=
  ∃ buffer writes, i = Typed buffer writes ∧ reads_as buffer t ∧
    (t ≠ [] → good_packet (typed_packet t) ∧ head t ≠ Some "/"%char
              ∧ full_writes writes (length (packet_wire (typed_packet t)) + 1)).

(** What ends the session. *)
Definition ends_session (i : input) : Prop :=
  i = Terminate ∨ i = InputError ∨ ∃ buffer writes, i = Typed buffer writes ∧ reads_as buffer (lit "/quit").

Definition typed_packets (ts : list bytes) : list packet := typed_packet <$> filter (λ t, t ≠ []) ts.

Lemma send_quit buffer writes c : reads_as buffer (lit "/quit") → 2 ≤ room c →
  ∃ r, send_typed wcrtomb buffer writes c = Done (false, set_room r c).
Proof.
  destruct c as [f0 f1 f2 f3 f4 f5 f6 f7 f8 rm]. intros Hr Hrm.
  destruct (typed_run buffer _ Hr) as (cs & Hc & Hs & Ht); [not_in|apply Nat.ltb_lt; reflexivity|].
  cbn [room] in Hrm. destruct rm as [|[|r]]; [lia..|]. exists r. unfold send_typed.
  rewrite Hc. cbn [outcome_bind]. rewrite Hs. unfold lift. unfold bind at 1. rewrite Ht. unfold bind at 1.
  rewrite decide_True by (cbn; lia). unfold bind at 1. cbn [room]. rewrite createFromString_quit. by rewrite decide_True.
Qed.

Lemma send_line buffer t writes c : reads_as buffer t → 1 ≤ room c →
  (t ≠ [] → good_packet (typed_packet t) ∧ head t ≠ Some "/"%char
            ∧ full_writes writes (length (packet_wire (typed_packet t)) + 1)) →
  ∃ r, send_typed wcrtomb buffer writes c = Done (true, set_room r (set_sent (sent c ++ stream (typed_packets [t])) c))
    ∧ room c ≤ r + length (typed_packets [t]).
Proof.
  intros Hr Hrm Hg. destruct (decide (t = [])) as [->|Hne].
  - exists (room c). destruct (typed_run buffer [] Hr) as (cs & Hc & Hs & Ht);
      [apply not_elem_of_nil|apply Nat.ltb_lt; reflexivity|].
    unfold send_typed. rewrite Hc. cbn [outcome_bind]. rewrite Hs. unfold lift. unfold bind at 1. rewrite Ht.
    unfold bind at 1. rewrite decide_False by (cbn; lia).
    unfold typed_packets. rewrite filter_cons_False by naive_solver. rewrite filter_nil. cbn. rewrite app_nil_r.
    destruct c. split; [done|lia].
  - destruct (Hg Hne) as (G & Hh & Hw). pose proof G as [Gm _].
    pose proof (good_nul _ _ _ _ Gm) as Hn. pose proof (good_len _ _ _ _ Gm) as Hl.
    destruct (typed_run buffer t Hr Hn Hl) as (cs & Hc & Hs & Ht). destruct (room c) as [|r] eqn:Er; [lia|].
    exists r. unfold send_typed. rewrite Hc. cbn [outcome_bind]. rewrite Hs. unfold lift. unfold bind at 1. rewrite Ht.
    unfold bind at 1. rewrite decide_True by (by destruct t; [|cbn; lia]). unfold bind at 1. rewrite Er.
    destruct (C2HMessage_createFromString_text t r Hn Hl) as [Ec _].
    rewrite Ec; [|done|done|by apply (good_bracket _ _ _ _ Gm eq_refl); left].
    rewrite decide_False by discriminate. change (message_of _ _ _) with (packet_message (typed_packet t)).
    destruct (send_packet (typed_packet t) writes (set_room r c) G Hw) as (n & Hsend & Hn0). run Hsend.
    rewrite (proj2 (Z.ltb_ge _ _)) by done.
    unfold typed_packets. rewrite filter_cons_True by done. rewrite filter_nil. cbn [fmap list_fmap stream flat_map length].
    rewrite app_nil_r. split; [reflexivity|lia].
Qed.

Lemma input_loop_end i inputs c : ends_session i → 2 ≤ room c →
  ∃ r, input_loop wcrtomb (i :: inputs) c = Done (tt, set_room r c).
Proof.
  intros [->|[->|(buffer & writes & -> & Hr)]] Hrm; [exists (room c); by destruct c..|].
  destruct (send_quit buffer writes c Hr Hrm) as (r & Hs). exists r. cbn [input_loop]. by run Hs.
Qed.

Lemma input_loop_line i t inputs c : chat_line i t → 1 ≤ room c →
  ∃ r, input_loop wcrtomb (i :: inputs) c
    = input_loop wcrtomb inputs (set_room r (set_sent (sent c ++ stream (typed_packets [t])) c))
    ∧ room c ≤ r + length (typed_packets [t]).
Proof.
  intros (buffer & writes & -> & Hr & Hg) Hrm. destruct (send_line buffer t writes c Hr Hrm Hg) as (r & Hs & Hle).
  exists r. cbn [input_loop]. by run Hs.
Qed.

Lemma input_loop_lines ins : ∀ ts i rest c, Forall2 chat_line ins ts → ends_session i → 2 + length ins ≤ room c →
  ∃ r, input_loop wcrtomb (ins ++ i :: rest) c
    = Done (tt, set_room r (set_sent (sent c ++ stream (typed_packets ts)) c)).
Proof.
  induction ins as [|x ins IH]; intros ts i rest c Hl He Hr; inversion Hl as [|? t ? ts' Hx Hxs]; subst.
  - destruct (input_loop_end i rest c He) as (r & Hrun); [lia|]. exists r. cbn. rewrite app_nil_r.
    cbn in Hrun. rewrite Hrun. by destruct c.
  - cbn [length] in Hr. destruct (input_loop_line x t (ins ++ i :: rest) c Hx) as (r1 & H1 & Hr1); [lia|].
    assert (length (typed_packets [t]) ≤ 1).
    { unfold typed_packets. rewrite length_fmap. etrans; [apply length_filter|done]. }
    destruct (IH ts' i rest (set_room r1 (set_sent (sent c ++ stream (typed_packets [t])) c)) Hxs He) as (r2 & H2);
      [cbn; lia|].
    exists r2. change ((x :: ins) ++ i :: rest) with (x :: ins ++ i :: rest). rewrite H1, H2.
    do 2 f_equal. cbn [sent set_room set_sent server closed ssl verified cbuffer logFilePath clogLevel].
    unfold typed_packets. change (t :: ts') with ([t] ++ ts'). rewrite filter_app, fmap_app. unfold stream.
    by rewrite flat_map_app, app_assoc.
Qed.

(** A session: of the lines typed, those that are not empty after
    trimming are sent, once each and in order, as "/msg" messages; when the
    session ends, also by the typed command "/quit", one "/quit" follows, and
    nothing typed later is sent. *)
Theorem typed_lines_are_sent ins ts i rest c last_writes :
  Forall2 chat_line ins ts → ends_session i → 2 + length ins ≤ room c →
  full_writes last_writes (length (packet_wire quit_packet) + 1) →
  ∃ c', App_run wcrtomb (ins ++ i :: rest) last_writes c = Done (tt, c')
    ∧ sent c' = sent c ++ stream (typed_packets ts ++ [quit_packet]).
Proof.
  intros Hl He Hr Hw. unfold App_run. destruct (input_loop_lines ins ts i rest c Hl He Hr) as (r & Hrun). run Hrun.
  rewrite quit_message.
  destruct (send_packet quit_packet last_writes (set_room r (set_sent (sent c ++ stream (typed_packets ts)) c))
    quit_good Hw) as (n & Hs & _). run Hs.
  eexists. split; [reflexivity|]. cbn [sent set_sent set_room]. unfold stream. rewrite flat_map_app.
  cbn [flat_map]. by rewrite app_nil_r, !app_assoc.
Qed.

Lemma whole_chars_fits cs : ∀ n, length (concat cs) ≤ n → whole_chars n cs = concat cs.
Proof.
  induction cs as [|b cs IH]; intros n Hl; [done|]. cbn in *. rewrite length_app in Hl.
  rewrite decide_True by lia. f_equal. apply IH. lia.
Qed.

Lemma whole_chars_prefix cs : ∀ n, (∃ rest, concat cs = whole_chars n cs ++ rest) ∧ length (whole_chars n cs) ≤ n.
Proof.
  induction cs as [|b cs IH]; intros n; cbn; [split; [by exists []|lia]|].
  case_decide as E; [|split; [by eexists|cbn; lia]]. destruct (IH (n - length b)) as [(rest & ->) Hl].
  rewrite length_app. split; [|lia]. exists rest. by rewrite app_assoc.
Qed.

Lemma text_endless (s : bytes) : NUL ∉ s → cstr s = Stuck OutOfBounds.
Proof.
  unfold cstr. induction s as [|x s IH]; intros Hs; [done|]. apply not_elem_of_cons in Hs as [Hx Hs]. cbn.
  rewrite decide_False by done. by rewrite IH.
Qed.

(** C35. The nickname typed at the terminal, of any length: the array gets
    the characters that fit in it, none in part (all of them when they need
    less than the array); when they fill it to its last byte there is no
    terminator, and the client reads past the end of the array. *)
Theorem typed_nickname_bounds w rest reads1 writes reads2 c : 0%Z ∉ w →
  let cs := wcrtomb <$> strip wide_seps w in
  let stored := whole_chars kNicknameArray cs in
  NUL ∉ concat cs →
  App_authenticate wcrtomb [NUL] (Some (w ++ 0%Z :: rest)) reads1 writes reads2 c
  = (if decide (length stored < kNicknameArray)
     then Client_authenticate (array kNicknameArray stored) reads1 writes reads2 c
     else Stuck OutOfBounds)
  ∧ (length (concat cs) < kNicknameArray → stored = concat cs).
Proof.
  intros Hw cs stored Hn. split; [|intros Hl; apply whole_chars_fits; lia].
  destruct (whole_chars_prefix cs kNicknameArray) as [(tail & Ht) Hl]. fold stored in Ht, Hl.
  assert (Hs : NUL ∉ stored) by (rewrite Ht in Hn; by apply not_elem_of_app in Hn as [? _]).
  assert (Hstore : wcs_store (replicate kNicknameArray NUL) cs kNicknameArray = Done (array kNicknameArray stored)).
  { destruct (decide (length (concat cs) < kNicknameArray)) as [E|E].
    - unfold stored. rewrite whole_chars_fits by lia. by apply wcs_store_array.
    - unfold wcs_store. rewrite decide_False by done. fold stored. unfold memcpy, array.
      rewrite decide_True by (rewrite length_replicate; lia). by rewrite take_ge, drop_replicate by lia. }
  assert (Hrun : App_authenticate wcrtomb [NUL] (Some (w ++ 0%Z :: rest)) reads1 writes reads2 c
    = Client_authenticate (array kNicknameArray stored) reads1 writes reads2 c).
  { unfold App_authenticate, lift, bind. change (cstr [NUL]) with (Done (A:=bytes) []). cbv beta iota.
    rewrite decide_False by (cbn; lia). rewrite convert_run by done. cbn [outcome_bind]. fold cs. by rewrite Hstore. }
  rewrite Hrun.
  case_decide as E; [done|]. unfold Client_authenticate, array, lift, bind.
  rewrite (proj2 (Nat.sub_0_le _ _)) by lia. cbn [replicate]. rewrite app_nil_r. by rewrite text_endless.
Qed.
End Typing.

(** ** Samples *)

Module AppSample.
Definition rand (n : nat) : Z := 3.
Definition ann : packet := Packet kMessageTypeMsg kMessageTypePrefixMsg (lit "ann") (lit "hi all").
Definition joined : packet := Packet kMessageTypeLog kMessageTypePrefixLog [] (lit "bob has joined the chat").
Definition connection : C2HatClient := MkClient (Some 0) 5 false true None (blank_buffer 2048) [] 0 [] 10.
Definition start : app (L:=ListLib.lst) (T:=HashLib.hst) :=
  App connection [[ReadAgain; ReadData (stream [joined; ann])]] [] [] (ChatSample.fresh 14 700) false.
Definition acts : list app_action :=
  [Press EPageUp; Receive; Push; Pop (lit "12:00:00"); Push; Press (EMode kChatWinModeBrowse); Pop (lit "12:00:01")].

Lemma good : Forall good_packet [joined; ann].
Proof.
  repeat (apply Forall_cons; split); [split; [good_concrete|apply Nat.ltb_lt; vm_compute; reflexivity]..|by constructor].
Qed.

Lemma ready_start : ready 2048 2 connection.
Proof.
  split_and!; [|apply length_replicate|cbn; lia|lia]. exists NUL. split; [|by left].
  cbn [connection cbuffer blank_buffer bdata]. rewrite length_replicate. apply lookup_replicate. split; [done|lia].
Qed.

Lemma flow_start : flow ChatSample.image 2048 14 700 start [] ∅ [[joined; ann]].
Proof.
  split_and!; [|apply Forall2_cons; split; [|by apply Forall2_nil]|exact ready_start|by constructor].
  - apply (ChatSample.fresh_ok 14 700); unfold INT_MAX; lia.
  - split; [exact good|]. split; [discriminate|]. split; [apply Nat.leb_le; vm_compute; reflexivity|]. by exists 1, [].
Qed.

Lemma first_two {A} (a b x y : A) r : [a; b] ++ r = [x; y] → a = x ∧ b = y.
Proof. by intros [= -> -> _]. Qed.

(** One byte for a character. *)
Definition ascii_wcrtomb (z : Z) : bytes := [Ascii.ascii_of_N (Z.to_N z)].
Definition wide (s : string) : list Z := (λ x, Z.of_N (Ascii.N_of_ascii x)) <$> lit s.
End AppSample.

Lemma messages_reach_the_log_witness : ∃ s' : app (L:=ListLib.lst) (T:=HashLib.hst),
  run_app AppSample.rand ChatSample.image ChatSample.entry AppSample.acts AppSample.start = Some (Done s')
  ∧ seq_holds 0 (chatlog (ui s')) (log_of ChatSample.image
      [CLine (lit "12:00:00") kMessageTypeLog (lit "bob has joined the chat") [];
       CLine (lit "12:00:01") kMessageTypeMsg (lit "hi all") (lit "ann")]).
Proof.
  assert (Hgo : match run_app AppSample.rand ChatSample.image ChatSample.entry AppSample.acts AppSample.start with
                | Some _ => true | None => false end = true) by (vm_compute; reflexivity).
  destruct (run_app AppSample.rand ChatSample.image ChatSample.entry AppSample.acts AppSample.start) as [o|] eqn:E;
    [|discriminate Hgo].
  destruct (messages_reach_the_log AppSample.rand ChatSample.image ChatSample.entry ltac:(intros; unfold AppSample.rand; lia)
    ChatSample.entry_image AppSample.acts 2048 AppSample.start [] ∅ [[AppSample.joined; AppSample.ann]] o)
    as (s' & bs & kss' & -> & Hl & Hw & Hq & _).
  - repeat (apply Forall_cons; split); try exact I; try (split; [not_in|apply Nat.ltb_lt; reflexivity]). by constructor.
  - exact AppSample.flow_start.
  - exact E.
  - exists s'. split; [reflexivity|].
    destruct bs as [|b1 [|b2 [|]]]; try discriminate Hl.
    destruct (AppSample.first_two b1 b2 (packet_message AppSample.joined) (packet_message AppSample.ann) _ Hw) as [-> ->].
    exact Hq.
Defined.

Lemma typed_lines_are_sent_witness : ∃ c',
  App_run AppSample.ascii_wcrtomb
    [Typed (AppSample.wide "  hi all " ++ [10; 0; 7])%Z [4; 8]%Z; Typed [32; 0]%Z []; Typed (AppSample.wide "/quit" ++ [0])%Z [];
     Typed (AppSample.wide "late" ++ [0])%Z [10]%Z] [6]%Z AppSample.connection = Done (tt, c')
  ∧ sent c' = lit "/msg hi all" ++ [NUL] ++ lit "/quit" ++ [NUL].
Proof.
  destruct (typed_lines_are_sent AppSample.ascii_wcrtomb
    [Typed (AppSample.wide "  hi all " ++ [10; 0; 7])%Z [4; 8]%Z; Typed [32; 0]%Z []] [lit "hi all"; []]
    (Typed (AppSample.wide "/quit" ++ [0])%Z []) [Typed (AppSample.wide "late" ++ [0])%Z [10]%Z]
    AppSample.connection [6]%Z) as (c' & H1 & H2).
  - apply Forall2_cons. split; [|apply Forall2_cons; split; [|by apply Forall2_nil]].
    + eexists _, _. split; [reflexivity|]. split.
      * exists (AppSample.wide "  hi all " ++ [10])%Z, [7]%Z. split; [reflexivity|]. split; [not_in|vm_compute; reflexivity].
      * intros _. split; [split; [good_concrete|apply Nat.ltb_lt; vm_compute; reflexivity]|]. split; [discriminate|].
        replace (length (packet_wire _) + 1) with 12 by (vm_compute; reflexivity). cbn. lia.
    + eexists _, _. split; [reflexivity|]. split; [|by intros []].
      exists [32]%Z, []. split; [reflexivity|]. split; [not_in|vm_compute; reflexivity].
  - right. right. eexists _, _. split; [reflexivity|].
    exists (AppSample.wide "/quit"), []. split; [reflexivity|]. split; [not_in|vm_compute; reflexivity].
  - cbn. lia.
  - replace (length (packet_wire _) + 1) with 6 by (vm_compute; reflexivity). cbn. lia.
  - exists c'. split; [exact H1|]. rewrite H2. vm_compute. reflexivity.
Defined.

Lemma typed_nickname_bounds_witness :
  App_authenticate AppSample.ascii_wcrtomb [NUL] (Some (replicate 64 97 ++ [10; 0])%Z) [] [] [] AppSample.connection
  = Stuck OutOfBounds.
Proof.
  change ((replicate 64 97 ++ [10; 0])%Z) with ((replicate 64 97 ++ [10]) ++ 0 :: [])%Z.
  destruct (typed_nickname_bounds AppSample.ascii_wcrtomb (replicate 64 97 ++ [10])%Z [] [] [] [] AppSample.connection)
    as [H _]; [not_in|not_in|].
  etrans; [exact H|]. vm_compute. reflexivity.
Defined.
