(* ===== verification/Session.v ===== *)
(** * A session between a client and the server

    The client of client/client.c and app.c, and the thread of server/server.c
    that serves it, joined by the bytes they exchange: what one side hands to
    its connection is what the other side reads (one read for each write, as
    the records of TLS are delivered).  The server is the system of threads of
    ServerSys.v, the client the functions of ClientLib.v and AppLib.v. *)

From S2P Require Import Prelude.
From S2P Require Import CStr.
From S2P Require Import ListSpec.
From S2P Require Import MessageLib.
From S2P Require Import MessageSpec.
From S2P Require Import Transport.
From S2P Require Import ServerIO.
From S2P Require Import ServerSys.
From S2P Require Import ServerInv.
From S2P Require Import ServerProps.
From S2P Require Import ServerDelivery.
From S2P Require Import ClientStores.
From S2P Require Import ChatLog.
From S2P Require Import ChatSpec.
From S2P Require Import ClientLib.
From S2P Require Import ClientSpec.
From S2P Require Import AppLib.
From S2P Require Import AppSpec.

(** ** What goes over the wire *)

(** The bytes [Server_send] writes for a message. *)
Definition on_the_wire (m : C2HMessage) : bytes := transmitted (replicate kBufferSize NUL) m.

Lemma on_the_wire_packet k : good_packet k → on_the_wire (packet_message k) = packet_wire k ++ [NUL].
Proof. apply transmitted_wire, length_replicate. Qed.

(** A message is told to the client at [a]. *)
Definition speak (a : nat) (m : C2HMessage) (s : sys) : sys := set_said (said s ++ [(Some a, m)]) s.

(** The system answers a call: memory for a few messages, and the writes
    succeed. *)
Definition answering (env : io) : Prop := 4 ≤ io_room env ∧ head (io_answers env) = Some true.

Lemma answering_inv env : answering env → ∃ r rest, io_room env = S (S (S (S r))) ∧ io_answers env = true :: rest.
Proof.
  intros [Hr Ha]. destruct (io_answers env) as [|b rest]; [done|]. injection Ha as ->.
  destruct (io_room env) as [|[|[|[|r]]]]; [lia..|]. eauto.
Qed.

Lemma set_same_queue q s : queue s = Some q → set_queue (Some q) s = s.
Proof. destruct s. cbn. by intros ->. Qed.

Lemma set_same_said s : set_said (said s ++ []) s = s.
Proof. rewrite app_nil_r. by destruct s. Qed.

(** A text without user name, without conversions. *)
Record told (type : C2HMessageType) (f : bytes) (args : list arg) (t : bytes) : Prop := Told {
  told_text : printf f args = Done t;
  told_nul : NUL ∉ t;
  told_len : length t < kBufferSize;
  told_percent : percent ∉ t;
  told_bracket : "["%char ∉ t
}.

Lemma say_run a env type f args t s c q : told type f args t → answering env →
  structs s !! a = Some c → ServerSys.ssl c = true → queue s = Some q →
  say a env type f args s = Done (true, speak a (message_of type [] t) s).
Proof.
  intros [H1 H2 H3 H4 H5] (r & rest & Hr & Ha)%answering_inv Hc Hs Hq. unfold say, load_connected, load_client.
  rewrite Hc. cbn [outcome_bind]. rewrite Hs. cbn [outcome_bind]. unfold with_io, Server_sendMessage.
  erewrite bind_Done by (by apply (build_plain type f args t _ (S (S (S r))))).
  unfold ServerIO.send. cbn [answers]. rewrite Ha. cbn [outcome_bind fst snd ServerIO.messages ServerIO.sent Datatypes.app fmap list_fmap].
  rewrite Hq. cbn [default]. change (queue (set_said _ s)) with (queue s). rewrite Hq.
  rewrite set_same_queue by done. done.
Qed.

(** An announcement "[nick] text". *)
Lemma announce_run env type f args u t s q : printf f args = Done (quoted u t) → is_user_type type →
  plain u → 0 < length u → length u < kMaxNicknameSize → NUL ∉ t → percent ∉ u → percent ∉ t →
  length (quoted u t) < kBufferSize → answering env → queue s = Some q →
  announce env type f args s = Done (true, set_queue (Some (q ++ [message_of type u t])) s).
Proof.
  intros Hf Ht Hu Hp Hl Hn Hpu Hpt Hq (r & rest & Hr & Ha)%answering_inv HQ. unfold announce. rewrite HQ.
  unfold with_io, Server_broadcastMessage.
  erewrite bind_Done by (by apply (build_quoted type f args u t _ (S (S (S r))))).
  unfold ServerIO.CQueue_push. cbn [outcome_bind fst snd ServerIO.messages ServerIO.sent Datatypes.app fmap list_fmap].
  rewrite HQ. cbn [default]. rewrite set_same_said, HQ. done.
Qed.

(** ** Entering the chat, on the server's side *)

Section Join.
Context (regcomp : bytes → Z) (regexec : bytes → bytes → Z) (updates : bool).
Context (t : Z) (a : nat) (nick : bytes) (found : option nat) (r : roster) (q : list C2HMessage).

(** The thread [t] stands at [p]; its client is [c]; [ms] has been told to it
    since the state [s0]. *)
Record joining (s0 : sys) (p : hpc) (c : ServerSys.Client) (ms : list C2HMessage) (s : sys) : Prop := Joining {
  j_thread : threads s !! t = Some (CThread a p);
  j_client : structs s !! a = Some c;
  j_ssl : ServerSys.ssl c = true;
  j_unlocked : locked s = false;
  j_queue : queue s = Some q;
  j_named : Server_getClientInfoForNickname nick s = Done found;
  j_mine : Server_getClientInfoForThread t s = Done (Some a);
  j_said : said s = said s0 ++ ((Some a,.) <$> ms);
  j_log : log s = log s0
}.

Lemma joining_goto s0 p p' c ms s : joining s0 p c ms s → joining s0 p' c ms (goto t p' s).
Proof. intros []. split; try done. cbn. by rewrite lookup_alter_eq, j_thread0. Qed.

Lemma joining_speak s0 p c ms m s : joining s0 p c ms s → joining s0 p c (ms ++ [m]) (speak a m s).
Proof. intros []. split; try done. cbn. by rewrite j_said0, fmap_app, <- app_assoc. Qed.

Lemma search_buffer same b s : (∀ c, same (set_buffer b c) = same c) →
  search same r (store_client a (set_buffer b) s) = search same r s.
Proof.
  intros Hs. unfold search. apply list_find_ext. intros x. cbn.
  destruct (decide (a = x)) as [<-|]; [|by rewrite lookup_alter_ne].
  rewrite lookup_alter_eq. destruct (structs s !! a) as [c|]; cbn; [by rewrite Hs|done].
Qed.

Lemma joining_buffer s0 p c ms b s : clients s = Some r → joining s0 p c ms s →
  joining s0 p (set_buffer b c) ms (store_client a (set_buffer b) s).
Proof.
  intros Hr []. split; try done.
  - cbn. by rewrite lookup_alter_eq, j_client0.
  - rewrite <- j_named0. unfold Server_getClientInfoForNickname, load_roster. cbn [clients store_client set_structs].
    rewrite Hr. cbn [outcome_bind]. by rewrite search_buffer.
  - rewrite <- j_mine0. unfold Server_getClientInfoForThread, load_roster. cbn [clients store_client set_structs].
    rewrite Hr. cbn [outcome_bind]. by rewrite search_buffer.
Qed.

Lemma step_at s0 p c ms s env : joining s0 p c ms s →
  step regcomp regexec updates (LClient t env) s = client_step regcomp regexec updates t a p env s.
Proof. intros []. cbn. by rewrite j_thread0. Qed.

(** The texts. *)
Definition welcome : packet := Packet kMessageTypeOk kMessageTypePrefixOk [] (lit "Welcome to C2hat!").
Definition prompt : packet := Packet kMessageTypeNick kMessageTypePrefixNick [] (lit "Please enter a nickname:").
Definition greeting (nick : bytes) : packet := Packet kMessageTypeOk kMessageTypePrefixOk [] (lit "Hello " ++ nick ++ lit "!").
Definition refusal : packet := Packet kMessageTypeErr kMessageTypePrefixErr [] (lit "Authentication failed").
Definition has_joined (nick : bytes) : C2HMessage := message_of kMessageTypeLog nick (lit "just joined the chat").

(** A step that tells the client something. *)
Lemma say_step s0 p ok failed c ms s env type f args x : joining s0 p c ms s → told type f args x → answering env →
  client_step regcomp regexec updates t a p env s
  = Some (let! x := (let! b := say a env type f args s in Done (if b.1 then ok else failed, b.2)) in Done (goto t x.1 x.2)) →
  ∃ s', step regcomp regexec updates (LClient t env) s = Some (Done s')
    ∧ joining s0 ok c (ms ++ [message_of type [] x]) s' ∧ clients s' = clients s.
Proof.
  intros J Ht He Hp. rewrite (step_at _ _ _ _ _ _ J), Hp. destruct J as [? ? ? ? ? ? ? ? ?].
  erewrite say_run by done. cbn [outcome_bind fst snd]. eexists. split; [reflexivity|]. split; [|done].
  apply joining_goto with p, joining_speak. by split.
Qed.

(** A step that tells nothing and changes nothing else. *)
Lemma jump_step s0 p p' c ms s env : joining s0 p c ms s →
  client_step regcomp regexec updates t a p env s = Some (Done (goto t p' s)) →
  step regcomp regexec updates (LClient t env) s = Some (Done (goto t p' s)) ∧ joining s0 p' c ms (goto t p' s).
Proof. intros J E. rewrite (step_at _ _ _ _ _ _ J), E. split; [done|by eapply joining_goto]. Qed.

(** The answer to the prompt arrives. *)
Definition nickname_arrives (env : io) : Prop :=
  answering env ∧ (∃ failed, io_select env = SelReady true failed) ∧ (0 ≤ io_elapsed env ≤ kAuthenticationTimeout)%Z
  ∧ delivers (credentials nick) (io_reads env).

Lemma wait_step s0 c ms s env : clients s = Some r → joining s0 (HWait kAuthenticationTimeout) c ms s →
  nickname_arrives env → good_packet (credentials nick) → Client_nicknameIsValid regcomp regexec nick = true →
  reusable (buffer c) → length (packet_wire (credentials nick)) + 1 < length (bdata (buffer c)) →
  ∃ b s', step regcomp regexec updates (LClient t env) s = Some (Done s')
    ∧ joining s0 (HLookup nick) (set_buffer b c) ms s' ∧ clients s' = Some r.
Proof.
  intros Hr J (Ha & (fl & Hsel) & Hel & again & rest & Hreads) G Hv Hb Hlen. rewrite (step_at _ _ _ _ _ _ J).
  apply answering_inv in Ha as (k & rest' & Hroom & _).
  unfold client_step, select_allowed, auth_wait, load_connected, load_client. rewrite Hsel.
  rewrite (proj2 (Z.leb_le _ _)), (proj2 (Z.leb_le _ _)) by lia. cbn [andb].
  rewrite (j_client _ _ _ _ _ J). cbn [outcome_bind]. rewrite (j_ssl _ _ _ _ _ J). cbn [outcome_bind].
  set (d := packet_wire (credentials nick) ++ [NUL]) in *.
  assert (Hd : length d = length (packet_wire (credentials nick)) + 1) by (unfold d; rewrite length_app; done).
  unfold Server_receive. rewrite Hreads, receive_data by (done || lia). cbn [outcome_bind fst snd].
  rewrite (proj2 (Z.ltb_lt _ _)) by lia.
  destruct (get_packet (credentials nick) (length (bdata (buffer c)) - length d) (S (S k)) G) as (b' & Hg & _ & _); [lia|].
  cbn zeta in Hg. assert (E : d ++ replicate (length (bdata (buffer c)) - length d) NUL
    = packet_wire (credentials nick) ++ NUL :: replicate (length (bdata (buffer c)) - length d) NUL)
    by (unfold d; by rewrite <- app_assoc).
  rewrite E, Hroom, Hg. cbn [outcome_bind fst snd]. rewrite decide_True by done.
  pose proof (good_nul _ _ _ _ (proj1 G)) as Hn. pose proof (good_len _ _ _ _ (proj1 G)) as Hl. cbn [ptext credentials] in Hn, Hl.
  cbn [content packet_message message_of ptext credentials]. rewrite array_text by done. cbn [outcome_bind]. rewrite Hv.
  cbn [outcome_bind fst snd]. set (b1 := MkBuffer _ (Some 0)). exists b'. eexists. split; [reflexivity|].
  split; [|done]. eapply joining_goto.
  pose proof (joining_buffer s0 _ c ms b1 s Hr J) as J1.
  exact (joining_buffer s0 _ _ ms b' (store_client a (set_buffer b1) s) Hr J1).
Qed.

Definition after_lookup (found : option nat) : hpc := match found with Some _ => HDenied | None => HSelf nick end.

Lemma lookup_step s0 c ms s env : joining s0 (HLookup nick) c ms s →
  ∃ s', step regcomp regexec updates (LClient t env) s = Some (Done s')
    ∧ joining s0 (after_lookup found) c ms s' ∧ clients s' = clients s.
Proof.
  intros J. destruct (jump_step s0 _ (after_lookup found) c ms s env J) as [E J'].
  - cbn [client_step]. rewrite (j_unlocked _ _ _ _ _ J), (j_named _ _ _ _ _ J). cbn [outcome_bind fst snd]. by destruct found.
  - eexists. split; [exact E|]. by split.
Qed.

Lemma own_step s0 c ms s env : joining s0 (HSelf nick) c ms s →
  ∃ s', step regcomp regexec updates (LClient t env) s = Some (Done s')
    ∧ joining s0 (HSetNick nick) c ms s' ∧ clients s' = clients s.
Proof.
  intros J. destruct (jump_step s0 _ (HSetNick nick) c ms s env J) as [E J'].
  - cbn [client_step]. rewrite (j_unlocked _ _ _ _ _ J), (j_mine _ _ _ _ _ J). cbn [outcome_bind fst snd].
    by rewrite decide_True.
  - eexists. split; [exact E|]. by split.
Qed.

(** From here on the user has its name: the state without what is only needed
    to get it. *)
Record inside (s0 : sys) (p : hpc) (c : ServerSys.Client) (ms : list C2HMessage) (s : sys) : Prop := Inside {
  i_thread : threads s !! t = Some (CThread a p);
  i_client : structs s !! a = Some c;
  i_ssl : ServerSys.ssl c = true;
  i_queue : queue s = Some q;
  i_said : said s = said s0 ++ ((Some a,.) <$> ms)
}.

Lemma name_step s0 c ms s env : joining s0 (HSetNick nick) c ms s → length nick < kMaxNicknameSize →
  ∃ s', step regcomp regexec updates (LClient t env) s = Some (Done s') ∧ inside s0 HHello (set_nickname nick c) ms s'.
Proof.
  intros J Hl. rewrite (step_at _ _ _ _ _ _ J). unfold client_step, load_client. rewrite (j_client _ _ _ _ _ J).
  cbn [outcome_bind fst snd]. eexists. split; [reflexivity|]. destruct J. split; try done; cbn.
  - by rewrite lookup_alter_eq, j_thread0.
  - rewrite lookup_alter_eq, j_client0. cbn. by rewrite take_ge by (unfold kMaxNicknameSize in *; lia).
Qed.

Lemma hello_step s0 c ms s env : inside s0 HHello (set_nickname nick c) ms s → answering env → plain nick → percent ∉ nick →
  length nick < kMaxNicknameSize →
  ∃ s', step regcomp regexec updates (LClient t env) s = Some (Done s')
    ∧ inside s0 HJoined (set_nickname nick c) (ms ++ [packet_message (greeting nick)]) s'.
Proof.
  intros [J1 J2 J3 J4 J5] He Hp Hc Hl. cbn. rewrite J1. unfold client_step, load_client. rewrite J2. cbn [outcome_bind].
  assert (T : told kMessageTypeOk (lit "Hello %s!") [AStr nick] (lit "Hello " ++ nick ++ lit "!")).
  { destruct Hp as (P1 & P2 & _). split; [reflexivity|..]; rewrite ?not_elem_of_app.
    - split_and!; (done || not_in).
    - rewrite !length_app. unfold kMaxNicknameSize, kBufferSize in *. cbn. lia.
    - split_and!; (done || not_in).
    - split_and!; (done || not_in). }
  cbn [ServerSys.nickname set_nickname].
  erewrite say_run by done. cbn [outcome_bind fst snd]. eexists. split; [reflexivity|]. split; try done; cbn.
  - by rewrite lookup_alter_eq, J1.
  - by rewrite J5, fmap_app, <- app_assoc.
Qed.

Lemma joined_step s0 c ms s env : inside s0 HJoined (set_nickname nick c) ms s → answering env → plain nick → percent ∉ nick →
  0 < length nick → length nick < kMaxNicknameSize →
  ∃ s', step regcomp regexec updates (LClient t env) s = Some (Done s')
    ∧ threads s' !! t = Some (CThread a (HChat kChatTimeout 0)) ∧ structs s' !! a = Some (set_nickname nick c)
    ∧ queue s' = Some (q ++ [has_joined nick]) ∧ said s' = said s0 ++ ((Some a,.) <$> ms).
Proof.
  intros [J1 J2 J3 J4 J5] He Hp Hc Hpos Hl. cbn. rewrite J1. unfold client_step, load_client. rewrite J2. cbn [outcome_bind].
  cbn [ServerSys.nickname set_nickname].
  rewrite (announce_run _ _ _ _ nick (lit "just joined the chat") s q); try done;
    [|by right|not_in|not_in|unfold quoted; rewrite !length_app; unfold kMaxNicknameSize, kBufferSize in *; cbn; lia].
  cbn [outcome_bind fst snd]. eexists. split; [reflexivity|]. cbn. by rewrite lookup_alter_eq, J1.
Qed.
End Join.

(** ** Entering the chat, on both sides *)

(** The client: it waits for the welcome, then authenticates; the messages of
    the server are the welcome, the prompt and the answer to the nickname, each
    read at once. *)
Definition client_enters (net : network) (username : bytes) (writes : list Z) (m1 m2 m3 : C2HMessage)
    : cmd C2HatClient bool :=
  let reads m := [ReadData (on_the_wire m)] in
  ok <- await_welcome (Network (n_getaddrinfo net) (n_getnameinfo net) (n_address net) (n_socket net) (n_connect net)
          (n_ssl_new net) (n_set_host net) (n_handshakes net) (n_certificate net) Readable (reads m1) (n_log net));;
  if (ok : bool) then Client_authenticate username (reads m2) writes (reads m3) else ret false.

(** A connection that can receive, with memory for the messages. *)
Definition can_talk (c : C2HatClient) : Prop :=
  SOCKET_isValid (server c) = true ∧ reusable (cbuffer c) ∧ 1024 < length (bdata (cbuffer c)) ∧ 8 ≤ ClientLib.room c.

Lemma one_record k : good_packet k → delivers k [ReadData (on_the_wire (packet_message k))].
Proof. intros G. exists 0, []. by rewrite on_the_wire_packet. Qed.

Lemma client_side k1 k2 k3 net nick writes c :
  good_packet k1 → good_packet k2 → good_packet k3 → ptype k1 = kMessageTypeOk → ptype k2 = kMessageTypeNick →
  length (packet_wire k1) < 1024 → length (packet_wire k2) < 1024 → length (packet_wire k3) < 1024 →
  can_talk c → n_log net = true → NUL ∉ nick → 2 ≤ length nick → good_packet (credentials nick) →
  full_writes writes (length (packet_wire (credentials nick)) + 1) →
  ∃ c', client_enters net (nick ++ [NUL]) writes (packet_message k1) (packet_message k2) (packet_message k3) c
      = Done (bool_decide (ptype k3 = kMessageTypeOk), c')
    ∧ ClientLib.sent c' = ClientLib.sent c ++ packet_wire (credentials nick) ++ [NUL]
    ∧ ClientLib.ssl c' = (if decide (ptype k3 = kMessageTypeOk) then ClientLib.ssl c else false).
Proof.
  intros G1 G2 G3 T1 T2 L1 L2 L3 (Hv & Hb & Hlen & Hroom) Hlog Hn Hl G Hw.
  destruct (receive_get k1 _ c (ClientLib.room c - 2) G1 (one_record k1 G1) Hb) as (n1 & c1 & b1 & R1 & N1 & M1 & E1 & B1); [lia..|].
  unfold client_enters.
  set (c2 := set_cbuffer b1 (ClientLib.set_room (ClientLib.room c - 2) c)) in *.
  erewrite (bind_Done _ _ _ true c2).
  2: { unfold await_welcome. rewrite bind_get, Hv. cbn [negb n_select n_reads]. run R1.
       rewrite (proj2 (Z.ltb_ge _ _)) by lia. run M1. change (mtype (packet_message k1)) with (ptype k1).
       rewrite T1, decide_False by (intros E; by apply E). cbn [n_log]. by rewrite Hlog. }
  destruct (authentication_dialogue c2 k2 k3 (nick ++ [NUL]) nick _ _ writes (ClientLib.room c - 7)
    (cstr_app nick [] Hn) Hl G G2 T2 G3 (one_record k2 G2) (one_record k3 G3) Hw B1)
    as (c' & A1 & A2 & A3 & _); [cbn; lia..|]. exists c'. by split_and!.
Qed.

Lemma packet_length k : length (puser k) + length (ptext k) < 900 → command_prefix (ptype k) = Some (pprefix k) →
  length (packet_wire k) < 1024.
Proof.
  intros H Hp. assert (length (pprefix k) ≤ 5) by (destruct (ptype k); cbn in Hp; try done; injection Hp as <-; cbn; lia).
  unfold packet_wire, wire, body. repeat case_decide; rewrite ?length_app; cbn [length lit String.list_ascii_of_string]; lia.
Qed.

(** What [Server_authenticate] takes as a nickname, with the limits under
    which the server's texts are not taken for formats. *)
Record nickname_ok (nick : bytes) : Prop := NicknameOk {
  nk_plain : plain nick;
  nk_percent : percent ∉ nick;
  nk_min : 2 ≤ length nick;
  nk_max : length nick < kMaxNicknameSize;
  nk_packet : good_packet (credentials nick)
}.

Lemma greeting_good nick : nickname_ok nick → good_packet (greeting nick).
Proof.
  intros [(P1 & P2 & P3) Hp Hmin Hmax _]. split.
  - split; cbn [ptype pprefix puser ptext greeting]; try done.
    + split_and!; not_in.
    + unfold kMaxNicknameSize. cbn. lia.
    + rewrite !not_elem_of_app. split_and!; (done || not_in).
    + rewrite !length_app. unfold kMaxNicknameSize, kBufferSize in *. cbn. lia.
    + by intros _ [].
    + intros x _ [= <-]. not_in.
    + intros x. rewrite !last_app. intros [= <-]. not_in.
  - transitivity 1024; [|unfold kBufferSize; lia]. apply packet_length; [|done].
    cbn [puser ptext greeting]. rewrite !length_app. unfold kMaxNicknameSize in *. cbn. lia.
Qed.

Lemma credentials_length nick : length nick < kMaxNicknameSize → length (packet_wire (credentials nick)) < 1023.
Proof.
  intros H. unfold packet_wire, wire, body. cbn [pprefix puser ptext credentials]. rewrite (decide_False (P:=0 < length [])) by (cbn; lia).
  unfold kMaxNicknameSize in H. case_decide; rewrite ?length_app; cbn; lia.
Qed.

Lemma fixed_good : good_packet welcome ∧ good_packet prompt ∧ good_packet refusal.
Proof. split_and!; (split; [good_concrete|apply Nat.ltb_lt; vm_compute; reflexivity]). Qed.

Lemma run_cons regcomp regexec u l ls s s' : step regcomp regexec u l s = Some (Done s') →
  run regcomp regexec u (l :: ls) s = run regcomp regexec u ls s'.
Proof. intros H. cbn [run]. by rewrite H. Qed.

Lemma credentials_wire nick : nickname_ok nick → packet_wire (credentials nick) = lit "/nick " ++ nick.
Proof.
  intros N. unfold packet_wire, wire, body. cbn [pprefix puser ptext credentials].
  rewrite (decide_False (P:=0 < length [])) by (cbn; lia). pose proof (nk_min _ N).
  by rewrite decide_True by lia.
Qed.

Section Opening.
Context (regcomp : bytes → Z) (regexec : bytes → bytes → Z) (updates : bool).
Implicit Types (s : sys) (c : ServerSys.Client) (cl : C2HatClient).

(** The state in which the thread [t] of a new client starts: the client at
    [a] is in the list, and [found] says who has the nickname already. *)
Definition arriving (t : Z) (a : nat) (nick : bytes) (found : option nat) (q : list C2HMessage) c s : Prop :=
  joining t a nick found q s HStart c [] s ∧ is_Some (clients s) ∧ threadID c = t
  ∧ reusable (buffer c) ∧ 1024 < length (bdata (buffer c)).

Definition answer (found : option nat) (nick : bytes) : packet :=
  match found with Some _ => refusal | None => greeting nick end.

(** The server's half. *)
Lemma server_side t a nick found q c s e1 e2 e3 e4 e5 (es : list io) :
  arriving t a nick found q c s → nickname_ok nick → Client_nicknameIsValid regcomp regexec nick = true →
  answering e2 → answering e3 → nickname_arrives nick e4 →
  length es = match found with Some _ => 1 | None => 4 end → Forall answering es →
  ∃ s' p, run regcomp regexec updates (LClient t <$> e1 :: e2 :: e3 :: e4 :: e5 :: es) s = Some (Done s')
    ∧ said s' = said s ++ ((Some a,.) <$> (packet_message <$> [welcome; prompt; answer found nick]))
    ∧ threads s' !! t = Some (CThread a p)
    ∧ match found with
      | Some _ => p = HDrop HHello ∧ queue s' = Some q
      | None => p = HChat kChatTimeout 0 ∧ queue s' = Some (q ++ [has_joined nick])
                ∧ ServerSys.nickname <$> structs s' !! a = Some nick
      end.
Proof.
  intros (J0 & [r Hr] & Hid & Hb & Hlen) N Hv A2 A3 W Hes He. cbn [fmap list_fmap].
  assert (T1 : told kMessageTypeOk (lit "Welcome to C2hat!") [] (ptext welcome)) by (split; (reflexivity || not_in || (unfold kBufferSize; cbn; lia))).
  assert (T2 : told kMessageTypeNick (lit "Please enter a nickname:") [] (ptext prompt)) by (split; (reflexivity || not_in || (unfold kBufferSize; cbn; lia))).
  assert (T3 : told kMessageTypeErr (lit "Authentication failed") [] (ptext refusal)) by (split; (reflexivity || not_in || (unfold kBufferSize; cbn; lia))).
  destruct (jump_step regcomp regexec updates t a nick found q s _ HWelcome c [] s e1 J0) as [E1 J1].
  { unfold client_step, load_client. rewrite (j_client _ _ _ _ _ _ _ _ _ _ J0). cbn. by rewrite Hid, Z.eqb_refl. }
  rewrite (run_cons _ _ _ _ _ _ _ E1).
  destruct (say_step regcomp regexec updates t a nick found q s _ HPrompt (HDrop HPrompt) c [] _ e2 _ _ _ _ J1 T1 A2 eq_refl)
    as (s2 & E2 & J2 & C2). rewrite (run_cons _ _ _ _ _ _ _ E2).
  destruct (say_step regcomp regexec updates t a nick found q s _ (HWait kAuthenticationTimeout) HDenied c _ _ e3 _ _ _ _ J2 T2 A3 eq_refl)
    as (s3 & E3 & J3 & C3). rewrite (run_cons _ _ _ _ _ _ _ E3).
  assert (Hw : length (packet_wire (credentials nick)) + 1 < length (bdata (buffer c))).
  { pose proof (credentials_length nick (nk_max _ N)). lia. }
  assert (Hr3 : clients s3 = Some r) by (rewrite C3, C2; exact Hr).
  destruct (wait_step regcomp regexec updates t a nick found r q s c _ s3 e4 Hr3 J3 W (nk_packet _ N) Hv Hb Hw)
    as (b & s4 & E4 & J4 & C4).
  rewrite (run_cons _ _ _ _ _ _ _ E4).
  destruct (lookup_step regcomp regexec updates t a nick found q s _ _ s4 e5 J4) as (s5 & E5 & J5 & C5).
  rewrite (run_cons _ _ _ _ _ _ _ E5). destruct found as [b'|]; cbn [after_lookup] in J5.
  - destruct es as [|e6 [|]]; try done. apply Forall_cons in He as [A6 _].
    destruct J5 as [K1 K2 K3 K4 K5 K6 K7 K8 K9]. cbn [fmap list_fmap run step]. rewrite K1. cbn [client_step].
    rewrite (say_run a e6 _ _ _ _ s5 _ q T3 A6 K2 K3 K5). cbn [outcome_bind fst snd]. eexists _, _. split; [reflexivity|].
    cbn. rewrite lookup_alter_eq, K1. split_and!; try done. rewrite K8. by rewrite <- !app_assoc.
  - destruct es as [|e6 [|e7 [|e8 [|e9 [|]]]]]; try done.
    inversion He as [|? ? A6 He1]; subst. inversion He1 as [|? ? A7 He2]; subst. inversion He2 as [|? ? A8 He3]; subst.
    inversion He3 as [|? ? A9 _]; subst. cbn [fmap list_fmap].
    destruct (own_step regcomp regexec updates (threadID c) a nick None q s _ _ s5 e6 J5) as (s6 & E6 & J6 & C6).
    rewrite (run_cons _ _ _ _ _ _ _ E6).
    destruct (name_step regcomp regexec updates (threadID c) a nick None q s _ _ s6 e7 J6) as (s7 & E7 & J7); [apply N|].
    rewrite (run_cons _ _ _ _ _ _ _ E7).
    destruct (hello_step regcomp regexec updates (threadID c) a nick q s _ _ s7 e8 J7) as (s8 & E8 & J8); [done|apply N..|].
    rewrite (run_cons _ _ _ _ _ _ _ E8).
    destruct (joined_step regcomp regexec updates (threadID c) a nick q s _ _ s8 e9 J8) as (s9 & E9 & F1 & F2 & F3 & F4);
      [done|apply N|apply N|pose proof (nk_min _ N); lia|apply N|].
    rewrite (run_cons _ _ _ _ _ _ _ E9). eexists s9, _. split; [reflexivity|]. split_and!; [done|exact F1|done|done|by rewrite F2].
Qed.
End Opening.

(** C6. Opening a session, over both sides.  The thread of a new client on
    the server and the client exchange exactly these messages: the server says
    "Welcome to C2hat!" and "Please enter a nickname:", the client sends the
    nickname, the server answers, with "Hello" and the nickname or with
    "Authentication failed", and says nothing else.  When the library accepts
    the nickname and nobody in the list has it, the client reports success and
    keeps its connection, the server has stored the nickname, is in its chat
    loop, and announces the user to all; when somebody has it, the client
    reports failure and has closed its connection, and the server drops the
    client without an announcement. *)
Theorem session_opens (regcomp : bytes → Z) (regexec : bytes → bytes → Z) (updates : bool)
    (t : Z) (a : nat) (nick : bytes) (found : option nat) (q : list C2HMessage) (c : ServerSys.Client) (s : sys)
    (e1 e2 e3 e4 e5 : io) (es : list io) (net : network) (writes : list Z) (cl : C2HatClient)
    (Harr : arriving t a nick found q c s) (Hnick : nickname_ok nick)
    (Hvalid : Client_nicknameIsValid regcomp regexec nick = true)
    (H2 : answering e2) (H3 : answering e3) (H4 : nickname_arrives nick e4) (Hes : Forall answering es)
    (Hlen : length es = match found with Some _ => 1 | None => 4 end)
    (Hcl : can_talk cl) (Hnet : n_log net = true)
    (Hw : full_writes writes (length (packet_wire (credentials nick)) + 1)) :
  let welcome := message_of kMessageTypeOk [] (lit "Welcome to C2hat!") in
  let prompt := message_of kMessageTypeNick [] (lit "Please enter a nickname:") in
  let answer := match found with
                | None => message_of kMessageTypeOk [] (lit "Hello " ++ nick ++ lit "!")
                | Some _ => message_of kMessageTypeErr [] (lit "Authentication failed")
                end in
  ∃ s' p cl',
    run regcomp regexec updates (LClient t <$> e1 :: e2 :: e3 :: e4 :: e5 :: es) s = Some (Done s')
    ∧ said s' = said s ++ [(Some a, welcome); (Some a, prompt); (Some a, answer)]
    ∧ threads s' !! t = Some (CThread a p)
    ∧ client_enters net (nick ++ [NUL]) writes welcome prompt answer cl = Done (bool_decide (found = None), cl')
    ∧ ClientLib.sent cl' = ClientLib.sent cl ++ lit "/nick " ++ nick ++ [NUL]
    ∧ match found with
      | None => p = HChat kChatTimeout 0 ∧ ServerSys.nickname <$> structs s' !! a = Some nick
                ∧ queue s' = Some (q ++ [message_of kMessageTypeLog nick (lit "just joined the chat")])
                ∧ ClientLib.ssl cl' = ClientLib.ssl cl
      | Some _ => p = HDrop HHello ∧ queue s' = Some q ∧ ClientLib.ssl cl' = false
      end.
Proof.
  destruct (server_side regcomp regexec updates t a nick found q c s e1 e2 e3 e4 e5 es Harr Hnick Hvalid H2 H3 H4 Hlen Hes)
    as (s' & p & E & Hs & Ht & Hend).
  destruct fixed_good as (G1 & G2 & G3). destruct (greeting_good nick Hnick) as [Gm Gl].
  assert (G : good_packet (answer found nick)) by (destruct found; [exact G3|by split]).
  assert (L : length (packet_wire (answer found nick)) < 1024).
  { destruct found; (apply packet_length; [|reflexivity]); [apply Nat.ltb_lt; vm_compute; reflexivity|].
    pose proof (nk_max _ Hnick). cbn [answer puser ptext greeting]. rewrite !length_app.
    unfold kMaxNicknameSize in *. cbn. lia. }
  assert (L1 : length (packet_wire welcome) < 1024) by (apply Nat.ltb_lt; vm_compute; reflexivity).
  assert (L2 : length (packet_wire prompt) < 1024) by (apply Nat.ltb_lt; vm_compute; reflexivity).
  destruct (client_side welcome prompt (answer found nick) net nick writes cl G1 G2 G eq_refl eq_refl L1 L2 L Hcl Hnet
    (proj1 (nk_plain _ Hnick)) (nk_min _ Hnick) (nk_packet _ Hnick) Hw) as (cl' & E' & Hsent & Hssl).
  assert (Ec : packet_wire (credentials nick) ++ [NUL] = lit "/nick " ++ nick ++ [NUL]).
  { rewrite credentials_wire by apply Hnick. by rewrite <- app_assoc. }
  rewrite Ec in Hsent. exists s', p, cl'.
  split_and!; [exact E|by rewrite Hs; destruct found|exact Ht| |exact Hsent|]; destruct found; cbn in E', Hssl |- *; try exact E'.
  - by destruct Hend.
  - destruct Hend as (? & ? & ?). done.
Qed.

(** A server that has just accepted a second client, while "ann" is in. *)
Definition one_in : list label := startup ++ accept 5 101 ++ login 101 (lit "ann") ++ accept 6 102.

Definition replies : io := arrives (lit "/nick bob" ++ [NUL]).

Definition new_connection : C2HatClient := MkClient (Some 0) 5 false true None (blank_buffer 2048) [] 0 [] 10.

Definition reachable_network : network :=
  Network true true (lit "127.0.0.1") 5 true true true [Connected] true Readable [] true.

Lemma blank_reusable n : 0 < n → reusable (blank_buffer n).
Proof.
  intros H. exists NUL. unfold blank_buffer. cbn [bdata]. rewrite length_replicate.
  split; [apply lookup_replicate; split; [done|lia]|by left].
Qed.

Lemma session_opens_witness :
  ∃ s' cl', run any_regcomp length_regexec true
      (LClient 102 <$> [well; well; well; replies; well; well; well; well; well]) (end_of one_in 5) = Some (Done s')
    ∧ threads s' !! 102%Z = Some (CThread 1 (HChat kChatTimeout 0))
    ∧ said s' = said (end_of one_in 5) ++ [(Some 1, message_of kMessageTypeOk [] (lit "Welcome to C2hat!"));
        (Some 1, message_of kMessageTypeNick [] (lit "Please enter a nickname:")); (Some 1, message_of kMessageTypeOk [] (lit "Hello bob!"))]
    ∧ client_enters reachable_network (lit "bob" ++ [NUL]) [10]%Z (message_of kMessageTypeOk [] (lit "Welcome to C2hat!"))
        (message_of kMessageTypeNick [] (lit "Please enter a nickname:")) (message_of kMessageTypeOk [] (lit "Hello bob!")) new_connection
      = Done (true, cl').
Proof.
  destruct (session_opens any_regcomp length_regexec true 102 1 (lit "bob") None [has_joined (lit "ann")] (set_threadID 102 (new_client 6)) (end_of one_in 5)
    well well well replies well [well; well; well; well] reachable_network [10]%Z new_connection)
    as (s' & p & cl' & E & Hs & Ht & Ec & _ & -> & _);
    [..|exists s', cl'; split; [exact E|split; [exact Ht|split; [exact Hs|exact Ec]]]].
  - split_and!; [split; vm_compute; reflexivity|eexists; vm_compute; reflexivity|reflexivity|apply blank_reusable; unfold kMessageBufferSize; lia|].
    cbn [buffer new_client set_threadID blank_buffer bdata]. rewrite length_replicate. apply Nat.ltb_lt. vm_compute. reflexivity.
  - split; [split_and!; not_in|not_in|cbn; lia|unfold kMaxNicknameSize; cbn; lia|].
    split; [good_concrete|apply Nat.ltb_lt; vm_compute; reflexivity].
  - vm_compute. reflexivity.
  - split; [apply Nat.leb_le; reflexivity|reflexivity].
  - split; [apply Nat.leb_le; reflexivity|reflexivity].
  - split; [split; [apply Nat.leb_le; reflexivity|reflexivity]|]. split; [by exists false|].
    split; [unfold kAuthenticationTimeout; cbn; lia|]. exists 0, []. vm_compute. reflexivity.
  - repeat (apply Forall_cons; split; [split; [apply Nat.leb_le; reflexivity|reflexivity]|]). by constructor.
  - reflexivity.
  - split_and!; [reflexivity|apply blank_reusable; lia| |cbn; lia]. cbn [cbuffer new_connection blank_buffer bdata].
    rewrite length_replicate. apply Nat.ltb_lt. vm_compute. reflexivity.
  - reflexivity.
  - replace (length (packet_wire _) + 1) with 10 by (vm_compute; reflexivity). cbn. lia.
Defined.

(** ** A line of the chat *)

(** The message the server makes of a line. *)
Definition broadcast_packet (nick text : bytes) : packet := Packet kMessageTypeMsg kMessageTypePrefixMsg nick text.

(** A text that can be typed, sent, and broadcast with the name of its
    author. *)
Record chat_text (nick text : bytes) : Prop := ChatText {
  ct_typed : good_packet (typed_packet text);
  ct_broadcast : good_packet (broadcast_packet nick text);
  ct_percent : percent ∉ text;
  ct_some : text ≠ []
}.

Lemma quoted_length nick text : 0 < length nick → good_packet (broadcast_packet nick text) →
  length (quoted nick text) < kBufferSize.
Proof.
  intros Hp [_ H]. unfold packet_wire, wire, body in H. cbn [pprefix puser ptext broadcast_packet] in H.
  rewrite (decide_True (P:=0 < length nick)) in H by done. change (lit "[" ++ nick ++ lit "] " ++ text) with (quoted nick text) in H.
  destruct (decide (0 < length (quoted nick text))); rewrite ?length_app in H; lia.
Qed.

Section Line.
Context (regcomp : bytes → Z) (regexec : bytes → bytes → Z) (updates : bool).

(** The thread [t] is in the chat loop for the client [c] at [a]. *)
Record chatting (t : Z) (a : nat) (nick : bytes) (time waited : Z) (c : ServerSys.Client) (s : sys) : Prop := Chatting {
  ch_thread : threads s !! t = Some (CThread a (HChat time waited));
  ch_client : structs s !! a = Some c;
  ch_ssl : ServerSys.ssl c = true;
  ch_nick : ServerSys.nickname c = nick;
  ch_socket : SOCKET_isValid (socket c) = true;
  ch_buffer : reusable (buffer c);
  ch_running : ServerSys.terminate s = false
}.

(** The bytes [data] arrive at the thread in one read. *)
Definition data_arrives (time : Z) (data : bytes) (env : io) : Prop :=
  answering env ∧ (∃ failed, io_select env = SelReady true failed) ∧ (0 ≤ io_elapsed env ≤ time)%Z
  ∧ ∃ again rest, io_reads env = replicate again ReadAgain ++ ReadData data :: rest.

(** The data of one message arrive: what is left is the loop over the
    messages, on a buffer with this one. *)
Lemma data_step t a nick time waited c s q text env :
  chatting t a nick time waited c s → queue s = Some q → good_packet (typed_packet text) →
  length (packet_wire (typed_packet text)) + 1 < length (bdata (buffer c)) →
  data_arrives time (packet_wire (typed_packet text) ++ [NUL]) env →
  ∃ b b' k rest time' waited', io_answers env = true :: rest
    ∧ C2HMessage_get b (S (S (S (S k)))) = Done ((Some (packet_message (typed_packet text)), b'), S (S k))
    ∧ step regcomp regexec updates (LClient t env) s = Some (
        let! r := (let! h := handle_messages (S (length (bdata b))) nick b (Srv (S (S (S (S k)))) q [] (io_answers env)) in
                   Done (if h.1.1 then HLeave else HChat time' waited',
                         store_client a (set_buffer h.1.2) (set_queue (Some (ServerIO.messages h.2))
                           (set_said (said s ++ ((Some a,.) <$> ServerIO.sent h.2)) (store_client a (set_buffer b) s))))) in
        Done (goto t r.1 r.2)).
Proof.
  intros [C1 C2 C3 C4 C5 C6 C7] Hq T1 Hlen (Ha & (fl & Hsel) & Hel & again & rest & Hreads).
  apply answering_inv in Ha as (k & rest' & Hroom & Hans).
  set (d := packet_wire (typed_packet text) ++ [NUL]) in *.
  assert (Hd : length d = length (packet_wire (typed_packet text)) + 1) by (unfold d; rewrite length_app; done).
  destruct (get_packet (typed_packet text) (length (bdata (buffer c)) - length d) (S (S k)) T1) as (b' & Hg & _ & _); [lia|].
  cbn zeta in Hg. assert (E : d ++ replicate (length (bdata (buffer c)) - length d) NUL
    = packet_wire (typed_packet text) ++ NUL :: replicate (length (bdata (buffer c)) - length d) NUL)
    by (unfold d; by rewrite <- app_assoc).
  set (b := MkBuffer _ (Some 0)) in Hg.
  exists b, b', k, rest', (remaining updates time (io_elapsed env)), (waited + io_elapsed env)%Z.
  split; [done|]. split; [exact Hg|]. cbn [step]. rewrite C1. unfold client_step. rewrite C7.
  unfold select_allowed. rewrite Hsel. rewrite (proj2 (Z.leb_le _ _)), (proj2 (Z.leb_le _ _)) by lia. cbn [andb].
  unfold chat_turn. rewrite Hsel. unfold load_connected, load_client. rewrite C2. cbn [outcome_bind]. rewrite C3.
  cbn [outcome_bind]. unfold Server_receive. rewrite Hreads, receive_data by (done || lia). cbn [outcome_bind fst snd].
  rewrite (proj2 (Z.leb_gt _ _)) by lia. change (queue (store_client a _ s)) with (queue s). rewrite Hq, E. fold b.
  unfold with_io. change (queue (store_client a _ s)) with (queue s). rewrite Hq. cbn [default]. change (id q) with q.
  rewrite C4, Hroom. destruct (handle_messages _ _ _ _) as [h|]; [|done]. cbn [outcome_bind fst snd].
  rewrite C5. change (queue (set_said _ _)) with (queue s). by rewrite Hq.
Qed.

(** A line arrives: its author is told that it was taken, and the message with
    its name is queued. *)
Lemma line_step t a nick time waited c s q text env :
  chatting t a nick time waited c s → queue s = Some q → nickname_ok nick → chat_text nick text →
  length (packet_wire (typed_packet text)) + 1 < length (bdata (buffer c)) →
  data_arrives time (packet_wire (typed_packet text) ++ [NUL]) env →
  ∃ time' waited' b b', step regcomp regexec updates (LClient t env) s
    = Some (Done (goto t (HChat time' waited') (store_client a (set_buffer b') (set_queue (Some (q ++ [packet_message (broadcast_packet nick text)]))
        (set_said (said s ++ [(Some a, message_of kMessageTypeOk [] [])]) (store_client a (set_buffer b) s)))))).
Proof.
  intros C Hq [N1 N2 N3 N4 N5] [T1 T2 T3 T4] Hlen He.
  destruct (data_step t a nick time waited c s q text env C Hq T1 Hlen He) as (b & b' & k & rest & time' & waited' & Ha & Hg & ->).
  pose proof (good_nul _ _ _ _ (proj1 T1)) as Hn. pose proof (good_len _ _ _ _ (proj1 T1)) as Hl. cbn [ptext typed_packet] in Hn, Hl.
  pose proof (handle_first_msg (length (bdata b)) nick b b' text (Srv (S (S (S (S k)))) q [] (io_answers env)) (S (S k)) k true rest
    Hg Hn T4 Hl eq_refl Ha eq_refl N1 ltac:(lia) N4 N2 T3 (quoted_length nick text ltac:(lia) T2)) as Hh.
  rewrite Hh. by eexists _, _, b, b'.
Qed.

(** Where the queued message goes. *)
Lemma line_delivered max l s s1 r q m a c : reachable regcomp regexec updates max s →
  step regcomp regexec updates l s = Some (Done s1) → clients s = Some r → clients s1 = Some r → structs s !! a = Some c →
  queue s1 = Some (q ++ [m]) → popped s1 = popped s →
  let K := length (popped s ++ q) in
  ∀ s', calm regcomp regexec updates s1 s' → pass_over K s' →
    received_once K m (λ b, b ∈ members r ∧ present s b) s'.
Proof.
  intros R E Hr Hr1 Ha Hq Hp K s' Hc Ho. pose proof (reachable_step _ _ _ _ _ _ _ R E) as R1.
  pose proof (inv_owned _ (reachable_inv _ _ _ _ _ R)) as I. rewrite Hr in I.
  pose proof (inv_owned _ (reachable_inv _ _ _ _ _ R1)) as I1. rewrite Hr1 in I1.
  destruct (delivered regcomp regexec updates max K m s1 s' r R1) as (r' & D & D1 & D2 & D3 & D4 & D5 & D6); try done.
  - assert (Hin : a ∈ members r) by (apply I; by exists c). intros E0. rewrite E0 in Hin. by apply not_elem_of_nil in Hin.
  - unfold history. rewrite Hq, Hp. cbn [default]. change (id (q ++ [m])) with (q ++ [m]). rewrite app_assoc.
    by apply list_lookup_middle.
  - rewrite Hp. unfold K. rewrite length_app. lia.
  - exists r', D. split_and!; try done. intros x [Hx Px]. apply D6. split; [done|].
    eapply (present_step regcomp regexec updates max l s); [done..|]. by apply I1.
Qed.
End Line.

(** The receiving client: what it reads is logged. *)
Section Receiver.
Context {L T : Type} `{ClientStores.Sequence L} `{ClientStores.Table T}.
Context (rand : nat → Z) (image : ChatLog.ChatLogEntry → bytes) (entry : bytes → ChatLog.ChatLogEntry).
Context (Hrand : ∀ n, (0 ≤ rand n)%Z) (Hentry : ∀ e, entry (image e) = e).

Lemma line_logged cl N (win : ChatLog.chatwin L T) es names clock nick text :
  ready N 1 cl → length (packet_wire (broadcast_packet nick text)) + 1 ≤ N → good_clock clock →
  0 < length nick → good_packet (broadcast_packet nick text) → text ≠ [] → chat_ok image 2 100 win es names →
  ∃ s', run_app rand image entry [Receive; Push; Pop clock]
      (App cl [[ReadData (on_the_wire (packet_message (broadcast_packet nick text)))]] [] [] win false) = Some (Done s')
    ∧ ClientStores.seq_holds 0 (ChatLog.chatlog (ui s'))
        (log_of image (lastn 100 (es ++ [CLine clock kMessageTypeMsg text nick]))).
Proof.
  intros R Hlen Hc Hpos G Hne C. rewrite on_the_wire_packet by done.
  assert (Hs : stream [broadcast_packet nick text] = packet_wire (broadcast_packet nick text) ++ [NUL])
    by (cbn [stream flat_map]; by rewrite app_nil_r).
  destruct (listen_turn N 0 [broadcast_packet nick text] [ReadData (packet_wire (broadcast_packet nick text) ++ [NUL])] cl)
    as (cl' & Ht & _); [|done|].
  { split; [by constructor|]. split; [done|]. split; [rewrite Hs, length_app; cbn; lia|].
    exists 0, []. by rewrite Hs. }
  destruct (UILogMessage_run rand image entry Hrand Hentry clock (packet_message (broadcast_packet nick text))
    0 0 (App cl' [] [] [] win false) es names Hc) as (quit & w & names' & Hu & C'); [by apply packet_terminated|done|].
  cbn [run_app app_step pending arrivals terminate AppLib.terminate]. cbn [client]. rewrite Ht.
  cbn [outcome_bind fst snd fmap list_fmap messages pending ui Datatypes.app].
  cbn [ui] in Hu. rewrite Hu. cbn [outcome_bind fst snd]. eexists. split; [reflexivity|]. cbn [ui].
  pose proof (good_nul _ _ _ _ (proj1 G)) as Hn. pose proof (good_len _ _ _ _ (proj1 G)) as Hl.
  pose proof (good_user _ _ _ _ (proj1 G)) as (Hun & _). pose proof (good_user_len _ _ _ _ (proj1 G)) as Hul.
  cbn [ptext puser broadcast_packet] in Hn, Hl, Hun, Hul.
  assert (E : accepted (logged clock (packet_message (broadcast_packet nick text))) = [CLine clock kMessageTypeMsg text nick]).
  { unfold logged. rewrite decide_False by done. cbn [accepted mtype packet_message message_of broadcast_packet content user ptype ptext puser].
    unfold ctext. rewrite !array_text by done. rewrite decide_False by (intros [|]; done). done. }
  rewrite E in C'. apply C'.
Qed.
End Receiver.

Lemma buffer_connected a b s x : connected s x → connected (store_client a (set_buffer b) s) x.
Proof.
  intros (c & Hc & Hs & Hk). unfold connected. cbn. destruct (decide (a = x)) as [->|].
  - rewrite lookup_alter_eq, Hc. by exists (set_buffer b c).
  - rewrite lookup_alter_ne by done. by exists c.
Qed.

(** A line of the chat, from the keyboard of its author to the screens of
    all.  When it is typed, the author's client sends some bytes; when the
    server's thread for the author reads them, the author is told that the
    message was taken and it is queued with the author's name, behind [q].
    Whatever runs then, as long as no send fails and no user leaves, once the
    broadcast thread is done with it every user of the list got it once, and
    so does nobody but users; a broadcast thread that is left alone does come
    to that; and the client of each of them that reads what it was sent adds
    exactly this line, the text of the author under its name, to the end of
    its chat log. *)
Theorem line_reaches_everyone {L T : Type} `{ClientStores.Sequence L} `{ClientStores.Table T}
    (rand : nat → Z) (image : ChatLog.ChatLogEntry → bytes) (entry : bytes → ChatLog.ChatLogEntry)
    (Hrand : ∀ n, (0 ≤ rand n)%Z) (Hentry : ∀ e, entry (image e) = e)
    (wcrtomb : Z → bytes) (regcomp : bytes → Z) (regexec : bytes → bytes → Z) (updates : bool) (max : Z)
    (i : input) (nick text : bytes) (cl : C2HatClient)
    (t : Z) (a : nat) (time waited : Z) (c : ServerSys.Client) (s : sys) (r : roster) (q : list C2HMessage)
    (Htyped : chat_line wcrtomb i text) (Hroom : 3 ≤ ClientLib.room cl)
    (Hreach : reachable regcomp regexec updates max s)
    (Hch : chatting t a nick time waited c s) (Hnick : nickname_ok nick) (Htext : chat_text nick text)
    (Hbuf : length (packet_wire (typed_packet text)) + 1 < length (bdata (buffer c)))
    (Hq : queue s = Some q) (Hr : clients s = Some r) :
  let m := packet_message (broadcast_packet nick text) in
  let K := length (popped s ++ q) in
  ∃ cl' data, input_loop wcrtomb [i; Terminate] cl = Done (tt, cl') ∧ ClientLib.sent cl' = ClientLib.sent cl ++ data
  ∧ (∀ env, data_arrives time data env →
     ∃ s1, step regcomp regexec updates (LClient t env) s = Some (Done s1)
       ∧ said s1 = said s ++ [(Some a, message_of kMessageTypeOk [] [])] ∧ queue s1 = Some (q ++ [m])
       ∧ (∀ s', calm regcomp regexec updates s1 s' → pass_over K s' →
            received_once K m (λ b, b ∈ members r ∧ present s b) s')
       ∧ (lively s r → ∃ j s', run regcomp regexec updates (pump j) s1 = Some (Done s')
            ∧ calm regcomp regexec updates s1 s' ∧ pass_over K s'))
  ∧ (∀ other N (win : ChatLog.chatwin L T) es names clock,
     ready N 1 other → length (on_the_wire m) ≤ N → good_clock clock → chat_ok image 2 100 win es names →
     ∃ s', run_app rand image entry [Receive; Push; Pop clock] (App other [[ReadData (on_the_wire m)]] [] [] win false)
         = Some (Done s')
       ∧ ClientStores.seq_holds 0 (ChatLog.chatlog (ui s'))
           (log_of image (lastn 100 (es ++ [CLine clock kMessageTypeMsg text nick])))).
Proof.
  cbn zeta. pose proof (ct_some _ _ Htext) as Hsome. pose proof (ct_broadcast _ _ Htext) as G.
  destruct (input_loop_lines wcrtomb [i] [text] Terminate [] cl) as (rm & Hrun); [by constructor|by left|cbn; lia|].
  eexists _, (packet_wire (typed_packet text) ++ [NUL]). split; [exact Hrun|].
  assert (Hf : filter (λ x : bytes, x ≠ []) [text] = [text]) by (rewrite filter_cons_True by done; done).
  split; [|split].
  - cbn [ClientLib.sent set_room set_sent]. unfold typed_packets. rewrite Hf. cbn. by rewrite app_nil_r.
  - intros env He. destruct (line_step regcomp regexec updates t a nick time waited c s q text env Hch Hq Hnick Htext Hbuf He)
      as (time' & waited' & b & b' & E). eexists. split; [exact E|].
    lazymatch type of E with _ = Some (Done ?x) => set (s1 := x) in * end. split; [done|]. split; [done|].
    pose proof (reachable_step _ _ _ _ _ _ _ Hreach E) as R1. split.
    + apply (line_delivered regcomp regexec updates max (LClient t env) s s1 r q _ a c); try done. by apply Hch.
    + intros Hlive. apply (delivery_ends regcomp regexec updates _ s1 r); [|unfold history; cbn; rewrite !length_app; cbn; lia].
      destruct Hlive. split; try done. intros x Hx. do 2 apply buffer_connected. by auto.
  - intros other N win es names clock R HN Hc C. rewrite on_the_wire_packet, length_app in HN by done. cbn in HN.
    apply (line_logged rand image entry Hrand Hentry other N win es names clock nick text); try done.
    pose proof (nk_min _ Hnick). lia.
Qed.

(** Two users in the chat, "bob" at 0 and "ann" at 1, and nothing to send. *)
Definition quiet_room : sys := end_of (two_users ++ pump 25) 5.
Definition bob_client : ServerSys.Client := default (new_client 0) (structs quiet_room !! 0).
Definition bob_types : input := Typed (AppSample.wide " hi all " ++ [10; 0])%Z [4; 8]%Z.

Lemma bob_chats : chatting 101 0 (lit "bob") 180 0 bob_client quiet_room.
Proof.
  split; try (vm_compute; reflexivity). exists NUL. split; [vm_compute; reflexivity|by left].
Qed.

Lemma bob_types_line : chat_line AppSample.ascii_wcrtomb bob_types (lit "hi all").
Proof.
  eexists _, _. split; [reflexivity|]. split.
  - exists (AppSample.wide " hi all " ++ [10])%Z, []. split; [reflexivity|]. split; [not_in|vm_compute; reflexivity].
  - intros _. split; [split; [good_concrete|apply Nat.ltb_lt; vm_compute; reflexivity]|]. split; [discriminate|].
    replace (length (packet_wire _) + 1) with 12 by (vm_compute; reflexivity). cbn. lia.
Qed.

Lemma bob_ok : nickname_ok (lit "bob").
Proof.
  split; [split_and!; not_in|not_in|cbn; lia|unfold kMaxNicknameSize; cbn; lia|].
  split; [good_concrete|apply Nat.ltb_lt; vm_compute; reflexivity].
Qed.

Lemma quiet_reachable : reachable any_regcomp length_regexec true 5 quiet_room.
Proof. apply runs_reachable. vm_compute. reflexivity. Qed.

Lemma quiet_lively : lively quiet_room (Roster [0; 1] (Some 2)).
Proof.
  split; [vm_compute; reflexivity|discriminate|by eexists|vm_compute; reflexivity|vm_compute; reflexivity| | |].
  - intros b Hb. cbn [members] in Hb. repeat (apply elem_of_cons in Hb as [->|Hb];
      [eexists; split; [vm_compute; reflexivity|split; reflexivity]|]).
    by apply not_elem_of_nil in Hb.
  - eexists. vm_compute. reflexivity.
  - vm_compute. exact I.
Qed.

Lemma quiet_present b : b ∈ [0; 1] → present quiet_room b.
Proof.
  intros Hb. repeat (apply elem_of_cons in Hb as [->|Hb];
    [eexists; split; [vm_compute; reflexivity|split; [discriminate|reflexivity]]|]).
  by apply not_elem_of_nil in Hb.
Qed.

(** ** A line with a percent sign *)

(** The loop over the messages of a client, on a text that is no format. *)
Lemma handle_percent fuel nick b b' s r1 r2 x rest ok :
  let c := x ++ percent :: rest in
  C2HMessage_get b (ServerIO.room s) = Done ((Some (message_of kMessageTypeMsg [] c), b'), r1) →
  NUL ∉ c → length c < kBufferSize → r1 = S (S r2) → ServerIO.answers s = true :: ok →
  plain nick → percent ∉ nick → percent ∉ x → head rest ≠ Some percent → length (quoted nick c) < kBufferSize →
  handle_messages (S fuel) nick b s = Stuck BadFormat.
Proof.
  cbn zeta. set (c := x ++ percent :: rest). intros Hg Hn Hl -> Ha Hu Hpn Hpx Hd Hq. cbn [handle_messages].
  erewrite bind_Done by (unfold on_room; rewrite Hg; reflexivity). cbn [fst snd mtype message_of content].
  rewrite decide_False, decide_True by done. unfold lift at 1. rewrite array_text by done.
  erewrite bind_Done by done. rewrite decide_True by (unfold c; rewrite length_app; cbn; lia).
  unfold Server_sendMessage. rewrite bind_bind.
  erewrite bind_Done by (apply (build_plain kMessageTypeOk [] [] [] _ (S r2)); try done;
    [apply not_elem_of_nil|unfold kBufferSize; cbn; lia|apply not_elem_of_nil|apply not_elem_of_nil]).
  cbn [ServerIO.messages ServerIO.sent ServerIO.answers]. unfold ServerIO.send at 1.
  erewrite bind_Done by (cbn; rewrite Ha; reflexivity). cbn [negb]. apply bind_Stuck.
  apply Server_broadcastMessage_format_fault; try done.
  fold c. unfold quoted. clearbody c. destruct Hu as (Hu & _). rewrite !not_elem_of_app.
  split; [not_in|split; [done|split; [not_in|done]]].
Qed.

(** C40. Any user can end the server with one line.  A line with a percent
    sign that is not doubled, such as "100% sure", is typed and sent like any
    other; the server's thread that reads it uses the text as a format, which
    is undefined behaviour. *)
Theorem percent_line_faults (wcrtomb : Z → bytes) (regcomp : bytes → Z) (regexec : bytes → bytes → Z) (updates : bool)
    (i : input) (nick x rest : bytes) (cl : C2HatClient)
    (t : Z) (a : nat) (time waited : Z) (c : ServerSys.Client) (s : sys) (q : list C2HMessage) :
  let text := x ++ percent :: rest in
  chat_line wcrtomb i text → 3 ≤ ClientLib.room cl →
  chatting t a nick time waited c s → queue s = Some q → nickname_ok nick →
  good_packet (typed_packet text) → length (quoted nick text) < kBufferSize →
  length (packet_wire (typed_packet text)) + 1 < length (bdata (buffer c)) →
  percent ∉ x → head rest ≠ Some percent →
  ∃ cl' data, input_loop wcrtomb [i; Terminate] cl = Done (tt, cl') ∧ ClientLib.sent cl' = ClientLib.sent cl ++ data
  ∧ ∀ env, data_arrives time data env → step regcomp regexec updates (LClient t env) s = Some (Stuck BadFormat).
Proof.
  cbn zeta. set (text := x ++ percent :: rest). intros Htyped Hroom C Hq [N1 N2 N3 N4 N5] T1 Hql Hlen Hx Hrest.
  assert (Hsome : text ≠ []) by (unfold text; by destruct x).
  destruct (input_loop_lines wcrtomb [i] [text] Terminate [] cl) as (rm & Hrun); [by constructor|by left|cbn; lia|].
  eexists _, (packet_wire (typed_packet text) ++ [NUL]). split; [exact Hrun|]. split.
  { cbn [ClientLib.sent set_room set_sent]. unfold typed_packets. rewrite filter_cons_True by done. cbn. by rewrite app_nil_r. }
  intros env He.
  destruct (data_step regcomp regexec updates t a nick time waited c s q text env C Hq T1 Hlen He)
    as (b & b' & k & rest' & time' & waited' & Ha & Hg & ->).
  pose proof (good_nul _ _ _ _ (proj1 T1)) as Hn. pose proof (good_len _ _ _ _ (proj1 T1)) as Hl. cbn [ptext typed_packet] in Hn, Hl.
  pose proof (handle_percent (length (bdata b)) nick b b' (Srv (S (S (S (S k)))) q [] (io_answers env)) (S (S k)) k x rest rest'
    Hg Hn Hl eq_refl Ha N1 N2 Hx Hrest Hql) as Hh.
  by rewrite Hh.
Qed.

Lemma percent_line_faults_witness :
  ∃ data, ∀ env, data_arrives 180 data env →
    step any_regcomp length_regexec true (LClient 101 env) quiet_room = Some (Stuck BadFormat).
Proof.
  destruct (percent_line_faults AppSample.ascii_wcrtomb any_regcomp length_regexec true
    (Typed (AppSample.wide "100% sure" ++ [0])%Z [15]%Z) (lit "bob") (lit "100") (lit " sure")
    AppSample.connection 101 0 180 0 bob_client quiet_room []) as (cl' & data & _ & _ & Hf).
  - eexists _, _. split; [reflexivity|]. split.
    + exists (AppSample.wide "100% sure"), []. split; [reflexivity|]. split; [not_in|vm_compute; reflexivity].
    + intros _. split; [split; [good_concrete|apply Nat.ltb_lt; vm_compute; reflexivity]|]. split; [discriminate|].
      replace (length (packet_wire _) + 1) with 15 by (vm_compute; reflexivity). cbn. lia.
  - cbn. lia.
  - exact bob_chats.
  - vm_compute. reflexivity.
  - exact bob_ok.
  - split; [good_concrete|apply Nat.ltb_lt; vm_compute; reflexivity].
  - apply Nat.ltb_lt. vm_compute. reflexivity.
  - apply Nat.ltb_lt. vm_compute. reflexivity.
  - not_in.
  - discriminate.
  - exists data. exact Hf.
Defined.
