(* ===== verification/UiLoop.v ===== *)
(** * The input loop of the client (src/client/ui.c, uiterm.c)

    [UIInputLoop] hands the keys to the input window and to the chat window
    and calls the application back when messages are waiting.  The status bar
    is in StatusBar.v, starting and ending in AppStart.v; the calls of the loop
    that only write to the bar or place the cursor have no effect here. *)

From S2P Require Import Prelude.
From S2P Require Import CStr.
From S2P Require Import MessageLib.
From S2P Require Import ClientStores.
From S2P Require Import ChatLog.
From S2P Require Import InputWindow.
From S2P Require Import AppLib.

(** ** The terminal *)

Record UIScreen : Type := MkScreen { opened : bool; slines : Z; scols : Z }.

Definition kMinTerminalLines : Z := 22.
Definition kMinTerminalCols : Z := 80.
Definition kWideTerminalCols : Z := 94.
Definition kMaxMessageLength : Z := 281.

Definition UIGetInputLines (screen : UIScreen) : Z := if (scols screen <? kWideTerminalCols)%Z then 4 else 3.

Definition UIScreen_isBigEnough (screen : UIScreen) (maxMessageLength : Z) : bool :=
  opened screen && (kMinTerminalLines <? slines screen)%Z && (kMinTerminalCols <? scols screen)%Z
  && (maxMessageLength <=? (scols screen - 1) * UIGetInputLines screen)%Z.

(** The heights of the two windows in [UIRender]. *)
Definition inputWinBoxHeight (screen : UIScreen) : Z := if (scols screen <? kWideTerminalCols)%Z then 6 else 5.
Definition chatWinBoxHeight (screen : UIScreen) : Z := slines screen - (inputWinBoxHeight screen + 1).

(** The input window [UIInputWin_render] makes in its box: lines and columns. *)
Definition input_size (screen : UIScreen) : Z * Z := (inputWinBoxHeight screen - 2, scols screen - 2)%Z.

(** ** Keys *)

(** The codes of ncurses for the keys that are no characters. *)
Record keypad : Type := Keypad {
  KEY_BACKSPACE : Z;
  KEY_F1 : Z;
  KEY_RESIZE : Z;
  KEY_PPAGE : Z;
  KEY_NPAGE : Z;
  key_left : Z;
  key_right : Z;
  key_up : Z;
  key_down : Z
}.

Definition kKeyEnter : Z := 10.
Definition kKeyBackspace : Z := 8.
Definition kKeyESC : Z := 27.
Definition kKeyDel : Z := 127.
Definition kKeyEOT : Z := 4.

(** What the cases of the switch do. *)
Inductive key_case : Type :=
  | CDelete
  | CEnter
  | CEscape
  | CArrow (a : arrow)
  | CPageUp
  | CPageDown
  | CChar.

Definition key_case_of (K : keypad) (ch : Z) : key_case :=
  if decide (ch = kKeyBackspace ∨ ch = kKeyDel ∨ ch = KEY_BACKSPACE K) then CDelete
  else if decide (ch = kKeyEnter ∨ ch = kKeyEOT) then CEnter
  else if decide (ch = kKeyESC) then CEscape
  else if decide (ch = key_left K) then CArrow KEY_LEFT
  else if decide (ch = key_right K) then CArrow KEY_RIGHT
  else if decide (ch = key_up K) then CArrow KEY_UP
  else if decide (ch = key_down K) then CArrow KEY_DOWN
  else if decide (ch = KEY_PPAGE K) then CPageUp
  else if decide (ch = KEY_NPAGE K) then CPageDown
  else CChar.

(** ** State *)

Record ui (L T W : Type) : Type := Ui {
  scr : UIScreen;
  chat : chatwin L T;
  inp : UIInputWin W;
  f_terminate : bool;
  f_update : bool;
  f_resize : bool
}.
Arguments Ui {L T W}.
Arguments scr {L T W}.
Arguments chat {L T W}.
Arguments inp {L T W}.
Arguments f_terminate {L T W}.
Arguments f_update {L T W}.
Arguments f_resize {L T W}.

(** What [wget_wch] gives: a character or key, or an error, with [errno] equal
    to [EINTR] or not. *)
Inductive wget : Type :=
  | Got (ch : Z)
  | Interrupted_read
  | Failed_read.

(** A turn of the loop: the signals that arrive while it waits, what it reads,
    the messages waiting for [updateHandler] (with the time each is logged
    at), and the terminal and the new window if it is drawn again. *)
Record turn (W : Type) : Type := Turn {
  sig_terminate : bool;
  sig_update : bool;
  sig_resize : bool;
  got : wget;
  waiting_messages : list (bytes * C2HMessage);
  new_screen : UIScreen;
  new_window : W
}.
Arguments Turn {W}.
Arguments sig_terminate {W}.
Arguments sig_update {W}.
Arguments sig_resize {W}.
Arguments got {W}.
Arguments waiting_messages {W}.
Arguments new_screen {W}.
Arguments new_window {W}.

Definition kUITerminate : Z := 0.

Section Loop.
Context {L T W : Type} `{Sequence L} `{Table T} `{Window W}.
Context (rand : nat → Z) (image : ChatLogEntry → bytes) (entry : bytes → ChatLogEntry).
Context (iswcntrl : Z → bool) (wcwidth : Z → Z) (K : keypad).

Definition with_chat (c : chatwin L T) (s : ui L T W) : ui L T W := Ui (scr s) c (inp s) (f_terminate s) (f_update s) (f_resize s).
Definition with_inp (i : UIInputWin W) (s : ui L T W) : ui L T W := Ui (scr s) (chat s) i (f_terminate s) (f_update s) (f_resize s).
Definition with_scr (r : UIScreen) (s : ui L T W) : ui L T W := Ui r (chat s) (inp s) (f_terminate s) (f_update s) (f_resize s).
Definition with_flags (t u r : bool) (s : ui L T W) : ui L T W := Ui (scr s) (chat s) (inp s) t u r.

Definition on_chat {A} (m : cmd (chatwin L T) A) : cmd (ui L T W) A :=
  λ s, match m (chat s) with Done (a, c) => Done (a, with_chat c s) | Stuck w => Stuck w end.
Definition on_inp {A} (m : cmd (UIInputWin W) A) : cmd (ui L T W) A :=
  λ s, match m (inp s) with Done (a, i) => Done (a, with_inp i s) | Stuck w => Stuck w end.

(** [UITerminate], [UIUpdateChatLog], [UIResize], as the signals call them. *)
Definition raise (t u r : bool) : cmd (ui L T W) unit :=
  modify (λ s, with_flags (f_terminate s || t) (f_update s || u) (f_resize s || r) s).

(** [UIRender(true)] *)
Definition UIRender (screen : UIScreen) (w : W) : cmd (ui L T W) unit :=
  modify (with_scr screen);;;
  if UIScreen_isBigEnough screen kMaxMessageLength then
    on_chat (UIChatWin_render rand entry (chatWinBoxHeight screen) (scols screen));;;
    on_inp (UIInputWin_render w);;;
    on_inp UIInputWin_reset
  else ret tt.

(** [App_updateHandler] on the messages that are in the queue. *)
Fixpoint updateHandler (ms : list (bytes * C2HMessage)) : cmd (ui L T W) unit :=
  match ms with
  | [] => ret tt
  | (clock, m) :: ms =>
    ended <- on_chat (UILogMessage rand image clock m);;
    raise ended false false;;;
    updateHandler ms
  end.

(** The switch; the result when the loop returns. *)
Definition press (ch : Z) : cmd (ui L T W) (option Z) :=
  s <- get;;
  match key_case_of K ch with
  | CDelete => on_inp UIInputWin_delete;;; ret None
  | CEnter => n <- on_inp UIInputWin_commit;; ret (if (0 <? n)%Z then Some n else None)
  | CEscape =>
    (if decide (UIChatWin_getMode (chat s) = kChatWinModeBrowse)
     then on_chat (UIChatWin_setMode rand entry kChatWinModeLive) else on_inp UIInputWin_reset);;; ret None
  | CArrow a => on_inp (UIInputWin_moveCursor a);;; ret None
  | CPageUp =>
    on_chat (if decide (UIChatWin_getMode (chat s) = kChatWinModeBrowse)
             then UIChatWin_previousPage rand entry
             else UIChatWin_setMode rand entry kChatWinModeBrowse);;; ret None
  | CPageDown =>
    (if decide (UIChatWin_getMode (chat s) = kChatWinModeBrowse)
     then on_chat (UIChatWin_nextPage rand entry) else ret tt);;; ret None
  | CChar => on_inp (UIInputWin_addChar iswcntrl wcwidth ch);;; ret None
  end.

(** After the loop. *)
Definition leave : cmd (ui L T W) (option Z) :=
  modify (λ s, with_inp (with_buffer ((λ b, replicate (length b) 0%Z) <$> buffer (inp s)) (inp s)) s);;;
  ret (Some kUITerminate).

Definition handle_wch (t : turn W) (ch : Z) : cmd (ui L T W) (option Z) :=
  if decide (ch = KEY_F1 K) then leave
  else if decide (ch = KEY_RESIZE K) then UIRender (new_screen t) (new_window t);;; ret None
  else press ch.

(** The body of the loop. *)
Definition loop_turn (t : turn W) : cmd (ui L T W) (option Z) :=
  raise (sig_terminate t) (sig_update t) (sig_resize t);;;
  s <- get;;
  match got t with
  | Got ch => handle_wch t ch
  | error =>
    if f_terminate s then leave
    else if f_update s then
      modify (λ s, with_flags (f_terminate s) false (f_resize s) s);;;
      (if UIScreen_isBigEnough (scr s) kMaxMessageLength then updateHandler (waiting_messages t) else ret tt);;;
      ret None
    else if f_resize s then
      modify (λ s, with_flags (f_terminate s) (f_update s) false s);;;
      handle_wch t (KEY_RESIZE K)
    else match error with Interrupted_read => ret None | _ => ret (Some (-1)%Z) end
  end.

Fixpoint loop (ts : list (turn W)) : cmd (ui L T W) Z :=
  s <- get;;
  if f_terminate s then leave;;; ret kUITerminate else
  match ts with
  | [] => stuck OutOfFuel
  | t :: ts =>
    r <- loop_turn t;;
    match r with Some n => ret n | None => loop ts end
  end.

Definition UIInputLoop (b : list Z) (ts : list (turn W)) : cmd (ui L T W) Z :=
  on_inp (UIInputWin_init (replicate (length b) 0%Z));;;
  loop ts.
End Loop.
