(* ===== verification/Layout.v ===== *)
(** * The windows on the screen (src/client/ui.c, uiterm.c, uichat.c,
    uiinput.c, uistatus.c)

    Where [UIRender] puts the windows, the title and the text for a terminal
    that is too small.  [derwin] is a parameter, with what the library
    documents of it: a part of a window that is inside it.  A chat window that
    exists is moved to the same place and resized to the same size, so its
    areas are those of a new one. *)

From S2P Require Import Prelude.
From S2P Require Import CStr.
From S2P Require Import ChatLog.
From S2P Require Import MessageLib.
From S2P Require Import UiLoop.

(** First line and column on the screen, and size. *)
Record area : Type := Area { a_y : Z; a_x : Z; a_lines : Z; a_cols : Z }.

(** What is printed in a window: line, column and text; the corners of the
    title are single characters. *)
Definition print : Type := Z * Z * bytes.

Definition screen_area (screen : UIScreen) : area := Area 0 0 (slines screen) (scols screen).

Section Layout.
Context (derwin : area → Z → Z → Z → Z → option area).

(** The box and the window in it. *)
Definition UIChatWin_boxes (screen : UIScreen) (height : Z) : option (area * area) :=
  wrapper ← derwin (screen_area screen) height (scols screen) 0 0;
  this ← derwin wrapper (a_lines wrapper - 1) (a_cols wrapper - 2) 1 1;
  Some (wrapper, this).

Definition UIInputWin_boxes (screen : UIScreen) (height start : Z) : option (area * area) :=
  wrapper ← derwin (screen_area screen) height (scols screen) start 0;
  this ← derwin wrapper (a_lines wrapper - 2) (a_cols wrapper - 2) 1 1;
  Some (wrapper, this).

Definition UIStatusBar_box (screen : UIScreen) : option area :=
  derwin (screen_area screen) 1 (scols screen) (slines screen - 1) 0.

Record layout : Type := MkLayout { chat_box : area; chat_lines : area; input_box : area; input_lines : area; status_box : area }.

(** [UIRender] on a screen that is big enough. *)
Definition UIRender_layout (screen : UIScreen) : option layout :=
  let inputWinBoxStart := (slines screen - (inputWinBoxHeight screen + 1))%Z in
  '(cb, cl) ← UIChatWin_boxes screen inputWinBoxStart;
  '(ib, il) ← UIInputWin_boxes screen (inputWinBoxHeight screen) inputWinBoxStart;
  sb ← UIStatusBar_box screen;
  Some (MkLayout cb cl ib il sb).
End Layout.

(** The columns are computed in [size_t] and given as [int]. *)
Definition column (z : Z) : Z := wrap_int (to_size z).

(** The title, between its two corners. *)
Definition title_prints (screen : UIScreen) (title : bytes) : list print :=
  let half := Z.quot (scols screen) 2 in
  let titleLength := Z.of_nat (length title) in
  [(0, column (half - titleLength / 2 - 1), lit "+"); (0, column (half - titleLength / 2), title);
   (0, column (half + titleLength / 2 + 1), lit "+")]%Z.

Definition kChatTitle : bytes := lit " C2Hat ".

Definition UIRender_terminalTooSmall (screen : UIScreen) : list print :=
  let message := lit "Sorry, your terminal is too small!" in
  let half := Z.quot (scols screen) 2 in
  [(Z.quot (slines screen) 2, column (half - Z.of_nat (length message) / 2), message);
   (Z.quot (slines screen) 2 + 1, half - 3, MessageLib.decimal (slines screen) ++ lit "x" ++ MessageLib.decimal (scols screen))]%Z.

Lemma column_in z : (INT_MIN ≤ z ≤ INT_MAX)%Z → column z = z.
Proof.
  unfold column, to_size, wrap_int, SIZE_MOD, INT_MIN, INT_MAX. intros Hz. Z.to_euclidean_division_equations. lia.
Qed.

(** A box over the whole width, from a line to before another. *)
Definition spans (screen : UIScreen) (a : area) (from to : Z) : Prop :=
  a_y a = from ∧ (a_y a + a_lines a)%Z = to ∧ (from < to)%Z ∧ a_x a = 0%Z ∧ a_cols a = scols screen.

(** A window inside a box, below its first line and between its borders. *)
Definition framed (box inner : area) : Prop :=
  (a_y inner = a_y box + 1 ∧ a_y inner + a_lines inner ≤ a_y box + a_lines box ∧ 0 < a_lines inner
   ∧ a_x inner = a_x box + 1 ∧ a_x inner + a_cols inner = a_x box + a_cols box - 1)%Z.

(** C37. On a terminal that is accepted the windows fit: the chat, the input
    and the status bar cover its lines without a gap and without an overlap,
    over the whole width; the two inner windows are inside their frames and
    have the sizes that the chat log and the line editor reckon with; and the
    title stands in the upper border, between its corners. *)
Theorem layout_tiles (derwin : area → Z → Z → Z → Z → option area)
    (Hderwin : ∀ p h w y x, (0 ≤ y)%Z → (0 ≤ x)%Z → (0 < h)%Z → (0 < w)%Z → (y + h ≤ a_lines p)%Z → (x + w ≤ a_cols p)%Z →
       derwin p h w y x = Some (Area (a_y p + y) (a_x p + x) h w))
    (screen : UIScreen) (Hbig : UIScreen_isBigEnough screen kMaxMessageLength = true) (Hcols : (scols screen ≤ INT_MAX)%Z) :
  let h := chatWinBoxHeight screen in
  ∃ l, UIRender_layout derwin screen = Some l
    ∧ spans screen (chat_box l) 0 h ∧ spans screen (input_box l) h (slines screen - 1)
    ∧ spans screen (status_box l) (slines screen - 1) (slines screen)
    ∧ framed (chat_box l) (chat_lines l) ∧ a_lines (chat_lines l) = (h - 1)%Z
    ∧ framed (input_box l) (input_lines l) ∧ (a_lines (input_lines l), a_cols (input_lines l)) = input_size screen
    ∧ ∃ x, title_prints screen kChatTitle = [(0, x, lit "+"); (0, x + 1, kChatTitle); (0, x + 1 + Z.of_nat (length kChatTitle), lit "+")]%Z
        ∧ (0 ≤ x)%Z ∧ (x + 2 + Z.of_nat (length kChatTitle) ≤ scols screen)%Z.
Proof.
  unfold UIScreen_isBigEnough, kMinTerminalLines, kMinTerminalCols in Hbig.
  apply andb_true_iff in Hbig as [[[_ Hl%Z.ltb_lt]%andb_true_iff Hc%Z.ltb_lt]%andb_true_iff _]. intros h.
  assert (Hi : inputWinBoxHeight screen = 6%Z ∨ inputWinBoxHeight screen = 5%Z)
    by (unfold inputWinBoxHeight; destruct (_ <? _)%Z; [by left|by right]).
  assert (Hh : h = (slines screen - (inputWinBoxHeight screen + 1))%Z) by done.
  unfold UIRender_layout, UIChatWin_boxes, UIInputWin_boxes, UIStatusBar_box. cbv zeta. rewrite <- Hh.
  rewrite (Hderwin (screen_area screen) h) by (cbn; lia). cbn [mbind option_bind a_lines a_cols a_y a_x screen_area].
  rewrite (Hderwin (Area _ _ h _)) by (cbn; lia). cbn [mbind option_bind].
  rewrite (Hderwin (screen_area screen) (inputWinBoxHeight screen)) by (cbn; lia). cbn [mbind option_bind a_lines a_cols a_y a_x screen_area].
  rewrite (Hderwin (Area _ _ (inputWinBoxHeight screen) _)) by (cbn; lia). cbn [mbind option_bind].
  rewrite (Hderwin (screen_area screen) 1%Z) by (cbn; lia). cbn [mbind option_bind].
  eexists. split; [reflexivity|]. unfold spans, framed, input_size. cbn [chat_box chat_lines input_box input_lines status_box a_lines a_cols a_y a_x screen_area].
  assert (Hx : (0 ≤ Z.quot (scols screen) 2 - 4)%Z ∧ (Z.quot (scols screen) 2 + 5 ≤ scols screen)%Z)
    by (Z.to_euclidean_division_equations; lia).
  do 6 (split; [split_and?; lia|]). split; [done|].
  exists (Z.quot (scols screen) 2 - 4)%Z. change (length kChatTitle) with 7. split; [|lia].
  unfold title_prints. cbv zeta. change (length kChatTitle) with 7. change (Z.of_nat 7 / 2)%Z with 3%Z.
  rewrite !column_in by (unfold INT_MIN; lia). generalize (Z.quot (scols screen) 2). intros half.
  replace (half - 3 - 1)%Z with (half - 4)%Z by lia. replace (half - 3)%Z with (half - 4 + 1)%Z by lia.
  by replace (half + 3 + 1)%Z with (half - 4 + 1 + Z.of_nat 7)%Z by lia.
Qed.

(** The text for a terminal that is too small is in the middle of a line that
    can hold it; with fewer columns it starts at a negative one, and is not
    printed at all. *)
Lemma too_small_text screen : (0 ≤ scols screen ≤ INT_MAX)%Z →
  ∃ y x t rest, UIRender_terminalTooSmall screen = (y, x, t) :: rest ∧ length t = 34
    ∧ ((34 ≤ scols screen)%Z → (0 ≤ x)%Z ∧ (x + 34 ≤ scols screen)%Z ∧ (-1 ≤ scols screen - (x + 34) - x ≤ 1)%Z)
    ∧ ((scols screen < 34)%Z → (x < 0)%Z).
Proof.
  intros Hc. eexists _, _, _, _. split; [reflexivity|]. split; [vm_compute; reflexivity|].
  change (Z.of_nat (length (lit "Sorry, your terminal is too small!")) / 2)%Z with 17%Z.
  rewrite column_in by (unfold INT_MIN, INT_MAX in *; Z.to_euclidean_division_equations; lia).
  split; intros; split_and?; Z.to_euclidean_division_equations; lia.
Qed.

(** [derwin] for windows that are inside. *)
Definition sample_derwin (p : area) (h w y x : Z) : option area :=
  if (0 <=? y)%Z && (0 <=? x)%Z && (0 <? h)%Z && (0 <? w)%Z && (y + h <=? a_lines p)%Z && (x + w <=? a_cols p)%Z
  then Some (Area (a_y p + y) (a_x p + x) h w) else None.

Lemma layout_tiles_witness :
  UIRender_layout sample_derwin (MkScreen true 24 100)
    = Some (MkLayout (Area 0 0 18 100) (Area 1 1 17 98) (Area 18 0 5 100) (Area 19 1 3 98) (Area 23 0 1 100))
  ∧ ∃ l, UIRender_layout sample_derwin (MkScreen true 24 100) = Some l ∧ spans (MkScreen true 24 100) (chat_box l) 0 18.
Proof.
  split; [reflexivity|].
  destruct (layout_tiles sample_derwin) with (screen := MkScreen true 24 100) as (l & E & S & _).
  - intros p h w y x Hy Hx Hh Hw H1 H2. unfold sample_derwin.
    rewrite (proj2 (Z.leb_le 0 y)), (proj2 (Z.leb_le 0 x)), (proj2 (Z.ltb_lt 0 h)), (proj2 (Z.ltb_lt 0 w)),
      (proj2 (Z.leb_le _ _)), (proj2 (Z.leb_le _ _)) by done. done.
  - reflexivity.
  - cbn. unfold INT_MAX. lia.
  - exists l. split; [exact E|exact S].
Defined.
