(* ===== verification/UiSpec.v ===== *)
(** * Properties of the input loop

    The loop is the composition of the line editor of the input window and of
    the chat log, which do not disturb each other; the sizes of the terminal
    for which the input window holds a whole message. *)

From S2P Require Import Prelude.
From S2P Require Import CStr.
From S2P Require Import TrimLib.
From S2P Require Import MessageLib.
From S2P Require Import MessageSpec.
From S2P Require Import ClientStores.
From S2P Require Import ChatLog.
From S2P Require Import ChatSpec.
From S2P Require Import InputWindow.
From S2P Require Import InputSpec.
From S2P Require Import InputLines.
From S2P Require Import InputEdit.
From S2P Require Import AppLib.
From S2P Require Import AppSpec.
From S2P Require Import UiLoop.

(** ** What the operations of the chat window leave alone *)

Create HintDb mode discriminated.

Section Mode.
Context {L T : Type} `{Sequence L} `{Table T}.
Context (rand : nat → Z) (image : ChatLogEntry → bytes) (entry : bytes → ChatLogEntry).

Definition keeps_mode {A} (c : cmd (chatwin L T) A) : Prop := ∀ s a s', c s = Done (a, s') → mode s' = mode s.

Lemma keeps_ret {A} (a : A) : keeps_mode (ret a).
Proof. by intros s ? ? [= _ <-]. Qed.
Lemma keeps_get : keeps_mode get.
Proof. by intros s ? ? [= _ <-]. Qed.
Lemma keeps_lift {A} (o : outcome A) : keeps_mode (lift o).
Proof. by intros s a s' [_ ->]%lift_inv. Qed.
Lemma keeps_bind {A B} (c : cmd (chatwin L T) A) (k : A → cmd (chatwin L T) B) :
  keeps_mode c → (∀ a, keeps_mode (k a)) → keeps_mode (bind c k).
Proof. intros Hc Hk s b s' (a & t & H1 & H2)%bind_inv. apply Hk in H2. apply Hc in H1. congruence. Qed.
Lemma keeps_modify f : (∀ s, mode (f s) = mode s) → keeps_mode (modify f).
Proof. by intros Hf s ? ? [= _ <-]. Qed.
Lemma keeps_chatlog {A} (c : cmd L A) : keeps_mode (on_chatlog c).
Proof. intros s a s'. unfold on_chatlog. destruct (c (chatlog s)) as [[? ?]|]; [by intros [= _ <-]|done]. Qed.
Lemma keeps_users {A} (c : cmd T A) : keeps_mode (on_users c).
Proof. intros s a s'. unfold on_users. destruct (c (users s)) as [[? ?]|]; [by intros [= _ <-]|done]. Qed.

(** One rule for each construct of the commands. *)
Ltac keep :=
  repeat first
    [ progress cbv zeta | apply keeps_bind; [|intros ?] | apply keeps_ret | apply keeps_get | apply keeps_lift
    | apply keeps_chatlog | apply keeps_users | solve [apply keeps_modify; done]
    | progress case_decide | case_match; try done | progress eauto with mode ].

Lemma print_keeps c t : keeps_mode (print c t).
Proof. by apply keeps_modify. Qed.
Hint Resolve print_keeps : mode.
Lemma GetUserColor_keeps u : keeps_mode (GetUserColor rand u).
Proof. unfold GetUserColor. keep. Qed.
Hint Resolve GetUserColor_keeps : mode.
Lemma write_keeps e : keeps_mode (UIChatWin_write rand e).
Proof. unfold UIChatWin_write. keep. Qed.
Hint Resolve write_keeps : mode.
Lemma write_lines_keeps n : ∀ i, keeps_mode (write_lines rand entry n i).
Proof. induction n as [|n IH]; intros i; cbn [write_lines]; keep. Qed.
Hint Resolve write_lines_keeps : mode.
Lemma updateContent_keeps : keeps_mode (UIChatWin_updateContent rand entry).
Proof. unfold UIChatWin_updateContent. keep. Qed.
Hint Resolve updateContent_keeps : mode.

(** The mode after an event. *)
Lemma event_mode e s s' : run_event rand image entry e s = Done (tt, s') →
  mode s' = match e with EMode m => m | _ => mode s end.
Proof.
  destruct e as [ok clock b|m'| | |h w]; cbn [run_event]; intros Hr.
  - assert (K : keeps_mode (UIChatWin_logMessage rand image ok clock b)) by (unfold UIChatWin_logMessage; keep).
    by eapply K.
  - unfold UIChatWin_setMode in Hr. rewrite bind_get in Hr. case_decide as E; [by injection Hr as <-|].
    rewrite bind_modify in Hr. match type of Hr with ?c _ = _ => assert (K : keeps_mode c) by keep end.
    by apply K in Hr.
  - assert (K : keeps_mode (UIChatWin_previousPage rand entry)) by (unfold UIChatWin_previousPage; keep). by eapply K.
  - assert (K : keeps_mode (UIChatWin_nextPage rand entry)) by (unfold UIChatWin_nextPage; keep). by eapply K.
  - assert (K : keeps_mode (UIChatWin_render rand entry h w)) by (unfold UIChatWin_render; keep). by eapply K.
Qed.
End Mode.

(** ** Sizes of the terminal *)

(** C36. A terminal that is accepted has room in the input window for a
    message of 280 characters, and at least three lines for the chat, unless
    it is 95 columns wide: that input window has 279 cells; and a terminal of
    94 columns is refused whatever its height, where 81 to 93 are enough. *)
Theorem terminal_sizes (screen : UIScreen) :
  (UIScreen_isBigEnough screen kMaxMessageLength = true →
     (scols screen ≠ 95 → kMaxMessageLength - 1 ≤ (input_size screen).1 * (input_size screen).2)%Z
     ∧ (scols screen = 95 → (input_size screen).1 * (input_size screen).2 = kMaxMessageLength - 2)%Z
     ∧ (16 ≤ chatWinBoxHeight screen)%Z)
  ∧ (scols screen = 94%Z → UIScreen_isBigEnough screen kMaxMessageLength = false)
  ∧ (opened screen = true → (23 ≤ slines screen)%Z → (81 ≤ scols screen ≤ 93)%Z →
     UIScreen_isBigEnough screen kMaxMessageLength = true).
Proof.
  unfold UIScreen_isBigEnough, UIGetInputLines, input_size, chatWinBoxHeight, inputWinBoxHeight,
    kMinTerminalLines, kMinTerminalCols, kWideTerminalCols, kMaxMessageLength. cbn [fst snd].
  destruct (Z.ltb_spec (scols screen) 94); split_and!.
  all: rewrite ?andb_true_iff, ?andb_false_iff, ?Z.ltb_lt, ?Z.leb_le, ?Z.leb_gt; intros; split_and?; first [done|lia].
Qed.

Lemma terminal_sizes_witness :
  UIScreen_isBigEnough (MkScreen true 40 95) kMaxMessageLength = true
  ∧ ((input_size (MkScreen true 40 95)).1 * (input_size (MkScreen true 40 95)).2 = 279)%Z
  ∧ UIScreen_isBigEnough (MkScreen true 40 94) kMaxMessageLength = false.
Proof.
  destruct (terminal_sizes (MkScreen true 40 95)) as [H _].
  destruct (terminal_sizes (MkScreen true 40 94)) as (_ & H94 & _).
  split; [reflexivity|]. split; [exact (proj1 (proj2 (H eq_refl)) eq_refl)|exact (H94 eq_refl)].
Defined.

(** ** The loop as two components *)

Section LoopSpec.
Context {L T W : Type} `{Sequence L} `{Table T} `{Wrapping W}.
Context (rand : nat → Z) (image : ChatLogEntry → bytes) (entry : bytes → ChatLogEntry).
Context (Hrand : ∀ n, (0 ≤ rand n)%Z) (Hentry : ∀ e, entry (image e) = e).
Context (iswcntrl : Z → bool) (wcwidth : Z → Z) (K : keypad).
Context (Hnarrow : ∀ c, narrow c → iswcntrl c = false ∧ wcwidth c = 1%Z).
Implicit Types (s : ui L T W) (t : turn W) (ts : list (turn W)) (e : list Z * list Z) (md : UIChatWinMode).

Abbreviation loop := (loop rand image entry iswcntrl wcwidth K).
Abbreviation loop_turn := (loop_turn rand image entry iswcntrl wcwidth K).
Abbreviation UIInputLoop := (UIInputLoop rand image entry iswcntrl wcwidth K).

(** What a key does to the text, to the mode and to the chat window; [ed] is
    the line editor. *)
Definition key_of (k : key_case) (ch : Z) : option key :=
  match k with CDelete => Some KDelete | CArrow a => Some (KArrow a) | CChar => Some (KChar ch) | _ => None end.

Definition text_step (ed : key → list Z * list Z → list Z * list Z) md (k : key_case) (ch : Z) e : list Z * list Z :=
  match key_of k ch with
  | Some q => ed q e
  | None => match k with CEscape => if decide (md = kChatWinModeBrowse) then e else ([], []) | _ => e end
  end.

Definition mode_step md (k : key_case) : UIChatWinMode :=
  match k with CEscape => kChatWinModeLive | CPageUp => kChatWinModeBrowse | _ => md end.

Definition chat_step md (k : key_case) : list chat_event :=
  let browsing := bool_decide (md = kChatWinModeBrowse) in
  match k with
  | CEscape => if browsing then [EMode kChatWinModeLive] else []
  | CPageUp => if browsing then [EPageUp] else [EMode kChatWinModeBrowse]
  | CPageDown => if browsing then [EPageDown] else []
  | _ => []
  end.

Definition logs (ms : list (bytes * C2HMessage)) : list chat_event := (λ cm, logged cm.1 cm.2) <$> ms.

(** The text typed and the events of the chat window, turn by turn; [upd] is
    the flag for waiting messages. *)
Fixpoint summary (ed : key → list Z * list Z → list Z * list Z) ts (upd : bool) md e : (list Z * list Z) * list chat_event :=
  match ts with
  | [] => (e, [])
  | t :: ts =>
    let upd := upd || sig_update t in
    match got t with
    | Got ch =>
      let k := key_case_of K ch in
      let r := summary ed ts upd (mode_step md k) (text_step ed md k ch e) in (r.1, chat_step md k ++ r.2)
    | _ =>
      if upd then let r := summary ed ts false md e in (r.1, logs (waiting_messages t) ++ r.2)
      else summary ed ts upd md e
    end
  end.

Definition good_log (cm : bytes * C2HMessage) : Prop :=
  good_clock cm.1 ∧ terminated_message cm.2 ∧ mtype cm.2 ≠ kMessageTypeQuit.

(** A turn that neither ends the loop nor draws everything again. *)
Definition good_turn t : Prop :=
  sig_terminate t = false ∧ sig_resize t = false ∧ Forall good_log (waiting_messages t) ∧
  match got t with
  | Got ch => ch ≠ KEY_F1 K ∧ ch ≠ KEY_RESIZE K ∧ key_case_of K ch ≠ CEnter ∧ (key_case_of K ch = CChar → narrow ch)
  | Interrupted_read => True
  | Failed_read => sig_update t = true
  end.

Definition typed_by t : nat :=
  match got t with Got ch => match key_case_of K ch with CChar => 1 | _ => 0 end | _ => 0 end.

(** The keys are legal where they come, in a window of [n] lines of [m] columns. *)
Fixpoint legal_turns (n m : nat) ts md e : Prop :=
  match ts with
  | [] => True
  | t :: ts =>
    match got t with
    | Got ch =>
      let k := key_case_of K ch in
      match key_of k ch with Some q => legal n m q e | None => True end
      ∧ legal_turns n m ts (mode_step md k) (text_step (edit_at n m) md k ch e)
    | _ => legal_turns n m ts md e
    end
  end.

#[export] Instance legal_turns_dec n m ts : ∀ md e, Decision (legal_turns n m ts md e).
Proof.
  induction ts as [|t ts IH]; intros md e; cbn [legal_turns]; [apply _|]. destruct (got t) as [ch| |]; [|apply _..].
  apply and_dec; [|apply _]. destruct (key_of _ ch); apply _.
Defined.

Lemma typed_sum t ts : sum_list (typed_by <$> t :: ts) = typed_by t + sum_list (typed_by <$> ts).
Proof. done. Qed.

(** The flag and the mode after a turn. *)
Definition upd_after t (upd : bool) : bool :=
  match got t with Got _ => upd || sig_update t | _ => false end.
Definition md_after t md : UIChatWinMode :=
  match got t with Got ch => mode_step md (key_case_of K ch) | _ => md end.

Definition upd_through ts upd : bool := foldl (λ upd t, upd_after t upd) upd ts.
Definition md_through ts md : UIChatWinMode := foldl (λ md t, md_after t md) md ts.

Lemma summary_cons ed t ts upd md e :
  summary ed (t :: ts) upd md e =
    let r := summary ed [t] upd md e in
    let q := summary ed ts (upd_after t upd) (md_after t md) r.1 in (q.1, r.2 ++ q.2).
Proof.
  unfold upd_after, md_after. cbn [summary]. destruct (got t) as [ch| |].
  - cbn [fst snd]. by rewrite app_nil_r.
  - destruct (upd || sig_update t); cbn [fst snd]; [by rewrite app_nil_r|by destruct (summary ed ts _ _ _)].
  - destruct (upd || sig_update t); cbn [fst snd]; [by rewrite app_nil_r|by destruct (summary ed ts _ _ _)].
Qed.

Lemma text_step_length n m md k ch e :
  length (text_step (edit_at n m) md k ch e).1 + length (text_step (edit_at n m) md k ch e).2
  ≤ length e.1 + length e.2 + match k with CChar => 1 | _ => 0 end.
Proof.
  unfold text_step. destruct (key_of k ch) as [q|] eqn:E.
  - pose proof (edit_at_length n m q e). assert (adds q = match k with CChar => 1 | _ => 0 end) by (by destruct k; simplify_eq/=). lia.
  - destruct k; try lia. case_decide; [|cbn]; lia.
Qed.

Lemma summary_length n m t upd md e :
  length (summary (edit_at n m) [t] upd md e).1.1 + length (summary (edit_at n m) [t] upd md e).1.2 ≤ length e.1 + length e.2 + typed_by t.
Proof.
  unfold typed_by. cbn [summary]. destruct (got t) as [ch| |]; cbn [fst snd].
  - apply text_step_length.
  - destruct (upd || sig_update t); cbn [fst]; lia.
  - destruct (upd || sig_update t); cbn [fst]; lia.
Qed.

Lemma text_length n m ts : ∀ upd md e,
  length (summary (edit_at n m) ts upd md e).1.1 + length (summary (edit_at n m) ts upd md e).1.2 ≤ length e.1 + length e.2 + sum_list (typed_by <$> ts).
Proof.
  induction ts as [|t ts IH]; intros upd md e; [cbn; lia|]. rewrite typed_sum, summary_cons. cbn zeta. cbn [fst].
  pose proof (summary_length n m t upd md e). specialize (IH (upd_after t upd) (md_after t md) (summary (edit_at n m) [t] upd md e).1). lia.
Qed.

Section Run.
Context (n m room limit nb : nat).
Context (Hn : 1 ≤ n) (Hm : 1 ≤ m) (Hmax : (Z.of_nat (n * m) ≤ 100000)%Z) (Hroom : room < n * m) (Hlimit : room ≤ limit).

Abbreviation lstep := (text_step (edit_at n m)).
Abbreviation lsum := (summary (edit_at n m)).
Abbreviation llegal := (legal_turns n m).

Record holds (upd : bool) md e s : Prop := {
  h_terminate : f_terminate s = false;
  h_resize : f_resize s = false;
  h_update : f_update s = upd;
  h_big : UIScreen_isBigEnough (scr s) kMaxMessageLength = true;
  h_mode : mode (chat s) = md;
  h_inp : ∃ b, length b = nb ∧ spread n m (Some b) limit e.1 e.2 (inp s)
}.

Lemma on_chat_run {A} (c : cmd (chatwin L T) A) s a q : c (chat s) = Done (a, q) → on_chat c s = Done (a, with_chat q s).
Proof. unfold on_chat. by intros ->. Qed.
Lemma on_inp_run {A} (c : cmd (UIInputWin W) A) s a i : c (inp s) = Done (a, i) → on_inp c s = Done (a, with_inp i s).
Proof. unfold on_inp. by intros ->. Qed.

(** A key of the line editor. *)
Lemma key_turn (k : key) upd md e s : good_key k → legal n m k e → holds upd md e s →
  length e.1 + length e.2 + adds k ≤ room →
  ∃ s', on_inp (run_key iswcntrl wcwidth k) s = Done (tt, s') ∧ holds upd md (edit_at n m k e) s' ∧ chat s' = chat s.
Proof.
  intros G Hlegal [F1 F2 F3 F4 F5 (b & Hb & Sp)] Hf. destruct e as [l r]. cbn [fst snd] in *.
  destruct (key_at iswcntrl wcwidth Hnarrow n m Hn Hm Hmax (Some b) limit k G l r _ Sp Hlegal) as (i & Hr & Sp'); [lia|lia|].
  exists (with_inp i s). split; [by apply on_inp_run|]. split; [|done]. split; try done. by exists b.
Qed.

(** ESC in live mode. *)
Lemma reset_turn upd md e s : holds upd md e s →
  ∃ s', on_inp UIInputWin_reset s = Done (tt, s') ∧ holds upd md ([], []) s' ∧ chat s' = chat s.
Proof.
  intros [F1 F2 F3 F4 F5 (b & Hb & Sp)].
  destruct (reset_spread n m Hn Hm Hmax (inp s) b limit e.1 e.2 Sp) as (i & Hi & Sp').
  exists (with_inp i s). split; [by apply on_inp_run|]. split; [|done].
  split; try done. exists (replicate (length b) 0%Z). split; [by rewrite length_replicate|done].
Qed.

Lemma chat_event_turn ev upd md e s p k es mm : good_event ev → holds upd md e s →
  chat_ok image (2 + p) (100 + k) (chat s) es mm →
  ∃ s' mm', on_chat (run_event rand image entry ev) s = Done (tt, s')
    ∧ holds upd (match ev with EMode m => m | _ => md end) e s'
    ∧ chat_ok image p k (chat s') (lastn 100 (es ++ accepted ev)) mm'.
Proof.
  intros G [F1 F2 F3 F4 F5 F6] C.
  destruct (every_event rand image entry Hrand Hentry ev G p k (chat s) es mm C) as (q & mm' & Hr & C' & _).
  exists (with_chat q s), mm'. split; [by apply on_chat_run|]. split; [|done].
  split; try done. cbn [chat with_chat]. rewrite <- F5. by apply event_mode in Hr.
Qed.
(** The events [evs] have happened, with memory left for more. *)
Definition happened (p k : nat) evs es s : Prop :=
  ∃ mm, chat_ok image p k (chat s) (lastn 100 (es ++ all_accepted evs)) mm.

Lemma happened_nothing p k es mm s : chat_ok image p k (chat s) es mm → happened p k [] es s.
Proof. intros C. exists mm. cbn. rewrite app_nil_r, lastn_all; [done|apply C]. Qed.

Lemma happened_log p k evs es s : happened p k evs es s →
  seq_holds 0 (chatlog (chat s)) (log_of image (lastn 100 (es ++ all_accepted evs))).
Proof. intros (mm & C & _). eapply seq_holds_le; [apply Nat.le_0_l|exact (b_log _ _ _ _ _ _ C)]. Qed.

Lemma happened_one ev upd md e s p k es mm : good_event ev → holds upd md e s →
  chat_ok image (2 + p) (100 + k) (chat s) es mm →
  ∃ s', on_chat (run_event rand image entry ev) s = Done (tt, s')
    ∧ holds upd (match ev with EMode m => m | _ => md end) e s' ∧ happened p k [ev] es s'.
Proof.
  intros G I C. destruct (chat_event_turn ev upd md e s p k es mm G I C) as (s' & mm' & Hr & I' & C').
  exists s'. split; [done|]. split; [done|]. exists mm'. unfold all_accepted. cbn. by rewrite app_nil_r.
Qed.

Lemma press_turn ch upd md e s p k es mm :
  let c := key_case_of K ch in
  c ≠ CEnter → (c = CChar → narrow ch) → match key_of c ch with Some q => legal n m q e | None => True end →
  holds upd md e s → length e.1 + length e.2 + (match c with CChar => 1 | _ => 0 end) ≤ room →
  chat_ok image (2 * length (chat_step md c) + p) (100 * length (chat_step md c) + k) (chat s) es mm →
  ∃ s', press rand entry iswcntrl wcwidth K ch s = Done (None, s')
    ∧ holds upd (mode_step md c) (lstep md c ch e) s' ∧ happened p k (chat_step md c) es s'.
Proof.
  intros c Hc Hn' Hlegal I Hf C. unfold press. rewrite bind_get. pose proof (h_mode _ _ _ _ I) as Hmd. unfold UIChatWin_getMode.
  rewrite Hmd. fold c. unfold mode_step, text_step, chat_step in *.
  assert (Hkey : ∀ q, good_key q → legal n m q e → adds q ≤ (match c with CChar => 1 | _ => 0 end) →
    ∃ s', on_inp (run_key iswcntrl wcwidth q) s = Done (tt, s') ∧ holds upd md (edit_at n m q e) s' ∧ chat s' = chat s).
  { intros q G Hq Ha. apply (key_turn q upd md e s G Hq I). lia. }
  destruct c; cbn [length Nat.mul Nat.add key_of] in *.
  - destruct (Hkey KDelete Logic.I Hlegal) as (s' & Hr & I' & Hq); [cbn; lia|]. cbn [run_key] in Hr. run Hr.
    eexists. split; [reflexivity|]. split; [done|]. apply (happened_nothing _ _ _ mm). by rewrite Hq.
  - done.
  - case_decide as E; rewrite ?(bool_decide_true _ E), ?(bool_decide_false _ E) in *.
    + destruct (happened_one (EMode kChatWinModeLive) upd md e s p k es mm Logic.I I C) as (s' & Hr & I' & Hq).
      cbn [run_event] in Hr. run Hr. by eexists.
    + destruct (reset_turn upd md e s I) as (s' & Hr & I' & Hq). run Hr. eexists. split; [reflexivity|]. split.
      * destruct md; [exact I'|done].
      * apply (happened_nothing _ _ _ mm). by rewrite Hq.
  - destruct (Hkey (KArrow a) Logic.I Hlegal) as (s' & Hr & I' & Hq); [cbn; lia|]. cbn [run_key] in Hr. run Hr.
    eexists. split; [reflexivity|]. split; [done|]. apply (happened_nothing _ _ _ mm). by rewrite Hq.
  - case_decide as E; rewrite ?(bool_decide_true _ E), ?(bool_decide_false _ E) in *.
    + destruct (happened_one EPageUp upd md e s p k es mm Logic.I I C) as (s' & Hr & I' & Hq).
      cbn [run_event] in Hr. run Hr. rewrite E in I'. by eexists.
    + destruct (happened_one (EMode kChatWinModeBrowse) upd md e s p k es mm Logic.I I C) as (s' & Hr & I' & Hq).
      cbn [run_event] in Hr. run Hr. by eexists.
  - case_decide as E; rewrite ?(bool_decide_true _ E), ?(bool_decide_false _ E) in *.
    + destruct (happened_one EPageDown upd md e s p k es mm Logic.I I C) as (s' & Hr & I' & Hq).
      cbn [run_event] in Hr. run Hr. by eexists.
    + eexists. split; [reflexivity|]. split; [done|]. by apply (happened_nothing _ _ _ mm).
  - destruct (Hkey (KChar ch) (Hn' eq_refl) Hlegal) as (s' & Hr & I' & Hq); [cbn; lia|]. cbn [run_key] in Hr. run Hr.
    eexists. split; [reflexivity|]. split; [done|]. apply (happened_nothing _ _ _ mm). by rewrite Hq.
Qed.

(** [updateHandler] logs the messages that wait. *)
Lemma update_turn ms : ∀ upd md e s p k es mm, Forall good_log ms → holds upd md e s →
  chat_ok image (2 * length ms + p) (100 * length ms + k) (chat s) es mm →
  ∃ s', updateHandler rand image ms s = Done (tt, s') ∧ holds upd md e s' ∧ happened p k (logs ms) es s'.
Proof.
  induction ms as [|[clock b] ms IH]; intros upd md e s p k es mm G I C.
  - exists s. split; [done|]. split; [done|]. by apply (happened_nothing _ _ _ mm).
  - inversion G as [|? ? (Gc & Gb & Gq) Gs]; subst. cbn [fst snd] in *.
    assert (Hev : logged clock b = ELog true clock b) by (unfold logged; by rewrite decide_False).
    destruct (chat_event_turn (logged clock b) upd md e s (2 * length ms + p) (100 * length ms + k) es mm)
      as (s1 & mm1 & Hr & I1 & C1); [by rewrite Hev|done| |].
    { replace (2 + (2 * length ms + p)) with (2 * length ((clock, b) :: ms) + p) by (cbn; lia).
      by replace (100 + (100 * length ms + k)) with (100 * length ((clock, b) :: ms) + k) by (cbn; lia). }
    assert (Hl : on_chat (UILogMessage rand image clock b) s = Done (false, s1)).
    { rewrite Hev in Hr. unfold on_chat in *. cbn [run_event] in Hr. unfold UILogMessage. rewrite decide_False by done.
      unfold bind. destruct (UIChatWin_logMessage _ _ _ _ _ _) as [[[] q]|]; [|done]. by injection Hr as <-. }
    cbn [updateHandler]. run Hl. unfold raise. rewrite bind_modify.
    assert (Es : with_flags (f_terminate s1 || false) (f_update s1 || false) (f_resize s1 || false) s1 = s1)
      by (destruct s1; cbn; by rewrite !orb_false_r).
    rewrite Es. assert (I1' : holds upd md e s1) by (rewrite Hev in I1; exact I1).
    destruct (IH upd md e s1 p k _ mm1 Gs I1' C1) as (s2 & Hr2 & I2 & (mm2 & C2)).
    exists s2. split; [done|]. split; [done|]. exists mm2.
    rewrite lastn_app, <- app_assoc in C2. unfold logs, all_accepted in *. by cbn.
Qed.
(** A turn that finds messages waiting. *)
Lemma waiting_turn t md e s p k es mm :
  Forall good_log (waiting_messages t) → holds true md e s →
  chat_ok image (2 * length (logs (waiting_messages t)) + p) (100 * length (logs (waiting_messages t)) + k) (chat s) es mm →
  ∃ s', (modify (λ s, with_flags (f_terminate s) false (f_resize s) s);;;
         (if UIScreen_isBigEnough (scr s) kMaxMessageLength then updateHandler rand image (waiting_messages t) else ret tt);;;
         ret None) s = Done (None (A:=Z), s')
    ∧ holds false md e s' ∧ happened p k (logs (waiting_messages t)) es s'.
Proof.
  intros Gw [F1 F2 F3 F4 F5 F6] C. rewrite bind_modify, F4. unfold logs in C. rewrite length_fmap in C.
  destruct (update_turn (waiting_messages t) false md e (with_flags (f_terminate s) false (f_resize s) s) p k es mm Gw)
    as (s' & Hr & I' & Hq); [by split|exact C|].
  run Hr. by eexists.
Qed.

Lemma good_turn_run t upd md e s p k es mm :
  let r := lsum [t] upd md e in
  good_turn t → llegal [t] md e → holds upd md e s → length e.1 + length e.2 + typed_by t ≤ room →
  chat_ok image (2 * length r.2 + p) (100 * length r.2 + k) (chat s) es mm →
  ∃ s', loop_turn t s = Done (None, s') ∧ holds (upd_after t upd) (md_after t md) r.1 s' ∧ happened p k r.2 es s'.
Proof.
  intros r (Gt & Gr & Gw & Gg) Hlegal I Hf C. unfold loop_turn, raise. rewrite bind_modify, bind_get.
  set (s1 := with_flags _ _ _ s).
  assert (J : holds (upd || sig_update t) md e s1).
  { destruct I as [F1 F2 F3 F4 F5 F6]. split; cbn; rewrite ?F1, ?F2, ?F3, ?Gt, ?Gr; done. }
  assert (C1 : chat_ok image (2 * length r.2 + p) (100 * length r.2 + k) (chat s1) es mm) by exact C.
  clearbody s1. rewrite (h_terminate _ _ _ _ J), (h_resize _ _ _ _ J), (h_update _ _ _ _ J).
  unfold typed_by in Hf. cbn [legal_turns] in Hlegal. subst r. unfold upd_after, md_after. cbn [summary] in *. destruct (got t) as [ch| |].
  - destruct Gg as (G1 & G2 & G3 & G4). unfold handle_wch. rewrite decide_False by done. rewrite decide_False by done.
    cbn [fst snd] in *. rewrite app_nil_r in *. apply (press_turn _ _ _ _ _ _ _ _ mm); try done. apply Hlegal.
  - destruct (upd || sig_update t); cbn [fst snd] in *.
    + rewrite app_nil_r in *. by apply (waiting_turn _ _ _ _ _ _ _ mm).
    + exists s1. split; [done|]. split; [done|]. by apply (happened_nothing _ _ _ mm).
  - rewrite Gg, orb_true_r in *. cbn [fst snd] in *. rewrite app_nil_r in *. by apply (waiting_turn _ _ _ _ _ _ _ mm).
Qed.

Lemma legal_cons t ts upd md e : llegal (t :: ts) md e →
  llegal [t] md e ∧ llegal ts (md_after t md) (lsum [t] upd md e).1.
Proof.
  unfold md_after. cbn [legal_turns summary]. destruct (got t) as [ch| |]; [by intros [? ?]|..];
    by destruct (upd || sig_update t).
Qed.

Lemma good_turns_run ts : ∀ rest upd md e s p k es mm,
  let r := lsum ts upd md e in
  Forall good_turn ts → llegal ts md e → holds upd md e s →
  length e.1 + length e.2 + sum_list (typed_by <$> ts) ≤ room →
  chat_ok image (2 * length r.2 + p) (100 * length r.2 + k) (chat s) es mm →
  ∃ s', loop (ts ++ rest) s = loop rest s' ∧ holds (upd_through ts upd) (md_through ts md) r.1 s' ∧ happened p k r.2 es s'.
Proof.
  induction ts as [|t ts IH]; intros rest upd md e s p k es mm r G Hlegal I Hf C.
  - exists s. split; [done|]. split; [done|]. by apply (happened_nothing _ _ _ mm).
  - inversion G as [|? ? Gt Gs]; subst. destruct (legal_cons t ts upd md e Hlegal) as [Hl1 Hl2]. subst r. rewrite summary_cons in *. cbn zeta in *.
    set (r := lsum [t] upd md e) in *. set (q := lsum ts (upd_after t upd) (md_after t md) r.1) in *.
    rewrite typed_sum in Hf. cbn [fst snd] in *. rewrite length_app in C.
    destruct (good_turn_run t upd md e s (2 * length q.2 + p) (100 * length q.2 + k) es mm Gt Hl1 I) as (s1 & Hr & I1 & (mm1 & C1)); [lia| |].
    { replace (2 * length (lsum [t] upd md e).2 + (2 * length q.2 + p)) with (2 * (length r.2 + length q.2) + p) by (unfold r; lia).
      by replace (100 * length (lsum [t] upd md e).2 + (100 * length q.2 + k)) with (100 * (length r.2 + length q.2) + k) by (unfold r; lia). }
    pose proof (summary_length n m t upd md e) as Hlen. fold r in Hlen, I1, C1.
    destruct (IH rest (upd_after t upd) (md_after t md) r.1 s1 p k (lastn 100 (es ++ all_accepted r.2)) mm1 Gs Hl2 I1) as (s2 & Hr2 & I2 & (mm2 & C2)); [lia|exact C1|].
    exists s2. split.
    { rewrite <- Hr2. cbn [Datatypes.app]. unfold UiLoop.loop at 1. rewrite bind_get, (h_terminate _ _ _ _ I). fold loop. by run Hr. }
    split; [done|]. exists mm2. fold q in C2. rewrite lastn_app, <- app_assoc in C2.
    unfold all_accepted in *. by rewrite bind_app.
Qed.

End Run.

(** ** Where everything is legal *)

(** On one line. *)
Lemma one_line_turns n m ts : ∀ upd md e, 1 ≤ m → length e.1 + length e.2 + sum_list (typed_by <$> ts) < m →
  legal_turns n m ts md e ∧ summary (edit_at n m) ts upd md e = summary edit ts upd md e.
Proof.
  induction ts as [|t ts IH]; intros upd md e Hm Hlt; [done|]. rewrite typed_sum in Hlt. unfold typed_by in Hlt at 1.
  cbn [legal_turns summary]. destruct (got t) as [ch| |].
  - assert (Hk : match key_of (key_case_of K ch) ch with Some q => legal n m q e | None => True end
      ∧ text_step (edit_at n m) md (key_case_of K ch) ch e = text_step edit md (key_case_of K ch) ch e).
    { unfold text_step. destruct e as [l r], (key_case_of K ch) as [| | |a| | |] eqn:E; cbn [key_of fst snd] in *; try done;
        apply one_line_key; cbn [adds]; lia. }
    destruct Hk as [Hk <-]. pose proof (text_step_length n m md (key_case_of K ch) ch e) as Hs.
    destruct (IH (upd || sig_update t) (mode_step md (key_case_of K ch)) (text_step (edit_at n m) md (key_case_of K ch) ch e) Hm)
      as [Hl ->]; [lia|]. done.
  - destruct (IH false md e Hm) as [Hl E1], (IH (upd || sig_update t) md e Hm) as [_ E2]; [lia..|]. by rewrite E1, E2.
  - destruct (IH false md e Hm) as [Hl E1], (IH (upd || sig_update t) md e Hm) as [_ E2]; [lia..|]. by rewrite E1, E2.
Qed.

(** At the end of the text, on any number of lines. *)
Definition no_arrow t : Prop := match got t with Got ch => ∀ a, key_case_of K ch ≠ CArrow a | _ => True end.

Lemma typing_turns n m ts : ∀ upd md l, Forall no_arrow ts →
  legal_turns n m ts md (l, []) ∧ summary (edit_at n m) ts upd md (l, []) = summary edit ts upd md (l, []).
Proof.
  induction ts as [|t ts IH]; intros upd md l G; [done|]. inversion G as [|? ? Gt Gs]; subst. unfold no_arrow in Gt.
  cbn [legal_turns summary]. destruct (got t) as [ch| |].
  - assert (Hk : ∃ l', match key_of (key_case_of K ch) ch with Some q => legal n m q (l, []) | None => True end
      ∧ text_step (edit_at n m) md (key_case_of K ch) ch (l, []) = (l', [])
      ∧ text_step edit md (key_case_of K ch) ch (l, []) = (l', [])).
    { unfold text_step. destruct (key_case_of K ch) as [| | |a| | |] eqn:E; cbn [key_of]; try by exists l.
      - eexists. split; [|by split]. destruct (at_the_end n m [KDelete] l) as [[Hl _] _]; [by constructor|exact Hl].
      - case_decide; by eexists.
      - by destruct (Gt a).
      - eexists. split; [|by split]. destruct (at_the_end n m [KChar ch] l) as [[Hl _] _]; [by constructor|exact Hl]. }
    destruct Hk as (l' & Hk & -> & ->).
    destruct (IH (upd || sig_update t) (mode_step md (key_case_of K ch)) l' Gs) as [Hl ->]. done.
  - destruct (IH false md l Gs) as [Hl ->], (IH (upd || sig_update t) md l Gs) as [_ ->]. done.
  - destruct (IH false md l Gs) as [Hl ->], (IH (upd || sig_update t) md l Gs) as [_ ->]. done.
Qed.

(** A line padded with spaces is trimmed back. *)
Lemma padded_reads_as wcrtomb (line rest : list Z) k : 0%Z ∉ line →
  reads_as wcrtomb ((line ++ replicate k space) ++ 0%Z :: rest) (concat (wcrtomb <$> strip wide_seps line)).
Proof.
  intros Hz. exists (line ++ replicate k space), rest. split; [done|]. split.
  - rewrite not_elem_of_app. split; [done|]. intros Hin. by apply elem_of_replicate in Hin as [? _].
  - rewrite strip_padding; [done|]. apply Forall_replicate. apply (bool_decide_eq_true_1 _). reflexivity.
Qed.

(** The application calls the loop: nothing is typed yet. *)
Record at_prompt (n m : nat) (upd : bool) md (p k : nat) (es : list cline) s : Prop := {
  pr_terminate : f_terminate s = false;
  pr_resize : f_resize s = false;
  pr_update : f_update s = upd;
  pr_big : UIScreen_isBigEnough (scr s) kMaxMessageLength = true;
  pr_mode : mode (chat s) = md;
  pr_sized : sized n m (inp s);
  pr_empty : eom (inp s) = 0%Z;
  pr_chat : ∃ mm, chat_ok image p k (chat s) es mm
}.

(** [ts] is typed into an empty input window. *)
Section Session.
Context (n m : nat) (b : list Z) (ts : list (turn W)) (upd : bool) (md : UIChatWinMode) (p k : nat) (es : list cline) (s : ui L T W).
Context (Hn : 1 ≤ n) (Hm : 1 ≤ m) (Hmax : (Z.of_nat (n * m) ≤ 100000)%Z).
Context (Hroom : sum_list (typed_by <$> ts) < n * m) (Hb : sum_list (typed_by <$> ts) < length b).
Context (G : Forall good_turn ts) (Hlegal : legal_turns n m ts md ([], [])).
Let r := summary (edit_at n m) ts upd md ([], []).
Context (P : at_prompt n m upd md (2 * length r.2 + p) (100 * length r.2 + k) es s).

Lemma loop_reaches rest : ∃ s1, UIInputLoop b (ts ++ rest) s = loop rest s1
  ∧ holds n m (limit_of n m b) (length b) (upd_through ts upd) (md_through ts md) r.1 s1
  ∧ happened p k r.2 es s1.
Proof.
  destruct P as [Ft Fr Fu Fb Fm Hs He (mm & C)].
  set (z := replicate (length b) 0%Z). assert (Hz : length z = length b) by apply length_replicate.
  destruct (init_spread n m Hn Hm Hmax (inp s) z Hs He) as (i & Hi & Si); [by intros E; rewrite E in Hz; cbn in Hz; lia|].
  assert (Hlz : limit_of n m z = limit_of n m b) by (unfold limit_of; by rewrite Hz). rewrite Hlz in Si.
  assert (Hlim : sum_list (typed_by <$> ts) ≤ limit_of n m b) by (unfold limit_of; lia).
  assert (I : holds n m (limit_of n m b) (length b) upd md ([], []) (with_inp i s)).
  { split; try done. exists (<[length z - 1:=0%Z]> z). split; [by rewrite length_insert|done]. }
  unfold UiLoop.UIInputLoop. fold z. erewrite bind_Done by (apply on_inp_run; exact Hi).
  by apply (good_turns_run n m _ (limit_of n m b) (length b) Hn Hm Hmax Hroom Hlim ts rest upd md ([], [])
    (with_inp i s) p k es mm G Hlegal I).
Qed.

(** Enter. *)
Lemma entered enter rest ch wcrtomb : got enter = Got ch → key_case_of K ch = CEnter → ch ≠ KEY_F1 K → ch ≠ KEY_RESIZE K →
  let line := r.1.1 ++ r.1.2 in
  line ≠ [] →
  ∃ s' b', UIInputLoop b (ts ++ enter :: rest) s = Done (Z.of_nat (length line) + 1, s')%Z
    ∧ buffer (inp s') = Some b'
    ∧ take (S (limit_of n m b)) b' = line ++ replicate (limit_of n m b - length line) space ++ [0%Z]
    ∧ (0%Z ∉ line → reads_as wcrtomb b' (concat (wcrtomb <$> strip wide_seps line)))
    ∧ seq_holds 0 (chatlog (chat s')) (log_of image (lastn 100 (es ++ all_accepted r.2)))
    ∧ (sig_terminate enter = false → sig_resize enter = false →
       at_prompt n m (upd_through ts upd || sig_update enter) (md_through ts md) p k (lastn 100 (es ++ all_accepted r.2)) s').
Proof.
  intros Hg Hc Hf1 Hrs line Hline.
  destruct (loop_reaches (enter :: rest)) as (s1 & Hr & [F1 F2 F3 F4 F5 (b1 & Hb1 & S1)] & C1). rewrite Hr.
  assert (Hlen : length line ≤ sum_list (typed_by <$> ts)).
  { unfold line. rewrite length_app. exact (text_length n m ts upd md ([], [])). }
  destruct (commit_spread n m Hn Hm Hmax (inp s1) b1 (limit_of n m b) r.1.1 r.1.2) as (i' & b' & Hcm & Hb' & He' & Hs' & Ht & H0');
    [rewrite Hb1; unfold limit_of; lia|unfold limit_of; lia|unfold limit_of; fold line; lia|done|done|]. fold line in Hcm, Ht.
  cbn [UiLoop.loop]. rewrite bind_get, F1.
  set (s' := with_inp i' (with_flags (f_terminate s1 || sig_terminate enter) (f_update s1 || sig_update enter) (f_resize s1 || sig_resize enter) s1)).
  assert (Hturn : loop_turn enter s1 = Done (Some (Z.of_nat (length line) + 1)%Z, s')).
  { unfold loop_turn, raise. rewrite bind_modify, bind_get, Hg. unfold handle_wch.
    rewrite decide_False by done. rewrite decide_False by done. unfold press. rewrite bind_get, Hc.
    erewrite bind_Done by (apply on_inp_run; exact Hcm). rewrite (proj2 (Z.ltb_lt _ _)) by lia. done. }
  run Hturn. exists s', b'. split; [reflexivity|]. split; [done|]. split; [|split; [|split; [eapply happened_log; exact C1|]]].
  - by rewrite (take_S_r _ _ _ H0'), Ht, <- app_assoc.
  - intros Hz. rewrite <- (take_drop_middle _ _ _ H0'), Ht. by apply padded_reads_as.
  - intros E1 E2. split; cbn; rewrite ?F1, ?F2, ?F3, ?E1, ?E2; done.
Qed.

(** What ends the loop. *)
Definition ends_loop (t : turn W) : Prop :=
  got t = Got (KEY_F1 K) ∨ (got t = Interrupted_read ∧ sig_terminate t = true).

Lemma ended last rest : ends_loop last →
  ∃ s', UIInputLoop b (ts ++ last :: rest) s = Done (kUITerminate, s')
    ∧ buffer (inp s') = Some (replicate (length b) 0%Z)
    ∧ seq_holds 0 (chatlog (chat s')) (log_of image (lastn 100 (es ++ all_accepted r.2))).
Proof.
  intros Hlast. destruct (loop_reaches (last :: rest)) as (s1 & Hr & [F1 F2 F3 F4 F5 (b1 & Hb1 & S1)] & C1).
  rewrite Hr. cbn [UiLoop.loop]. rewrite bind_get, F1.
  assert (Hturn : ∃ s', loop_turn last s1 = Done (Some kUITerminate, s') ∧ chat s' = chat s1
    ∧ buffer (inp s') = Some (replicate (length b) 0%Z)).
  { unfold loop_turn, raise. rewrite bind_modify, bind_get. pose proof (sp_buffer _ _ _ _ _ _ _ S1) as Hbuf.
    destruct Hlast as [->|[-> Hsig]].
    - unfold handle_wch. rewrite decide_True by done. eexists. split; [reflexivity|]. split; [done|].
      cbn. rewrite Hbuf. cbn. by rewrite Hb1.
    - cbn [f_terminate with_flags]. rewrite Hsig, orb_true_r. eexists. split; [reflexivity|]. split; [done|].
      cbn. rewrite Hbuf. cbn. by rewrite Hb1. }
  destruct Hturn as (s' & Hturn & Hq & Hbf). run Hturn. exists s'. split; [done|]. split; [done|].
  rewrite Hq. eapply happened_log; exact C1.
Qed.
End Session.

(** C8. The input loop, from an empty input window to Enter, whatever else
    happens in between, on as many lines as the message takes: it returns the
    length of the text that a line editor makes of the keys typed (with its
    terminator), and the buffer holds that text, padded with spaces, which the
    application trims to the message that was typed; and the chat log holds the
    last hundred lines of what the waiting messages and the paging keys make of
    it.  Neither disturbs the other, and the next call finds an empty window. *)
Theorem typed_text_is_returned n m (b : list Z) ts enter rest ch wcrtomb upd md p k es s :
  1 ≤ n → 1 ≤ m → (Z.of_nat (n * m) ≤ 100000)%Z →
  sum_list (typed_by <$> ts) < n * m → sum_list (typed_by <$> ts) < length b →
  Forall good_turn ts → legal_turns n m ts md ([], []) →
  got enter = Got ch → key_case_of K ch = CEnter → ch ≠ KEY_F1 K → ch ≠ KEY_RESIZE K →
  let r := summary (edit_at n m) ts upd md ([], []) in
  let line := r.1.1 ++ r.1.2 in
  line ≠ [] →
  at_prompt n m upd md (2 * length r.2 + p) (100 * length r.2 + k) es s →
  ∃ s' b', UIInputLoop b (ts ++ enter :: rest) s = Done (Z.of_nat (length line) + 1, s')%Z
    ∧ buffer (inp s') = Some b'
    ∧ take (S (limit_of n m b)) b' = line ++ replicate (limit_of n m b - length line) space ++ [0%Z]
    ∧ (0%Z ∉ line → reads_as wcrtomb b' (concat (wcrtomb <$> strip wide_seps line)))
    ∧ seq_holds 0 (chatlog (chat s')) (log_of image (lastn 100 (es ++ all_accepted r.2)))
    ∧ (sig_terminate enter = false → sig_resize enter = false →
       at_prompt n m (upd_through ts upd || sig_update enter) (md_through ts md) p k (lastn 100 (es ++ all_accepted r.2)) s').
Proof. intros ??????????? r line Hline P. by apply (entered n m b ts upd md p k es s) with (ch := ch). Qed.

(** The same for a message of one line, with any keys, and for one that is
    typed and corrected at its end, on any number of lines. *)
Theorem typed_line_is_returned n m (b : list Z) ts enter rest ch wcrtomb upd md es s :
  1 ≤ n → 1 ≤ m → (Z.of_nat (n * m) ≤ 100000)%Z →
  sum_list (typed_by <$> ts) < m ∨ (Forall no_arrow ts ∧ sum_list (typed_by <$> ts) < n * m) →
  sum_list (typed_by <$> ts) < length b →
  Forall good_turn ts → got enter = Got ch → key_case_of K ch = CEnter → ch ≠ KEY_F1 K → ch ≠ KEY_RESIZE K →
  let r := summary edit ts upd md ([], []) in
  let line := r.1.1 ++ r.1.2 in
  line ≠ [] →
  at_prompt n m upd md (2 * length r.2) (100 * length r.2) es s →
  ∃ s' b', UIInputLoop b (ts ++ enter :: rest) s = Done (Z.of_nat (length line) + 1, s')%Z
    ∧ buffer (inp s') = Some b'
    ∧ take (S (limit_of n m b)) b' = line ++ replicate (limit_of n m b - length line) space ++ [0%Z]
    ∧ (0%Z ∉ line → reads_as wcrtomb b' (concat (wcrtomb <$> strip wide_seps line)))
    ∧ seq_holds 0 (chatlog (chat s')) (log_of image (lastn 100 (es ++ all_accepted r.2))).
Proof.
  intros Hn Hm Hmax Hroom Hb G Hg Hc Hf1 Hrs.
  assert (Hl : legal_turns n m ts md ([], []) ∧ sum_list (typed_by <$> ts) < n * m
    ∧ summary (edit_at n m) ts upd md ([], []) = summary edit ts upd md ([], [])).
  { destruct Hroom as [Hroom|[Ha Hroom]].
    - destruct (one_line_turns n m ts upd md ([], []) Hm Hroom) as [? ?]. split_and!; [done|nia|done].
    - destruct (typing_turns n m ts upd md [] Ha) as [? ?]. by split_and!. }
  destruct Hl as (Hlegal & Hroom' & <-). intros r line Hline P.
  assert (P' : at_prompt n m upd md (2 * length r.2 + 0) (100 * length r.2 + 0) es s) by (by rewrite !Nat.add_0_r).
  destruct (entered n m b ts upd md 0 0 es s Hn Hm Hmax Hroom' Hb G Hlegal P' enter rest ch wcrtomb Hg Hc Hf1 Hrs Hline)
    as (s' & b' & R1 & R2 & R3 & R4 & R5 & _). by exists s', b'.
Qed.

(** C33. The input loop ends when the program is told to terminate while it
    waits, and on F1, whatever was typed before: it returns [kUITerminate], no
    part of the unfinished message is left in the caller's buffer, and the
    messages that had arrived are in the chat log. *)
Theorem termination_ends_the_loop n m (b : list Z) ts last rest upd md p k es s :
  1 ≤ n → 1 ≤ m → (Z.of_nat (n * m) ≤ 100000)%Z →
  sum_list (typed_by <$> ts) < n * m → sum_list (typed_by <$> ts) < length b →
  Forall good_turn ts → legal_turns n m ts md ([], []) → ends_loop last →
  let r := summary (edit_at n m) ts upd md ([], []) in
  at_prompt n m upd md (2 * length r.2 + p) (100 * length r.2 + k) es s →
  ∃ s', UIInputLoop b (ts ++ last :: rest) s = Done (kUITerminate, s')
    ∧ buffer (inp s') = Some (replicate (length b) 0%Z)
    ∧ seq_holds 0 (chatlog (chat s')) (log_of image (lastn 100 (es ++ all_accepted r.2))).
Proof. intros ???????? r P. by apply (ended n m b ts upd md p k es s). Qed.

(** Messages that arrive while the terminal is too small: the flag is cleared,
    nothing is logged, and nothing will call the handler for them. *)
Lemma small_terminal_forgets t s : UIScreen_isBigEnough (scr s) kMaxMessageLength = false →
  f_terminate s = false → got t = Interrupted_read → sig_terminate t = false → sig_update t = true →
  ∃ s', loop_turn t s = Done (None, s') ∧ chat s' = chat s ∧ f_update s' = false.
Proof.
  intros Hsm Hft Hg Hst Hsu. unfold loop_turn, raise. rewrite bind_modify, bind_get, Hg.
  cbn [f_terminate f_update with_flags]. rewrite Hft, Hst, Hsu, orb_true_r. cbn [orb].
  rewrite bind_modify. cbn [scr with_flags]. rewrite Hsm. by eexists.
Qed.
End LoopSpec.

(** ** Samples *)

Module UiSample.
(** The codes ncurses documents. *)
Definition ncurses : keypad := Keypad 263 265 410 339 338 260 261 259 258.

(** Letters of the Latin Extended-A block have the codes of keys: "ą" (261)
    moves the cursor to the right, "ć" (263) deletes. *)
Lemma letters_taken_for_keys :
  key_case_of ncurses 261 = CArrow KEY_RIGHT ∧ key_case_of ncurses 263 = CDelete ∧ key_case_of ncurses 339 = CPageUp.
Proof. by split_and!. Qed.

Definition turn (u : bool) (g : wget) (ms : list (bytes * C2HMessage)) : UiLoop.turn InputSample.screen :=
  Turn false u false g ms (MkScreen true 30 100) (InputDemo.new_window 3 98).
Definition key (c : Z) := turn false (Got c) [].
(** An input window of [n] lines of [m] columns, and memory for a few messages. *)
Definition start_in (n m : nat) : ui ListLib.lst HashLib.hst InputSample.screen :=
  Ui (MkScreen true 30 100) (ChatSample.fresh 6 300) (InputDemo.start n m) false false false.

(** "h", a message that interrupts, page up, "i", ESC, "!" and Enter. *)
Definition ann : bytes * C2HMessage := (lit "12:00:00", message_of kMessageTypeMsg (lit "ann") (lit "hello")).
Definition turns : list (UiLoop.turn InputSample.screen) :=
  [key 104; turn true Interrupted_read [ann]; key 339; key 105; key 27; key 33].

Lemma good_ann : good_log ann.
Proof.
  split; [split; [not_in|apply Nat.ltb_lt; reflexivity]|]. split; [|discriminate].
  exists (lit "hello"), (lit "ann"). split_and!.
  - apply array_text; [not_in|apply Nat.ltb_lt; reflexivity].
  - apply Nat.ltb_lt. reflexivity.
  - apply array_text; [not_in|apply Nat.ltb_lt; reflexivity].
  - apply Nat.leb_le. reflexivity.
Qed.

Lemma good_key (c : Z) : key_case_of ncurses c ≠ CEnter → c ≠ 265%Z → c ≠ 410%Z →
  (key_case_of ncurses c = CChar → 32 ≤ c < 127)%Z → good_turn ncurses (key c).
Proof. intros. split; [done|]. split; [done|]. split; [constructor|]. by split_and!. Qed.

Lemma good_message : good_turn ncurses (turn true Interrupted_read [ann]).
Proof. split; [done|]. split; [done|]. split; [|done]. apply Forall_singleton. exact good_ann. Qed.

Ltac good_turns :=
  repeat (apply Forall_cons; split);
    first [by constructor | exact good_message
          | apply good_key; [discriminate|lia|lia|]; first [by intros E; discriminate E|lia]].

Lemma good_turns : Forall (good_turn ncurses) turns.
Proof. good_turns. Qed.

(** A window of three lines of eight columns: "hello world", one back, a line
    up and down again, a message that interrupts, one to the left and "!",
    which is inserted on the second line. *)
Definition long_turns : list (UiLoop.turn InputSample.screen) :=
  (key <$> [104; 101; 108; 108; 111; 32; 119; 111; 114; 108; 100; 127; 259; 258]%Z)
  ++ [turn true Interrupted_read [ann]; key 260; key 339; key 27; key 33].

Lemma good_long_turns : Forall (good_turn ncurses) long_turns.
Proof. good_turns. Qed.
End UiSample.

Lemma start_at_prompt n m : (Z.of_nat n * Z.of_nat m ≤ 100000)%Z →
  at_prompt ChatSample.image n m false kChatWinModeLive 6 300 [] (UiSample.start_in n m).
Proof.
  intros Hs. split; try reflexivity; [by split|]. exists ∅. apply (ChatSample.fresh_ok 6 300); unfold INT_MAX; lia.
Qed.

Lemma typed_text_is_returned_witness : ∃ s' b',
  UIInputLoop (λ _, 3%Z) ChatSample.image ChatSample.entry InputDemo.iswcntrl InputDemo.wcwidth UiSample.ncurses
    (replicate 17 7%Z) (UiSample.long_turns ++ [UiSample.key 10; UiSample.key 104]) (UiSample.start_in 3 8) = Done (12%Z, s')
  ∧ buffer (inp s') = Some b'
  ∧ take 17 b' = [104; 101; 108; 108; 111; 32; 119; 111; 114; 33; 108; 32; 32; 32; 32; 32; 0]%Z
  ∧ reads_as AppSample.ascii_wcrtomb b' (lit "hello wor!l")
  ∧ seq_holds 0 (chatlog (chat s')) (log_of ChatSample.image [CLine (lit "12:00:00") kMessageTypeMsg (lit "hello") (lit "ann")]).
Proof.
  destruct (typed_text_is_returned (λ _, 3%Z) ChatSample.image ChatSample.entry ltac:(lia) ChatSample.entry_image
    InputDemo.iswcntrl InputDemo.wcwidth UiSample.ncurses InputDemo.narrow_ok 3 8 (replicate 17 7%Z) UiSample.long_turns
    (UiSample.key 10) [UiSample.key 104] 10 AppSample.ascii_wcrtomb false kChatWinModeLive 0 0 [] (UiSample.start_in 3 8))
    as (s' & b' & H1 & H2 & H3 & H4 & H5 & _).
  - lia.
  - lia.
  - lia.
  - vm_compute. lia.
  - vm_compute. lia.
  - exact UiSample.good_long_turns.
  - apply (bool_decide_eq_true_1 _). vm_compute. reflexivity.
  - reflexivity.
  - reflexivity.
  - discriminate.
  - discriminate.
  - vm_compute. discriminate.
  - apply (start_at_prompt 3 8). lia.
  - exists s', b'. split; [exact H1|]. split; [exact H2|]. split; [exact H3|]. split; [|exact H5]. exact (H4 ltac:(not_in)).
Defined.

Lemma typed_line_is_returned_witness : ∃ s' b',
  UIInputLoop (λ _, 3%Z) ChatSample.image ChatSample.entry InputDemo.iswcntrl InputDemo.wcwidth UiSample.ncurses
    (replicate 11 7%Z) (UiSample.turns ++ [UiSample.key 10; UiSample.key 104]) (UiSample.start_in 3 98) = Done (4%Z, s')
  ∧ buffer (inp s') = Some b' ∧ take 11 b' = [104; 105; 33; 32; 32; 32; 32; 32; 32; 32; 0]%Z
  ∧ reads_as AppSample.ascii_wcrtomb b' (lit "hi!").
Proof.
  destruct (typed_line_is_returned (λ _, 3%Z) ChatSample.image ChatSample.entry ltac:(lia) ChatSample.entry_image
    InputDemo.iswcntrl InputDemo.wcwidth UiSample.ncurses InputDemo.narrow_ok 3 98 (replicate 11 7%Z) UiSample.turns
    (UiSample.key 10) [UiSample.key 104] 10 AppSample.ascii_wcrtomb false kChatWinModeLive [] (UiSample.start_in 3 98))
    as (s' & b' & H1 & H2 & H3 & H4 & _).
  - lia.
  - lia.
  - lia.
  - left. vm_compute. lia.
  - vm_compute. lia.
  - exact UiSample.good_turns.
  - reflexivity.
  - reflexivity.
  - discriminate.
  - discriminate.
  - vm_compute. discriminate.
  - apply (start_at_prompt 3 98). lia.
  - exists s', b'. split; [exact H1|]. split; [exact H2|]. split; [exact H3|]. exact (H4 ltac:(not_in)).
Defined.

Lemma termination_ends_the_loop_witness : ∃ s',
  UIInputLoop (λ _, 3%Z) ChatSample.image ChatSample.entry InputDemo.iswcntrl InputDemo.wcwidth UiSample.ncurses
    (replicate 17 7%Z) (UiSample.long_turns ++ [UiSample.key 265]) (UiSample.start_in 3 8) = Done (kUITerminate, s')
  ∧ buffer (inp s') = Some (replicate 17 0%Z).
Proof.
  destruct (termination_ends_the_loop (λ _, 3%Z) ChatSample.image ChatSample.entry ltac:(lia) ChatSample.entry_image
    InputDemo.iswcntrl InputDemo.wcwidth UiSample.ncurses InputDemo.narrow_ok 3 8 (replicate 17 7%Z) UiSample.long_turns
    (UiSample.key 265) [] false kChatWinModeLive 0 0 [] (UiSample.start_in 3 8)) as (s' & H1 & H2 & _).
  - lia.
  - lia.
  - lia.
  - vm_compute. lia.
  - vm_compute. lia.
  - exact UiSample.good_long_turns.
  - apply (bool_decide_eq_true_1 _). vm_compute. reflexivity.
  - by left.
  - apply (start_at_prompt 3 8). lia.
  - exists s'. split; [exact H1|exact H2].
Defined.
