(* ===== verification/Typing.v ===== *)
(** * The main thread of the client: from the keys to the wire (client/app.c)

    [App_run] calls the input loop again and again and sends what it returns.
    The user interface and the connection are one state here, so what is
    proved of the line editor (InputEdit), of the input loop (UiSpec), of the
    sending of lines (AppSpec) and of the server (Session) is joined: a whole
    conversation, and a line from the keys of its author to every screen. *)

From S2P Require Import Prelude.
From S2P Require Import CStr.
From S2P Require Import TrimLib.
From S2P Require Import MessageLib.
From S2P Require Import MessageSpec.
From S2P Require Import Transport.
From S2P Require Import ServerIO.
From S2P Require Import ServerSys.
From S2P Require Import ServerInv.
From S2P Require Import ServerProps.
From S2P Require Import ServerDelivery.
From S2P Require Import ClientStores.
From S2P Require Import ChatLog.
From S2P Require Import ChatSpec.
From S2P Require Import InputWindow.
From S2P Require Import InputSpec.
From S2P Require Import InputLines.
From S2P Require Import InputEdit.
From S2P Require Import ClientLib.
From S2P Require Import ClientSpec.
From S2P Require Import AppLib.
From S2P Require Import AppSpec.
From S2P Require Import Session.
From S2P Require Import UiLoop.
From S2P Require Import UiSpec.

(** ** The loop of [App_run] *)

Record main (L T W : Type) : Type := Main { face : UiLoop.ui L T W; conn : C2HatClient }.
Arguments Main {L T W}.
Arguments face {L T W}.
Arguments conn {L T W}.

(** A turn of the loop: whether [terminate] is found set, what happens in the
    input loop, and the answers to the writes. *)
Record call (W : Type) : Type := Call { stopped : bool; call_turns : list (turn W); call_writes : list Z }.
Arguments Call {W}.
Arguments stopped {W}.
Arguments call_turns {W}.
Arguments call_writes {W}.

Section Typing.
Context {L T W : Type} `{ClientStores.Sequence L} `{ClientStores.Table T} `{Wrapping W}.
Context (rand : nat → Z) (image : ChatLogEntry → bytes) (entry : bytes → ChatLogEntry).
Context (iswcntrl : Z → bool) (wcwidth : Z → Z) (K : keypad) (wcrtomb : Z → bytes).

Definition on_face {A} (c : cmd (UiLoop.ui L T W) A) : cmd (main L T W) A :=
  λ s, match c (face s) with Done (x, f) => Done (x, Main f (conn s)) | Stuck w => Stuck w end.
Definition on_conn {A} (c : cmd C2HatClient A) : cmd (main L T W) A :=
  λ s, match c (conn s) with Done (x, l) => Done (x, Main (face s) l) | Stuck w => Stuck w end.

(** The array of [App_run]: the input loop clears it first. *)
Definition line_array : list Z := replicate (Z.to_nat kMaxMessageLength) 0%Z.

Fixpoint App_loop (calls : list (call W)) : cmd (main L T W) unit :=
  match calls with
  | [] => stuck OutOfFuel
  | c :: calls =>
    if stopped c then ret tt else
    res <- on_face (UIInputLoop rand image entry iswcntrl wcwidth K line_array (call_turns c));;
    if (0 <? res)%Z then
      s <- get;;
      match buffer (inp (face s)) with
      | None => stuck NullDereference
      | Some b =>
        more <- on_conn (send_typed wcrtomb b (call_writes c));;
        if more then App_loop calls else ret tt
      end
    else ret tt
  end.

Definition App_main (calls : list (call W)) (last_writes : list Z) : cmd (main L T W) unit :=
  App_loop calls;;;
  on_conn (send (blank_message kMessageTypeQuit) last_writes);;;
  ret tt.

(** What the main thread does to the connection is what [App_run] does, on the
    messages that the input loop returns. *)
Lemma App_loop_inputs calls : ∀ s s', App_loop calls s = Done (tt, s') →
  ∃ inputs, input_loop wcrtomb inputs (conn s) = Done (tt, conn s').
Proof.
  induction calls as [|c calls IH]; intros s s'; cbn [App_loop]; [done|].
  destruct (stopped c); [intros [= <-]; by exists [Terminate]|]. intros (res & s1 & R1 & R2)%bind_inv.
  assert (E1 : conn s1 = conn s).
  { unfold on_face in R1. destruct (UIInputLoop _ _ _ _ _ _ _ _ _) as [[? ?]|]; [by injection R1 as _ <-|done]. }
  destruct (0 <? res)%Z; [|injection R2 as <-; exists [Terminate]; by rewrite E1]. rewrite bind_get in R2.
  destruct (buffer (inp (face s1))) as [b|]; [|done]. apply bind_inv in R2 as (more & s2 & R3 & R4).
  assert (E2 : send_typed wcrtomb b (call_writes c) (conn s) = Done (more, conn s2)).
  { rewrite <- E1. unfold on_conn in R3. destruct (send_typed _ _ _ _) as [[? ?]|]; [by injection R3 as <- <-|done]. }
  destruct more.
  - destruct (IH s2 s' R4) as (inputs & Hi). exists (Typed b (call_writes c) :: inputs). cbn [input_loop]. by run E2.
  - injection R4 as <-. exists [Typed b (call_writes c)]. cbn [input_loop]. by run E2.
Qed.

Lemma App_main_inputs calls last_writes s s' : App_main calls last_writes s = Done (tt, s') →
  ∃ inputs, App_run wcrtomb inputs last_writes (conn s) = Done (tt, conn s').
Proof.
  unfold App_main, App_run. intros ([] & s1 & R1 & (n & s2 & R2 & [= <-])%bind_inv)%bind_inv.
  destruct (App_loop_inputs calls s s1 R1) as (inputs & Hi). exists inputs. run Hi.
  unfold on_conn in R2. destruct (send _ _ _) as [[? ?]|] eqn:E; [|done]. injection R2 as <- <-. by run E.
Qed.
End Typing.

(** ** What is typed *)

(** A message: what happens until Enter, Enter, and the answers to the writes. *)
Record message (W : Type) : Type := Message { msg_turns : list (turn W); msg_enter : turn W; msg_writes : list Z }.
Arguments Message {W}.
Arguments msg_turns {W}.
Arguments msg_enter {W}.
Arguments msg_writes {W}.

Definition call_of {W} (x : message W) : call W := Call false (msg_turns x ++ [msg_enter x]) (msg_writes x).

Section Spec.
Context {L T W : Type} `{ClientStores.Sequence L} `{ClientStores.Table T} `{Wrapping W}.
Context (rand : nat → Z) (image : ChatLogEntry → bytes) (entry : bytes → ChatLogEntry).
Context (Hrand : ∀ n, (0 ≤ rand n)%Z) (Hentry : ∀ e, entry (image e) = e).
Context (iswcntrl : Z → bool) (wcwidth : Z → Z) (K : keypad) (wcrtomb : Z → bytes).
Context (Hnarrow : ∀ c, narrow c → iswcntrl c = false ∧ wcwidth c = 1%Z).
Context (n m : nat) (Hn : 1 ≤ n) (Hm : 1 ≤ m) (Hmax : (Z.of_nat (n * m) ≤ 100000)%Z).
Implicit Types (x : message W) (xs : list (message W)) (upd : bool) (md : UIChatWinMode) (t : bytes) (ts : list bytes).

Abbreviation App_loop := (App_loop rand image entry iswcntrl wcwidth K wcrtomb).
Abbreviation App_main := (App_main rand image entry iswcntrl wcwidth K wcrtomb).
Abbreviation summary := (summary K (edit_at n m)).

Definition line_of upd md x : list Z :=
  let r := summary (msg_turns x) upd md ([], []) in r.1.1 ++ r.1.2.
Definition events_of upd md x : list chat_event := (summary (msg_turns x) upd md ([], [])).2.
Definition upd_of upd x : bool := upd_through (msg_turns x) upd || sig_update (msg_enter x).
Definition md_of md x : UIChatWinMode := md_through K (msg_turns x) md.

(** The keys are legal where they come, and there is room for them. *)
Record good_keys (turns : list (turn W)) md : Prop := {
  gk_turns : Forall (good_turn K) turns;
  gk_legal : legal_turns K n m turns md ([], []);
  gk_window : sum_list (typed_by K <$> turns) < n * m;
  gk_array : sum_list (typed_by K <$> turns) < length line_array
}.

(** [x] makes the text [t]. *)
Record makes upd md x t : Prop := {
  mk_keys : good_keys (msg_turns x) md;
  mk_enter : ∃ ch, got (msg_enter x) = Got ch ∧ key_case_of K ch = CEnter ∧ ch ≠ KEY_F1 K ∧ ch ≠ KEY_RESIZE K;
  mk_signals : sig_terminate (msg_enter x) = false ∧ sig_resize (msg_enter x) = false;
  mk_line : line_of upd md x ≠ [];
  mk_nul : 0%Z ∉ line_of upd md x;
  mk_text : concat (wcrtomb <$> strip wide_seps (line_of upd md x)) = t
}.

Definition sendable t (writes : list Z) : Prop :=
  t ≠ [] → good_packet (typed_packet t) ∧ head t ≠ Some "/"%char
           ∧ full_writes writes (length (packet_wire (typed_packet t)) + 1).

(** Messages one after the other, with the texts they make. *)
Fixpoint conversation upd md xs ts : Prop :=
  match xs, ts with
  | [], [] => True
  | x :: xs, t :: ts => makes upd md x t ∧ sendable t (msg_writes x) ∧ conversation (upd_of upd x) (md_of md x) xs ts
  | _, _ => False
  end.

Fixpoint happens upd md xs : list chat_event * (bool * UIChatWinMode) :=
  match xs with
  | [] => ([], (upd, md))
  | x :: xs => let r := happens (upd_of upd x) (md_of md x) xs in (events_of upd md x ++ r.1, r.2)
  end.

(** The last call: the flag is found set, the input loop is told to end, or
    "/quit" is typed. *)
Inductive last_call upd md : call W → list chat_event → Prop :=
  | last_stopped turns writes : last_call upd md (Call true turns writes) []
  | last_told turns y rest writes : good_keys turns md → ends_loop K y →
      last_call upd md (Call false (turns ++ y :: rest) writes) (summary turns upd md ([], [])).2
  | last_quit x : makes upd md x (lit "/quit") → last_call upd md (call_of x) (events_of upd md x).

Lemma on_face_run {A} (c : cmd (UiLoop.ui L T W) A) f cl a f' : c f = Done (a, f') → on_face c (Main f cl) = Done (a, Main f' cl).
Proof. unfold on_face. cbn. by intros ->. Qed.
Lemma on_conn_run {A} (c : cmd C2HatClient A) (f : UiLoop.ui L T W) cl a cl' : c cl = Done (a, cl') → on_conn c (Main f cl) = Done (a, Main f cl').
Proof. unfold on_conn. cbn. by intros ->. Qed.

Abbreviation at_prompt := (at_prompt image n m).

(** The input loop returns a message. *)
Lemma message_typed upd md p k es f x t rest : makes upd md x t →
  at_prompt upd md (2 * length (events_of upd md x) + p) (100 * length (events_of upd md x) + k) es f →
  ∃ f' b n', UIInputLoop rand image entry iswcntrl wcwidth K line_array (msg_turns x ++ msg_enter x :: rest) f = Done (n', f')
    ∧ (0 < n')%Z ∧ buffer (inp f') = Some b ∧ reads_as wcrtomb b t
    ∧ at_prompt (upd_of upd x) (md_of md x) p k (lastn 100 (es ++ all_accepted (events_of upd md x))) f'.
Proof.
  intros [[G1 G2 G3 G4] (ch & E1 & E2 & E3 & E4) [S1 S2] M1 M2 M3] P.
  destruct (entered rand image entry Hrand Hentry iswcntrl wcwidth K Hnarrow n m line_array (msg_turns x) upd md p k es f
    Hn Hm Hmax G3 G4 G1 G2 P (msg_enter x) rest ch wcrtomb E1 E2 E3 E4 M1) as (f' & b & R1 & R2 & _ & R4 & _ & R6).
  eexists f', b, _. split; [exact R1|]. split; [lia|]. split; [done|]. split; [rewrite <- M3; by apply R4|by apply R6].
Qed.

Lemma App_loop_message upd md p k es f cl x t calls : makes upd md x t → sendable t (msg_writes x) → 1 ≤ room cl →
  at_prompt upd md (2 * length (events_of upd md x) + p) (100 * length (events_of upd md x) + k) es f →
  ∃ f' r, App_loop (call_of x :: calls) (Main f cl)
      = App_loop calls (Main f' (set_room r (set_sent (sent cl ++ stream (typed_packets [t])) cl)))
    ∧ room cl ≤ r + 1
    ∧ at_prompt (upd_of upd x) (md_of md x) p k (lastn 100 (es ++ all_accepted (events_of upd md x))) f'.
Proof.
  intros M Hs Hr P. destruct (message_typed upd md p k es f x t [] M P) as (f' & b & n' & R1 & R2 & R3 & R4 & R5).
  destruct (send_line wcrtomb b t (msg_writes x) cl R4 Hr Hs) as (r & Hsend & Hle).
  exists f', r. split_and!; [|assert (length (typed_packets [t]) ≤ 1) by (unfold typed_packets; rewrite length_fmap; etrans; [apply length_filter|done]); lia|done].
  cbn [Typing.App_loop call_of stopped call_turns call_writes].
  erewrite bind_Done by (apply on_face_run; exact R1). rewrite (proj2 (Z.ltb_lt _ _)) by done. rewrite bind_get. cbn [face]. rewrite R3.
  by erewrite bind_Done by (apply on_conn_run; exact Hsend).
Qed.

Lemma App_loop_last upd md es f cl c evs rest : last_call upd md c evs → 2 ≤ room cl →
  at_prompt upd md (2 * length evs) (100 * length evs) es f →
  ∃ f' r, App_loop (c :: rest) (Main f cl) = Done (tt, Main f' (set_room r cl))
    ∧ seq_holds 0 (chatlog (chat f')) (log_of image (lastn 100 (es ++ all_accepted evs))).
Proof.
  intros Hc Hr P. destruct Hc as [turns writes|turns t rst writes [G1 G2 G3 G4] He|x M].
  - exists f, (room cl). split; [by destruct cl|]. destruct (pr_chat _ _ _ _ _ _ _ _ _ P) as (mm & C).
    eapply happened_log. by eapply happened_nothing.
  - assert (P' : at_prompt upd md (2 * length (summary turns upd md ([], [])).2 + 0) (100 * length (summary turns upd md ([], [])).2 + 0) es f)
      by (by rewrite !Nat.add_0_r).
    destruct (ended rand image entry Hrand Hentry iswcntrl wcwidth K Hnarrow n m line_array turns upd md 0 0 es f
      Hn Hm Hmax G3 G4 G1 G2 P' t rst He) as (f' & R1 & _ & R3).
    exists f', (room cl). split; [|done]. cbn [Typing.App_loop stopped call_turns].
    erewrite bind_Done by (apply on_face_run; exact R1). by destruct cl.
  - assert (P' : at_prompt upd md (2 * length (events_of upd md x) + 0) (100 * length (events_of upd md x) + 0) es f)
      by (by rewrite !Nat.add_0_r).
    destruct (message_typed upd md 0 0 es f x _ [] M P') as (f' & b & n' & R1 & R2 & R3 & R4 & R5).
    destruct (send_quit wcrtomb b (msg_writes x) cl R4 Hr) as (r & Hsend). exists f', r. split.
    + cbn [Typing.App_loop call_of stopped call_turns call_writes].
      erewrite bind_Done by (apply on_face_run; exact R1). rewrite (proj2 (Z.ltb_lt _ _)) by done. rewrite bind_get. cbn [face]. rewrite R3.
      by erewrite bind_Done by (apply on_conn_run; exact Hsend).
    + destruct (pr_chat _ _ _ _ _ _ _ _ _ R5) as (mm & C). destruct C as [C _]. exact (b_log _ _ _ _ _ _ C).
Qed.

Lemma conversation_run xs : ∀ upd md ts es f cl c evs rest,
  let r := happens upd md xs in
  conversation upd md xs ts → last_call r.2.1 r.2.2 c evs → 2 + length xs ≤ room cl →
  at_prompt upd md (2 * length (r.1 ++ evs)) (100 * length (r.1 ++ evs)) es f →
  ∃ f' rm, App_loop ((call_of <$> xs) ++ c :: rest) (Main f cl)
      = Done (tt, Main f' (set_room rm (set_sent (sent cl ++ stream (typed_packets ts)) cl)))
    ∧ seq_holds 0 (chatlog (chat f')) (log_of image (lastn 100 (es ++ all_accepted (r.1 ++ evs)))).
Proof.
  induction xs as [|x xs IH]; intros upd md ts es f cl c evs rest r Hc Hl Hr P; destruct ts as [|t ts]; try done.
  - destruct (App_loop_last upd md es f cl c evs rest Hl) as (f' & rm & R1 & R2); [lia|done|]. exists f', rm. split; [|done].
    cbn [fmap list_fmap Datatypes.app]. rewrite R1. cbn. rewrite app_nil_r. by destruct cl.
  - destruct Hc as (M & Hs & Hc). subst r. cbn [happens fst snd] in *. set (r := happens (upd_of upd x) (md_of md x) xs) in *.
    rewrite <- app_assoc in *. rewrite length_app, !Nat.mul_add_distr_l in P. cbn [length] in Hr.
    destruct (App_loop_message upd md _ _ es f cl x t ((call_of <$> xs) ++ c :: rest) M Hs ltac:(lia) P) as (f1 & r1 & R1 & R2 & R3).
    destruct (IH _ _ ts (lastn 100 (es ++ all_accepted (events_of upd md x))) f1 (set_room r1 (set_sent (sent cl ++ stream (typed_packets [t])) cl)) c evs rest Hc Hl) as (f2 & r2 & Q1 & Q2);
      [cbn; lia|exact R3|].
    exists f2, r2. change (call_of <$> x :: xs) with (call_of x :: (call_of <$> xs)). cbn [Datatypes.app]. rewrite R1, Q1. split.
    + do 3 f_equal. cbn [sent set_room set_sent server closed ssl verified cbuffer logFilePath clogLevel].
      unfold typed_packets. change (t :: ts) with ([t] ++ ts). rewrite filter_app, fmap_app. unfold stream.
      by rewrite flat_map_app, app_assoc.
    + rewrite lastn_app, <- app_assoc in Q2. unfold all_accepted in *. by rewrite bind_app.
Qed.

(** C18. The main thread, from the keys to the wire: of the messages that are
    typed, on any number of lines and with whatever arrives in between, those
    that are not empty after trimming are sent, once each and in order, as
    "/msg" messages; when the session ends (by a signal, by F1, or by the typed
    command "/quit"), one "/quit" follows, and nothing typed later is sent; and
    the chat log holds the last hundred lines of everything that happened. *)
Theorem conversation_is_sent xs upd md ts es f cl c evs rest last_writes :
  let r := happens upd md xs in
  conversation upd md xs ts → last_call r.2.1 r.2.2 c evs → 2 + length xs ≤ room cl →
  at_prompt upd md (2 * length (r.1 ++ evs)) (100 * length (r.1 ++ evs)) es f →
  full_writes last_writes (length (packet_wire quit_packet) + 1) →
  ∃ f' cl', App_main ((call_of <$> xs) ++ c :: rest) last_writes (Main f cl) = Done (tt, Main f' cl')
    ∧ sent cl' = sent cl ++ stream (typed_packets ts ++ [quit_packet])
    ∧ seq_holds 0 (chatlog (chat f')) (log_of image (lastn 100 (es ++ all_accepted (r.1 ++ evs)))).
Proof.
  intros r Hc Hl Hr P Hw. destruct (conversation_run xs upd md ts es f cl c evs rest Hc Hl Hr P) as (f' & rm & R1 & R2).
  unfold Typing.App_main. run R1. rewrite quit_message.
  destruct (send_packet quit_packet last_writes (set_room rm (set_sent (sent cl ++ stream (typed_packets ts)) cl))
    quit_good Hw) as (z & Hs & _). erewrite bind_Done by (apply on_conn_run; exact Hs).
  eexists f', _. split; [reflexivity|]. split; [|done]. cbn [sent set_sent set_room]. unfold stream. rewrite flat_map_app.
  cbn [flat_map]. by rewrite app_nil_r, !app_assoc.
Qed.

(** One message is sent as [input_loop] sends its buffer. *)
Lemma App_loop_one upd md p k es f x t : makes upd md x t →
  at_prompt upd md (2 * length (events_of upd md x) + p) (100 * length (events_of upd md x) + k) es f →
  ∃ f' b, reads_as wcrtomb b t
    ∧ at_prompt (upd_of upd x) (md_of md x) p k (lastn 100 (es ++ all_accepted (events_of upd md x))) f'
    ∧ (∀ cl cl', input_loop wcrtomb [Typed b (msg_writes x); Terminate] cl = Done (tt, cl') →
       App_loop [call_of x; Call true [] []] (Main f cl) = Done (tt, Main f' cl')).
Proof.
  intros M P. destruct (message_typed upd md p k es f x t [] M P) as (f' & b & n' & R1 & R2 & R3 & R4 & R5).
  exists f', b. split; [done|]. split; [done|]. cbn [input_loop Typing.App_loop call_of stopped call_turns call_writes].
  intros cl cl' (more & cl1 & R6 & R7)%bind_inv.
  erewrite bind_Done by (apply on_face_run; exact R1). rewrite (proj2 (Z.ltb_lt _ _)) by done. rewrite bind_get. cbn [face]. rewrite R3.
  erewrite bind_Done by (apply on_conn_run; exact R6). destruct more; by injection R7 as <-.
Qed.

End Spec.

(** ** Samples *)

Module TypingSample.
Definition typed (cs : list Z) (writes : list Z) : message InputSample.screen :=
  Message (UiSample.key <$> cs) (UiSample.key 10) writes.

(** The message of three lines of UiSpec, and a line of spaces. *)
Definition hello : message InputSample.screen := Message UiSample.long_turns (UiSample.key 10) [10; 7]%Z.
Definition spaces : message InputSample.screen := typed [32; 32]%Z [].
Definition quit : message InputSample.screen := typed [47; 113; 117; 105; 116]%Z [].
Definition hi_all : message InputSample.screen := typed [32; 104; 105; 32; 97; 108; 108; 32]%Z [4; 8]%Z.

Abbreviation makes := (makes UiSample.ncurses AppSample.ascii_wcrtomb).

Lemma printable_key c : (32 ≤ c < 127)%Z → key_case_of UiSample.ncurses c = CChar.
Proof.
  intros Hc. unfold key_case_of, kKeyBackspace, kKeyDel, kKeyEnter, kKeyEOT, kKeyESC. cbn.
  repeat (case_decide; [lia|]). done.
Qed.

Lemma typed_good_keys n m cs writes md :
  Forall (λ c, 32 ≤ c < 127)%Z cs → legal_turns UiSample.ncurses n m (UiSample.key <$> cs) md ([], []) →
  sum_list (typed_by UiSample.ncurses <$> (UiSample.key <$> cs)) < n * m →
  sum_list (typed_by UiSample.ncurses <$> (UiSample.key <$> cs)) < 281 →
  good_keys UiSample.ncurses n m (msg_turns (typed cs writes)) md.
Proof.
  intros Hcs Hl Hw Ha. split; [|done|done|done]. apply Forall_fmap. eapply Forall_impl; [exact Hcs|]. intros c Hc. cbn beta in Hc.
  apply UiSample.good_key; [by rewrite printable_key|lia|lia|done].
Qed.

(** The keys of a sample make its text. *)
Ltac made_by keys :=
  split; [exact keys
         |exists 10%Z; split_and!; [reflexivity|reflexivity|discriminate|discriminate]
         |done|vm_compute; discriminate|not_in|vm_compute; reflexivity].
Ltac typed_keys :=
  apply typed_good_keys; [repeat constructor; lia|apply (bool_decide_eq_true_1 _); vm_compute; reflexivity
                         |vm_compute; lia|apply Nat.ltb_lt; vm_compute; reflexivity].

Lemma hello_keys : good_keys UiSample.ncurses 3 8 (msg_turns hello) kChatWinModeLive.
Proof.
  split; [exact UiSample.good_long_turns|apply (bool_decide_eq_true_1 _); vm_compute; reflexivity
         |vm_compute; lia|apply Nat.ltb_lt; vm_compute; reflexivity].
Qed.

Lemma hello_makes : makes 3 8 false kChatWinModeLive hello (lit "hello wor!l").
Proof. made_by hello_keys. Qed.
Lemma spaces_keys : good_keys UiSample.ncurses 3 8 (msg_turns spaces) kChatWinModeLive.
Proof. typed_keys. Qed.
Lemma spaces_make : makes 3 8 false kChatWinModeLive spaces [].
Proof. made_by spaces_keys. Qed.
Lemma quit_keys : good_keys UiSample.ncurses 3 8 (msg_turns quit) kChatWinModeLive.
Proof. typed_keys. Qed.
Lemma quit_makes : makes 3 8 false kChatWinModeLive quit (lit "/quit").
Proof. made_by quit_keys. Qed.
Lemma hi_all_keys : good_keys UiSample.ncurses 3 98 (msg_turns hi_all) kChatWinModeLive.
Proof. typed_keys. Qed.
Lemma hi_all_makes : makes 3 98 false kChatWinModeLive hi_all (lit "hi all").
Proof. made_by hi_all_keys. Qed.
End TypingSample.

Lemma conversation_is_sent_witness : ∃ f' cl',
  App_main (λ _, 3%Z) ChatSample.image ChatSample.entry InputDemo.iswcntrl InputDemo.wcwidth UiSample.ncurses AppSample.ascii_wcrtomb
    [call_of TypingSample.hello; call_of TypingSample.spaces; call_of TypingSample.quit; call_of TypingSample.hello] [6]%Z
    (Main (UiSample.start_in 3 8) AppSample.connection) = Done (tt, Main f' cl')
  ∧ sent cl' = lit "/msg hello wor!l" ++ [NUL] ++ lit "/quit" ++ [NUL]
  ∧ seq_holds 0 (chatlog (chat f')) (log_of ChatSample.image [CLine (lit "12:00:00") kMessageTypeMsg (lit "hello") (lit "ann")]).
Proof.
  destruct (conversation_is_sent (λ _, 3%Z) ChatSample.image ChatSample.entry ltac:(lia) ChatSample.entry_image
    InputDemo.iswcntrl InputDemo.wcwidth UiSample.ncurses AppSample.ascii_wcrtomb InputDemo.narrow_ok 3 8 ltac:(lia) ltac:(lia) ltac:(lia)
    [TypingSample.hello; TypingSample.spaces] false kChatWinModeLive [lit "hello wor!l"; []] [] (UiSample.start_in 3 8)
    AppSample.connection (call_of TypingSample.quit)
    (events_of UiSample.ncurses 3 8 false kChatWinModeLive TypingSample.quit) [call_of TypingSample.hello] [6]%Z)
    as (f' & cl' & R1 & R2 & R3).
  - split; [exact TypingSample.hello_makes|]. split.
    + intros _. split; [split; [good_concrete|apply Nat.ltb_lt; vm_compute; reflexivity]|]. split; [discriminate|].
      replace (length (packet_wire _) + 1) with 17 by (vm_compute; reflexivity). cbn. lia.
    + split; [exact TypingSample.spaces_make|]. split; [by intros []|exact I].
  - exact (last_quit _ _ _ _ _ _ _ TypingSample.quit_makes).
  - cbn. lia.
  - apply (start_at_prompt 3 8). lia.
  - replace (length (packet_wire _) + 1) with 6 by (vm_compute; reflexivity). cbn. lia.
  - exists f', cl'. split; [exact R1|]. split; [rewrite R2; vm_compute; reflexivity|exact R3].
Defined.

