(* ===== verification/AppStart.v ===== *)
(** * The life of the client process (src/client/main.c, app.c, ui.c)

    From [main] to the function registered with [atexit]: creating and
    connecting the client, authenticating, starting the user interface and the
    listening thread, the session, and what is released, on whichever path the
    process ends.  During the session three things happen in any order, given
    as a list: the input loop of the main thread returns, a call of [select]
    of the listening thread returns, a signal is handled.  When the list is
    over the process waits.  Signals are handled between the calls of the main
    thread, from [App_start] on; those that are not caught yet, and faults
    inside a function of ncurses, are left out.  The windows of ncurses are
    the set of those that exist; the containers of the chat window and the
    queue are allocated or not (their contents are in ChatLog.v, AppLib.v);
    what the system answers is a record. *)

From S2P Require Import Prelude.
From S2P Require Import CStr.
From S2P Require Import MessageLib.
From S2P Require Import MessageSpec.
From S2P Require Import Logger.
From S2P Require Import Tls.
From S2P Require Import Transport.
From S2P Require Import ServerSettings.
From S2P Require Import FsUtil.
From S2P Require Import ClientSettings.
From S2P Require Import ClientLib.
From S2P Require Import NcColor.
From S2P Require Import StatusBar.
From S2P Require Import AppLib.
From S2P Require Import UiLoop.
From S2P Require Import Control.

(** ** State *)

(** ncurses: not started, drawing, or ended by [endwin]. *)
Inductive curses : Type := NotStarted | Drawing | EndedWin.

#[export] Instance curses_eq_dec : EqDecision curses.
Proof. solve_decision. Defined.

Inductive window_name : Type := ScreenWin | ChatBox | ChatWindow | InputBox | InputWindowWin.

#[export] Instance window_name_eq_dec : EqDecision window_name.
Proof. solve_decision. Defined.

Record life : Type := Life {
  l_client : option C2HatClient;
  l_contexts : contexts;
  l_messages : bool;
  l_curses : curses;
  l_windows : list window_name;
  l_users : bool;
  l_chatlog : bool;
  l_status : UIStatusBar;
  l_palette : palette;
  l_registered : bool;
  l_signals : list Z;
  l_listening : bool;
  l_terminate : bool;
  l_ui_terminate : bool;
  l_ui_update : bool;
  l_ui_resize : bool;
  l_log : logger
}.

Definition set_client v l := Life v (l_contexts l) (l_messages l) (l_curses l) (l_windows l) (l_users l) (l_chatlog l) (l_status l) (l_palette l) (l_registered l) (l_signals l) (l_listening l) (l_terminate l) (l_ui_terminate l) (l_ui_update l) (l_ui_resize l) (l_log l).
Definition set_contexts v l := Life (l_client l) v (l_messages l) (l_curses l) (l_windows l) (l_users l) (l_chatlog l) (l_status l) (l_palette l) (l_registered l) (l_signals l) (l_listening l) (l_terminate l) (l_ui_terminate l) (l_ui_update l) (l_ui_resize l) (l_log l).
Definition set_messages v l := Life (l_client l) (l_contexts l) v (l_curses l) (l_windows l) (l_users l) (l_chatlog l) (l_status l) (l_palette l) (l_registered l) (l_signals l) (l_listening l) (l_terminate l) (l_ui_terminate l) (l_ui_update l) (l_ui_resize l) (l_log l).
Definition set_curses v l := Life (l_client l) (l_contexts l) (l_messages l) v (l_windows l) (l_users l) (l_chatlog l) (l_status l) (l_palette l) (l_registered l) (l_signals l) (l_listening l) (l_terminate l) (l_ui_terminate l) (l_ui_update l) (l_ui_resize l) (l_log l).
Definition set_windows v l := Life (l_client l) (l_contexts l) (l_messages l) (l_curses l) v (l_users l) (l_chatlog l) (l_status l) (l_palette l) (l_registered l) (l_signals l) (l_listening l) (l_terminate l) (l_ui_terminate l) (l_ui_update l) (l_ui_resize l) (l_log l).
Definition set_chat u c l := Life (l_client l) (l_contexts l) (l_messages l) (l_curses l) (l_windows l) u c (l_status l) (l_palette l) (l_registered l) (l_signals l) (l_listening l) (l_terminate l) (l_ui_terminate l) (l_ui_update l) (l_ui_resize l) (l_log l).
Definition set_status v l := Life (l_client l) (l_contexts l) (l_messages l) (l_curses l) (l_windows l) (l_users l) (l_chatlog l) v (l_palette l) (l_registered l) (l_signals l) (l_listening l) (l_terminate l) (l_ui_terminate l) (l_ui_update l) (l_ui_resize l) (l_log l).
Definition set_palette v g l := Life (l_client l) (l_contexts l) (l_messages l) (l_curses l) (l_windows l) (l_users l) (l_chatlog l) (l_status l) v (l_registered l) (l_signals l) (l_listening l) (l_terminate l) (l_ui_terminate l) (l_ui_update l) (l_ui_resize l) g.
Definition set_process r s t l := Life (l_client l) (l_contexts l) (l_messages l) (l_curses l) (l_windows l) (l_users l) (l_chatlog l) (l_status l) (l_palette l) r s t (l_terminate l) (l_ui_terminate l) (l_ui_update l) (l_ui_resize l) (l_log l).
Definition set_flags t u v w l := Life (l_client l) (l_contexts l) (l_messages l) (l_curses l) (l_windows l) (l_users l) (l_chatlog l) (l_status l) (l_palette l) (l_registered l) (l_signals l) (l_listening l) t u v w (l_log l).

Definition newborn (level : Z) : life :=
  Life None [] false NotStarted [] false false no_bar fresh_palette false [] false false false false false (MkLogger level []).

(** ** What the system answers *)

(** What happens during the session. *)
Inductive happening : Type :=
  | Types (i : input)
  | Hears (e : listen_event)
  | Raised (signal : Z).

(** [a_connecting]: a crash is caught while the client connects; the signals
    that arrive before ncurses is started, when the interface is on, and
    between the end of the input and the closing of the interface; the
    session, and what happens while the main thread waits at its end. *)
Record answers : Type := Answers {
  a_tty : bool;
  a_locale : option bytes;
  a_mkdir : paths → bytes → bool;
  a_env : environ;
  a_argc : nat;
  a_found : list client_option;
  a_rest : list bytes;
  a_paths : paths;
  a_tls : tls_library;
  a_readable : bytes → bool;
  a_calloc : bool;
  a_allocs : nat;
  a_net : network;
  a_nickname : option (list Z);
  a_reads1 : list read_answer;
  a_writes : list Z;
  a_reads2 : list read_answer;
  a_queue : bool;
  a_initscr : bool;
  a_colours : terminal_colours;
  a_pow : double → double → double;
  a_draw : Z → nat → N;
  a_users : bool;
  a_chatlog : bool;
  a_screen : UIScreen;
  a_prints : Z → bytes → bool;
  a_thread : bool;
  a_connecting : bool;
  a_early : list Z;
  a_started : list Z;
  a_session : list happening;
  a_last_writes : list Z;
  a_closing : list Z;
  a_moment : moment;
  a_why : bytes
}.

Definition SIGINT : Z := 2.
Definition SIGSEGV : Z := 11.
Definition SIGUSR2 : Z := 12.
Definition SIGTERM : Z := 15.
Definition SIGWINCH : Z := 28.

Section App.
Context (wcrtomb : Z → bytes) (a : answers).

Definition on_client {A} (m : cmd C2HatClient A) : cmd life A := λ l,
  match l_client l with
  | None => Stuck NullDereference
  | Some c => match m c with Done (r, c) => Done (r, set_client (Some c) l) | Stuck w => Stuck w end
  end.
Definition on_status {A} (m : cmd UIStatusBar A) : cmd life A := λ l,
  match m (l_status l) with Done (r, b) => Done (r, set_status b l) | Stuck w => Stuck w end.
Definition on_contexts {A} (m : cmd contexts A) : cmd life A := λ l,
  match m (l_contexts l) with Done (r, cs) => Done (r, set_contexts cs l) | Stuck w => Stuck w end.
Definition on_palette {A} (m : cmd (palette * logger) A) : cmd life A := λ l,
  match m (l_palette l, l_log l) with Done (r, (p, g)) => Done (r, set_palette p g l) | Stuck w => Stuck w end.

(** ** Releasing *)

(** [UIWindow_destroy]: nothing on [NULL]. *)
Definition UIWindow_destroy (w : window_name) : cmd life unit :=
  modify (λ l, set_windows (filter (λ x, x ≠ w) (l_windows l)) l).

Definition UIInputWin_destroy : cmd life unit :=
  UIWindow_destroy InputWindowWin;;; UIWindow_destroy InputBox.

Definition UIChatWin_destroy : cmd life unit :=
  UIWindow_destroy ChatWindow;;;
  UIWindow_destroy ChatBox;;;
  modify (set_chat false false).

Definition isendwin (l : life) : bool := bool_decide (l_curses l = EndedWin).

(** [endwin] does nothing before [initscr]. *)
Definition endwin : cmd life unit :=
  modify (λ l, set_curses (match l_curses l with NotStarted => NotStarted | _ => EndedWin end) l).

Definition UIClean : cmd life unit :=
  on_status UIStatusBar_destroy;;;
  UIInputWin_destroy;;;
  UIChatWin_destroy;;;
  UIWindow_destroy ScreenWin;;;
  endwin.

Definition App_cleanup : cmd life unit :=
  l <- get;;
  (if negb (isendwin l) then UIClean else ret tt);;;
  l <- get;;
  (if decide (l_client l = None) then ret tt
   else c <- on_contexts (Client_destroy (l_client l));; modify (set_client c));;;
  l <- get;;
  (if l_messages l then modify (set_messages false) else ret tt).

(** ** Signals *)

Definition App_catch (sig : Z) : cmd life unit :=
  modify (λ l, set_process (l_registered l) (sig :: l_signals l) (l_listening l) l).

(** The flag of app.c, and those of ui.c. *)
Definition set_terminate : cmd life unit :=
  modify (λ l, set_flags true (l_ui_terminate l) (l_ui_update l) (l_ui_resize l) l).
Definition UITerminate : cmd life unit := modify (λ l, set_flags (l_terminate l) true (l_ui_update l) (l_ui_resize l) l).
Definition UIUpdateChatLog : cmd life unit := modify (λ l, set_flags (l_terminate l) (l_ui_terminate l) true (l_ui_resize l) l).

(** [refresh] draws the screen's window again: not one that was deleted. *)
Definition refresh : cmd life unit := λ l,
  match l_curses l with
  | NotStarted => Done (tt, l)
  | _ => if decide (ScreenWin ∈ l_windows l) then Done (tt, set_curses Drawing l) else Stuck DanglingPointer
  end.

Definition UIResize : cmd life unit :=
  modify (λ l, set_flags (l_terminate l) (l_ui_terminate l) (l_ui_update l) true l);;;
  endwin;;;
  refresh.

Definition App_handleSignal (signal : Z) : proc life unit :=
  if decide (signal = SIGINT ∨ signal = SIGTERM) then
    _ <~ exec set_terminate;; exec UITerminate
  else if decide (signal = SIGUSR2) then exec UIUpdateChatLog
  else if decide (signal = SIGWINCH) then exec UIResize
  else if decide (signal = SIGSEGV) then
    l <~ exec get;;
    _ <~ exec (if negb (isendwin l) then endwin else ret tt);;
    exit EXIT_FAILURE
  else exec (on_palette (λ st, match log Info (a_moment a) (lit "Unhandled signal received %s") [AStr (a_why a)] st.2 with
                               | Done (_, g) => Done (tt, (st.1, g))
                               | Stuck w => Stuck w
                               end)).

(** ** Starting *)

(** The macros [App_checkTTY] and [App_initLocale]. *)
Definition App_checkTTY : proc life unit := if a_tty a then go tt else exit EXIT_FAILURE.
Definition App_initLocale : proc life unit :=
  match a_locale a with
  | None => exit EXIT_FAILURE
  | Some name => if contains name (lit "UTF-8") then go tt else exit EXIT_FAILURE
  end.

Definition App_init (options : ClientOptions) : proc life unit :=
  l <~ exec get;;
  if decide (l_client l ≠ None) then go tt else
  _ <~ exec (modify (λ l, set_process true (l_signals l) (l_listening l) l));;
  _ <~ exec (App_catch SIGSEGV);;
  client <~ exec (on_contexts (Client_create (a_tls a) (a_readable a) (a_calloc a) options (a_allocs a)));;
  _ <~ exec (modify (set_client client));;
  match client with
  | None => exit EXIT_FAILURE
  | Some _ =>
    (if a_connecting a then App_handleSignal SIGSEGV else go tt) ;~
    h <~ exec (lift (cstr (o_host options)));;
    ok <~ exec (on_client (Client_connect (a_net a) h));;
    if (ok : bool) then go tt else exit EXIT_FAILURE
  end.

Definition authenticate (options : ClientOptions) : proc life unit :=
  l <~ exec get;;
  if decide (l_client l = None) then exit EXIT_FAILURE else
  ok <~ exec (on_client (App_authenticate wcrtomb (o_user options) (a_nickname a) (a_reads1 a) (a_writes a) (a_reads2 a)));;
  if (ok : bool) then go tt else exit EXIT_FAILURE.

(** [UIRender(false)], as far as windows are created and the bar is drawn. *)
Definition UIRender_first : cmd life unit :=
  if UIScreen_isBigEnough (a_screen a) kMaxMessageLength then
    modify (λ l, set_windows ([InputWindowWin; InputBox; ChatWindow; ChatBox] ++ l_windows l) l);;;
    on_status (UIStatusBar_render (a_prints a) (scols (a_screen a)));;;
    on_status (UISetStatusMode (a_prints a) false);;;
    on_status (UISetStatusSize (a_prints a) (slines (a_screen a)) (scols (a_screen a)));;;
    ret tt
  else ret tt.

Definition UIInit : proc life unit :=
  l <~ exec get;;
  if decide (ScreenWin ∈ l_windows l) then go tt else
  if negb (a_initscr a) then exit EXIT_FAILURE else
  _ <~ exec (modify (λ l, set_curses Drawing (set_windows (ScreenWin :: l_windows l) l)));;
  _ <~ on_palette (UIColor_init (a_pow a) (a_draw a) (a_moment a) (a_why a) (a_colours a));;
  _ <~ exec (modify (λ l, set_chat (a_users a) (a_users a && a_chatlog a) l));;
  if negb (a_users a && a_chatlog a) then exit EXIT_FAILURE else
  exec UIRender_first.

(** Signals that arrive between two calls. *)
Fixpoint interrupted (signals : list Z) : proc life unit :=
  match signals with
  | [] => go tt
  | s :: signals => App_handleSignal s ;~ interrupted signals
  end.

(** ** The session *)

(** The end of [App_listen]: the socket is closed, and the main thread is sent
    [SIGTERM]. *)
Definition App_listen_end : proc life unit :=
  _ <~ exec (on_client (modify (set_closed true)));;
  _ <~ exec (modify (λ l, set_process (l_registered l) (l_signals l) false l));;
  App_handleSignal SIGTERM.

(** One turn of the loop of [App_listen], while the thread runs; what arrives
    is queued, and the main thread is sent [SIGUSR2].  [LTerminated] is the
    test of the loop. *)
Definition App_listen_step (e : listen_event) : proc life unit :=
  l <~ exec get;;
  if negb (l_listening l) then go tt else
  match e with
  | LReady reads =>
    r <~ exec (on_client (App_listen_turn reads));;
    match r with
    | None => _ <~ exec set_terminate;; App_listen_end
    | Some _ => App_handleSignal SIGUSR2
    end
  | LIdle | LInterrupted => go tt
  | LFailed => _ <~ exec set_terminate;; App_listen_end
  | LTerminated => if l_terminate l then App_listen_end else go tt
  end.

(** What happens while the main thread does not get input. *)
Definition meanwhile (h : happening) : proc life unit :=
  match h with
  | Types _ => go tt
  | Hears e => App_listen_step e
  | Raised signal => App_handleSignal signal
  end.

(** The loop of [App_run]; the result is what has not happened yet when the
    loop is left. *)
Fixpoint App_loop (hs : list happening) : proc life (list happening) :=
  match hs with
  | [] => stuck OutOfFuel
  | Types (Typed buffer writes) :: hs =>
    more <~ exec (on_client (send_typed wcrtomb buffer writes));;
    if negb more then go hs else
    l <~ exec get;;
    if l_terminate l then go hs else App_loop hs
  | Types Terminate :: hs => _ <~ exec set_terminate;; go hs
  | Types InputError :: hs => go hs
  | h :: hs => meanwhile h ;~ App_loop hs
  end.

Definition App_run (hs : list happening) : proc life (list happening) :=
  l <~ exec get;;
  rest <~ (if l_terminate l then go hs else App_loop hs);;
  _ <~ exec (on_client (send (blank_message kMessageTypeQuit) (a_last_writes a)));;
  go rest.

(** [pthread_join] *)
Fixpoint App_join (hs : list happening) : proc life unit :=
  l <~ exec get;;
  if negb (l_listening l) then go tt else
  match hs with
  | [] => stuck OutOfFuel
  | h :: hs => meanwhile h ;~ App_join hs
  end.

Definition App_start (options : ClientOptions) : proc life Z :=
  if negb (a_queue a) then go EXIT_FAILURE else
  _ <~ exec (modify (set_messages true));;
  _ <~ exec (App_catch SIGINT);;
  _ <~ exec (App_catch SIGTERM);;
  _ <~ exec (App_catch SIGUSR2);;
  _ <~ exec (App_catch SIGWINCH);;
  interrupted (a_early a) ;~
  UIInit ;~
  h <~ exec (lift (cstr (o_host options)));;
  p <~ exec (lift (cstr (o_port options)));;
  _ <~ exec (on_status (UISetStatus (a_prints a) (lit "Connected to %s:%s - Hit F1 to quit") [AStr h; AStr p]));;
  interrupted (a_started a) ;~
  if negb (a_thread a) then go EXIT_FAILURE else
  _ <~ exec (modify (λ l, set_process (l_registered l) (l_signals l) true l));;
  rest <~ App_run (a_session a);;
  interrupted (a_closing a) ;~
  _ <~ exec UIClean;;
  App_join rest ;~
  go EXIT_SUCCESS.

(** [main], and the end of the process; the arguments are as [getopt_long]
    finds them. *)
Definition main : cmd life Z :=
  r <- (App_checkTTY ;~
        App_initLocale ;~
        parsed <~ exec (lift (parseOptions (a_mkdir a) (a_env a) (a_argc a) (a_found a) (a_rest a) no_options (a_paths a)));;
        match parsed.1 with
        | ClientSettings.Exit failure => exit (if failure then EXIT_FAILURE else EXIT_SUCCESS)
        | Parsed options => App_init options ;~ authenticate options ;~ App_start options
        end);;
  l <- get;;
  (if l_registered l then App_cleanup else ret tt);;;
  ret (match r with Go code => code | Exit code => code end).
End App.

(** ** What the client's commands keep *)

(** The commands of a connection keep its context. *)
Definition keeps_context {A} (m : cmd C2HatClient A) : Prop :=
  ∀ c, wlp any m c (λ _ c', sslContext c' = sslContext c).

Lemma receive_context reads : keeps_context (receive reads).
Proof. intros c. unfold receive. by psteps. Qed.

Lemma get_message_context : keeps_context get_message.
Proof. intros c. unfold wlp, get_message. by destruct (C2HMessage_get _ _) as [[[??]?]|]. Qed.

Lemma create_message_context type format args : keeps_context (create_message type format args).
Proof. intros c. unfold wlp, create_message. by destruct (C2HMessage_create _ _ _ _) as [[??]|]. Qed.

Lemma send_context m writes : keeps_context (send m writes).
Proof. intros c. unfold send. by psteps. Qed.

Lemma disconnect_context : keeps_context Client_disconnect.
Proof. intros c. unfold Client_disconnect. psteps; [by destruct (SOCKET_isValid (server c))|done]. Qed.

Create HintDb context discriminated.
#[export] Hint Resolve receive_context get_message_context create_message_context send_context disconnect_context : context.

(** A step through a command of a connection. *)
Ltac cstep :=
  first [pstep
        |lazymatch goal with
         | |- wlp any ?m ?c _ =>
           let K := fresh in assert (K : keeps_context m) by eauto with context;
           eapply wlp_mono; [exact (K c)|clear K; intros ? ? ?; cbv beta in *]
         end].
Ltac csteps := repeat cstep; cbn in *; try congruence.

Lemma connect_context net h : keeps_context (Client_connect net h).
Proof. intros c. unfold Client_connect, await_welcome. csteps. Qed.

Lemma authenticate_context u r1 w r2 : keeps_context (Client_authenticate u r1 w r2).
Proof. intros c. unfold Client_authenticate. csteps. Qed.
#[export] Hint Resolve connect_context authenticate_context : context.

Lemma App_authenticate_context wcrtomb u i r1 w r2 : keeps_context (App_authenticate wcrtomb u i r1 w r2).
Proof. intros c. unfold App_authenticate. csteps. Qed.

Lemma createFromString_context s n :
  keeps_context (λ c, match C2HMessage_createFromString s n (room c) with
                      | Done (m, n) => Done (m, set_room n c)
                      | Stuck w => Stuck w
                      end).
Proof. intros c. unfold wlp. by destruct (C2HMessage_createFromString _ _ _) as [[??]|]. Qed.
#[export] Hint Resolve App_authenticate_context createFromString_context : context.

Lemma send_typed_context wcrtomb b w : keeps_context (send_typed wcrtomb b w).
Proof. intros c. unfold send_typed. csteps. Qed.
#[export] Hint Resolve send_typed_context : context.

Lemma closed_context : keeps_context (modify (set_closed true)).
Proof. by intros c. Qed.
#[export] Hint Resolve closed_context : context.

Lemma take_messages_context fuel : keeps_context (take_messages fuel).
Proof. induction fuel as [|fuel IH]; intros c; cbn [take_messages]; [done|]. csteps. Qed.
#[export] Hint Resolve take_messages_context : context.

Lemma listen_turn_context reads : keeps_context (App_listen_turn reads).
Proof. intros c. unfold App_listen_turn. csteps. Qed.
#[export] Hint Resolve listen_turn_context : context.

(** The context of a new client is the one that was made for it. *)
Lemma create_context lib readable calloc_ok o n cs :
  wlp any (Client_create lib readable calloc_ok o n) cs (λ r cs',
    match r with Some c => sslContext c = Some (length cs) ∧ ∃ calls, cs' = cs ++ [Some calls] | None => True end).
Proof.
  assert (D : ∀ call calls, wlp any (ctx_do lib (Some (length cs)) call) (cs ++ [Some calls])
                (λ _ cs', ∃ calls', cs' = cs ++ [Some calls'])).
  { intros call calls. eapply wlp_run; [apply ctx_do_last|]. by eexists. }
  unfold Client_create. pstep; [by pstep|]. do 4 pstep. pstep.
  assert (I : ∀ f d e m, wlp any (Client_ssl_init lib readable f d e m) cs (λ r cs',
    match r.1 with Some c => c = length cs ∧ ∃ calls, cs' = cs ++ [Some calls] | None => True end)).
  { intros f d e m. unfold Client_ssl_init. pstep. unfold SSL_CTX_new.
    destruct (ctx_new lib); (eapply wlp_run; [reflexivity|]); cbv beta iota; [|by psteps].
    pstep. eapply wlp_mono; [apply D|]. intros b t [calls ->]. cbv beta. pstep; [by psteps|].
    do 3 (pstep; eapply wlp_mono; [apply D|]; clear calls b; intros b t [calls ->]; cbv beta).
    pstep. pstep. pstep. pstep.
    pstep; eapply wlp_mono; [apply D|]; clear calls b; intros b t [calls ->]; cbv beta. pstep; [by psteps|].
    pstep; eapply wlp_mono; [apply D|]; clear calls b; intros b t [calls ->]; cbv beta. pstep. cbn. split; [done|by eexists]. }
  eapply wlp_mono; [apply I|]. intros [[c|] e] cs' Hr; cbn [fst] in *; pstep; [|done]. destruct Hr as [-> Hr]. by split.
Qed.

(** ** What a process leaves *)

(** The signals of a session. *)
Definition caught (hs : list happening) : list Z :=
  omap (λ h, match h with Raised signal => Some signal | _ => None end) hs.

(** Results of the input loop that end the session, and an answer of [select]
    that ends the listening thread: a failure, or a socket that the server
    closed. *)
Definition leaves (i : input) : Prop := i = Terminate ∨ i = InputError.
Definition last_word (e : listen_event) : Prop :=
  e = LFailed ∨ ∃ reads, e = LReady reads ∧ ∀ c r c', App_listen_turn reads c = Done (r, c') → r = None.

(** The main thread is told to end, and then so is the listening thread. *)
Definition comes_to_an_end (hs : list happening) : Prop :=
  ∃ pre i post e, hs = pre ++ Types i :: post ∧ leaves i ∧ Hears e ∈ post ∧ last_word e.

Section Leaves.
Context (wcrtomb : Z → bytes) (a : answers) (options : ClientOptions).
Context (Ho : well_typed options) (Hmoment : good_moment (a_moment a)) (Hwhy : NUL ∉ a_why a).

Abbreviation create := (Client_create (a_tls a) (a_readable a) (a_calloc a) options (a_allocs a) []).

(** The faults and waits that are those of the client's own commands, a resize
    while the main thread waits for the listening thread, and the wait for
    input or for that thread when the session does not come to an end. *)
Definition accounted (w : fault) : Prop :=
  create = Stuck w
  ∨ (∃ h c, cstr (o_host options) = Done h ∧ Client_connect (a_net a) h c = Stuck w)
  ∨ (∃ c, App_authenticate wcrtomb (o_user options) (a_nickname a) (a_reads1 a) (a_writes a) (a_reads2 a) c = Stuck w)
  ∨ (∃ b ws c, Types (Typed b ws) ∈ a_session a ∧ send_typed wcrtomb b ws c = Stuck w)
  ∨ (∃ reads c, Hears (LReady reads) ∈ a_session a ∧ App_listen_turn reads c = Stuck w)
  ∨ (∃ c, send (blank_message kMessageTypeQuit) (a_last_writes a) c = Stuck w)
  ∨ (w = DanglingPointer ∧ SIGWINCH ∈ caught (a_session a))
  ∨ (w = OutOfFuel ∧ ¬ comes_to_an_end (a_session a)).

Abbreviation wlpa := (wlp accounted).

(** Whether a client can be created. *)
Definition made : Prop := ∃ c cs, create = Done (Some c, cs).

(** A crash was caught while the interface was on. *)
Definition crashed : Prop := SIGSEGV ∈ a_started a ++ caught (a_session a) ++ a_closing a.

(** Nothing of the interface is allocated. *)
Definition gone (l : life) : Prop :=
  l_windows l = [] ∧ handle (l_status l) = false ∧ l_users l = false ∧ l_chatlog l = false.

(** What holds while the process runs: when nothing is drawn there is nothing
    of the interface, but for [X]; the context of the client is the only
    one. *)
Definition tidy (X : Prop) (l : life) : Prop :=
  (l_curses l ≠ Drawing → gone l ∨ X)
  ∧ (∃ f, shows f (l_status l))
  ∧ match l_client l with
    | Some c => sslContext c = Some 0 ∧ ∃ calls, l_contexts l = [Some calls]
    | None => made → l_contexts l = []
    end.

Definition left_nothing (l : life) : Prop :=
  l_curses l ≠ Drawing ∧ l_client l = None ∧ l_messages l = false ∧ (gone l ∨ crashed).

Lemma clean_run l : ∃ l', UIClean l = Done (tt, l') ∧ l_curses l' ≠ Drawing ∧ (l_curses l ≠ NotStarted → l_curses l' = EndedWin)
  ∧ l_windows l' = [] ∧ l_status l' = no_bar ∧ l_users l' = false ∧ l_chatlog l' = false
  ∧ l_client l' = l_client l ∧ l_contexts l' = l_contexts l ∧ l_registered l' = l_registered l ∧ l_listening l' = l_listening l.
Proof.
  eexists. split; [reflexivity|]. cbn. split; [by destruct (l_curses l)|]. split; [by destruct (l_curses l)|].
  split; [|done]. apply elem_of_nil_inv. intros x. rewrite !list_elem_of_filter. intros Hx. destruct x; naive_solver.
Qed.

(** The client is destroyed and its context freed. *)
Lemma destroy_run c calls : sslContext c = Some 0 → Client_destroy (Some c) [Some calls] = Done (None, [None]).
Proof.
  intros Hs. unfold Client_destroy. assert (E : ∃ r, Client_disconnect c = Done r).
  { unfold Client_disconnect. rewrite bind_get. by destruct (ssl c); eexists. }
  destruct E as [r E]. unfold lift, bind at 1. rewrite E, Hs. reflexivity.
Qed.

Lemma cleanup_leaves_nothing l : tidy crashed l →
  ∃ l', App_cleanup l = Done (tt, l') ∧ left_nothing l' ∧ (made → Forall (λ x, x = None) (l_contexts l')).
Proof.
  intros (T & _ & C). unfold App_cleanup. rewrite bind_get.
  assert (K : ∃ l1, (if negb (isendwin l) then UIClean else ret tt) l = Done (tt, l1) ∧ l_curses l1 ≠ Drawing ∧ (gone l1 ∨ crashed)
    ∧ l_client l1 = l_client l ∧ l_contexts l1 = l_contexts l).
  { unfold isendwin. case_bool_decide as E; cbn [negb].
    - exists l. rewrite E in *. split_and!; try done. by apply T.
    - destruct (clean_run l) as (l1 & E1 & ?&?&?& Es &?&?&?&?&?&?). exists l1. split_and!; try done. left. unfold gone. by rewrite Es. }
  destruct K as (l1 & E1 & Hc & Hg & Ecl & Ecx). run E1. rewrite bind_get. rewrite <- Ecl, <- Ecx in C.
  clear T E1 Ecl Ecx.
  assert (K : ∃ cs, (if decide (l_client l1 = None) then ret tt
      else c <- on_contexts (Client_destroy (l_client l1));; modify (set_client c)) l1
      = Done (tt, set_contexts cs (set_client None l1)) ∧ (made → Forall (λ x, x = None) cs)).
  { destruct (l_client l1) as [c|] eqn:E1.
    - destruct C as (Hs & calls & Hcs). rewrite decide_False by done. exists [None]. split; [|intros _; by constructor].
      erewrite bind_Done; [|unfold on_contexts; rewrite Hcs, (destroy_run _ _ Hs); reflexivity]. done.
    - rewrite decide_True by done. exists (l_contexts l1). split; [|by intros Hm; rewrite C].
      unfold ret. do 2 f_equal. destruct l1. cbn in *. by rewrite E1. }
  destruct K as (cs & E2 & Hm). run E2. rewrite bind_get. cbn [l_messages set_client set_contexts].
  destruct (l_messages l1) eqn:Em; (eexists; split; [reflexivity|]); by split; [split_and!|].
Qed.

(** ** The stages *)

(** A client exists, or the process is about to end, perhaps by a crash. *)
Definition ended (l : life) : Prop := tidy crashed l ∧ l_registered l = true.
Definition ready (l : life) : Prop := tidy False l ∧ l_registered l = true ∧ l_client l ≠ None.

Lemma ready_ended l : ready l → ended l.
Proof. intros ((T & S & C) & R & _). split; [|done]. split; [|by split]. intros D. destruct (T D); [by left|done]. Qed.

(** Before ncurses is started, while it draws, after it was ended. *)
Definition phase (ph : curses) (l : life) : Prop :=
  ready l ∧ l_curses l = ph ∧ (ph = Drawing → ScreenWin ∈ l_windows l).

(** Whatever is done while the interface draws. *)
Lemma ready_drawing f l l' : ready l → shows f (l_status l') → l_curses l' = Drawing → l_client l' = l_client l →
  l_contexts l' = l_contexts l → l_registered l' = l_registered l → ready l'.
Proof.
  intros ((T & S & C) & R & N) S' Hd Ec Ex Er. split; [split; [done|split; [by exists f|by rewrite Ec, Ex]]|by rewrite Er, Ec].
Qed.

(** A command of the client, whose own faults are accounted for. *)
Lemma on_client_ready {A} (m : cmd C2HatClient A) ph l : keeps_context m → phase ph l → (∀ c w, m c = Stuck w → accounted w) →
  wlpa (on_client m) l (λ r l', phase ph l' ∧ l_listening l' = l_listening l ∧ ∃ c c', m c = Done (r, c')).
Proof.
  intros K (((T & S & C) & R & N) & D & W) HF. unfold wlp, on_client. destruct (l_client l) as [c|] eqn:Ec; [|done].
  pose proof (K c) as Kc. unfold wlp in Kc. destruct (m c) as [[r c']|w] eqn:Em; [|by eapply HF].
  split; [|split; [done|by exists c, c']]. split; [|by split]. split; [|by split]. split; [exact T|]. split; [exact S|]. cbn. by rewrite Kc.
Qed.

Lemma field_cstr n arr : terminated (S n) arr → ∃ t, cstr arr = Done t.
Proof.
  intros [Hl Hz]. assert (E : arr = take n arr ++ [NUL]).
  { rewrite <- (take_drop n arr) at 1. f_equal. replace (S n - 1) with n in Hz by lia.
    rewrite (drop_S _ _ _ Hz). by rewrite drop_ge by lia. }
  rewrite E. clear E. revert Hl. generalize (take n arr). intros t _. unfold cstr.
  induction t as [|c t [u IH]]; cbn [text Datatypes.app]; [by eexists|]. case_decide; [by eexists|]. rewrite IH. by eexists.
Qed.

Lemma wlp_text n arr l (Q : bytes → life → Prop) : terminated (S n) arr →
  (∀ t, cstr arr = Done t → Q t l) → wlpa (lift (cstr arr)) l Q.
Proof. intros Ht HQ. destruct (field_cstr n arr Ht) as [t E]. eapply wlp_run; [unfold lift; by rewrite E|auto]. Qed.

(** *** Signals *)

(** What the palette's log does does not concern the rest. *)
Lemma palette_frame {A} (m : cmd (palette * logger) A) l (Q : A → life → Prop) :
  wp m (l_palette l, l_log l) (λ _ _, True) → (∀ r p g, Q r (set_palette p g l)) → wlpa (on_palette m) l Q.
Proof.
  intros (r & [p g] & E & _) HQ. eapply wlp_run; [unfold on_palette; by rewrite E|]. apply HQ.
Qed.

Lemma signal_run ph sig l : (ph = Drawing → sig = SIGSEGV → crashed) →
  (ph = EndedWin → sig = SIGWINCH → SIGWINCH ∈ caught (a_session a)) → phase ph l →
  wlpa (App_handleSignal a sig) l (λ r l', match r with Go _ => phase ph l' ∧ l_listening l' = l_listening l | Exit _ => ended l' end).
Proof.
  intros Hsegv Hwinch (R & D & W). unfold App_handleSignal, UITerminate, UIUpdateChatLog, UIResize, endwin.
  pstep; [by repeat pstep|]. pstep; [by repeat pstep|].
  destruct (decide (sig = SIGWINCH)) as [->|Hne].
  { repeat pstep. unfold wlp, refresh. cbn [l_curses set_curses set_flags l_windows]. rewrite D.
    destruct R as ((T & S & C) & R & N). destruct ph; cbn [l_curses set_curses set_flags].
    - split; [|done]. split; [|by split]. split; [|by split]. split; [|by split]. intros _. cbn. apply T. by rewrite D.
    - rewrite decide_True by by apply W. split; [|done]. split; [|by split]. by split.
    - destruct T as [(Hw & _)|[]]; [by rewrite D|]. rewrite Hw, decide_False by apply not_elem_of_nil.
      do 6 right. left. split; [done|by apply Hwinch]. }
  pstep.
  - do 3 pstep. unfold isendwin. rewrite D. pose proof (ready_ended l R) as En. destruct ph.
    + rewrite bool_decide_eq_false_2 by done. cbn [negb]. repeat pstep. destruct En as ((T & S & C) & E). split; [|done].
      split; [|by split]. intros _. apply T. by rewrite D.
    + rewrite bool_decide_eq_false_2 by done. cbn [negb]. repeat pstep. destruct En as ((T & S & C) & E). split; [|done].
      split; [|by split]. intros _. right. by apply Hsegv.
    + rewrite bool_decide_eq_true_2 by done. cbn [negb]. by repeat pstep.
  - pstep. apply palette_frame; [|intros; by split].
    destruct (wp_log Info (a_moment a) (lit "Unhandled signal received %s") [AStr (a_why a)]
      (lit "Unhandled signal received " ++ a_why a) (l_log l) (λ _ _, True) Hmoment) as (o & g & E & _).
    + econstructor; [not_in|apply Nat.ltb_lt; vm_compute; reflexivity| |by repeat constructor].
      rewrite <- (app_nil_r (a_why a)) at 2. reflexivity.
    + done.
    + eapply wp_run; [cbn [fst snd]; rewrite E; reflexivity|done].
Qed.

Lemma interrupted_run ph sigs : (ph = Drawing → SIGSEGV ∈ sigs → crashed) →
  ph ≠ EndedWin → ∀ l, phase ph l →
  wlpa (interrupted a sigs) l (λ r l', match r with Go _ => phase ph l' ∧ l_listening l' = l_listening l | Exit _ => ended l' end).
Proof.
  induction sigs as [|s sigs IH]; intros Hs He l P; cbn [interrupted]; [by pstep|].
  pstep. eapply wlp_mono; [apply signal_run; [|done|done]|].
  - intros Hd ->. apply Hs; [done|by left].
  - intros [[]|code] l' P'; [|done]. destruct P' as [P' E]. rewrite <- E. apply IH; [|done|done].
    intros Hd Hin. apply Hs; [done|by right].
Qed.

(** *** Up to the interface *)

Lemma init_ready level : wlpa (App_init a options) (newborn level)
  (λ r l, match r with Go _ => phase NotStarted l | Exit _ => ended l end).
Proof.
  unfold App_init, App_catch. do 3 pstep. rewrite decide_False by (by intros F; apply F). do 8 pstep.
  pose proof (create_context (a_tls a) (a_readable a) (a_calloc a) options (a_allocs a) []) as K.
  unfold wlp at 1 in K. unfold wlp at 1, on_contexts. cbn [l_contexts set_process newborn].
  destruct create as [[client cs]|w] eqn:Ec; [|by left]. do 3 pstep. destruct client as [c|].
  - destruct K as [Hs (calls & ->)].
    assert (T : phase NotStarted (set_client (Some c) (set_contexts ([] ++ [Some calls]) (set_process true [SIGSEGV] false (newborn level))))).
    { split; [|done]. split; [|done]. split; [by left|]. split; [eexists; apply no_bar_shows|]. split; [done|by eexists]. }
    pstep. eapply wlp_mono; [apply (wlp_mono _ _ _ (λ r l', match r with Go _ => phase NotStarted l' | Exit _ => ended l' end))|].
    + destruct (a_connecting a); [|by pstep]. eapply wlp_mono; [by apply (signal_run NotStarted)|].
      intros [[]|code] l' P; [apply P|done].
    + intros r l' P. exact P.
    + intros [[]|code] l' P; [|done]. pstep. pstep. eapply wlp_text; [apply (t_host _ Ho)|]. intros h Hh. cbv beta iota. pstep. pstep.
      eapply wlp_mono; [apply on_client_ready; [apply connect_context|exact P|]|].
      { intros c' w Hw. right. left. by exists h, c'. }
      intros ok l2 [Hl _]. cbv beta iota. destruct ok; pstep; [exact Hl|apply ready_ended, Hl].
  - pstep. split; [|done]. split; [by left|]. split; [eexists; apply no_bar_shows|]. cbn. intros (c & cs' & E). congruence.
Qed.

Lemma authenticate_ready l : phase NotStarted l → wlpa (authenticate wcrtomb a options) l
  (λ r l, match r with Go _ => phase NotStarted l | Exit _ => ended l end).
Proof.
  intros P. unfold authenticate. do 3 pstep. rewrite decide_False by apply P. do 2 pstep.
  eapply wlp_mono; [apply on_client_ready; [apply App_authenticate_context|exact P|]|].
  { intros c w Hw. do 2 right. left. by exists c. }
  intros ok l' [Hl _]. cbv beta iota. destruct ok; pstep; [exact Hl|apply ready_ended, Hl].
Qed.

(** *** The interface *)

Lemma ready_shows l : ready l → ∃ f, shows f (l_status l).
Proof. by intros [(_ & S & _) _]. Qed.

(** A text set in the status bar, or the bar drawn again. *)
Lemma on_status_run {A} (m : cmd UIStatusBar A) l (Q : A → life → Prop) : phase Drawing l →
  (∀ f, shows f (l_status l) → ∃ r b g, m (l_status l) = Done (r, b) ∧ shows g b) →
  (∀ r l', phase Drawing l' → Q r l') → wlpa (on_status m) l Q.
Proof.
  intros (R & D & W) Hm HQ. destruct (ready_shows l R) as [f S]. destruct (Hm f S) as (r & b & g & E & S').
  eapply wlp_run; [unfold on_status; by rewrite E|]. apply HQ. split; [by apply (ready_drawing g l)|by split].
Qed.

Lemma set_status_run t f area b : NUL ∉ t → shows f b →
  ∃ r b' g, UIStatus_set (a_prints a) area t b = Done (r, b') ∧ shows g b'.
Proof. intros Ht S. destruct (set_run (a_prints a) f area t b S Ht) as (ok & b' & E & S' & _). by eexists _, _, _. Qed.

Lemma render_ready l : phase Drawing l → wlpa (UIRender_first a) l (λ _ l', phase Drawing l').
Proof.
  intros (R & D & W). unfold UIRender_first. pstep; [|by pstep]. do 2 pstep. set (l1 := set_windows _ _).
  destruct (ready_shows l R) as [f S].
  assert (P1 : phase Drawing l1).
  { split; [by apply (ready_drawing f l)|]. split; [done|]. intros _. cbn. by repeat right; apply W. }
  clearbody l1. clear dependent l f.
  pstep. apply on_status_run; [done| |].
  { intros f S. destruct (render_run (a_prints a) f (scols (a_screen a)) _ S) as (b & E & S' & _). by exists tt, b, f. }
  intros _ l2 P2. cbv beta iota. pstep. apply on_status_run; [done| |].
  { intros f S. apply (set_status_run _ f); [not_in|done]. }
  intros _ l3 P3. cbv beta iota. pstep. apply on_status_run; [done| |].
  { intros f S. apply (set_status_run _ f); [|done]. rewrite !not_elem_of_app. split_and!; [apply decimal_verbatim|not_in|apply decimal_verbatim]. }
  intros _ l4 P4. by pstep.
Qed.

Lemma UIInit_ready l : phase NotStarted l →
  wlpa (UIInit a) l (λ r l', match r with Go _ => phase Drawing l' | Exit _ => ended l' end).
Proof.
  intros (R & D & _). destruct (ready_shows l R) as [f S]. unfold UIInit. do 3 pstep.
  destruct (decide (ScreenWin ∈ l_windows l)) as [Hin|].
  { destruct R as ((T & _) & _). destruct T as [(Hw & _)|[]]; [by rewrite D|]. rewrite Hw in Hin. by apply not_elem_of_nil in Hin. }
  pstep; [pstep; by apply ready_ended|]. do 4 pstep.
  apply palette_frame; [by apply UIColor_init_returns|]. intros r p g. destruct r as [[]|code].
  2: { apply ready_ended. by apply (ready_drawing f l). }
  do 3 pstep. set (l1 := set_chat _ _ _). assert (R1 : ready l1) by by apply (ready_drawing f l).
  assert (P1 : phase Drawing l1) by (split; [done|split; [done|by left]]). clearbody l1.
  pstep; [pstep; by apply ready_ended|]. pstep. by apply render_ready.
Qed.

(** *** The session *)

Lemma listen_end_run ph l : ph ≠ NotStarted → phase ph l →
  wlpa (App_listen_end a) l (λ r l', match r with Go _ => phase ph l' ∧ l_listening l' = false | Exit _ => ended l' end).
Proof.
  intros Hn P. unfold App_listen_end. do 2 pstep. eapply wlp_mono; [apply on_client_ready; [apply closed_context|exact P|done]|].
  intros _ l1 [P1 _]. cbv beta iota. do 3 pstep.
  eapply wlp_mono; [apply (signal_run ph); [done|done|exact P1]|]. intros [[]|code] l2 P2; [|done]. by destruct P2 as [P2 ->].
Qed.

Lemma listen_run ph e l : ph ≠ NotStarted → Hears e ∈ a_session a → phase ph l →
  wlpa (App_listen_step a e) l (λ r l', match r with
    | Go _ => phase ph l' ∧ (last_word e ∨ l_listening l = false → l_listening l' = false)
    | Exit _ => ended l'
    end).
Proof.
  intros Hn Hin P. unfold App_listen_step, set_terminate. do 3 pstep. destruct (l_listening l) eqn:El; cbn [negb]; [|by pstep].
  assert (E : ∀ l0, phase ph l0 → wlpa (App_listen_end a) l0 (λ r l', match r with
    | Go _ => phase ph l' ∧ (last_word e ∨ true = false → l_listening l' = false)
    | Exit _ => ended l'
    end)).
  { intros l0 P0. eapply wlp_mono; [by apply (listen_end_run ph)|]. intros [[]|code] l' Q; [|done]. destruct Q. by split. }
  destruct e as [reads| | | |].
  - do 2 pstep. eapply wlp_mono; [apply on_client_ready; [apply listen_turn_context|exact P|]|].
    { intros c w Hw. do 4 right. left. by exists reads, c. }
    intros r l1 (P1 & E1 & c & c' & Hr). cbv beta iota. destruct r as [ms|].
    + eapply wlp_mono; [apply (signal_run ph); [done|done|exact P1]|]. intros [[]|code] l2 P2; [|done]. destruct P2 as [P2 E2].
      split; [done|]. intros [[|(reads' & [= <-] & Hl)]|]; [done| |done]. by apply Hl in Hr.
    + do 3 pstep. by apply E.
  - pstep. split; [done|]. intros [[|(reads' & ? & _)]|]; done.
  - pstep. split; [done|]. intros [[|(reads' & ? & _)]|]; done.
  - do 3 pstep. by apply E.
  - destruct (l_terminate l); [by apply E|]. pstep. split; [done|]. intros [[|(reads' & ? & _)]|]; done.
Qed.

Lemma caught_in sig hs : Raised sig ∈ hs → sig ∈ caught hs.
Proof. intros Hin. apply list_elem_of_omap. by exists (Raised sig). Qed.

(** The listening thread has ended, or will. *)
Definition will_end (hs : list happening) (l : life) : Prop :=
  (∃ e, Hears e ∈ hs ∧ last_word e) ∨ l_listening l = false.

Lemma meanwhile_run ph h hs l : ph ≠ NotStarted → h ∈ a_session a → phase ph l →
  wlpa (meanwhile a h) l (λ r l', match r with
    | Go _ => phase ph l' ∧ (will_end (h :: hs) l → will_end hs l')
    | Exit _ => ended l'
    end).
Proof.
  intros Hn Hin P. destruct h as [i|e|sig]; cbn [meanwhile].
  - pstep. split; [done|]. intros [(e & He & Hl)|]; [|by right]. apply elem_of_cons in He as [|]; [done|]. left. by exists e.
  - eapply wlp_mono; [by apply (listen_run ph)|]. intros [[]|code] l' Q; [|done]. destruct Q as [P' Q]. split; [done|].
    intros [(e' & He & Hl)|El]; [|right; by auto]. apply elem_of_cons in He as [[= ->]|He]; [right; by auto|left; by exists e'].
  - eapply wlp_mono; [apply (signal_run ph); [| |exact P]|].
    + intros _ ->. unfold crashed. rewrite !elem_of_app. right. left. by apply caught_in.
    + intros _ ->. by apply caught_in.
    + intros [[]|code] l' Q; [|done]. destruct Q as [P' E]. split; [done|]. unfold will_end. rewrite E.
      intros [(e' & He & Hl)|]; [|by right]. apply elem_of_cons in He as [|]; [done|]. left. by exists e'.
Qed.

Lemma loop_run hs : (∀ h, h ∈ hs → h ∈ a_session a) → (comes_to_an_end (a_session a) → comes_to_an_end hs) → ∀ l, phase Drawing l →
  wlpa (App_loop wcrtomb a hs) l (λ r l', match r with
    | Go rest => phase Drawing l' ∧ (∀ h, h ∈ rest → h ∈ a_session a) ∧ (comes_to_an_end (a_session a) → will_end rest l')
    | Exit _ => ended l'
    end).
Proof.
  induction hs as [|h hs IH]; intros Hin Hend l P; cbn [App_loop].
  { do 7 right. split; [done|]. intros ([|? ?] & i & post & e & E & _)%Hend; done. }
  assert (Hin' : ∀ h', h' ∈ hs → h' ∈ a_session a) by (intros h' Hh; apply Hin; by right).
  assert (Hrest : comes_to_an_end (a_session a) → ∃ e, Hears e ∈ hs ∧ last_word e).
  { intros (pre & i & post & e & E & _ & He & Hl)%Hend. exists e. split; [|done].
    destruct pre; injection E as -> ->; [done|]. rewrite elem_of_app, elem_of_cons. by right; right. }
  assert (Hstay : (∀ i, h = Types i → ¬ leaves i) → comes_to_an_end (a_session a) → comes_to_an_end hs).
  { intros Hh (pre & i & post & e & E & Hi & He)%Hend. destruct pre as [|h' pre]; injection E as -> ->; [by destruct (Hh i)|].
    by exists pre, i, post, e. }
  assert (Hgo : ∀ l', phase Drawing l' → phase Drawing l' ∧ (∀ h, h ∈ hs → h ∈ a_session a) ∧ (comes_to_an_end (a_session a) → will_end hs l'))
    by (intros l' P'; split_and!; [done|done|by left; apply Hrest]).
  destruct h as [[b ws| |]|e|sig].
  - do 2 pstep. eapply wlp_mono; [apply on_client_ready; [apply send_typed_context|exact P|]|].
    { intros c w Hw. do 3 right. left. exists b, ws, c. split; [|done]. apply Hin. by left. }
    intros more l1 [P1 _]. cbv beta iota. destruct more; cbn [negb]; [|pstep; by apply Hgo]. do 3 pstep.
    destruct (l_terminate l1); [pstep; by apply Hgo|]. apply IH; [done| |done]. apply Hstay. by intros i [= <-] [|].
  - unfold set_terminate. do 4 pstep. by apply Hgo.
  - pstep. by apply Hgo.
  - pstep. eapply wlp_mono; [apply (meanwhile_run Drawing _ hs); [done|by apply Hin; left|exact P]|].
    intros [[]|code] l1 Q; [|done]. apply IH; [done|by apply Hstay|apply Q].
  - pstep. eapply wlp_mono; [apply (meanwhile_run Drawing _ hs); [done|by apply Hin; left|exact P]|].
    intros [[]|code] l1 Q; [|done]. apply IH; [done|by apply Hstay|apply Q].
Qed.

Lemma join_run hs : (∀ h, h ∈ hs → h ∈ a_session a) → ∀ l, (comes_to_an_end (a_session a) → will_end hs l) → phase EndedWin l →
  wlpa (App_join a hs) l (λ r l', match r with Go _ => phase EndedWin l' | Exit _ => ended l' end).
Proof.
  induction hs as [|h hs IH]; intros Hin l Hend P; cbn [App_join]; do 3 pstep; destruct (l_listening l) eqn:El; cbn [negb];
    try (by pstep).
  - do 7 right. split; [done|]. intros [(e & He & _)|]%Hend; [by apply not_elem_of_nil in He|congruence].
  - pstep. eapply wlp_mono; [apply (meanwhile_run EndedWin _ hs); [done|by apply Hin; left|exact P]|].
    intros [[]|code] l1 Q; [|done]. destruct Q as [P1 Q]. apply IH; [|by auto|done]. intros h' Hh. apply Hin. by right.
Qed.

Lemma clean_closes l : phase Drawing l → wlpa UIClean l (λ _ l', phase EndedWin l' ∧ l_listening l' = l_listening l).
Proof.
  intros (((T & S & C) & R & N) & D & _). destruct (clean_run l) as (l2 & E & _ & Hd & Hw & Hh & Hu & Hc & Ec & Ex & Er & El).
  eapply wlp_run; [exact E|]. split; [|done]. split; [split; [split; [|split]|]|].
  - intros _. left. unfold gone. by rewrite Hh.
  - rewrite Hh. eexists. apply no_bar_shows.
  - by rewrite Ec, Ex.
  - by rewrite Er, Ec.
  - split; [apply Hd; by rewrite D|done].
Qed.

Lemma run_ready l : phase Drawing l → wlpa (App_run wcrtomb a (a_session a)) l (λ r l', match r with
    | Go rest => phase Drawing l' ∧ (∀ h, h ∈ rest → h ∈ a_session a) ∧ (comes_to_an_end (a_session a) → will_end rest l')
    | Exit _ => ended l'
    end).
Proof.
  intros P. unfold App_run. do 4 pstep.
  apply (wlp_mono _ _ _ (λ r l', match r with
    | Go rest => phase Drawing l' ∧ (∀ h, h ∈ rest → h ∈ a_session a) ∧ (comes_to_an_end (a_session a) → will_end rest l')
    | Exit _ => ended l'
    end)).
  - pstep; [|by apply loop_run]. pstep. split_and!; [done|done|]. intros (pre & i & post & e & E & _ & He & Hl). left. exists e.
    rewrite E, elem_of_app, elem_of_cons. auto.
  - intros [rest|code] l1 Q; [|done]. destruct Q as (P1 & Q1 & Q2). do 2 pstep.
    eapply wlp_mono; [apply on_client_ready; [apply send_context|exact P1|]|].
    { intros c w Hw. do 5 right. left. by exists c. }
    intros _ l2 (P2 & E2 & _). cbv beta iota. pstep. split_and!; [done|done|]. unfold will_end. rewrite E2. exact Q2.
Qed.

Lemma start_ready l : phase NotStarted l → wlpa (App_start wcrtomb a options) l (λ _ l', ended l').
Proof.
  intros P. unfold App_start, App_catch. pstep; [pstep; apply ready_ended, P|]. do 15 pstep.
  pstep. set (l1 := set_process _ _ _ _). assert (P1 : phase NotStarted l1) by done. clearbody l1. clear dependent l.
  eapply wlp_mono; [by apply (interrupted_run NotStarted)|]. intros [[]|code] l Q; [|done]. destruct Q as [P _]. clear dependent l1.
  pstep. eapply wlp_mono; [by apply UIInit_ready|]. intros [[]|code] l1 P1; [|done]. clear dependent l.
  do 2 pstep. eapply wlp_text; [apply (t_host _ Ho)|]. intros h Hh. cbv beta iota.
  do 2 pstep. eapply wlp_text; [apply (t_port _ Ho)|]. intros p Hp. cbv beta iota.
  do 2 pstep. apply on_status_run; [done| |].
  { intros f S. destruct (UISetStatus_run (a_prints a) f (lit "Connected to %s:%s - Hit F1 to quit") [AStr h; AStr p]
      (lit "Connected to " ++ h ++ lit ":" ++ p ++ lit " - Hit F1 to quit") _ S) as (ok & b & g & E & S').
    - reflexivity.
    - apply text_inv in Hh as (? & _ & Hh). apply text_inv in Hp as (? & _ & Hp). rewrite !not_elem_of_app. by split_and!; [not_in| |not_in| |not_in].
    - by eexists _, _, _. }
  intros _ l2 P2. clear dependent l1. cbv beta iota. pstep.
  eapply wlp_mono; [apply (interrupted_run Drawing); [|done|exact P2]|].
  { intros _ Hs. unfold crashed. rewrite elem_of_app. by left. }
  intros [[]|code] l Q; [|done]. destruct Q as [P _]. clear dependent l2.
  pstep; [pstep; apply ready_ended, P|]. do 3 pstep.
  set (l1 := set_process _ _ _ _). assert (P1 : phase Drawing l1) by done. clearbody l1. clear dependent l.
  pstep. eapply wlp_mono; [by apply run_ready|]. intros [rest|code] l2 Q; [|done]. destruct Q as (P2 & Hin & Hend). clear dependent l1.
  pstep. eapply wlp_mono; [apply (interrupted_run Drawing); [|done|exact P2]|].
  { intros _ Hs. unfold crashed. rewrite !elem_of_app. by right; right. }
  intros [[]|code] l3 Q; [|done]. destruct Q as [P3 E3]. do 2 pstep.
  eapply wlp_mono; [by apply clean_closes|]. intros ? l4 [P4 E4]. cbv beta iota in *. pstep.
  eapply wlp_mono; [apply join_run; [done| |done]|].
  { unfold will_end in *. rewrite E4, E3. exact Hend. }
  intros [[]|code] l5 P5; [|done]. pstep. apply ready_ended, P5.
Qed.

Lemma session_ends level : wlpa (App_init a options ;~ authenticate wcrtomb a options ;~ App_start wcrtomb a options)
  (newborn level) (λ _ l, ended l).
Proof.
  pstep. eapply wlp_mono; [by apply init_ready|]. intros [[]|code] l1 R; [|done]. pstep.
  eapply wlp_mono; [by apply authenticate_ready|]. intros [[]|code] l2 R2; [|done]. by apply start_ready.
Qed.
End Leaves.

(** The texts that the system and the command line hold are strings, and the
    lines of the log have their usual header. *)
Record good_world (a : answers) : Prop := GoodWorld {
  gw_moment : good_moment (a_moment a);
  gw_why : NUL ∉ a_why a;
  gw_home : NUL ∉ home (a_env a);
  gw_found : Forall (λ f, NUL ∉ option_text f) (a_found a);
  gw_rest : Forall (λ t, NUL ∉ t) (a_rest a)
}.

Definition command_line (a : answers) : outcome (parsed * paths) :=
  parseOptions (a_mkdir a) (a_env a) (a_argc a) (a_found a) (a_rest a) no_options (a_paths a).

Lemma no_options_typed : well_typed no_options.
Proof. split; try (split; reflexivity). by left. Qed.


(** A session with a nickname of the command line: a message arrives, the
    terminal is resized, F1 is hit, and the server closes the connection. *)
Definition in_session (hs : list happening) : answers := {|
  a_tty := true; a_locale := Some (lit "en_US.UTF-8"); a_mkdir := λ _ _, true;
  a_env := Environ 1000 (lit "/home/ann") (λ _, false) (λ _, None) (lit "/"); a_argc := 5; a_found := [COptUser (lit "bob")];
  a_rest := [lit "localhost"; lit "10000"]; a_paths := ∅; a_tls := TlsLibrary true (λ _ _, true); a_readable := λ _, true;
  a_calloc := true; a_allocs := 20;
  a_net := Network true true (lit "127.0.0.1") 5 true true true [Connected] true Readable [ReadData (lit "/ok" ++ [NUL])] true;
  a_nickname := None; a_reads1 := [ReadData (lit "/nick Name?" ++ [NUL])]; a_writes := [10%Z];
  a_reads2 := [ReadData (lit "/ok Welcome" ++ [NUL])]; a_queue := true; a_initscr := true;
  a_colours := TerminalColours true true false 8; a_pow := λ x _, x; a_draw := λ _ _, 255%N; a_users := true; a_chatlog := true;
  a_screen := MkScreen true 24 100; a_prints := λ _ _, true; a_thread := true; a_connecting := false; a_early := [];
  a_started := [SIGUSR2]; a_session := hs; a_last_writes := [6%Z]; a_closing := [SIGTERM];
  a_moment := sample_moment; a_why := lit "Success"
|}.

Lemma in_session_good hs : good_world (in_session hs).
Proof.
  split; [split; [split; not_in|apply Nat.ltb_lt; vm_compute; reflexivity]|not_in|not_in|..]; repeat (apply Forall_cons; split); try not_in; by constructor.
Qed.

Definition sample_session : list happening :=
  [Hears (LReady [ReadData (lit "/log [bob] just joined" ++ [NUL])]); Raised SIGWINCH; Types Terminate; Raised SIGUSR2;
   Hears (LReady [ReadClosed])].


(** The session of the sample comes to an end: the server closed the
    connection, which ends the listening thread whatever it had read. *)
Lemma closed_socket_ends c r c' : App_listen_turn [ReadClosed] c = Done (r, c') → r = None.
Proof.
  unfold App_listen_turn, receive. intros (z & c1 & Hz & H)%bind_inv. rewrite bind_get in Hz.
  apply bind_inv in Hz as ([z' b] & c2 & [E ->]%lift_inv & Hz). rewrite bind_modify in Hz. injection Hz as <- <-.
  unfold Client_receive in E. destruct (prepare (cbuffer c)) as [p|]; [|done]. injection E as <- <-.
  by injection H.
Qed.

Lemma sample_comes_to_an_end : comes_to_an_end sample_session.
Proof.
  exists (take 2 sample_session), Terminate, (drop 3 sample_session), (LReady [ReadClosed]).
  split; [done|]. split; [by left|]. split; [by right; left|]. right. eexists. split; [done|]. apply closed_socket_ends.
Qed.

(** The wait for the listening thread: when the server keeps silent, its
    [select] does not return, and no signal that the main thread handles lets
    the process end, though F1 was hit. *)
Lemma silent_server_hangs :
  main (λ _, lit "x") (in_session [Types Terminate; Raised SIGTERM; Raised SIGINT]) (newborn 30) = Stuck OutOfFuel.
Proof. vm_compute. reflexivity. Qed.

(** A crash that is caught while the interface is on: the handler ends the
    drawing mode, so that [App_cleanup] takes the interface for closed. *)
Lemma crash_keeps_interface :
  match main (λ _, lit "x") (in_session [Raised SIGSEGV]) (newborn 30) with
  | Done (code, p) => code = EXIT_FAILURE ∧ l_curses p = EndedWin ∧ length (l_windows p) = 5 ∧ l_users p = true ∧ l_chatlog p = true
  | Stuck _ => False
  end.
Proof. vm_compute. by split_and!. Qed.

(** [SIGWINCH] stays caught while the main thread waits for the listening
    thread, when the screen's window is deleted already. *)
Lemma late_resize_faults :
  main (λ _, lit "x") (in_session [Types Terminate; Raised SIGWINCH]) (newborn 30) = Stuck DanglingPointer.
Proof. vm_compute. reflexivity. Qed.

(** When only input happens, the loop of the main thread is that of
    AppLib.v. *)
Lemma App_loop_alone wcrtomb a inputs : ∀ l c c', l_client l = Some c → l_terminate l = false →
  input_loop wcrtomb inputs c = Done (tt, c') →
  ∃ rest l', App_loop wcrtomb a (Types <$> inputs) l = Done (Go rest, l') ∧ l_client l' = Some c'.
Proof.
  induction inputs as [|[b ws| |] inputs IH]; intros l c c' Hc Ht Hr; cbn [input_loop fmap list_fmap App_loop] in *; [done|..].
  - apply bind_inv in Hr as (more & c1 & Hs & Hr).
    assert (E : on_client (send_typed wcrtomb b ws) l = Done (more, set_client (Some c1) l)) by (unfold on_client; by rewrite Hc, Hs).
    unfold pbind at 1, exec at 1. rewrite bind_bind. erewrite bind_Done by exact E.
    destruct more; [|injection Hr as <-; by eexists _, _].
    destruct (IH (set_client (Some c1) l) c1 c' eq_refl Ht Hr) as (rest & l' & R & Hl). exists rest, l'. split; [|done].
    rewrite <- R. unfold pbind, exec, bind, get, ret. cbn [negb l_terminate set_client]. by rewrite Ht.
  - injection Hr as <-. eexists _, _. split; [reflexivity|done].
  - injection Hr as <-. eexists _, _. split; [reflexivity|done].
Qed.
